(** * A shallow embedding of the MIPS simulator (Systems Programming, Project 5)

    The repository holds two simulators side by side:
    - [MIPSSimulator] (mips_simulator.hpp / mips_simulator.cpp) with the
      [ALU] and the opcode table of instruction_decoder.hpp;
    - [MIPS] (MIPS.hpp / MIPS.cpp) with [Instruction], [HazardDetection]
      and [Pipeline];
    and two branch predictors: the class hierarchy of BranchPredictor.hpp
    (static, BTFN, bimodal, gshare, local history, tournament) and the
    map-based class of branch_predictor.hpp.

    Conventions.  A [uintN_t] is a [Z] in [0, 2^N) with the wrap-around
    written out; a [std::vector] is a [list] read and written through the
    checked accessors [vec_get] and [vec_set], which answer [None] where
    the C++ indexing is out of bounds (undefined behaviour); a [std::map]
    is a [gmap]. *)

From stdpp Require Import base option list gmap strings.
From Stdlib Require Import ZArith Lia Ascii.

Local Open Scope Z_scope.

(** ** Machine integers *)

Definition u8 (x : Z) : Z := x mod 2 ^ 8.
Definition u16 (x : Z) : Z := x mod 2 ^ 16.
Definition u32 (x : Z) : Z := x mod 2 ^ 32.
Definition u64 (x : Z) : Z := x mod 2 ^ 64.

(** [(int32_t)x] and [(int16_t)x] of an unsigned value. *)
Definition s32 (x : Z) : Z :=
  let y := u32 x in if y <? 2 ^ 31 then y else y - 2 ^ 32.
Definition s16 (x : Z) : Z :=
  let y := u16 x in if y <? 2 ^ 15 then y else y - 2 ^ 16.

(** [x++] on an [int]: signed overflow is undefined. *)
Definition int_incr (x : Z) : option Z :=
  if x <? 2 ^ 31 - 1 then Some (x + 1) else None.

(** ** Vectors *)

Definition vec_get {A} (v : list A) (i : Z) : option A :=
  if 0 <=? i then v !! Z.to_nat i else None.

Definition vec_set {A} (v : list A) (i : Z) (x : A) : option (list A) :=
  if (0 <=? i) && (i <? Z.of_nat (length v))
  then Some (<[Z.to_nat i := x]> v) else None.

(** [(memory[a] << 24) | (memory[a + 1] << 16) | (memory[a + 2] << 8) | memory[a + 3]]
    with [a] a [uint32_t]: the expression every word read of both
    simulators is written with. *)
Definition word_at (memory : list Z) (a : Z) : option Z :=
  b0 ← vec_get memory a;
  b1 ← vec_get memory (u32 (a + 1));
  b2 ← vec_get memory (u32 (a + 2));
  b3 ← vec_get memory (u32 (a + 3));
  Some (u32 (Z.lor (Z.lor (Z.lor (Z.shiftl b0 24) (Z.shiftl b1 16))
                          (Z.shiftl b2 8)) b3)).

(** The four byte stores of a word write, in program order. *)
Definition store_word (memory : list Z) (a value : Z) : option (list Z) :=
  m ← vec_set memory a (Z.land (Z.shiftr value 24) 255);
  m ← vec_set m (u32 (a + 1)) (Z.land (Z.shiftr value 16) 255);
  m ← vec_set m (u32 (a + 2)) (Z.land (Z.shiftr value 8) 255);
  vec_set m (u32 (a + 3)) (Z.land value 255).

(** ** alu.cpp *)

Module ALU.

Inductive Operation :=
  ADD | SUB | AND | OR | XOR | NOR | SLT | SLTU | SLL | SRL | SRA.

Record Result := mkResult
  { value : Z; zero : bool; overflow : bool; carry : bool }.

Definition detectOverflow (a b result : Z) (is_sub : bool) : bool :=
  let b := if is_sub then u32 (u32 (Z.lnot b) + 1) else b in
  let a_sign := negb (Z.land a 2147483648 =? 0) in
  let b_sign := negb (Z.land b 2147483648 =? 0) in
  let result_sign := negb (Z.land result 2147483648 =? 0) in
  Bool.eqb a_sign b_sign && negb (Bool.eqb a_sign result_sign).

Definition execute (operand1 operand2 : Z) (op : Operation) : Result :=
  let '(v, o, c) :=
    match op with
    | ADD => let v := u32 (operand1 + operand2) in
             (v, detectOverflow operand1 operand2 v false, v <? operand1)
    | SUB => let v := u32 (operand1 - operand2) in
             (v, detectOverflow operand1 operand2 v true, operand1 <? operand2)
    | AND => (Z.land operand1 operand2, false, false)
    | OR => (Z.lor operand1 operand2, false, false)
    | XOR => (Z.lxor operand1 operand2, false, false)
    | NOR => (u32 (Z.lnot (Z.lor operand1 operand2)), false, false)
    | SLT => ((if s32 operand1 <? s32 operand2 then 1 else 0), false, false)
    | SLTU => ((if operand1 <? operand2 then 1 else 0), false, false)
    | _ => (0, false, false)
    end in
  {| value := v; zero := v =? 0; overflow := o; carry := c |}.

Definition execute_shamt (operand1 operand2 shamt : Z) (op : Operation) : Result :=
  match op with
  | SLL => let v := u32 (Z.shiftl operand2 shamt) in
           {| value := v; zero := v =? 0; overflow := false; carry := false |}
  | SRL => let v := Z.shiftr operand2 shamt in
           {| value := v; zero := v =? 0; overflow := false; carry := false |}
  | SRA => let v := u32 (Z.shiftr (s32 operand2) shamt) in
           {| value := v; zero := v =? 0; overflow := false; carry := false |}
  | _ => execute operand1 operand2 op
  end.

End ALU.

(** ** instruction_decoder.hpp: [namespace MIPS] *)

Module Opcodes.
Definition FUNCT_ADD : Z := 32.
Definition FUNCT_SUB : Z := 34.
Definition FUNCT_AND : Z := 36.
Definition FUNCT_OR : Z := 37.
Definition FUNCT_SLT : Z := 40.
Definition FUNCT_JR : Z := 8.
Definition OPCODE_ADDI : Z := 8.
Definition OPCODE_LW : Z := 35.
Definition OPCODE_SW : Z := 43.
Definition OPCODE_BEQ : Z := 4.
Definition OPCODE_BNE : Z := 5.
Definition OPCODE_J : Z := 2.
Definition OPCODE_JAL : Z := 3.
End Opcodes.

(** ** std::stoul(line, nullptr, 16) and std::getline *)

Definition isspace (c : ascii) : bool :=
  let n := Z.of_N (Ascii.N_of_ascii c) in (n =? 32) || ((9 <=? n) && (n <=? 13)).

Definition hex_digit (c : ascii) : option Z :=
  let n := Z.of_N (Ascii.N_of_ascii c) in
  if (48 <=? n) && (n <=? 57) then Some (n - 48)
  else if (97 <=? n) && (n <=? 102) then Some (n - 87)
  else if (65 <=? n) && (n <=? 70) then Some (n - 55)
  else None.

Fixpoint skip_space (s : string) : string :=
  match s with
  | String c r => if isspace c then skip_space r else s
  | EmptyString => s
  end.

(** The longest run of hexadecimal digits at the head of [s], read into
    [acc]; [seen] tells whether a digit was read. *)
Fixpoint hex_run (s : string) (acc : Z) (seen : bool) : option Z :=
  match s with
  | String c r =>
      match hex_digit c with
      | Some d => hex_run r (acc * 16 + d) true
      | None => if seen then Some acc else None
      end
  | EmptyString => if seen then Some acc else None
  end.

(** [None] is a thrown [std::invalid_argument] (no digit) or
    [std::out_of_range] (the value does not fit an [unsigned long]). *)
Definition stoul16 (line : string) : option Z :=
  let s := skip_space line in
  let '(neg, s) :=
    match s with
    | String "-"%char r => (true, r)
    | String "+"%char r => (false, r)
    | _ => (false, s)
    end in
  let s :=
    match s with
    | String "0"%char (String x (String d r)) =>
        if (Ascii.eqb x "x" || Ascii.eqb x "X") && bool_decide (is_Some (hex_digit d))
        then String d r else s
    | _ => s
    end in
  match hex_run s 0 false with
  | None => None
  | Some v => if 2 ^ 64 <=? v then None else Some (if neg then u64 (- v) else v)
  end.

(** The lines [std::getline] yields: every newline ends a line, and what
    follows the last newline is a line when it is not empty. *)
Fixpoint getlines_from (s : string) (cur : string) : list string :=
  match s with
  | EmptyString => match cur with EmptyString => [] | _ => [cur] end
  | String c r =>
      if Ascii.eqb c "010" then cur :: getlines_from r EmptyString
      else getlines_from r (cur +:+ String c EmptyString)
  end.

Definition getlines (s : string) : list string := getlines_from s EmptyString.

(** ** mips_simulator.hpp / mips_simulator.cpp: class MIPSSimulator *)

Module MIPSSimulator.

Module PipelineStage.
Record t := mk
  { instruction : Z; pc : Z; valid : bool; stall : bool; flush : bool }.
Definition empty : t :=
  {| instruction := 0; pc := 0; valid := false; stall := false; flush := false |}.
Definition set_stall (b : bool) (g : t) : t :=
  {| instruction := instruction g; pc := pc g; valid := valid g;
     stall := b; flush := flush g |}.
Definition set_valid (b : bool) (g : t) : t :=
  {| instruction := instruction g; pc := pc g; valid := b;
     stall := stall g; flush := flush g |}.
End PipelineStage.

Module BranchStats.
Record t := mk
  { total_branches : Z; correct_predictions : Z; incorrect_predictions : Z }.
Definition zero : t :=
  {| total_branches := 0; correct_predictions := 0; incorrect_predictions := 0 |}.
End BranchStats.

Module Instruction.
Record t := mk
  { raw : Z; opcode : Z; rs : Z; rt : Z; rd : Z; immediate : Z;
    jump_addr : Z; funct : Z; shamt : Z; type : string }.
End Instruction.

Record t := mk
  { registers : list Z;
    memory : list Z;
    pc : Z;
    halted : bool;
    step_mode : bool;
    pipeline_enabled : bool;
    pipeline_stages : list PipelineStage.t;
    branch_prediction_enabled : bool;
    prediction_type : string;
    branch_history_table : gmap Z bool;
    branch_stats : BranchStats.t }.

Definition set_registers (r : list Z) (s : t) : t :=
  {| registers := r; memory := memory s; pc := pc s; halted := halted s;
     step_mode := step_mode s; pipeline_enabled := pipeline_enabled s;
     pipeline_stages := pipeline_stages s;
     branch_prediction_enabled := branch_prediction_enabled s;
     prediction_type := prediction_type s;
     branch_history_table := branch_history_table s;
     branch_stats := branch_stats s |}.

Definition set_memory (m : list Z) (s : t) : t :=
  {| registers := registers s; memory := m; pc := pc s; halted := halted s;
     step_mode := step_mode s; pipeline_enabled := pipeline_enabled s;
     pipeline_stages := pipeline_stages s;
     branch_prediction_enabled := branch_prediction_enabled s;
     prediction_type := prediction_type s;
     branch_history_table := branch_history_table s;
     branch_stats := branch_stats s |}.

Definition set_pc (p : Z) (s : t) : t :=
  {| registers := registers s; memory := memory s; pc := p; halted := halted s;
     step_mode := step_mode s; pipeline_enabled := pipeline_enabled s;
     pipeline_stages := pipeline_stages s;
     branch_prediction_enabled := branch_prediction_enabled s;
     prediction_type := prediction_type s;
     branch_history_table := branch_history_table s;
     branch_stats := branch_stats s |}.

Definition set_halted (h : bool) (s : t) : t :=
  {| registers := registers s; memory := memory s; pc := pc s; halted := h;
     step_mode := step_mode s; pipeline_enabled := pipeline_enabled s;
     pipeline_stages := pipeline_stages s;
     branch_prediction_enabled := branch_prediction_enabled s;
     prediction_type := prediction_type s;
     branch_history_table := branch_history_table s;
     branch_stats := branch_stats s |}.

Definition set_pipeline_enabled (b : bool) (s : t) : t :=
  {| registers := registers s; memory := memory s; pc := pc s; halted := halted s;
     step_mode := step_mode s; pipeline_enabled := b;
     pipeline_stages := pipeline_stages s;
     branch_prediction_enabled := branch_prediction_enabled s;
     prediction_type := prediction_type s;
     branch_history_table := branch_history_table s;
     branch_stats := branch_stats s |}.

Definition set_pipeline_stages (g : list PipelineStage.t) (s : t) : t :=
  {| registers := registers s; memory := memory s; pc := pc s; halted := halted s;
     step_mode := step_mode s; pipeline_enabled := pipeline_enabled s;
     pipeline_stages := g;
     branch_prediction_enabled := branch_prediction_enabled s;
     prediction_type := prediction_type s;
     branch_history_table := branch_history_table s;
     branch_stats := branch_stats s |}.

Definition set_branch_history_table (h : gmap Z bool) (s : t) : t :=
  {| registers := registers s; memory := memory s; pc := pc s; halted := halted s;
     step_mode := step_mode s; pipeline_enabled := pipeline_enabled s;
     pipeline_stages := pipeline_stages s;
     branch_prediction_enabled := branch_prediction_enabled s;
     prediction_type := prediction_type s;
     branch_history_table := h;
     branch_stats := branch_stats s |}.

Definition set_branch_stats (b : BranchStats.t) (s : t) : t :=
  {| registers := registers s; memory := memory s; pc := pc s; halted := halted s;
     step_mode := step_mode s; pipeline_enabled := pipeline_enabled s;
     pipeline_stages := pipeline_stages s;
     branch_prediction_enabled := branch_prediction_enabled s;
     prediction_type := prediction_type s;
     branch_history_table := branch_history_table s;
     branch_stats := b |}.

(** [pipeline_stages.resize(5)] followed by the loop that clears every stage. *)
Definition initializePipeline (s : t) : t :=
  set_pipeline_stages (replicate 5 PipelineStage.empty) s.

(** [MIPSSimulator::MIPSSimulator()] *)
Definition new : t :=
  {| registers := replicate 32 0; memory := replicate (Z.to_nat 65536) 0; pc := 0;
     halted := false; step_mode := false; pipeline_enabled := false;
     pipeline_stages := replicate 5 PipelineStage.empty;
     branch_prediction_enabled := false; prediction_type := "static";
     branch_history_table := ∅; branch_stats := BranchStats.zero |}.

Definition reset (s : t) : t :=
  let s := set_registers ((λ _, 0) <$> registers s) s in
  let s := set_pc 0 s in
  let s := set_halted false s in
  let s := if pipeline_enabled s then initializePipeline s else s in
  set_branch_stats BranchStats.zero s.

(** [address < memory.size() - 3], the subtraction in [size_t]. *)
Definition isValidAddress (s : t) (address : Z) : bool :=
  address <? u64 (Z.of_nat (length (memory s)) - 3).

Definition signExtend16 (value : Z) : Z :=
  if Z.land value 32768 =? 0 then value else Z.lor value 4294901760.

Definition decodeInstruction (instruction : Z) : Instruction.t :=
  let opcode := Z.land (Z.shiftr instruction 26) 63 in
  {| Instruction.raw := instruction;
     Instruction.opcode := opcode;
     Instruction.rs := Z.land (Z.shiftr instruction 21) 31;
     Instruction.rt := Z.land (Z.shiftr instruction 16) 31;
     Instruction.rd := Z.land (Z.shiftr instruction 11) 31;
     Instruction.shamt := Z.land (Z.shiftr instruction 6) 31;
     Instruction.funct := Z.land instruction 63;
     Instruction.immediate := Z.land instruction 65535;
     Instruction.jump_addr := Z.land instruction 67108863;
     Instruction.type :=
       if opcode =? 0 then "R"
       else if (opcode =? 2) || (opcode =? 3) then "J" else "I" |}.

(** [branch_history_table[pc]] on a [std::map]: a missing key is inserted
    with the value [false]. *)
Definition predictBranch (pc : Z) (s : t) : bool * t :=
  if String.eqb (prediction_type s) "static" then (false, s)
  else if String.eqb (prediction_type s) "dynamic" then
    match branch_history_table s !! pc with
    | Some b => (b, s)
    | None => (false, set_branch_history_table (<[pc := false]> (branch_history_table s)) s)
    end
  else (false, s).

Definition updateBranchPredictor (pc : Z) (taken : bool) (s : t) : t :=
  if String.eqb (prediction_type s) "dynamic"
  then set_branch_history_table (<[pc := taken]> (branch_history_table s)) s
  else s.

(** The statistics block that follows the comparison of BEQ and of BNE. *)
Definition recordBranch (branch_taken : bool) (s : t) : option t :=
  if branch_prediction_enabled s then
    let b := branch_stats s in
    total ← int_incr (BranchStats.total_branches b);
    let s := set_branch_stats
               {| BranchStats.total_branches := total;
                  BranchStats.correct_predictions := BranchStats.correct_predictions b;
                  BranchStats.incorrect_predictions := BranchStats.incorrect_predictions b |} s in
    let '(predicted, s) := predictBranch (pc s) s in
    let b := branch_stats s in
    b ← (if Bool.eqb predicted branch_taken then
           c ← int_incr (BranchStats.correct_predictions b);
           Some {| BranchStats.total_branches := BranchStats.total_branches b;
                   BranchStats.correct_predictions := c;
                   BranchStats.incorrect_predictions := BranchStats.incorrect_predictions b |}
         else
           c ← int_incr (BranchStats.incorrect_predictions b);
           Some {| BranchStats.total_branches := BranchStats.total_branches b;
                   BranchStats.correct_predictions := BranchStats.correct_predictions b;
                   BranchStats.incorrect_predictions := c |});
    Some (updateBranchPredictor (pc s) branch_taken (set_branch_stats b s))
  else Some s.

(** [registers[d] = ALU::execute(registers[rs], registers[rt], op).value] *)
Definition alu_to_rd (instr : Instruction.t) (op : ALU.Operation) (s : t) : option t :=
  a ← vec_get (registers s) (Instruction.rs instr);
  b ← vec_get (registers s) (Instruction.rt instr);
  r ← vec_set (registers s) (Instruction.rd instr) (ALU.value (ALU.execute a b op));
  Some (set_registers r s).

Definition executeInstruction (instr : Instruction.t) (s : t) : option (bool * t) :=
  let next_pc := u32 (pc s + 4) in
  '(next_pc, s) ←
    (if String.eqb (Instruction.type instr) "R" then
       let funct := Instruction.funct instr in
       if funct =? Opcodes.FUNCT_ADD then s ← alu_to_rd instr ALU.ADD s; Some (next_pc, s)
       else if funct =? Opcodes.FUNCT_SUB then s ← alu_to_rd instr ALU.SUB s; Some (next_pc, s)
       else if funct =? Opcodes.FUNCT_AND then s ← alu_to_rd instr ALU.AND s; Some (next_pc, s)
       else if funct =? Opcodes.FUNCT_OR then s ← alu_to_rd instr ALU.OR s; Some (next_pc, s)
       else if funct =? Opcodes.FUNCT_SLT then s ← alu_to_rd instr ALU.SLT s; Some (next_pc, s)
       else if funct =? Opcodes.FUNCT_JR then
         a ← vec_get (registers s) (Instruction.rs instr); Some (a, s)
       else Some (next_pc, s)
     else if String.eqb (Instruction.type instr) "I" then
       let imm_extended := signExtend16 (Instruction.immediate instr) in
       let opcode := Instruction.opcode instr in
       if opcode =? Opcodes.OPCODE_ADDI then
         a ← vec_get (registers s) (Instruction.rs instr);
         r ← vec_set (registers s) (Instruction.rt instr) (u32 (a + imm_extended));
         Some (next_pc, set_registers r s)
       else if opcode =? Opcodes.OPCODE_LW then
         a ← vec_get (registers s) (Instruction.rs instr);
         if isValidAddress s (u32 (a + imm_extended)) then
           let addr := u32 (a + imm_extended) in
           w ← word_at (memory s) addr;
           r ← vec_set (registers s) (Instruction.rt instr) w;
           Some (next_pc, set_registers r s)
         else Some (next_pc, s)
       else if opcode =? Opcodes.OPCODE_SW then
         a ← vec_get (registers s) (Instruction.rs instr);
         if isValidAddress s (u32 (a + imm_extended)) then
           let addr := u32 (a + imm_extended) in
           v ← vec_get (registers s) (Instruction.rt instr);
           m ← store_word (memory s) addr v;
           Some (next_pc, set_memory m s)
         else Some (next_pc, s)
       else if opcode =? Opcodes.OPCODE_BEQ then
         a ← vec_get (registers s) (Instruction.rs instr);
         b ← vec_get (registers s) (Instruction.rt instr);
         let taken := a =? b in
         let next_pc := if taken then u32 (pc s + 4 + u32 (Z.shiftl imm_extended 2))
                        else next_pc in
         s ← recordBranch taken s; Some (next_pc, s)
       else if opcode =? Opcodes.OPCODE_BNE then
         a ← vec_get (registers s) (Instruction.rs instr);
         b ← vec_get (registers s) (Instruction.rt instr);
         let taken := negb (a =? b) in
         let next_pc := if taken then u32 (pc s + 4 + u32 (Z.shiftl imm_extended 2))
                        else next_pc in
         s ← recordBranch taken s; Some (next_pc, s)
       else Some (next_pc, s)
     else if String.eqb (Instruction.type instr) "J" then
       let opcode := Instruction.opcode instr in
       let target := Z.lor (Z.land (pc s) 4026531840)
                           (u32 (Z.shiftl (Instruction.jump_addr instr) 2)) in
       if opcode =? Opcodes.OPCODE_J then Some (target, s)
       else if opcode =? Opcodes.OPCODE_JAL then
         r ← vec_set (registers s) 31 (u32 (pc s + 8));
         Some (target, set_registers r s)
       else Some (next_pc, s)
     else Some (next_pc, s));
  Some (true, set_pc next_pc s).

Definition detectHazards (s : t) : option bool :=
  g1 ← vec_get (pipeline_stages s) 1;
  g2 ← vec_get (pipeline_stages s) 2;
  if negb (PipelineStage.valid g1) || negb (PipelineStage.valid g2) then Some false
  else
    let id_instr := decodeInstruction (PipelineStage.instruction g1) in
    let ex_instr := decodeInstruction (PipelineStage.instruction g2) in
    if String.eqb (Instruction.type ex_instr) "R"
       || (String.eqb (Instruction.type ex_instr) "I"
           && (Instruction.opcode ex_instr =? Opcodes.OPCODE_LW))
    then
      let dest_reg := if String.eqb (Instruction.type ex_instr) "R"
                      then Instruction.rd ex_instr else Instruction.rt ex_instr in
      Some (negb (dest_reg =? 0)
            && ((dest_reg =? Instruction.rs id_instr) || (dest_reg =? Instruction.rt id_instr)))
    else Some false.

(** [for (int i = 1; i < 5; i++) pipeline_stages[i].stall = true;] *)
Definition handleHazards (s : t) : option t :=
  g ← foldl (λ acc i, g ← acc; x ← vec_get g i;
                      vec_set g i (PipelineStage.set_stall true x))
            (Some (pipeline_stages s)) [1; 2; 3; 4];
  Some (set_pipeline_stages g s).

Definition advancePipeline (s : t) : option t :=
  h ← detectHazards s;
  if (h : bool) then handleHazards s
  else
    g ← foldl (λ acc i, g ← acc; x ← vec_get g (i - 1); vec_set g i x)
              (Some (pipeline_stages s)) [4; 3; 2; 1];
    g0 ← vec_get g 0;
    if negb (halted s) && isValidAddress s (pc s) then
      instruction ← word_at (memory s) (pc s);
      g ← vec_set g 0 {| PipelineStage.instruction := instruction;
                         PipelineStage.pc := pc s;
                         PipelineStage.valid := true;
                         PipelineStage.stall := PipelineStage.stall g0;
                         PipelineStage.flush := PipelineStage.flush g0 |};
      Some (set_pc (u32 (pc s + 4)) (set_pipeline_stages g s))
    else
      g ← vec_set g 0 (PipelineStage.set_valid false g0);
      Some (set_pipeline_stages g s).

(** [bool MIPSSimulator::step()]: the returned flag and the state left behind. *)
Definition step (s : t) : option (bool * t) :=
  if halted s then Some (false, s)
  else if pipeline_enabled s then
    s ← advancePipeline s;
    r ← vec_set (registers s) 0 0;
    let s := set_registers r s in
    Some (negb (halted s), s)
  else if negb (isValidAddress s (pc s)) then Some (false, set_halted true s)
  else
    instruction ← word_at (memory s) (pc s);
    let instr := decodeInstruction instruction in
    '(ok, s) ← executeInstruction instr s;
    if negb (ok : bool) then Some (false, set_halted true s)
    else
      r ← vec_set (registers s) 0 0;
      let s := set_registers r s in
      Some (negb (halted s), s).

(** [while (!halted && step()) { if (step_mode) break; }], at most [fuel]
    iterations; [None] when the fuel runs out before the loop ends. *)
Fixpoint run (fuel : nat) (s : t) : option (option t) :=
  match fuel with
  | O => Some None
  | S fuel =>
      if halted s then Some (Some s)
      else
        '(r, s) ← step s;
        if negb (r : bool) then Some (Some s)
        else if step_mode s then Some (Some s)
        else run fuel s
  end.

(** [n] calls of [step], whatever they return. *)
Fixpoint steps (n : nat) (s : t) : option t :=
  match n with
  | O => Some s
  | S n => '(r, s) ← step s; steps n s
  end.

Definition getRegister (s : t) (reg : Z) : option Z :=
  if (0 <=? reg) && (reg <? 32) then vec_get (registers s) reg else Some 0.

Definition setRegister (s : t) (reg value : Z) : option t :=
  if (1 <=? reg) && (reg <? 32)
  then r ← vec_set (registers s) reg value; Some (set_registers r s)
  else Some s.

Definition getMemory (s : t) (address : Z) : option Z :=
  if isValidAddress s address then word_at (memory s) address else Some 0.

Definition setMemory (s : t) (address value : Z) : option t :=
  if isValidAddress s address
  then m ← store_word (memory s) address value; Some (set_memory m s)
  else Some s.

Definition enablePipeline (enable : bool) (s : t) : t :=
  let s := set_pipeline_enabled enable s in
  if enable then initializePipeline s else s.

(** The loop of [loadProgramFromString] over the lines still to read. *)
Fixpoint load_lines (lines : list string) (address : Z) (s : t) : option (bool * t) :=
  match lines with
  | [] => Some (true, reset s)
  | line :: rest =>
      match line with
      | EmptyString => load_lines rest address s
      | String c _ =>
          if Ascii.eqb c "#" then load_lines rest address s
          else
            match stoul16 line with
            | None => Some (false, s)
            | Some v =>
                let instruction := u32 v in
                if u32 (address + 3) <? Z.of_nat (length (memory s)) then
                  m ← store_word (memory s) address instruction;
                  load_lines rest (u32 (address + 4)) (set_memory m s)
                else load_lines rest address s
            end
      end
  end.

Definition loadProgramFromString (program : string) (s : t) : option (bool * t) :=
  load_lines (getlines program) 0 s.

Definition enableBranchPrediction (enable : bool) (type : string) (s : t) : t :=
  {| registers := registers s; memory := memory s; pc := pc s; halted := halted s;
     step_mode := step_mode s; pipeline_enabled := pipeline_enabled s;
     pipeline_stages := pipeline_stages s;
     branch_prediction_enabled := enable;
     prediction_type := type;
     branch_history_table := branch_history_table s;
     branch_stats := branch_stats s |}.

End MIPSSimulator.

(** ** Floating point

    The predictors store [accuracy] as a [double].  The embedding keeps the
    type and its two operations abstract: [d_div c t] is
    [(double)c / t] and [d_percent x] is [x * 100.0]. *)

Class Double (D : Type) := mkDouble
  { d_zero : D; d_div : Z → Z → D; d_percent : D → D }.

(** Exact rationals, numerator and denominator kept as written: the
    instance concrete runs are evaluated with. *)
Inductive ratio := Ratio (num den scale : Z).

#[export] Instance ratio_double : Double ratio :=
  {| d_zero := Ratio 0 1 1;
     d_div := λ c t, Ratio c t 1;
     d_percent := λ x, match x with Ratio c t k => Ratio c t (k * 100) end |}.

(** The 2-bit counter step the bimodal, gshare, local and chooser tables
    share: [if (taken && c < 3) c++; else if (!taken && c > 0) c--;] *)
Definition counter_update (taken : bool) (c : Z) : Z :=
  if taken && (c <? 3) then c + 1
  else if negb taken && (0 <? c) then c - 1
  else c.

(** ** BranchPredictor.hpp / BranchPredictor.cpp: the predictor hierarchy *)

Module PredictorType.
Inductive t :=
  | STATIC_NOT_TAKEN | STATIC_TAKEN | STATIC_BTFN | BIMODAL_1BIT
  | BIMODAL_2BIT | GSHARE | LOCAL_HISTORY | TOURNAMENT.
End PredictorType.

Module BranchStats.
Section Stats.
Context {D : Type} `{Double D}.

Record t := mk
  { totalBranches : Z; correctPredictions : Z; mispredictions : Z; accuracy : D }.

(** [BranchStats()] *)
Definition zero : t :=
  {| totalBranches := 0; correctPredictions := 0; mispredictions := 0;
     accuracy := d_zero |}.

(** [stats.totalBranches++;] *)
Definition count_branch (b : t) : t :=
  {| totalBranches := u64 (totalBranches b + 1);
     correctPredictions := correctPredictions b;
     mispredictions := mispredictions b; accuracy := accuracy b |}.

(** [if (predicted == taken) stats.correctPredictions++; else stats.mispredictions++;] *)
Definition count_outcome (predicted taken : bool) (b : t) : t :=
  if Bool.eqb predicted taken then
    {| totalBranches := totalBranches b;
       correctPredictions := u64 (correctPredictions b + 1);
       mispredictions := mispredictions b; accuracy := accuracy b |}
  else
    {| totalBranches := totalBranches b;
       correctPredictions := correctPredictions b;
       mispredictions := u64 (mispredictions b + 1); accuracy := accuracy b |}.

(** [stats.accuracy = (double)stats.correctPredictions / stats.totalBranches;] *)
Definition store_accuracy (b : t) : t :=
  {| totalBranches := totalBranches b;
     correctPredictions := correctPredictions b;
     mispredictions := mispredictions b;
     accuracy := d_div (correctPredictions b) (totalBranches b) |}.

End Stats.
Arguments t D : clear implicits.
End BranchStats.

Module StaticPredictor.
Section Variant.
Context {D : Type} `{Double D}.

Record t := mk
  { type : PredictorType.t; stats : BranchStats.t D; prediction : bool }.

Definition set_stats (b : BranchStats.t D) (p : t) : t :=
  {| type := type p; stats := b; prediction := prediction p |}.

Definition new (ty : PredictorType.t) (pred : bool) : t :=
  {| type := ty; stats := BranchStats.zero; prediction := pred |}.

Definition predict (pc targetAddress : Z) (p : t) : option (bool * t) :=
  Some (prediction p, p).

Definition update (pc : Z) (taken : bool) (targetAddress : Z) (p : t) : option t :=
  let p := set_stats (BranchStats.count_branch (stats p)) p in
  '(r, p) ← predict pc targetAddress p;
  let p := set_stats (BranchStats.count_outcome r taken (stats p)) p in
  Some (set_stats (BranchStats.store_accuracy (stats p)) p).

Definition reset (p : t) : t := set_stats BranchStats.zero p.

End Variant.
Arguments t D : clear implicits.
End StaticPredictor.

Module BTFNPredictor.
Section Variant.
Context {D : Type} `{Double D}.

Record t := mk { type : PredictorType.t; stats : BranchStats.t D }.

Definition set_stats (b : BranchStats.t D) (p : t) : t :=
  {| type := type p; stats := b |}.

Definition new : t :=
  {| type := PredictorType.STATIC_BTFN; stats := BranchStats.zero |}.

Definition predict (pc targetAddress : Z) (p : t) : option (bool * t) :=
  Some (targetAddress <? pc, p).

Definition update (pc : Z) (taken : bool) (targetAddress : Z) (p : t) : option t :=
  let p := set_stats (BranchStats.count_branch (stats p)) p in
  '(r, p) ← predict pc targetAddress p;
  let p := set_stats (BranchStats.count_outcome r taken (stats p)) p in
  Some (set_stats (BranchStats.store_accuracy (stats p)) p).

Definition reset (p : t) : t := set_stats BranchStats.zero p.

End Variant.
Arguments t D : clear implicits.
End BTFNPredictor.

Module BimodalPredictor.
Section Variant.
Context {D : Type} `{Double D}.

Record t := mk
  { type : PredictorType.t; stats : BranchStats.t D; table : list Z;
    indexBits : Z; tableSize : Z; twoBit : bool }.

Definition set_stats (b : BranchStats.t D) (p : t) : t :=
  {| type := type p; stats := b; table := table p; indexBits := indexBits p;
     tableSize := tableSize p; twoBit := twoBit p |}.

Definition set_table (l : list Z) (p : t) : t :=
  {| type := type p; stats := stats p; table := l; indexBits := indexBits p;
     tableSize := tableSize p; twoBit := twoBit p |}.

Definition new (ty : PredictorType.t) (bits : Z) : t :=
  let two := match ty with PredictorType.BIMODAL_2BIT => true | _ => false end in
  let size := u32 (Z.shiftl 1 bits) in
  {| type := ty; stats := BranchStats.zero;
     table := replicate (Z.to_nat size) (if two then 1 else 0);
     indexBits := bits; tableSize := size; twoBit := two |}.

Definition getIndex (p : t) (pc : Z) : Z :=
  Z.land (Z.shiftr pc 2) (u32 (Z.shiftl 1 (indexBits p) - 1)).

Definition predict (pc targetAddress : Z) (p : t) : option (bool * t) :=
  let index := getIndex p pc in
  c ← vec_get (table p) index;
  if twoBit p then Some (2 <=? c, p) else Some (c =? 1, p).

Definition update (pc : Z) (taken : bool) (targetAddress : Z) (p : t) : option t :=
  let index := getIndex p pc in
  let p := set_stats (BranchStats.count_branch (stats p)) p in
  '(r, p) ← predict pc targetAddress p;
  let p := set_stats (BranchStats.count_outcome r taken (stats p)) p in
  let p := set_stats (BranchStats.store_accuracy (stats p)) p in
  if twoBit p then
    c ← vec_get (table p) index;
    l ← vec_set (table p) index (counter_update taken c);
    Some (set_table l p)
  else
    l ← vec_set (table p) index (if taken then 1 else 0);
    Some (set_table l p).

Definition reset (p : t) : t :=
  set_table ((λ _, if twoBit p then 1 else 0) <$> table p)
            (set_stats BranchStats.zero p).

End Variant.
Arguments t D : clear implicits.
End BimodalPredictor.

Module GsharePredictor.
Section Variant.
Context {D : Type} `{Double D}.

Record t := mk
  { type : PredictorType.t; stats : BranchStats.t D; table : list Z;
    globalHistory : Z; historyBits : Z; indexBits : Z; tableSize : Z }.

Definition set_stats (b : BranchStats.t D) (p : t) : t :=
  {| type := type p; stats := b; table := table p;
     globalHistory := globalHistory p; historyBits := historyBits p;
     indexBits := indexBits p; tableSize := tableSize p |}.

Definition set_table (l : list Z) (p : t) : t :=
  {| type := type p; stats := stats p; table := l;
     globalHistory := globalHistory p; historyBits := historyBits p;
     indexBits := indexBits p; tableSize := tableSize p |}.

Definition set_globalHistory (g : Z) (p : t) : t :=
  {| type := type p; stats := stats p; table := table p;
     globalHistory := g; historyBits := historyBits p;
     indexBits := indexBits p; tableSize := tableSize p |}.

Definition new (histBits idxBits : Z) : t :=
  let size := u32 (Z.shiftl 1 idxBits) in
  {| type := PredictorType.GSHARE; stats := BranchStats.zero;
     table := replicate (Z.to_nat size) 1;
     globalHistory := 0; historyBits := histBits; indexBits := idxBits;
     tableSize := size |}.

Definition getIndex (p : t) (pc : Z) : Z :=
  let pcBits := Z.land (Z.shiftr pc 2) (u32 (Z.shiftl 1 (indexBits p) - 1)) in
  let historyMask := u32 (Z.shiftl 1 (Z.min (historyBits p) (indexBits p)) - 1) in
  Z.lxor pcBits (Z.land (globalHistory p) historyMask).

Definition predict (pc targetAddress : Z) (p : t) : option (bool * t) :=
  let index := getIndex p pc in
  c ← vec_get (table p) index;
  Some (2 <=? c, p).

Definition update (pc : Z) (taken : bool) (targetAddress : Z) (p : t) : option t :=
  let index := getIndex p pc in
  let p := set_stats (BranchStats.count_branch (stats p)) p in
  '(r, p) ← predict pc targetAddress p;
  let p := set_stats (BranchStats.count_outcome r taken (stats p)) p in
  let p := set_stats (BranchStats.store_accuracy (stats p)) p in
  c ← vec_get (table p) index;
  l ← vec_set (table p) index (counter_update taken c);
  let p := set_table l p in
  Some (set_globalHistory
          (Z.land (Z.lor (u32 (Z.shiftl (globalHistory p) 1)) (if taken then 1 else 0))
                  (u32 (Z.shiftl 1 (historyBits p) - 1))) p).

Definition reset (p : t) : t :=
  set_table ((λ _, 1) <$> table p)
            (set_globalHistory 0 (set_stats BranchStats.zero p)).

End Variant.
Arguments t D : clear implicits.
End GsharePredictor.

Module LocalHistoryPredictor.
Section Variant.
Context {D : Type} `{Double D}.

Record t := mk
  { type : PredictorType.t; stats : BranchStats.t D;
    localHistoryTable : list Z; patternHistoryTable : list Z;
    localHistoryBits : Z; patternHistoryBits : Z;
    localTableSize : Z; patternTableSize : Z }.

Definition set_stats (b : BranchStats.t D) (p : t) : t :=
  {| type := type p; stats := b; localHistoryTable := localHistoryTable p;
     patternHistoryTable := patternHistoryTable p;
     localHistoryBits := localHistoryBits p;
     patternHistoryBits := patternHistoryBits p;
     localTableSize := localTableSize p; patternTableSize := patternTableSize p |}.

Definition set_localHistoryTable (l : list Z) (p : t) : t :=
  {| type := type p; stats := stats p; localHistoryTable := l;
     patternHistoryTable := patternHistoryTable p;
     localHistoryBits := localHistoryBits p;
     patternHistoryBits := patternHistoryBits p;
     localTableSize := localTableSize p; patternTableSize := patternTableSize p |}.

Definition set_patternHistoryTable (l : list Z) (p : t) : t :=
  {| type := type p; stats := stats p; localHistoryTable := localHistoryTable p;
     patternHistoryTable := l;
     localHistoryBits := localHistoryBits p;
     patternHistoryBits := patternHistoryBits p;
     localTableSize := localTableSize p; patternTableSize := patternTableSize p |}.

Definition new (localBits patternBits : Z) : t :=
  let lsize := u32 (Z.shiftl 1 localBits) in
  let psize := u32 (Z.shiftl 1 patternBits) in
  {| type := PredictorType.LOCAL_HISTORY; stats := BranchStats.zero;
     localHistoryTable := replicate (Z.to_nat lsize) 0;
     patternHistoryTable := replicate (Z.to_nat psize) 1;
     localHistoryBits := localBits; patternHistoryBits := patternBits;
     localTableSize := lsize; patternTableSize := psize |}.

Definition getLocalIndex (p : t) (pc : Z) : Z :=
  Z.land (Z.shiftr pc 2) (u32 (Z.shiftl 1 (localHistoryBits p) - 1)).

Definition getPatternIndex (p : t) (localHistory : Z) : Z :=
  Z.land localHistory (u32 (Z.shiftl 1 (patternHistoryBits p) - 1)).

Definition predict (pc targetAddress : Z) (p : t) : option (bool * t) :=
  let localIndex := getLocalIndex p pc in
  localHistory ← vec_get (localHistoryTable p) localIndex;
  let patternIndex := getPatternIndex p localHistory in
  c ← vec_get (patternHistoryTable p) patternIndex;
  Some (2 <=? c, p).

Definition update (pc : Z) (taken : bool) (targetAddress : Z) (p : t) : option t :=
  let localIndex := getLocalIndex p pc in
  localHistory ← vec_get (localHistoryTable p) localIndex;
  let patternIndex := getPatternIndex p localHistory in
  let p := set_stats (BranchStats.count_branch (stats p)) p in
  '(r, p) ← predict pc targetAddress p;
  let p := set_stats (BranchStats.count_outcome r taken (stats p)) p in
  let p := set_stats (BranchStats.store_accuracy (stats p)) p in
  c ← vec_get (patternHistoryTable p) patternIndex;
  l ← vec_set (patternHistoryTable p) patternIndex (counter_update taken c);
  let p := set_patternHistoryTable l p in
  l ← vec_set (localHistoryTable p) localIndex
        (Z.land (Z.lor (u32 (Z.shiftl localHistory 1)) (if taken then 1 else 0))
                (u32 (Z.shiftl 1 (patternHistoryBits p) - 1)));
  Some (set_localHistoryTable l p).

Definition reset (p : t) : t :=
  set_patternHistoryTable ((λ _, 1) <$> patternHistoryTable p)
    (set_localHistoryTable ((λ _, 0) <$> localHistoryTable p)
       (set_stats BranchStats.zero p)).

End Variant.
Arguments t D : clear implicits.
End LocalHistoryPredictor.

Module TournamentPredictor.
Section Variant.
Context {D : Type} `{Double D}.

(** [globalPredictor] and [localPredictor] are owned through
    [std::unique_ptr]; the constructor always makes them a gshare and a
    local-history predictor. *)
Record t := mk
  { type : PredictorType.t; stats : BranchStats.t D;
    globalPredictor : GsharePredictor.t D;
    localPredictor : LocalHistoryPredictor.t D;
    choiceTable : list Z; choiceTableSize : Z }.

Definition set_stats (b : BranchStats.t D) (p : t) : t :=
  {| type := type p; stats := b; globalPredictor := globalPredictor p;
     localPredictor := localPredictor p; choiceTable := choiceTable p;
     choiceTableSize := choiceTableSize p |}.

Definition set_globalPredictor (g : GsharePredictor.t D) (p : t) : t :=
  {| type := type p; stats := stats p; globalPredictor := g;
     localPredictor := localPredictor p; choiceTable := choiceTable p;
     choiceTableSize := choiceTableSize p |}.

Definition set_localPredictor (l : LocalHistoryPredictor.t D) (p : t) : t :=
  {| type := type p; stats := stats p; globalPredictor := globalPredictor p;
     localPredictor := l; choiceTable := choiceTable p;
     choiceTableSize := choiceTableSize p |}.

Definition set_choiceTable (c : list Z) (p : t) : t :=
  {| type := type p; stats := stats p; globalPredictor := globalPredictor p;
     localPredictor := localPredictor p; choiceTable := c;
     choiceTableSize := choiceTableSize p |}.

Definition new (choiceBits : Z) : t :=
  let size := u32 (Z.shiftl 1 choiceBits) in
  {| type := PredictorType.TOURNAMENT; stats := BranchStats.zero;
     globalPredictor := GsharePredictor.new 12 12;
     localPredictor := LocalHistoryPredictor.new 10 10;
     choiceTable := replicate (Z.to_nat size) 1; choiceTableSize := size |}.

Definition getChoiceIndex (p : t) (pc : Z) : Z :=
  Z.land (Z.shiftr pc 2) (u32 (choiceTableSize p - 1)).

Definition global_predict (pc targetAddress : Z) (p : t) : option (bool * t) :=
  '(r, g) ← GsharePredictor.predict pc targetAddress (globalPredictor p);
  Some (r, set_globalPredictor g p).

Definition local_predict (pc targetAddress : Z) (p : t) : option (bool * t) :=
  '(r, l) ← LocalHistoryPredictor.predict pc targetAddress (localPredictor p);
  Some (r, set_localPredictor l p).

Definition predict (pc targetAddress : Z) (p : t) : option (bool * t) :=
  let choiceIndex := getChoiceIndex p pc in
  c ← vec_get (choiceTable p) choiceIndex;
  if 2 <=? c then global_predict pc targetAddress p
  else local_predict pc targetAddress p.

Definition update (pc : Z) (taken : bool) (targetAddress : Z) (p : t) : option t :=
  let choiceIndex := getChoiceIndex p pc in
  '(globalPrediction, p) ← global_predict pc targetAddress p;
  '(localPrediction, p) ← local_predict pc targetAddress p;
  '(chosenPrediction, p) ← predict pc targetAddress p;
  let p := set_stats (BranchStats.count_branch (stats p)) p in
  let p := set_stats (BranchStats.count_outcome chosenPrediction taken (stats p)) p in
  let p := set_stats (BranchStats.store_accuracy (stats p)) p in
  p ← (if Bool.eqb globalPrediction taken && negb (Bool.eqb localPrediction taken) then
         c ← vec_get (choiceTable p) choiceIndex;
         if c <? 3 then l ← vec_set (choiceTable p) choiceIndex (c + 1);
                        Some (set_choiceTable l p)
         else Some p
       else if Bool.eqb localPrediction taken && negb (Bool.eqb globalPrediction taken) then
         c ← vec_get (choiceTable p) choiceIndex;
         if 0 <? c then l ← vec_set (choiceTable p) choiceIndex (c - 1);
                        Some (set_choiceTable l p)
         else Some p
       else Some p);
  g ← GsharePredictor.update pc taken targetAddress (globalPredictor p);
  let p := set_globalPredictor g p in
  l ← LocalHistoryPredictor.update pc taken targetAddress (localPredictor p);
  Some (set_localPredictor l p).

Definition reset (p : t) : t :=
  set_choiceTable ((λ _, 1) <$> choiceTable p)
    (set_localPredictor (LocalHistoryPredictor.reset (localPredictor p))
       (set_globalPredictor (GsharePredictor.reset (globalPredictor p))
          (set_stats BranchStats.zero p))).

End Variant.
Arguments t D : clear implicits.
End TournamentPredictor.

(** The abstract base class with its virtual [predict], [update] and
    [reset]: a value of the hierarchy is one of the five concrete classes,
    and a virtual call dispatches on which. *)
Module BranchPredictor.
Section Hierarchy.
Context {D : Type} `{Double D}.

Inductive t :=
  | Static (p : StaticPredictor.t D)
  | BTFN (p : BTFNPredictor.t D)
  | Bimodal (p : BimodalPredictor.t D)
  | Gshare (p : GsharePredictor.t D)
  | LocalHistory (p : LocalHistoryPredictor.t D)
  | Tournament (p : TournamentPredictor.t D).

Definition predict (pc targetAddress : Z) (b : t) : option (bool * t) :=
  match b with
  | Static p => '(r, p) ← StaticPredictor.predict pc targetAddress p; Some (r, Static p)
  | BTFN p => '(r, p) ← BTFNPredictor.predict pc targetAddress p; Some (r, BTFN p)
  | Bimodal p => '(r, p) ← BimodalPredictor.predict pc targetAddress p; Some (r, Bimodal p)
  | Gshare p => '(r, p) ← GsharePredictor.predict pc targetAddress p; Some (r, Gshare p)
  | LocalHistory p =>
      '(r, p) ← LocalHistoryPredictor.predict pc targetAddress p; Some (r, LocalHistory p)
  | Tournament p =>
      '(r, p) ← TournamentPredictor.predict pc targetAddress p; Some (r, Tournament p)
  end.

Definition update (pc : Z) (taken : bool) (targetAddress : Z) (b : t) : option t :=
  match b with
  | Static p => Static <$> StaticPredictor.update pc taken targetAddress p
  | BTFN p => BTFN <$> BTFNPredictor.update pc taken targetAddress p
  | Bimodal p => Bimodal <$> BimodalPredictor.update pc taken targetAddress p
  | Gshare p => Gshare <$> GsharePredictor.update pc taken targetAddress p
  | LocalHistory p => LocalHistory <$> LocalHistoryPredictor.update pc taken targetAddress p
  | Tournament p => Tournament <$> TournamentPredictor.update pc taken targetAddress p
  end.

Definition reset (b : t) : t :=
  match b with
  | Static p => Static (StaticPredictor.reset p)
  | BTFN p => BTFN (BTFNPredictor.reset p)
  | Bimodal p => Bimodal (BimodalPredictor.reset p)
  | Gshare p => Gshare (GsharePredictor.reset p)
  | LocalHistory p => LocalHistory (LocalHistoryPredictor.reset p)
  | Tournament p => Tournament (TournamentPredictor.reset p)
  end.

Definition getStats (b : t) : BranchStats.t D :=
  match b with
  | Static p => StaticPredictor.stats p
  | BTFN p => BTFNPredictor.stats p
  | Bimodal p => BimodalPredictor.stats p
  | Gshare p => GsharePredictor.stats p
  | LocalHistory p => LocalHistoryPredictor.stats p
  | Tournament p => TournamentPredictor.stats p
  end.

End Hierarchy.
Arguments t D : clear implicits.
End BranchPredictor.

Module BranchPredictorFactory.
Section Factory.
Context {D : Type} `{Double D}.

Definition create (type : PredictorType.t) (param1 param2 : Z) : BranchPredictor.t D :=
  match type with
  | PredictorType.STATIC_NOT_TAKEN =>
      BranchPredictor.Static (StaticPredictor.new type false)
  | PredictorType.STATIC_TAKEN =>
      BranchPredictor.Static (StaticPredictor.new type true)
  | PredictorType.STATIC_BTFN => BranchPredictor.BTFN BTFNPredictor.new
  | PredictorType.BIMODAL_1BIT =>
      BranchPredictor.Bimodal (BimodalPredictor.new type param1)
  | PredictorType.BIMODAL_2BIT =>
      BranchPredictor.Bimodal (BimodalPredictor.new type param1)
  | PredictorType.GSHARE =>
      BranchPredictor.Gshare (GsharePredictor.new param1 param2)
  | PredictorType.LOCAL_HISTORY =>
      BranchPredictor.LocalHistory (LocalHistoryPredictor.new param1 param2)
  | PredictorType.TOURNAMENT =>
      BranchPredictor.Tournament (TournamentPredictor.new param1)
  end.

End Factory.
End BranchPredictorFactory.

(** ** branch_predictor.hpp / branch_predictor.cpp: the second class
    named [BranchPredictor], which keeps its counters in a [std::map] *)

Module MapPredictor.

Inductive PredictorType :=
  STATIC_NOT_TAKEN | STATIC_TAKEN | DYNAMIC_1BIT | DYNAMIC_2BIT.

(** [enum State2Bit] *)
Definition STRONGLY_NOT_TAKEN : Z := 0.
Definition WEAKLY_NOT_TAKEN : Z := 1.
Definition WEAKLY_TAKEN : Z := 2.
Definition STRONGLY_TAKEN : Z := 3.

Section Class.
Context {D : Type} `{Double D}.

Record PredictionStats := mkStats
  { total_predictions : Z; correct_predictions : Z;
    incorrect_predictions : Z; accuracy : D }.

Record t := mk
  { predictor_type : PredictorType;
    branch_history_table : gmap Z Z;
    stats : PredictionStats }.

Definition set_stats (b : PredictionStats) (p : t) : t :=
  {| predictor_type := predictor_type p;
     branch_history_table := branch_history_table p; stats := b |}.

Definition set_table (m : gmap Z Z) (p : t) : t :=
  {| predictor_type := predictor_type p; branch_history_table := m;
     stats := stats p |}.

Definition reset (p : t) : t :=
  {| predictor_type := predictor_type p; branch_history_table := ∅;
     stats := {| total_predictions := 0; correct_predictions := 0;
                 incorrect_predictions := 0; accuracy := d_zero |} |}.

(** [BranchPredictor(PredictorType type)]: every field is set by [reset()]. *)
Definition new (type : PredictorType) : t :=
  {| predictor_type := type; branch_history_table := ∅;
     stats := {| total_predictions := 0; correct_predictions := 0;
                 incorrect_predictions := 0; accuracy := d_zero |} |}.

Definition setPredictorType (type : PredictorType) (p : t) : t :=
  reset {| predictor_type := type;
           branch_history_table := branch_history_table p; stats := stats p |}.

Definition predict (pc : Z) (p : t) : option (bool * t) :=
  total ← int_incr (total_predictions (stats p));
  let p := set_stats {| total_predictions := total;
                        correct_predictions := correct_predictions (stats p);
                        incorrect_predictions := incorrect_predictions (stats p);
                        accuracy := accuracy (stats p) |} p in
  match predictor_type p with
  | STATIC_NOT_TAKEN => Some (false, p)
  | STATIC_TAKEN => Some (true, p)
  | DYNAMIC_1BIT =>
      let p := match branch_history_table p !! pc with
               | None => set_table (<[pc := 0]> (branch_history_table p)) p
               | Some _ => p
               end in
      c ← branch_history_table p !! pc;
      Some (c =? 1, p)
  | DYNAMIC_2BIT =>
      let p := match branch_history_table p !! pc with
               | None => set_table (<[pc := WEAKLY_NOT_TAKEN]> (branch_history_table p)) p
               | Some _ => p
               end in
      c ← branch_history_table p !! pc;
      Some ((c =? WEAKLY_TAKEN) || (c =? STRONGLY_TAKEN), p)
  end.

(** The two nested [switch (state)] blocks of the 2-bit case. *)
Definition next_state (actual_outcome : bool) (state : Z) : Z :=
  if actual_outcome then
    if state =? STRONGLY_NOT_TAKEN then WEAKLY_NOT_TAKEN
    else if state =? WEAKLY_NOT_TAKEN then WEAKLY_TAKEN
    else if state =? WEAKLY_TAKEN then STRONGLY_TAKEN
    else state
  else
    if state =? WEAKLY_NOT_TAKEN then STRONGLY_NOT_TAKEN
    else if state =? WEAKLY_TAKEN then WEAKLY_NOT_TAKEN
    else if state =? STRONGLY_TAKEN then WEAKLY_TAKEN
    else state.

(** The prediction [update] compares the outcome with, and the table it
    leaves: the [switch (predictor_type)] of [update]. *)
Definition update_table (pc : Z) (actual_outcome : bool) (p : t) : bool * gmap Z Z :=
  let m := branch_history_table p in
  match predictor_type p with
  | STATIC_NOT_TAKEN => (false, m)
  | STATIC_TAKEN => (true, m)
  | DYNAMIC_1BIT =>
      let predicted_outcome :=
        match m !! pc with Some c => c =? 1 | None => false end in
      (predicted_outcome, <[pc := if actual_outcome then 1 else 0]> m)
  | DYNAMIC_2BIT =>
      match m !! pc with
      | Some state =>
          ((state =? WEAKLY_TAKEN) || (state =? STRONGLY_TAKEN),
           <[pc := next_state actual_outcome state]> m)
      | None =>
          (false, <[pc := if actual_outcome then WEAKLY_TAKEN else WEAKLY_NOT_TAKEN]> m)
      end
  end.

Definition update (pc : Z) (actual_outcome : bool) (p : t) : option t :=
  let '(predicted_outcome, m) := update_table pc actual_outcome p in
  let p := set_table m p in
  b ← (if Bool.eqb predicted_outcome actual_outcome then
         c ← int_incr (correct_predictions (stats p));
         Some {| total_predictions := total_predictions (stats p);
                 correct_predictions := c;
                 incorrect_predictions := incorrect_predictions (stats p);
                 accuracy := accuracy (stats p) |}
       else
         c ← int_incr (incorrect_predictions (stats p));
         Some {| total_predictions := total_predictions (stats p);
                 correct_predictions := correct_predictions (stats p);
                 incorrect_predictions := c;
                 accuracy := accuracy (stats p) |});
  let b := if 0 <? total_predictions b
           then {| total_predictions := total_predictions b;
                   correct_predictions := correct_predictions b;
                   incorrect_predictions := incorrect_predictions b;
                   accuracy := d_percent (d_div (correct_predictions b)
                                                (total_predictions b)) |}
           else b in
  Some (set_stats b p).

Definition getStats (p : t) : PredictionStats := stats p.

End Class.
Arguments t D : clear implicits.
Arguments PredictionStats D : clear implicits.
End MapPredictor.

(** ** Instruction.hpp / Instruction.cpp *)

Module InstructionType.
Inductive t := R_TYPE | I_TYPE | J_TYPE.
End InstructionType.

Module InstructionFormat.
Inductive t :=
  | ADD | SUB | AND | OR | NOR | SLT | SLL | SRL | SRA | SLLV | SRLV | SRAV
  | JR | JALR | MFHI | MFLO | MTHI | MTLO | MULT | MULTU | DIV | DIVU
  | ADDI | ADDIU | ANDI | ORI | XORI | SLTI | SLTIU
  | LW | LH | LB | LBU | LHU | SW | SH | SB
  | BEQ | BNE | BLEZ | BGTZ | BLTZ | BGEZ
  | LUI
  | J | JAL
  | NOP
  | UNKNOWN.
End InstructionFormat.

Module Instruction.

(** The fields of [struct Instruction] ([assembly], a string no code reads,
    is left out).  [valid] is read by [HazardDetection::detectDataHazard]
    ([previous.valid]) although Instruction.hpp declares no such member and
    nothing assigns it: it is carried as a field that every constructor
    leaves as it finds it. *)
Record t := mk
  { machineCode : Z;
    type : InstructionType.t;
    format : InstructionFormat.t;
    rs : Z; rt : Z; rd : Z; shamt : Z; funct : Z;
    immediate : Z;
    signedImmediate : Z;
    jumpTarget : Z;
    opcode : Z;
    address : Z;
    valid : bool }.

(** [Instruction::Instruction()], over storage [u]. *)
Definition new (u : t) : t :=
  {| machineCode := 0; type := InstructionType.R_TYPE;
     format := InstructionFormat.NOP; rs := 0; rt := 0; rd := 0; shamt := 0;
     funct := 0; immediate := 0; signedImmediate := 0; jumpTarget := 0;
     opcode := 0; address := 0; valid := valid u |}.

Definition getInstructionFormat (opcode funct : Z) : InstructionFormat.t :=
  if opcode =? 0 then
    if funct =? 32 then InstructionFormat.ADD
    else if funct =? 34 then InstructionFormat.SUB
    else if funct =? 36 then InstructionFormat.AND
    else if funct =? 37 then InstructionFormat.OR
    else if funct =? 39 then InstructionFormat.NOR
    else if funct =? 42 then InstructionFormat.SLT
    else if funct =? 0 then InstructionFormat.SLL
    else if funct =? 2 then InstructionFormat.SRL
    else if funct =? 3 then InstructionFormat.SRA
    else if funct =? 8 then InstructionFormat.JR
    else if funct =? 9 then InstructionFormat.JALR
    else InstructionFormat.UNKNOWN
  else
    if opcode =? 8 then InstructionFormat.ADDI
    else if opcode =? 12 then InstructionFormat.ANDI
    else if opcode =? 13 then InstructionFormat.ORI
    else if opcode =? 14 then InstructionFormat.XORI
    else if opcode =? 10 then InstructionFormat.SLTI
    else if opcode =? 35 then InstructionFormat.LW
    else if opcode =? 33 then InstructionFormat.LH
    else if opcode =? 32 then InstructionFormat.LB
    else if opcode =? 36 then InstructionFormat.LBU
    else if opcode =? 37 then InstructionFormat.LHU
    else if opcode =? 43 then InstructionFormat.SW
    else if opcode =? 41 then InstructionFormat.SH
    else if opcode =? 40 then InstructionFormat.SB
    else if opcode =? 4 then InstructionFormat.BEQ
    else if opcode =? 5 then InstructionFormat.BNE
    else if opcode =? 6 then InstructionFormat.BLEZ
    else if opcode =? 7 then InstructionFormat.BGTZ
    else if opcode =? 15 then InstructionFormat.LUI
    else if opcode =? 2 then InstructionFormat.J
    else if opcode =? 3 then InstructionFormat.JAL
    else InstructionFormat.UNKNOWN.

(** [Instruction::Instruction(machineCode, address)], that is [decode()]
    over storage [u]: each branch assigns the fields of its format only,
    and the others keep what [u] holds. *)
Definition decode (u : t) (machineCode address : Z) : t :=
  let opcode := Z.land (Z.shiftr machineCode 26) 63 in
  if opcode =? 0 then
    let funct := Z.land machineCode 63 in
    {| machineCode := machineCode; type := InstructionType.R_TYPE;
       format := getInstructionFormat opcode funct;
       rs := Z.land (Z.shiftr machineCode 21) 31;
       rt := Z.land (Z.shiftr machineCode 16) 31;
       rd := Z.land (Z.shiftr machineCode 11) 31;
       shamt := Z.land (Z.shiftr machineCode 6) 31;
       funct := funct;
       immediate := immediate u; signedImmediate := signedImmediate u;
       jumpTarget := jumpTarget u; opcode := opcode; address := address;
       valid := valid u |}
  else if (opcode =? 2) || (opcode =? 3) then
    {| machineCode := machineCode; type := InstructionType.J_TYPE;
       format := if opcode =? 2 then InstructionFormat.J else InstructionFormat.JAL;
       rs := rs u; rt := rt u; rd := rd u; shamt := shamt u; funct := funct u;
       immediate := immediate u; signedImmediate := signedImmediate u;
       jumpTarget := Z.land machineCode 67108863;
       opcode := opcode; address := address; valid := valid u |}
  else
    let immediate := Z.land machineCode 65535 in
    {| machineCode := machineCode; type := InstructionType.I_TYPE;
       format := getInstructionFormat opcode 0;
       rs := Z.land (Z.shiftr machineCode 21) 31;
       rt := Z.land (Z.shiftr machineCode 16) 31;
       rd := rd u; shamt := shamt u; funct := funct u;
       immediate := immediate; signedImmediate := s16 immediate;
       jumpTarget := jumpTarget u; opcode := opcode; address := address;
       valid := valid u |}.

Definition isBranch (i : t) : bool :=
  match format i with
  | InstructionFormat.BEQ | InstructionFormat.BNE | InstructionFormat.BLEZ
  | InstructionFormat.BGTZ | InstructionFormat.BLTZ | InstructionFormat.BGEZ => true
  | _ => false
  end.

Definition isJump (i : t) : bool :=
  match format i with
  | InstructionFormat.J | InstructionFormat.JAL | InstructionFormat.JR
  | InstructionFormat.JALR => true
  | _ => false
  end.

Definition isLoad (i : t) : bool :=
  match format i with
  | InstructionFormat.LW | InstructionFormat.LH | InstructionFormat.LB
  | InstructionFormat.LBU | InstructionFormat.LHU => true
  | _ => false
  end.

Definition isStore (i : t) : bool :=
  match format i with
  | InstructionFormat.SW | InstructionFormat.SH | InstructionFormat.SB => true
  | _ => false
  end.

Definition is_R (i : t) : bool :=
  match type i with InstructionType.R_TYPE => true | _ => false end.

Definition is_I (i : t) : bool :=
  match type i with InstructionType.I_TYPE => true | _ => false end.

Definition usesRS (i : t) : bool :=
  is_I i
  || (is_R i && match format i with InstructionFormat.NOP => false | _ => true end).

Definition usesRT (i : t) : bool :=
  (is_R i && match format i with InstructionFormat.JR => false | _ => true end)
  || (is_I i && negb (isLoad i)
      && match format i with InstructionFormat.LUI => false | _ => true end).

Definition writesRD (i : t) : bool :=
  is_R i
  && match format i with
     | InstructionFormat.JR | InstructionFormat.NOP => false
     | _ => true
     end.

Definition writesRT (i : t) : bool :=
  is_I i
  && (isLoad i
      || match format i with
         | InstructionFormat.ADDI | InstructionFormat.ANDI
         | InstructionFormat.ORI | InstructionFormat.LUI => true
         | _ => false
         end).

End Instruction.

(** ** HazardDetection.hpp / HazardDetection.cpp *)

Module HazardType.
Inductive t :=
  | NONE | DATA_HAZARD_RAW | DATA_HAZARD_WAR | DATA_HAZARD_WAW
  | CONTROL_HAZARD | STRUCTURAL_HAZARD.
End HazardType.

Module ForwardingPath.
Record t := mk
  { enable : bool; sourceStage : Z; targetStage : Z; reg : Z; value : Z }.
End ForwardingPath.

Module HazardDetection.

Record t := mk
  { forwardingPaths : list ForwardingPath.t;
    dataHazards : Z; controlHazards : Z; structuralHazards : Z;
    forwardingEvents : Z; stallsInserted : Z }.

Definition new : t :=
  {| forwardingPaths := []; dataHazards := 0; controlHazards := 0;
     structuralHazards := 0; forwardingEvents := 0; stallsInserted := 0 |}.

Definition detectDataHazard (current previous : Instruction.t) : bool :=
  if negb (Instruction.valid previous) then false
  else if Instruction.writesRD previous || Instruction.writesRT previous then
    let writeReg := if Instruction.writesRD previous
                    then Instruction.rd previous else Instruction.rt previous in
    if Instruction.usesRS current && (Instruction.rs current =? writeReg) then true
    else if Instruction.usesRT current && (Instruction.rt current =? writeReg) then true
    else false
  else false.

Definition detectControlHazard (instruction : Instruction.t) : bool :=
  Instruction.isBranch instruction || Instruction.isJump instruction.

Definition detectHazard (current inEX inMEM inWB : Instruction.t) (h : t)
  : HazardType.t * t :=
  if detectDataHazard current inEX || detectDataHazard current inMEM
     || detectDataHazard current inWB
  then (HazardType.DATA_HAZARD_RAW,
        {| forwardingPaths := forwardingPaths h;
           dataHazards := u64 (dataHazards h + 1);
           controlHazards := controlHazards h;
           structuralHazards := structuralHazards h;
           forwardingEvents := forwardingEvents h;
           stallsInserted := stallsInserted h |})
  else if detectControlHazard current
  then (HazardType.CONTROL_HAZARD,
        {| forwardingPaths := forwardingPaths h;
           dataHazards := dataHazards h;
           controlHazards := u64 (controlHazards h + 1);
           structuralHazards := structuralHazards h;
           forwardingEvents := forwardingEvents h;
           stallsInserted := stallsInserted h |})
  else (HazardType.NONE, h).

Definition setupForwarding (reg sourceStage value : Z) (h : t) : t :=
  {| forwardingPaths :=
       forwardingPaths h ++
       [ {| ForwardingPath.enable := true;
            ForwardingPath.sourceStage := sourceStage;
            ForwardingPath.targetStage := 2;
            ForwardingPath.reg := reg;
            ForwardingPath.value := value |} ];
     dataHazards := dataHazards h; controlHazards := controlHazards h;
     structuralHazards := structuralHazards h;
     forwardingEvents := forwardingEvents h;
     stallsInserted := stallsInserted h |}.

Fixpoint first_path (paths : list ForwardingPath.t) (reg defaultValue : Z) : Z :=
  match paths with
  | [] => defaultValue
  | path :: rest =>
      if ForwardingPath.enable path && (ForwardingPath.reg path =? reg)
      then ForwardingPath.value path
      else first_path rest reg defaultValue
  end.

Definition getForwardedValue (reg defaultValue : Z) (h : t) : Z :=
  first_path (forwardingPaths h) reg defaultValue.

Definition detectLoadUseHazard (load use : Instruction.t) : bool :=
  if negb (Instruction.isLoad load) then false
  else
    let loadReg := Instruction.rt load in
    if Instruction.usesRS use && (Instruction.rs use =? loadReg) then true
    else if Instruction.usesRT use && (Instruction.rt use =? loadReg) then true
    else false.

Definition shouldStall (current inEX inMEM : Instruction.t) (h : t) : bool * t :=
  if detectLoadUseHazard inEX current
  then (true,
        {| forwardingPaths := forwardingPaths h;
           dataHazards := dataHazards h; controlHazards := controlHazards h;
           structuralHazards := structuralHazards h;
           forwardingEvents := forwardingEvents h;
           stallsInserted := u64 (stallsInserted h + 1) |})
  else (false, h).

Definition shouldFlush (branch : Instruction.t) : bool :=
  Instruction.isBranch branch || Instruction.isJump branch.

Definition clearForwarding (h : t) : t :=
  {| forwardingPaths := []; dataHazards := dataHazards h;
     controlHazards := controlHazards h; structuralHazards := structuralHazards h;
     forwardingEvents := forwardingEvents h; stallsInserted := stallsInserted h |}.

End HazardDetection.

(** ** Pipeline.hpp / Pipeline.cpp *)

Module PipelineStage.

Record t := mk
  { valid : bool;
    instruction : Instruction.t;
    pc : Z;
    aluResult : Z; memoryData : Z; writeData : Z; writeReg : Z;
    regWrite : bool; memRead : bool; memWrite : bool;
    branch : bool; jump : bool }.

(** [PipelineStage()], over storage [u]: the constructor initialises the
    flags and the instruction, nothing else. *)
Definition new (u : t) : t :=
  {| valid := false; instruction := Instruction.new (instruction u);
     pc := pc u; aluResult := aluResult u; memoryData := memoryData u;
     writeData := writeData u; writeReg := writeReg u;
     regWrite := false; memRead := false; memWrite := false;
     branch := false; jump := false |}.

Definition set_valid (b : bool) (g : t) : t :=
  {| valid := b; instruction := instruction g; pc := pc g;
     aluResult := aluResult g; memoryData := memoryData g;
     writeData := writeData g; writeReg := writeReg g;
     regWrite := regWrite g; memRead := memRead g; memWrite := memWrite g;
     branch := branch g; jump := jump g |}.

Definition set_aluResult (x : Z) (g : t) : t :=
  {| valid := valid g; instruction := instruction g; pc := pc g;
     aluResult := x; memoryData := memoryData g;
     writeData := writeData g; writeReg := writeReg g;
     regWrite := regWrite g; memRead := memRead g; memWrite := memWrite g;
     branch := branch g; jump := jump g |}.

Definition set_memoryData (x : Z) (g : t) : t :=
  {| valid := valid g; instruction := instruction g; pc := pc g;
     aluResult := aluResult g; memoryData := x;
     writeData := writeData g; writeReg := writeReg g;
     regWrite := regWrite g; memRead := memRead g; memWrite := memWrite g;
     branch := branch g; jump := jump g |}.

Definition set_writeData (x : Z) (g : t) : t :=
  {| valid := valid g; instruction := instruction g; pc := pc g;
     aluResult := aluResult g; memoryData := memoryData g;
     writeData := x; writeReg := writeReg g;
     regWrite := regWrite g; memRead := memRead g; memWrite := memWrite g;
     branch := branch g; jump := jump g |}.

End PipelineStage.

Module Pipeline.

Record t := mk
  { IF_ID : PipelineStage.t; ID_EX : PipelineStage.t;
    EX_MEM : PipelineStage.t; MEM_WB : PipelineStage.t;
    hazardUnit : HazardDetection.t;
    stall : bool; flush : bool;
    stallCycles : Z; flushCycles : Z }.

(** [Pipeline::Pipeline()], over storage [u]. *)
Definition new (u : t) : t :=
  {| IF_ID := PipelineStage.new (IF_ID u); ID_EX := PipelineStage.new (ID_EX u);
     EX_MEM := PipelineStage.new (EX_MEM u); MEM_WB := PipelineStage.new (MEM_WB u);
     hazardUnit := HazardDetection.new; stall := false; flush := false;
     stallCycles := 0; flushCycles := 0 |}.

Definition set_IF_ID (g : PipelineStage.t) (p : t) : t :=
  {| IF_ID := g; ID_EX := ID_EX p; EX_MEM := EX_MEM p; MEM_WB := MEM_WB p;
     hazardUnit := hazardUnit p; stall := stall p; flush := flush p;
     stallCycles := stallCycles p; flushCycles := flushCycles p |}.

Definition set_ID_EX (g : PipelineStage.t) (p : t) : t :=
  {| IF_ID := IF_ID p; ID_EX := g; EX_MEM := EX_MEM p; MEM_WB := MEM_WB p;
     hazardUnit := hazardUnit p; stall := stall p; flush := flush p;
     stallCycles := stallCycles p; flushCycles := flushCycles p |}.

Definition set_EX_MEM (g : PipelineStage.t) (p : t) : t :=
  {| IF_ID := IF_ID p; ID_EX := ID_EX p; EX_MEM := g; MEM_WB := MEM_WB p;
     hazardUnit := hazardUnit p; stall := stall p; flush := flush p;
     stallCycles := stallCycles p; flushCycles := flushCycles p |}.

Definition set_MEM_WB (g : PipelineStage.t) (p : t) : t :=
  {| IF_ID := IF_ID p; ID_EX := ID_EX p; EX_MEM := EX_MEM p; MEM_WB := g;
     hazardUnit := hazardUnit p; stall := stall p; flush := flush p;
     stallCycles := stallCycles p; flushCycles := flushCycles p |}.

Definition set_hazardUnit (h : HazardDetection.t) (p : t) : t :=
  {| IF_ID := IF_ID p; ID_EX := ID_EX p; EX_MEM := EX_MEM p; MEM_WB := MEM_WB p;
     hazardUnit := h; stall := stall p; flush := flush p;
     stallCycles := stallCycles p; flushCycles := flushCycles p |}.

Definition set_stall (b : bool) (p : t) : t :=
  {| IF_ID := IF_ID p; ID_EX := ID_EX p; EX_MEM := EX_MEM p; MEM_WB := MEM_WB p;
     hazardUnit := hazardUnit p; stall := b; flush := flush p;
     stallCycles := stallCycles p; flushCycles := flushCycles p |}.

Definition set_flush (b : bool) (p : t) : t :=
  {| IF_ID := IF_ID p; ID_EX := ID_EX p; EX_MEM := EX_MEM p; MEM_WB := MEM_WB p;
     hazardUnit := hazardUnit p; stall := stall p; flush := b;
     stallCycles := stallCycles p; flushCycles := flushCycles p |}.

Definition set_stallCycles (n : Z) (p : t) : t :=
  {| IF_ID := IF_ID p; ID_EX := ID_EX p; EX_MEM := EX_MEM p; MEM_WB := MEM_WB p;
     hazardUnit := hazardUnit p; stall := stall p; flush := flush p;
     stallCycles := n; flushCycles := flushCycles p |}.

Definition set_flushCycles (n : Z) (p : t) : t :=
  {| IF_ID := IF_ID p; ID_EX := ID_EX p; EX_MEM := EX_MEM p; MEM_WB := MEM_WB p;
     hazardUnit := hazardUnit p; stall := stall p; flush := flush p;
     stallCycles := stallCycles p; flushCycles := n |}.

(** [address + 3 < memory.size()]: the sum is a [uint32_t]. *)
Definition getMemoryWord (memory : list Z) (address : Z) : option Z :=
  if u32 (address + 3) <? Z.of_nat (length memory)
  then word_at memory address else Some 0.

Definition setMemoryWord (memory : list Z) (address value : Z) : option (list Z) :=
  if u32 (address + 3) <? Z.of_nat (length memory)
  then store_word memory address value else Some memory.

Definition performALU (op1 op2 : Z) (format : InstructionFormat.t) : Z :=
  match format with
  | InstructionFormat.ADD | InstructionFormat.ADDI
  | InstructionFormat.LW | InstructionFormat.SW => u32 (op1 + op2)
  | InstructionFormat.SUB => u32 (op1 - op2)
  | InstructionFormat.AND | InstructionFormat.ANDI => Z.land op1 op2
  | InstructionFormat.OR | InstructionFormat.ORI => Z.lor op1 op2
  | InstructionFormat.NOR => u32 (Z.lnot (Z.lor op1 op2))
  | InstructionFormat.SLT | InstructionFormat.SLTI =>
      if s32 op1 <? s32 op2 then 1 else 0
  | _ => 0
  end.

Definition stallPipeline (p : t) : t := set_stall true p.

Definition flushPipeline (p : t) : t :=
  let p := set_IF_ID (PipelineStage.set_valid false (IF_ID p)) p in
  let p := set_ID_EX (PipelineStage.set_valid false (ID_EX p)) p in
  set_flush true p.

Definition executeIF (instruction : Instruction.t) (pc : Z) (p : t) : t :=
  if negb (stall p) then
    let g := IF_ID p in
    set_IF_ID
      {| PipelineStage.valid := true;
         PipelineStage.instruction := instruction;
         PipelineStage.pc := pc;
         PipelineStage.aluResult := PipelineStage.aluResult g;
         PipelineStage.memoryData := PipelineStage.memoryData g;
         PipelineStage.writeData := PipelineStage.writeData g;
         PipelineStage.writeReg := PipelineStage.writeReg g;
         PipelineStage.regWrite := PipelineStage.regWrite g;
         PipelineStage.memRead := PipelineStage.memRead g;
         PipelineStage.memWrite := PipelineStage.memWrite g;
         PipelineStage.branch := PipelineStage.branch g;
         PipelineStage.jump := PipelineStage.jump g |} p
  else p.

(** [executeID] receives the register file and never looks at it. *)
Definition executeID (registers : list Z) (p : t) : t :=
  if flush p then set_ID_EX (PipelineStage.set_valid false (ID_EX p)) p
  else if PipelineStage.valid (IF_ID p) then
    let g := IF_ID p in
    let instr := PipelineStage.instruction g in
    let p :=
      set_ID_EX
        {| PipelineStage.valid := true;
           PipelineStage.instruction := instr;
           PipelineStage.pc := PipelineStage.pc g;
           PipelineStage.aluResult := PipelineStage.aluResult g;
           PipelineStage.memoryData := PipelineStage.memoryData g;
           PipelineStage.writeData := PipelineStage.writeData g;
           PipelineStage.writeReg :=
             if Instruction.writesRD instr then Instruction.rd instr
             else if Instruction.writesRT instr then Instruction.rt instr
             else PipelineStage.writeReg g;
           PipelineStage.regWrite :=
             Instruction.writesRD instr || Instruction.writesRT instr;
           PipelineStage.memRead := Instruction.isLoad instr;
           PipelineStage.memWrite := Instruction.isStore instr;
           PipelineStage.branch := Instruction.isBranch instr;
           PipelineStage.jump := Instruction.isJump instr |} p in
    set_IF_ID (PipelineStage.set_valid false (IF_ID p)) p
  else p.

(** [executeEX] and [executeMEM] read [registers[...]], but neither takes
    a register file and Pipeline.hpp declares no member of that name: what
    such a read yields is the parameter [stage_registers]. *)
Definition EX_op1 (stage_registers : Z → Z) (p : t) : Z :=
  let instr := PipelineStage.instruction (ID_EX p) in
  HazardDetection.getForwardedValue (Instruction.rs instr)
    (stage_registers (Instruction.rs instr)) (hazardUnit p).

Definition EX_op2 (stage_registers : Z → Z) (p : t) : Z :=
  let instr := PipelineStage.instruction (ID_EX p) in
  let op2 := if Instruction.is_I instr then u32 (Instruction.signedImmediate instr)
             else stage_registers (Instruction.rt instr) in
  if Instruction.is_R instr
  then HazardDetection.getForwardedValue (Instruction.rt instr) op2 (hazardUnit p)
  else op2.

(** The [switch] of the branch calculation. *)
Definition EX_taken (stage_registers : Z → Z) (p : t) : bool :=
  let op1 := EX_op1 stage_registers p in
  let op2 := EX_op2 stage_registers p in
  match Instruction.format (PipelineStage.instruction (ID_EX p)) with
  | InstructionFormat.BEQ => op1 =? op2
  | InstructionFormat.BNE => negb (op1 =? op2)
  | _ => false
  end.

Definition executeEX (stage_registers : Z → Z) (p : t) : t :=
  if PipelineStage.valid (ID_EX p) then
    let instr := PipelineStage.instruction (ID_EX p) in
    let op1 := EX_op1 stage_registers p in
    let op2 := EX_op2 stage_registers p in
    let taken := EX_taken stage_registers p in
    let p := set_EX_MEM (PipelineStage.set_valid true (ID_EX p)) p in
    let p := set_EX_MEM
               (PipelineStage.set_aluResult
                  (performALU op1 op2 (Instruction.format instr)) (EX_MEM p)) p in
    let p := if Instruction.isBranch instr && taken then set_flush true p else p in
    set_ID_EX (PipelineStage.set_valid false (ID_EX p)) p
  else p.

Definition executeMEM (stage_registers : Z → Z) (memory : list Z) (p : t)
  : option (t * list Z) :=
  if PipelineStage.valid (EX_MEM p) then
    let p := set_MEM_WB (PipelineStage.set_valid true (EX_MEM p)) p in
    let instr := PipelineStage.instruction (MEM_WB p) in
    '(p, memory) ←
      (if Instruction.isLoad instr then
         let address := PipelineStage.aluResult (EX_MEM p) in
         w ← getMemoryWord memory address;
         let p := set_MEM_WB (PipelineStage.set_memoryData w (MEM_WB p)) p in
         Some (set_MEM_WB (PipelineStage.set_writeData
                             (PipelineStage.memoryData (MEM_WB p)) (MEM_WB p)) p,
               memory)
       else if Instruction.isStore instr then
         let address := PipelineStage.aluResult (EX_MEM p) in
         let data := stage_registers (Instruction.rt instr) in
         m ← setMemoryWord memory address data;
         Some (p, m)
       else
         Some (set_MEM_WB (PipelineStage.set_writeData
                             (PipelineStage.aluResult (EX_MEM p)) (MEM_WB p)) p,
               memory));
    Some (set_EX_MEM (PipelineStage.set_valid false (EX_MEM p)) p, memory)
  else Some (p, memory).

Definition executeWB (registers : list Z) (p : t) : option (t * list Z) :=
  if PipelineStage.valid (MEM_WB p) && PipelineStage.regWrite (MEM_WB p) then
    '(p, registers) ←
      (if negb (PipelineStage.writeReg (MEM_WB p) =? 0) then
         r ← vec_set registers (PipelineStage.writeReg (MEM_WB p))
                     (PipelineStage.writeData (MEM_WB p));
         Some (set_hazardUnit
                 (HazardDetection.setupForwarding
                    (PipelineStage.writeReg (MEM_WB p)) 4
                    (PipelineStage.writeData (MEM_WB p)) (hazardUnit p)) p,
               r)
       else Some (p, registers));
    Some (set_MEM_WB (PipelineStage.set_valid false (MEM_WB p)) p, registers)
  else Some (p, registers).

(** [Pipeline::tick]: the pipeline, the register file and the memory it
    leaves. *)
Definition tick (stage_registers : Z → Z) (fetchedInstruction : Instruction.t)
    (pc : Z) (registers memory : list Z) (p : t)
  : option (t * list Z * list Z) :=
  let '(hazard, h) :=
    HazardDetection.detectHazard fetchedInstruction
      (PipelineStage.instruction (ID_EX p))
      (PipelineStage.instruction (EX_MEM p))
      (PipelineStage.instruction (MEM_WB p)) (hazardUnit p) in
  let p := set_hazardUnit h p in
  let '(stalled, p) :=
    match hazard with
    | HazardType.DATA_HAZARD_RAW =>
        let '(s, h) :=
          HazardDetection.shouldStall fetchedInstruction
            (PipelineStage.instruction (ID_EX p))
            (PipelineStage.instruction (EX_MEM p)) (hazardUnit p) in
        let p := set_hazardUnit h p in
        if s then (true, set_stallCycles (u64 (stallCycles p + 1)) (stallPipeline p))
        else (false, p)
    | _ => (false, p)
    end in
  if stalled then Some (p, registers, memory)
  else
    let p :=
      match hazard with
      | HazardType.CONTROL_HAZARD =>
          if HazardDetection.shouldFlush (PipelineStage.instruction (ID_EX p))
          then set_flushCycles (u64 (flushCycles p + 1)) (flushPipeline p)
          else p
      | _ => p
      end in
    '(p, registers) ← executeWB registers p;
    '(p, memory) ← executeMEM stage_registers memory p;
    let p := executeEX stage_registers p in
    let p := executeID registers p in
    let p := executeIF fetchedInstruction pc p in
    Some (set_flush false (set_stall false p), registers, memory).

End Pipeline.

(** ** MIPS.hpp / MIPS.cpp: class MIPS

    The member [branchPredictor] is left out: MIPS.cpp never touches it. *)

Module MIPS.

Record t := mk
  { registers : list Z;
    pc : Z; hi : Z; lo : Z;
    memory : list Z;
    pipeline : Pipeline.t;
    instructions : list Instruction.t;
    stepMode : bool; pipelineEnabled : bool;
    cycleCount : Z; instructionCount : Z }.

Definition set_registers (r : list Z) (s : t) : t :=
  {| registers := r; pc := pc s; hi := hi s; lo := lo s; memory := memory s;
     pipeline := pipeline s; instructions := instructions s;
     stepMode := stepMode s; pipelineEnabled := pipelineEnabled s;
     cycleCount := cycleCount s; instructionCount := instructionCount s |}.

Definition set_pc (x : Z) (s : t) : t :=
  {| registers := registers s; pc := x; hi := hi s; lo := lo s; memory := memory s;
     pipeline := pipeline s; instructions := instructions s;
     stepMode := stepMode s; pipelineEnabled := pipelineEnabled s;
     cycleCount := cycleCount s; instructionCount := instructionCount s |}.

Definition set_memory (m : list Z) (s : t) : t :=
  {| registers := registers s; pc := pc s; hi := hi s; lo := lo s; memory := m;
     pipeline := pipeline s; instructions := instructions s;
     stepMode := stepMode s; pipelineEnabled := pipelineEnabled s;
     cycleCount := cycleCount s; instructionCount := instructionCount s |}.

Definition set_pipeline (p : Pipeline.t) (s : t) : t :=
  {| registers := registers s; pc := pc s; hi := hi s; lo := lo s;
     memory := memory s; pipeline := p; instructions := instructions s;
     stepMode := stepMode s; pipelineEnabled := pipelineEnabled s;
     cycleCount := cycleCount s; instructionCount := instructionCount s |}.

Definition set_counts (c i : Z) (s : t) : t :=
  {| registers := registers s; pc := pc s; hi := hi s; lo := lo s;
     memory := memory s; pipeline := pipeline s; instructions := instructions s;
     stepMode := stepMode s; pipelineEnabled := pipelineEnabled s;
     cycleCount := c; instructionCount := i |}.

(** [MIPS::MIPS()]: [u] is the storage the member [pipeline] is
    constructed over. *)
Definition new (u : Pipeline.t) : option t :=
  r ← vec_set (replicate 32 0) 29 2147479548;
  r ← vec_set r 28 268468224;
  Some {| registers := r; pc := 4194304; hi := 0; lo := 0;
          memory := replicate (Z.to_nat 1048576) 0;
          pipeline := Pipeline.new u; instructions := [];
          stepMode := false; pipelineEnabled := true;
          cycleCount := 0; instructionCount := 0 |}.

(** [MIPS::reset()]: [u] is the storage of the temporary [Pipeline()]. *)
Definition reset (u : Pipeline.t) (s : t) : option t :=
  r ← vec_set ((λ _, 0) <$> registers s) 29 2147479548;
  r ← vec_set r 28 268468224;
  Some {| registers := r; pc := 4194304; hi := 0; lo := 0;
          memory := (λ _, 0) <$> memory s;
          pipeline := Pipeline.new u; instructions := instructions s;
          stepMode := stepMode s; pipelineEnabled := pipelineEnabled s;
          cycleCount := 0; instructionCount := 0 |}.

Definition getMemoryWord (s : t) (address : Z) : option Z :=
  if u32 (address + 3) <? Z.of_nat (length (memory s))
  then word_at (memory s) address else Some 0.

Definition setMemoryWord (s : t) (address value : Z) : option t :=
  if u32 (address + 3) <? Z.of_nat (length (memory s))
  then m ← store_word (memory s) address value; Some (set_memory m s)
  else Some s.

Definition getMemoryByte (s : t) (address : Z) : option Z :=
  if address <? Z.of_nat (length (memory s)) then vec_get (memory s) address
  else Some 0.

Definition setMemoryByte (s : t) (address value : Z) : option t :=
  if address <? Z.of_nat (length (memory s))
  then m ← vec_set (memory s) address value; Some (set_memory m s)
  else Some s.

Definition getRegister (s : t) (reg : Z) : option Z :=
  if (0 <=? reg) && (reg <? 32) then vec_get (registers s) reg else Some 0.

Definition setRegister (s : t) (reg value : Z) : option t :=
  if (0 <? reg) && (reg <? 32)
  then r ← vec_set (registers s) reg value; Some (set_registers r s)
  else Some s.

(** [registers[d] = f(registers[instr.rs], registers[instr.rt])] *)
Definition rtype (instr : Instruction.t) (f : Z → Z → Z) (s : t) : option t :=
  a ← vec_get (registers s) (Instruction.rs instr);
  b ← vec_get (registers s) (Instruction.rt instr);
  r ← vec_set (registers s) (Instruction.rd instr) (f a b);
  Some (set_registers r s).

(** [registers[instr.rt] = f(registers[instr.rs])] *)
Definition itype (instr : Instruction.t) (f : Z → Z) (s : t) : option t :=
  a ← vec_get (registers s) (Instruction.rs instr);
  r ← vec_set (registers s) (Instruction.rt instr) (f a);
  Some (set_registers r s).

(** [instr.signedImmediate << 2] is taken as the multiplication by four
    also where the immediate is negative. *)
Definition executeSingleCycle (instr : Instruction.t) (s : t) : option t :=
  let nextPC := u32 (pc s + 4) in
  let simm := Instruction.signedImmediate instr in
  let branchPC := u32 (pc s + 4 + Z.shiftl simm 2) in
  let jumpPC := Z.lor (Z.land (pc s) 4026531840)
                      (u32 (Z.shiftl (Instruction.jumpTarget instr) 2)) in
  '(nextPC, s) ←
    match Instruction.format instr with
    | InstructionFormat.ADD =>
        s ← rtype instr (λ a b, u32 (a + b)) s; Some (nextPC, s)
    | InstructionFormat.SUB =>
        s ← rtype instr (λ a b, u32 (a - b)) s; Some (nextPC, s)
    | InstructionFormat.AND =>
        s ← rtype instr (λ a b, Z.land a b) s; Some (nextPC, s)
    | InstructionFormat.OR =>
        s ← rtype instr (λ a b, Z.lor a b) s; Some (nextPC, s)
    | InstructionFormat.NOR =>
        s ← rtype instr (λ a b, u32 (Z.lnot (Z.lor a b))) s; Some (nextPC, s)
    | InstructionFormat.SLT =>
        s ← rtype instr (λ a b, if s32 a <? s32 b then 1 else 0) s; Some (nextPC, s)
    | InstructionFormat.ADDI =>
        s ← itype instr (λ a, u32 (a + simm)) s; Some (nextPC, s)
    | InstructionFormat.ANDI =>
        s ← itype instr (λ a, Z.land a (Instruction.immediate instr)) s;
        Some (nextPC, s)
    | InstructionFormat.ORI =>
        s ← itype instr (λ a, Z.lor a (Instruction.immediate instr)) s;
        Some (nextPC, s)
    | InstructionFormat.LW =>
        a ← vec_get (registers s) (Instruction.rs instr);
        w ← getMemoryWord s (u32 (a + simm));
        r ← vec_set (registers s) (Instruction.rt instr) w;
        Some (nextPC, set_registers r s)
    | InstructionFormat.SW =>
        a ← vec_get (registers s) (Instruction.rs instr);
        v ← vec_get (registers s) (Instruction.rt instr);
        s ← setMemoryWord s (u32 (a + simm)) v;
        Some (nextPC, s)
    | InstructionFormat.BEQ =>
        a ← vec_get (registers s) (Instruction.rs instr);
        b ← vec_get (registers s) (Instruction.rt instr);
        Some (if a =? b then branchPC else nextPC, s)
    | InstructionFormat.BNE =>
        a ← vec_get (registers s) (Instruction.rs instr);
        b ← vec_get (registers s) (Instruction.rt instr);
        Some (if negb (a =? b) then branchPC else nextPC, s)
    | InstructionFormat.J => Some (jumpPC, s)
    | InstructionFormat.JAL =>
        r ← vec_set (registers s) 31 (u32 (pc s + 8));
        Some (jumpPC, set_registers r s)
    | InstructionFormat.JR =>
        a ← vec_get (registers s) (Instruction.rs instr); Some (a, s)
    | _ => Some (nextPC, s)
    end;
  r ← vec_set (registers s) 0 0;
  Some (set_pc nextPC (set_registers r s)).

(** [MIPS::step()]: [u] is the storage the fetched [Instruction] is
    constructed over, [stage_registers] what [Pipeline] reads as
    [registers[...]]. *)
Definition step (stage_registers : Z → Z) (u : Instruction.t) (s : t) : option t :=
  if u64 (4194304 + Z.of_nat (length (instructions s)) * 4) <=? pc s then Some s
  else
    let instrAddr := pc s in
    machineCode ← getMemoryWord s instrAddr;
    let instr := Instruction.decode u machineCode instrAddr in
    s ← (if pipelineEnabled s then
           '(p, r, m) ← Pipeline.tick stage_registers instr (pc s)
                          (registers s) (memory s) (pipeline s);
           Some (set_pipeline p (set_memory m (set_registers r s)))
         else executeSingleCycle instr s);
    let c := u64 (cycleCount s + 1) in
    let i := match Instruction.format instr with
             | InstructionFormat.NOP => instructionCount s
             | _ => u64 (instructionCount s + 1)
             end in
    Some (set_counts c i s).

(** The loop of [loadProgram] over the instructions still to store. *)
Fixpoint store_program (instrs : list Instruction.t) (addr : Z) (s : t) : option t :=
  match instrs with
  | [] => Some s
  | instr :: rest =>
      s ← setMemoryWord s addr (Instruction.machineCode instr);
      store_program rest (u32 (addr + 4)) s
  end.

(** [MIPS::loadProgram], from the vector [assembled] that
    [InstructionDecoder::assembleProgram] returned for the source text. *)
Definition loadProgram (assembled : list Instruction.t) (s : t) : option t :=
  let s := {| registers := registers s; pc := pc s; hi := hi s; lo := lo s;
              memory := memory s; pipeline := pipeline s;
              instructions := assembled;
              stepMode := stepMode s; pipelineEnabled := pipelineEnabled s;
              cycleCount := cycleCount s; instructionCount := instructionCount s |} in
  s ← store_program assembled 4194304 s;
  Some (set_counts 0 0 (set_pc 4194304 s)).

Definition enablePipeline (enable : bool) (s : t) : t :=
  {| registers := registers s; pc := pc s; hi := hi s; lo := lo s;
     memory := memory s; pipeline := pipeline s; instructions := instructions s;
     stepMode := stepMode s; pipelineEnabled := enable;
     cycleCount := cycleCount s; instructionCount := instructionCount s |}.

(** [MIPS::run]: [while (pc < 0x400000 + instructions.size() * 4)
    { step(); if (stepMode) break; }], at most [fuel] iterations; the inner
    [None] is a loop still running when the fuel is used up. *)
Fixpoint run (fuel : nat) (stage_registers : Z → Z) (u : Instruction.t) (s : t)
  : option (option t) :=
  match fuel with
  | O => Some None
  | S fuel =>
      if pc s <? u64 (4194304 + Z.of_nat (length (instructions s)) * 4) then
        s ← step stage_registers u s;
        if stepMode s then Some (Some s) else run fuel stage_registers u s
      else Some (Some s)
  end.

(** [n] calls of [step]. *)
Fixpoint steps (n : nat) (stage_registers : Z → Z) (u : Instruction.t) (s : t)
  : option t :=
  match n with
  | O => Some s
  | S n => s ← step stage_registers u s; steps n stage_registers u s
  end.

End MIPS.

(** ** instruction_decoder.cpp: class InstructionDecoder *)

Module InstructionDecoder.

Definition getInstructionName (instruction : Z) : string :=
  let opcode := Z.land (Z.shiftr instruction 26) 63 in
  let funct := Z.land instruction 63 in
  if opcode =? 0 then
    if funct =? Opcodes.FUNCT_ADD then "add"
    else if funct =? Opcodes.FUNCT_SUB then "sub"
    else if funct =? Opcodes.FUNCT_AND then "and"
    else if funct =? Opcodes.FUNCT_OR then "or"
    else if funct =? Opcodes.FUNCT_SLT then "slt"
    else if funct =? Opcodes.FUNCT_JR then "jr"
    else "unknown"
  else
    if opcode =? Opcodes.OPCODE_ADDI then "addi"
    else if opcode =? Opcodes.OPCODE_LW then "lw"
    else if opcode =? Opcodes.OPCODE_SW then "sw"
    else if opcode =? Opcodes.OPCODE_BEQ then "beq"
    else if opcode =? Opcodes.OPCODE_BNE then "bne"
    else if opcode =? Opcodes.OPCODE_J then "j"
    else if opcode =? Opcodes.OPCODE_JAL then "jal"
    else "unknown".

Definition reg_names : list string :=
  [ "$zero"; "$at"; "$v0"; "$v1"; "$a0"; "$a1"; "$a2"; "$a3";
    "$t0"; "$t1"; "$t2"; "$t3"; "$t4"; "$t5"; "$t6"; "$t7";
    "$s0"; "$s1"; "$s2"; "$s3"; "$s4"; "$s5"; "$s6"; "$s7";
    "$t8"; "$t9"; "$k0"; "$k1"; "$gp"; "$sp"; "$fp"; "$ra" ].

Definition getRegisterName (reg : Z) : option string :=
  if (0 <=? reg) && (reg <? 32) then vec_get reg_names reg else Some "$unknown".

Definition isRType (opcode : Z) : bool := opcode =? 0.
Definition isIType (opcode : Z) : bool :=
  negb (opcode =? 0) && negb (opcode =? 2) && negb (opcode =? 3).
Definition isJType (opcode : Z) : bool := (opcode =? 2) || (opcode =? 3).

End InstructionDecoder.

(** ** cli_interface.cpp: class CLIInterface

    The commands that reach the simulator, without what they print. *)

Module CLIInterface.

(** The loop of [run_simulation]: the count it reports, whether it gave
    the warning of the 10000-instruction guard, and the simulator it
    leaves.  The inner [None] is a loop still running when [fuel] is
    used up. *)
Fixpoint run_simulation_loop (fuel : nat) (instructions : Z) (s : MIPSSimulator.t)
  : option (option (Z * bool * MIPSSimulator.t)) :=
  match fuel with
  | O => Some None
  | S fuel =>
      if MIPSSimulator.halted s then Some (Some (instructions, false, s))
      else
        '(r, s) ← MIPSSimulator.step s;
        if negb (r : bool) then Some (Some (instructions, false, s))
        else
          instructions ← int_incr instructions;
          if 10000 <? instructions then Some (Some (instructions, true, s))
          else run_simulation_loop fuel instructions s
  end.

Definition run_simulation (fuel : nat) (s : MIPSSimulator.t)
  : option (option (Z * bool * MIPSSimulator.t)) :=
  run_simulation_loop fuel 0 s.

End CLIInterface.

(** ** pipeline.cpp, pipeline.hpp: the [Pipeline] class of pipeline registers

    The second class of the name [Pipeline], the one declared in
    [pipeline.hpp] around a [PipelineRegister] struct.  The module takes
    the name of the struct, [Pipeline] being the module of [Pipeline.cpp].
    [uint32_t] and [uint8_t] fields are [Z]. *)

Module PipelineRegister.

Record t := {
  if_id_pc : Z;
  if_id_instruction : Z;
  if_id_valid : bool;
  id_ex_pc : Z;
  id_ex_rs_data : Z;
  id_ex_rt_data : Z;
  id_ex_immediate : Z;
  id_ex_rs : Z;
  id_ex_rt : Z;
  id_ex_rd : Z;
  id_ex_opcode : Z;
  id_ex_funct : Z;
  id_ex_reg_write : bool;
  id_ex_mem_read : bool;
  id_ex_mem_write : bool;
  id_ex_branch : bool;
  id_ex_jump : bool;
  id_ex_valid : bool;
  ex_mem_pc : Z;
  ex_mem_alu_result : Z;
  ex_mem_rt_data : Z;
  ex_mem_rd : Z;
  ex_mem_reg_write : bool;
  ex_mem_mem_read : bool;
  ex_mem_mem_write : bool;
  ex_mem_zero : bool;
  ex_mem_valid : bool;
  mem_wb_alu_result : Z;
  mem_wb_mem_data : Z;
  mem_wb_rd : Z;
  mem_wb_reg_write : bool;
  mem_wb_mem_to_reg : bool;
  mem_wb_valid : bool
}.

End PipelineRegister.

Module RegisterPipeline.
Import PipelineRegister.

Record t := {
  registers : PipelineRegister.t;
  stall_stages : list bool;
  flush_stages : list bool
}.

Definition set_registers (r : PipelineRegister.t) (p : t) : t :=
  {| registers := r; stall_stages := stall_stages p; flush_stages := flush_stages p |}.

(** [std::fill(v.begin(), v.end(), false)] *)
Definition fill_false (v : list bool) : list bool := replicate (length v) false.

(** [reset]: every field of the struct is assigned. *)
Definition reset (p : t) : t :=
  {| registers :=
     {| if_id_pc := 0;
        if_id_instruction := 0;
        if_id_valid := false;
        id_ex_pc := 0;
        id_ex_rs_data := 0;
        id_ex_rt_data := 0;
        id_ex_immediate := 0;
        id_ex_rs := 0;
        id_ex_rt := 0;
        id_ex_rd := 0;
        id_ex_opcode := 0;
        id_ex_funct := 0;
        id_ex_reg_write := false;
        id_ex_mem_read := false;
        id_ex_mem_write := false;
        id_ex_branch := false;
        id_ex_jump := false;
        id_ex_valid := false;
        ex_mem_pc := 0;
        ex_mem_alu_result := 0;
        ex_mem_rt_data := 0;
        ex_mem_rd := 0;
        ex_mem_reg_write := false;
        ex_mem_mem_read := false;
        ex_mem_mem_write := false;
        ex_mem_zero := false;
        ex_mem_valid := false;
        mem_wb_alu_result := 0;
        mem_wb_mem_data := 0;
        mem_wb_rd := 0;
        mem_wb_reg_write := false;
        mem_wb_mem_to_reg := false;
        mem_wb_valid := false |};
     stall_stages := fill_false (stall_stages p);
     flush_stages := fill_false (flush_stages p) |}.

(** The constructor calls [reset] on the object as it is allocated (the
    struct [u] not initialised, the vectors empty) and then resizes the
    two vectors. *)
Definition new (u : PipelineRegister.t) : t :=
  let p := reset {| registers := u; stall_stages := []; flush_stages := [] |} in
  {| registers := registers p;
     stall_stages := resize 5 false (stall_stages p);
     flush_stages := resize 5 false (flush_stages p) |}.

Definition insertStall (p : t) : t :=
  let r := registers p in
  {| registers :=
     {| if_id_pc := if_id_pc r;
        if_id_instruction := if_id_instruction r;
        if_id_valid := if_id_valid r;
        id_ex_pc := id_ex_pc r;
        id_ex_rs_data := id_ex_rs_data r;
        id_ex_rt_data := id_ex_rt_data r;
        id_ex_immediate := id_ex_immediate r;
        id_ex_rs := id_ex_rs r;
        id_ex_rt := id_ex_rt r;
        id_ex_rd := id_ex_rd r;
        id_ex_opcode := id_ex_opcode r;
        id_ex_funct := id_ex_funct r;
        id_ex_reg_write := false;
        id_ex_mem_read := false;
        id_ex_mem_write := false;
        id_ex_branch := false;
        id_ex_jump := false;
        id_ex_valid := false;
        ex_mem_pc := ex_mem_pc r;
        ex_mem_alu_result := ex_mem_alu_result r;
        ex_mem_rt_data := ex_mem_rt_data r;
        ex_mem_rd := ex_mem_rd r;
        ex_mem_reg_write := ex_mem_reg_write r;
        ex_mem_mem_read := ex_mem_mem_read r;
        ex_mem_mem_write := ex_mem_mem_write r;
        ex_mem_zero := ex_mem_zero r;
        ex_mem_valid := ex_mem_valid r;
        mem_wb_alu_result := mem_wb_alu_result r;
        mem_wb_mem_data := mem_wb_mem_data r;
        mem_wb_rd := mem_wb_rd r;
        mem_wb_reg_write := mem_wb_reg_write r;
        mem_wb_mem_to_reg := mem_wb_mem_to_reg r;
        mem_wb_valid := mem_wb_valid r |};
     stall_stages := fill_false (stall_stages p);
     flush_stages := flush_stages p |}.

Definition flush (p : t) : t :=
  let r := registers p in
  {| registers :=
     {| if_id_pc := if_id_pc r;
        if_id_instruction := if_id_instruction r;
        if_id_valid := false;
        id_ex_pc := id_ex_pc r;
        id_ex_rs_data := id_ex_rs_data r;
        id_ex_rt_data := id_ex_rt_data r;
        id_ex_immediate := id_ex_immediate r;
        id_ex_rs := id_ex_rs r;
        id_ex_rt := id_ex_rt r;
        id_ex_rd := id_ex_rd r;
        id_ex_opcode := id_ex_opcode r;
        id_ex_funct := id_ex_funct r;
        id_ex_reg_write := false;
        id_ex_mem_read := false;
        id_ex_mem_write := false;
        id_ex_branch := false;
        id_ex_jump := false;
        id_ex_valid := false;
        ex_mem_pc := ex_mem_pc r;
        ex_mem_alu_result := ex_mem_alu_result r;
        ex_mem_rt_data := ex_mem_rt_data r;
        ex_mem_rd := ex_mem_rd r;
        ex_mem_reg_write := ex_mem_reg_write r;
        ex_mem_mem_read := ex_mem_mem_read r;
        ex_mem_mem_write := ex_mem_mem_write r;
        ex_mem_zero := ex_mem_zero r;
        ex_mem_valid := ex_mem_valid r;
        mem_wb_alu_result := mem_wb_alu_result r;
        mem_wb_mem_data := mem_wb_mem_data r;
        mem_wb_rd := mem_wb_rd r;
        mem_wb_reg_write := mem_wb_reg_write r;
        mem_wb_mem_to_reg := mem_wb_mem_to_reg r;
        mem_wb_valid := mem_wb_valid r |};
     stall_stages := stall_stages p;
     flush_stages := fill_false (flush_stages p) |}.

(** The loop over the five stages at the head of [advance], for one of
    the two vectors; an index past the end of the vector is undefined
    behaviour, [None]. *)
Definition any_stage (flags : list bool) : option bool :=
  b0 ← vec_get flags 0; b1 ← vec_get flags 1; b2 ← vec_get flags 2;
  b3 ← vec_get flags 3; b4 ← vec_get flags 4;
  Some (b0 || b1 || b2 || b3 || b4).

(** The part of [advance] under [// Normal pipeline advancement]: the
    assignments in their order, each stage taking the values of the stage
    before it as they were at the call. *)
Definition advance_registers (r : PipelineRegister.t) : PipelineRegister.t :=
  let instruction := if_id_instruction r in
  let opcode := Z.land (Z.shiftr instruction 26) 63 in
  let rs := Z.land (Z.shiftr instruction 21) 31 in
  let rt := Z.land (Z.shiftr instruction 16) 31 in
  let rd := Z.land (Z.shiftr instruction 11) 31 in
  let immediate := Z.land instruction 65535 in
  let funct := Z.land instruction 63 in
  let decoded {A} (new old : A) : A := if if_id_valid r then new else old in
  {| if_id_pc := if_id_pc r;
     if_id_instruction := if_id_instruction r;
     if_id_valid := false;
     id_ex_pc := if_id_pc r;
     id_ex_rs_data := id_ex_rs_data r;
     id_ex_rt_data := id_ex_rt_data r;
     id_ex_immediate := decoded immediate (id_ex_immediate r);
     id_ex_rs := decoded rs (id_ex_rs r);
     id_ex_rt := decoded rt (id_ex_rt r);
     id_ex_rd := decoded rd (id_ex_rd r);
     id_ex_opcode := decoded opcode (id_ex_opcode r);
     id_ex_funct := decoded funct (id_ex_funct r);
     id_ex_reg_write := decoded ((opcode =? 0) && negb (funct =? Opcodes.FUNCT_JR)
                              || (opcode =? Opcodes.OPCODE_ADDI) || (opcode =? Opcodes.OPCODE_LW))
                             (id_ex_reg_write r);
     id_ex_mem_read := decoded (opcode =? Opcodes.OPCODE_LW) (id_ex_mem_read r);
     id_ex_mem_write := decoded (opcode =? Opcodes.OPCODE_SW) (id_ex_mem_write r);
     id_ex_branch := decoded ((opcode =? Opcodes.OPCODE_BEQ) || (opcode =? Opcodes.OPCODE_BNE))
                          (id_ex_branch r);
     id_ex_jump := decoded ((opcode =? Opcodes.OPCODE_J) || (opcode =? Opcodes.OPCODE_JAL))
                        (id_ex_jump r);
     id_ex_valid := if_id_valid r;
     ex_mem_pc := id_ex_pc r;
     ex_mem_alu_result := 0;
     ex_mem_rt_data := id_ex_rt_data r;
     ex_mem_rd := if id_ex_opcode r =? 0 then id_ex_rd r else id_ex_rt r;
     ex_mem_reg_write := id_ex_reg_write r;
     ex_mem_mem_read := id_ex_mem_read r;
     ex_mem_mem_write := id_ex_mem_write r;
     ex_mem_zero := false;
     ex_mem_valid := id_ex_valid r;
     mem_wb_alu_result := ex_mem_alu_result r;
     mem_wb_mem_data := 0;
     mem_wb_rd := ex_mem_rd r;
     mem_wb_reg_write := ex_mem_reg_write r;
     mem_wb_mem_to_reg := ex_mem_mem_read r;
     mem_wb_valid := ex_mem_valid r |}.

Definition advance (p : t) : option t :=
  should_stall ← any_stage (stall_stages p);
  should_flush ← any_stage (flush_stages p);
  if should_flush : bool then Some (flush p)
  else if should_stall : bool then Some (insertStall p)
  else Some (set_registers (advance_registers (registers p)) p).

Definition detectDataHazard (p : t) : bool :=
  let r := registers p in
  if negb (id_ex_valid r) || negb (ex_mem_valid r) then false
  else if ex_mem_reg_write r && negb (ex_mem_rd r =? 0)
          && ((ex_mem_rd r =? id_ex_rs r) || (ex_mem_rd r =? id_ex_rt r)) then true
  else if ex_mem_mem_read r && negb (ex_mem_rd r =? 0)
          && ((ex_mem_rd r =? id_ex_rs r) || (ex_mem_rd r =? id_ex_rt r)) then true
  else false.

Definition detectControlHazard (p : t) : bool :=
  let r := registers p in
  id_ex_valid r && (id_ex_branch r || id_ex_jump r).

(** [getRegisters] hands out a reference to the struct; a client reads it
    and, through the overload that is not [const], assigns to it. *)
Definition getRegisters (p : t) : PipelineRegister.t := registers p.

End RegisterPipeline.

(** ** Sequences of calls

    What a client may do with a predictor between its construction and a
    reading of its statistics: any sequence of calls of the public
    methods. *)

Inductive Call :=
  | CallPredict (pc targetAddress : Z)
  | CallUpdate (pc : Z) (taken : bool) (targetAddress : Z)
  | CallReset.

Section Calls.
Context {D : Type} `{Double D}.

Definition call (c : Call) (b : BranchPredictor.t D) : option (BranchPredictor.t D) :=
  match c with
  | CallPredict pc targetAddress => snd <$> BranchPredictor.predict pc targetAddress b
  | CallUpdate pc taken targetAddress => BranchPredictor.update pc taken targetAddress b
  | CallReset => Some (BranchPredictor.reset b)
  end.

Fixpoint calls (cs : list Call) (b : BranchPredictor.t D) : option (BranchPredictor.t D) :=
  match cs with
  | [] => Some b
  | c :: cs => b ← call c b; calls cs b
  end.

(** The same for the map-based class, whose methods take no target. *)
Definition map_call (c : Call) (p : MapPredictor.t D) : option (MapPredictor.t D) :=
  match c with
  | CallPredict pc _ => snd <$> MapPredictor.predict pc p
  | CallUpdate pc taken _ => MapPredictor.update pc taken p
  | CallReset => Some (MapPredictor.reset p)
  end.

Fixpoint map_calls (cs : list Call) (p : MapPredictor.t D) : option (MapPredictor.t D) :=
  match cs with
  | [] => Some p
  | c :: cs => p ← map_call c p; map_calls cs p
  end.

End Calls.

(** ** The 2-bit counter as the specification words it

    Four states, strongly and weakly not taken, weakly and strongly taken;
    a taken branch moves one state towards [ST], a not-taken branch one
    state towards [SNT], and the two ends absorb. *)

Inductive TwoBit := SNT | WNT | WT | ST.

Definition twobit_code (q : TwoBit) : Z :=
  match q with SNT => 0 | WNT => 1 | WT => 2 | ST => 3 end.

Definition twobit_next (q : TwoBit) (taken : bool) : TwoBit :=
  match q, taken with
  | SNT, true => WNT | WNT, true => WT | WT, true => ST | ST, true => ST
  | SNT, false => SNT | WNT, false => SNT | WT, false => WNT | ST, false => WT
  end.

Definition twobit_predicts_taken (q : TwoBit) : bool :=
  match q with WT | ST => true | _ => false end.

(** ** Vocabulary of the statements *)

(** A table-size exponent the constructors can shift by: [1 << k] is
    computed in [int]. *)
Definition bits_ok (k : Z) : Prop := 0 ≤ k ≤ 30.

Section WellFormed.
Context {D : Type} `{Double D}.

(** The relation the constructors set up between a table and the number
    of index bits, which no method changes. *)
Definition bimodal_wf (p : BimodalPredictor.t D) : Prop :=
  bits_ok (BimodalPredictor.indexBits p)
  ∧ Z.of_nat (length (BimodalPredictor.table p)) = 2 ^ BimodalPredictor.indexBits p.

Definition gshare_wf (p : GsharePredictor.t D) : Prop :=
  bits_ok (GsharePredictor.indexBits p)
  ∧ bits_ok (GsharePredictor.historyBits p)
  ∧ Z.of_nat (length (GsharePredictor.table p)) = 2 ^ GsharePredictor.indexBits p.

Definition local_wf (p : LocalHistoryPredictor.t D) : Prop :=
  bits_ok (LocalHistoryPredictor.localHistoryBits p)
  ∧ bits_ok (LocalHistoryPredictor.patternHistoryBits p)
  ∧ Z.of_nat (length (LocalHistoryPredictor.localHistoryTable p))
    = 2 ^ LocalHistoryPredictor.localHistoryBits p
  ∧ Z.of_nat (length (LocalHistoryPredictor.patternHistoryTable p))
    = 2 ^ LocalHistoryPredictor.patternHistoryBits p.

Definition tournament_wf (p : TournamentPredictor.t D) : Prop :=
  gshare_wf (TournamentPredictor.globalPredictor p)
  ∧ local_wf (TournamentPredictor.localPredictor p)
  ∧ (∃ c, bits_ok c ∧ TournamentPredictor.choiceTableSize p = 2 ^ c)
  ∧ Z.of_nat (length (TournamentPredictor.choiceTable p))
    = TournamentPredictor.choiceTableSize p.

Definition predictor_wf (b : BranchPredictor.t D) : Prop :=
  match b with
  | BranchPredictor.Static _ | BranchPredictor.BTFN _ => True
  | BranchPredictor.Bimodal p => bimodal_wf p
  | BranchPredictor.Gshare p => gshare_wf p
  | BranchPredictor.LocalHistory p => local_wf p
  | BranchPredictor.Tournament p => tournament_wf p
  end.

(** The 2-bit bimodal predictor with its counters in range. *)
Definition bimodal2_wf (p : BimodalPredictor.t D) : Prop :=
  bimodal_wf p ∧ BimodalPredictor.twoBit p = true
  ∧ Forall (λ c, 0 ≤ c ≤ 3) (BimodalPredictor.table p).

(** What one [update] makes of the statistics, [predicted] being the
    prediction it compares the outcome with. *)
Definition stats_after (predicted taken : bool) (b : BranchStats.t D) : BranchStats.t D :=
  BranchStats.store_accuracy
    (BranchStats.count_outcome predicted taken (BranchStats.count_branch b)).

(** [correct + mispredicted == total] in [uint64_t], and
    [accuracy == correct / total] when [total] is not 0. *)
Definition stats_consistent (b : BranchStats.t D) : Prop :=
  u64 (BranchStats.correctPredictions b + BranchStats.mispredictions b)
  = BranchStats.totalBranches b
  ∧ (BranchStats.totalBranches b ≠ 0 →
     BranchStats.accuracy b
     = d_div (BranchStats.correctPredictions b) (BranchStats.totalBranches b)).

End WellFormed.

(** The parameters the factory can be given for a variant. *)
Definition params_ok (type : PredictorType.t) (param1 param2 : Z) : Prop :=
  match type with
  | PredictorType.STATIC_NOT_TAKEN | PredictorType.STATIC_TAKEN
  | PredictorType.STATIC_BTFN => True
  | PredictorType.BIMODAL_1BIT | PredictorType.BIMODAL_2BIT
  | PredictorType.TOURNAMENT => bits_ok param1
  | PredictorType.GSHARE | PredictorType.LOCAL_HISTORY =>
      bits_ok param1 ∧ bits_ok param2
  end.

(** How often a sequence calls [predict], and how often [update]. *)
Definition is_predict (c : Call) : bool :=
  match c with CallPredict _ _ => true | _ => false end.

Definition is_update (c : Call) : bool :=
  match c with CallUpdate _ _ _ => true | _ => false end.

Definition is_reset (c : Call) : bool :=
  match c with CallReset => true | _ => false end.

Fixpoint count_calls (f : Call → bool) (cs : list Call) : Z :=
  match cs with
  | [] => 0
  | c :: cs => (if f c then 1 else 0) + count_calls f cs
  end.

Section MapVocabulary.
Context {D : Type} `{Double D}.

(** What the map-based predictor predicts at [pc] in state [p], read off
    the table without touching it: a counter the table does not hold
    counts as not taken. *)
Definition map_prediction (pc : Z) (p : MapPredictor.t D) : bool :=
  match MapPredictor.predictor_type p with
  | MapPredictor.STATIC_NOT_TAKEN => false
  | MapPredictor.STATIC_TAKEN => true
  | MapPredictor.DYNAMIC_1BIT =>
      match MapPredictor.branch_history_table p !! pc with
      | Some c => c =? 1
      | None => false
      end
  | MapPredictor.DYNAMIC_2BIT =>
      match MapPredictor.branch_history_table p !! pc with
      | Some c => (c =? MapPredictor.WEAKLY_TAKEN) || (c =? MapPredictor.STRONGLY_TAKEN)
      | None => false
      end
  end.

End MapVocabulary.

(** Storage in which every scalar is 0 and every flag false: what the
    concrete runs below take the uninitialised fields to hold. *)
Definition zero_instruction : Instruction.t :=
  {| Instruction.machineCode := 0; Instruction.type := InstructionType.R_TYPE;
     Instruction.format := InstructionFormat.NOP;
     Instruction.rs := 0; Instruction.rt := 0; Instruction.rd := 0;
     Instruction.shamt := 0; Instruction.funct := 0; Instruction.immediate := 0;
     Instruction.signedImmediate := 0; Instruction.jumpTarget := 0;
     Instruction.opcode := 0; Instruction.address := 0;
     Instruction.valid := false |}.

Definition zero_stage : PipelineStage.t :=
  {| PipelineStage.valid := false; PipelineStage.instruction := zero_instruction;
     PipelineStage.pc := 0; PipelineStage.aluResult := 0;
     PipelineStage.memoryData := 0; PipelineStage.writeData := 0;
     PipelineStage.writeReg := 0; PipelineStage.regWrite := false;
     PipelineStage.memRead := false; PipelineStage.memWrite := false;
     PipelineStage.branch := false; PipelineStage.jump := false |}.

Definition zero_pipeline : Pipeline.t :=
  Pipeline.new
    {| Pipeline.IF_ID := zero_stage; Pipeline.ID_EX := zero_stage;
       Pipeline.EX_MEM := zero_stage; Pipeline.MEM_WB := zero_stage;
       Pipeline.hazardUnit := HazardDetection.new;
       Pipeline.stall := false; Pipeline.flush := false;
       Pipeline.stallCycles := 0; Pipeline.flushCycles := 0 |}.

(** A register file whose registers all hold 0, seen by [executeEX] and
    [executeMEM] as the same zeros. *)
Definition zero_registers : list Z := replicate 32 0.
Definition zero_stage_registers : Z → Z := λ _, 0.

(** The all-zero word fetched at [pc]. *)
Definition next_instruction (pc : Z) : Instruction.t :=
  Instruction.decode zero_instruction 0 pc.

(** Three branches at [0x400000], each with the offset 1:
    [beq $zero, $zero, 1] and [beq $t0, $t0, 1] compare a register with
    itself and are always taken, [bne $zero, $zero, 1] never is. *)
Definition beq_zero_instruction : Instruction.t :=
  Instruction.decode zero_instruction 268435457 4194304.

Definition bne_zero_instruction : Instruction.t :=
  Instruction.decode zero_instruction 335544321 4194304.

Definition beq_t0_instruction : Instruction.t :=
  Instruction.decode zero_instruction 285736961 4194304.

(** A register file in which [$t0] holds 1 and every other register 0,
    seen by [executeEX] and [executeMEM] as the same values. *)
Definition t0_registers : list Z := <[8%nat := 1]> zero_registers.
Definition t0_stage_registers : Z → Z := λ reg, if reg =? 8 then 1 else 0.

(** One more [tick] over [t0_stage_registers]; the triple is left as it
    is where [tick] is undefined. *)
Definition t0_ticked (fetched : Instruction.t) (pc : Z)
    (x : Pipeline.t * list Z * list Z) : Pipeline.t * list Z * list Z :=
  let '(p, registers, memory) := x in
  default x (Pipeline.tick t0_stage_registers fetched pc registers memory p).

(** The pipeline two ticks after [branch] was fetched into an empty
    pipeline, the all-zero word fetched behind it: [branch] stands in
    ID/EX, about to be resolved. *)
Definition branch_before_EX (branch : Instruction.t) : Pipeline.t * list Z * list Z :=
  t0_ticked (next_instruction 4194308) 4194308
    (t0_ticked branch 4194304 (zero_pipeline, t0_registers, replicate 16 0)).

(** The tick that resolves [branch], the word at [0x400008] fetched. *)
Definition branch_resolved (branch : Instruction.t) : Pipeline.t * list Z * list Z :=
  t0_ticked (next_instruction 4194312) 4194312 (branch_before_EX branch).

(** A small [MIPS] machine on the single-cycle path with [pc] at
    [0x400000] and the same register file. *)
Definition branch_machine : MIPS.t :=
  {| MIPS.registers := t0_registers; MIPS.pc := 4194304; MIPS.hi := 0; MIPS.lo := 0;
     MIPS.memory := replicate 16 0;
     MIPS.pipeline := zero_pipeline;
     MIPS.instructions := [];
     MIPS.stepMode := false; MIPS.pipelineEnabled := false;
     MIPS.cycleCount := 0; MIPS.instructionCount := 0 |}.

(** The register an instruction of the single-cycle path writes, if any. *)
Definition single_cycle_destination (instr : Instruction.t) : option Z :=
  match Instruction.format instr with
  | InstructionFormat.ADD | InstructionFormat.SUB | InstructionFormat.AND
  | InstructionFormat.OR | InstructionFormat.NOR | InstructionFormat.SLT =>
      Some (Instruction.rd instr)
  | InstructionFormat.ADDI | InstructionFormat.ANDI | InstructionFormat.ORI
  | InstructionFormat.LW => Some (Instruction.rt instr)
  | InstructionFormat.JAL => Some 31
  | _ => None
  end.

(** A small [MIPS] machine whose memory holds [add $zero, $zero, $zero] at
    the address [pc] points to. *)
Definition add_zero_machine (pipelineEnabled : bool) : MIPS.t :=
  {| MIPS.registers := zero_registers; MIPS.pc := 0; MIPS.hi := 0; MIPS.lo := 0;
     MIPS.memory := [0; 0; 0; 32] ++ replicate 12 0;
     MIPS.pipeline := zero_pipeline;
     MIPS.instructions := [Instruction.decode zero_instruction 32 4194304];
     MIPS.stepMode := false; MIPS.pipelineEnabled := pipelineEnabled;
     MIPS.cycleCount := 0; MIPS.instructionCount := 0 |}.

(** ** Programs and states the statements refer to *)

(** The sizes the constructor gives the three vectors; nothing resizes them. *)
Definition sim_sized (s : MIPSSimulator.t) : Prop :=
  length (MIPSSimulator.registers s) = 32%nat
  ∧ Z.of_nat (length (MIPSSimulator.memory s)) = 65536
  ∧ length (MIPSSimulator.pipeline_stages s) = 5%nat.

(** The one-instruction image [addi $v0, $zero, 5]. *)
Definition addi_image : string := "20020005".

(** The simulator after a successful load of [addi_image], and after its
    first step. *)
Definition addi_loaded : MIPSSimulator.t :=
  default MIPSSimulator.new
    (snd <$> MIPSSimulator.loadProgramFromString addi_image MIPSSimulator.new).

Definition addi_done : MIPSSimulator.t :=
  default addi_loaded (snd <$> MIPSSimulator.step addi_loaded).

(** An image whose second line is no hexadecimal number. *)
Definition newline : string := String "010" EmptyString.

Definition bad_image : string := "2003000a" +:+ newline +:+ "zz" +:+ newline.

Definition bad_load (s : MIPSSimulator.t) : MIPSSimulator.t :=
  default s (snd <$> MIPSSimulator.loadProgramFromString bad_image s).

(** ** Vocabulary of the further statements *)

(** A register file of 32 words of 32 bits with register 0 at 0, the
    memory and the stages the constructor allocates, and a [pc] of 32 bits:
    what [MIPSSimulator::MIPSSimulator] sets up. *)
Definition sim_ok (s : MIPSSimulator.t) : Prop :=
  sim_sized s
  ∧ Forall (λ r, 0 ≤ r < 2 ^ 32) (MIPSSimulator.registers s)
  ∧ MIPSSimulator.registers s !! 0%nat = Some 0
  ∧ 0 ≤ MIPSSimulator.pc s < 2 ^ 32.

(** The branch counters of [MIPSSimulator] add up. *)
Definition branch_stats_ok (s : MIPSSimulator.t) : Prop :=
  let b := MIPSSimulator.branch_stats s in
  0 ≤ MIPSSimulator.BranchStats.correct_predictions b
  ∧ 0 ≤ MIPSSimulator.BranchStats.incorrect_predictions b
  ∧ MIPSSimulator.BranchStats.total_branches b
    = MIPSSimulator.BranchStats.correct_predictions b
      + MIPSSimulator.BranchStats.incorrect_predictions b.

(** A vector of 32 words of 32 bits. *)
Definition regs_ok (r : list Z) : Prop :=
  length r = 32%nat ∧ Forall (λ x, 0 ≤ x < 2 ^ 32) r.

(** The settings no instruction touches. *)
Definition config_kept (s s' : MIPSSimulator.t) : Prop :=
  MIPSSimulator.halted s' = MIPSSimulator.halted s
  ∧ MIPSSimulator.step_mode s' = MIPSSimulator.step_mode s
  ∧ MIPSSimulator.pipeline_enabled s' = MIPSSimulator.pipeline_enabled s
  ∧ MIPSSimulator.branch_prediction_enabled s' = MIPSSimulator.branch_prediction_enabled s
  ∧ MIPSSimulator.prediction_type s' = MIPSSimulator.prediction_type s
  ∧ length (MIPSSimulator.memory s') = length (MIPSSimulator.memory s)
  ∧ length (MIPSSimulator.pipeline_stages s') = length (MIPSSimulator.pipeline_stages s).

(** [s'] differs from [s] in the branch table and counters at most. *)
Definition branch_state_only (s s' : MIPSSimulator.t) : Prop :=
  MIPSSimulator.registers s' = MIPSSimulator.registers s
  ∧ MIPSSimulator.memory s' = MIPSSimulator.memory s
  ∧ MIPSSimulator.pc s' = MIPSSimulator.pc s
  ∧ MIPSSimulator.halted s' = MIPSSimulator.halted s
  ∧ MIPSSimulator.step_mode s' = MIPSSimulator.step_mode s
  ∧ MIPSSimulator.pipeline_enabled s' = MIPSSimulator.pipeline_enabled s
  ∧ MIPSSimulator.pipeline_stages s' = MIPSSimulator.pipeline_stages s
  ∧ MIPSSimulator.branch_prediction_enabled s' = MIPSSimulator.branch_prediction_enabled s
  ∧ MIPSSimulator.prediction_type s' = MIPSSimulator.prediction_type s.

(** What the execution of one instruction leaves of a simulator [s] that
    satisfies the invariants: the invariants, the settings, and a branch
    count raised by one at most. *)
Definition executed_ok (s s' : MIPSSimulator.t) : Prop :=
  regs_ok (MIPSSimulator.registers s')
  ∧ 0 ≤ MIPSSimulator.pc s' < 2 ^ 32
  ∧ config_kept s s'
  ∧ branch_stats_ok s'
  ∧ MIPSSimulator.BranchStats.total_branches (MIPSSimulator.branch_stats s)
    ≤ MIPSSimulator.BranchStats.total_branches (MIPSSimulator.branch_stats s')
    ≤ MIPSSimulator.BranchStats.total_branches (MIPSSimulator.branch_stats s) + 1.




(** The machine [MIPS::MIPS] constructs over zeroed storage, switched to
    the single-cycle path. *)
Definition single_cycle_MIPS : MIPS.t :=
  MIPS.enablePipeline false
    (default (add_zero_machine false) (MIPS.new zero_pipeline)).

(** [addi $v0, $zero, 5] as the assembler places it at 0x400000. *)
Definition addi_assembled : list Instruction.t :=
  [Instruction.decode zero_instruction 537001989 4194304].

(** An instruction that reads and writes no memory, redirects nothing and
    writes register 0 at most: what the word 0 decodes to, and what the
    constructor leaves in a stage. *)
Definition harmless (i : Instruction.t) : Prop :=
  Instruction.isLoad i = false ∧ Instruction.isStore i = false
  ∧ Instruction.isBranch i = false ∧ Instruction.isJump i = false
  ∧ (Instruction.writesRD i = true → Instruction.rd i = 0)
  ∧ (Instruction.writesRT i = true → Instruction.rt i = 0).

(** A stage that holds a harmless instruction with its control signals. *)
Definition stage_ok (g : PipelineStage.t) : Prop :=
  harmless (PipelineStage.instruction g)
  ∧ (PipelineStage.valid g = true → PipelineStage.regWrite g = true →
     PipelineStage.writeReg g = 0).

Definition pipeline_ok (p : Pipeline.t) : Prop :=
  harmless (PipelineStage.instruction (Pipeline.IF_ID p))
  ∧ stage_ok (Pipeline.ID_EX p) ∧ stage_ok (Pipeline.EX_MEM p)
  ∧ stage_ok (Pipeline.MEM_WB p).

(** The machine [MIPS::MIPS] constructs over zeroed storage, as it is:
    the pipeline is enabled. *)
Definition constructed_MIPS : MIPS.t :=
  default (add_zero_machine true) (MIPS.new zero_pipeline).

(** Whether the hazard unit holds an enabled forwarding path for [reg]. *)
Definition has_path (reg : Z) (h : HazardDetection.t) : bool :=
  existsb (λ path, ForwardingPath.enable path && (ForwardingPath.reg path =? reg))
          (HazardDetection.forwardingPaths h).

(** An empty pipeline whose hazard unit holds one path: register 2
    forwards 7. *)
Definition forwarding_pipeline : Pipeline.t :=
  Pipeline.set_hazardUnit
    (HazardDetection.setupForwarding 2 4 7 HazardDetection.new) zero_pipeline.

(** ** Vocabulary for the class of pipeline registers *)

(** A client's fetch: through [getRegisters] it assigns the three fields
    of IF/ID. *)
Definition fetch (pc instruction : Z) (p : RegisterPipeline.t) : RegisterPipeline.t :=
  let r := RegisterPipeline.getRegisters p in
  RegisterPipeline.set_registers
    (PipelineRegister.Build_t pc instruction true
       (PipelineRegister.id_ex_pc r) (PipelineRegister.id_ex_rs_data r)
       (PipelineRegister.id_ex_rt_data r) (PipelineRegister.id_ex_immediate r)
       (PipelineRegister.id_ex_rs r) (PipelineRegister.id_ex_rt r)
       (PipelineRegister.id_ex_rd r) (PipelineRegister.id_ex_opcode r)
       (PipelineRegister.id_ex_funct r) (PipelineRegister.id_ex_reg_write r)
       (PipelineRegister.id_ex_mem_read r) (PipelineRegister.id_ex_mem_write r)
       (PipelineRegister.id_ex_branch r) (PipelineRegister.id_ex_jump r)
       (PipelineRegister.id_ex_valid r)
       (PipelineRegister.ex_mem_pc r) (PipelineRegister.ex_mem_alu_result r)
       (PipelineRegister.ex_mem_rt_data r) (PipelineRegister.ex_mem_rd r)
       (PipelineRegister.ex_mem_reg_write r) (PipelineRegister.ex_mem_mem_read r)
       (PipelineRegister.ex_mem_mem_write r) (PipelineRegister.ex_mem_zero r)
       (PipelineRegister.ex_mem_valid r)
       (PipelineRegister.mem_wb_alu_result r) (PipelineRegister.mem_wb_mem_data r)
       (PipelineRegister.mem_wb_rd r) (PipelineRegister.mem_wb_reg_write r)
       (PipelineRegister.mem_wb_mem_to_reg r) (PipelineRegister.mem_wb_valid r))
    p.

(** What a client may do with a pipeline: call a public method, or assign
    the struct it got from [getRegisters]. *)
Inductive PipelineCall :=
  | PipeReset
  | PipeAdvance
  | PipeInsertStall
  | PipeFlush
  | PipeAssign (r : PipelineRegister.t).

Definition pipeline_call (c : PipelineCall) (p : RegisterPipeline.t)
  : option RegisterPipeline.t :=
  match c with
  | PipeReset => Some (RegisterPipeline.reset p)
  | PipeAdvance => RegisterPipeline.advance p
  | PipeInsertStall => Some (RegisterPipeline.insertStall p)
  | PipeFlush => Some (RegisterPipeline.flush p)
  | PipeAssign r => Some (RegisterPipeline.set_registers r p)
  end.

Fixpoint pipeline_calls (cs : list PipelineCall) (p : RegisterPipeline.t)
  : option RegisterPipeline.t :=
  match cs with
  | [] => Some p
  | c :: cs => p ← pipeline_call c p; pipeline_calls cs p
  end.

(** No stage is marked to stall or to flush. *)
Definition flags_clear (p : RegisterPipeline.t) : Prop :=
  RegisterPipeline.stall_stages p = replicate 5 false
  ∧ RegisterPipeline.flush_stages p = replicate 5 false.

(** The fields of an instruction word, as [advance] takes them. *)
Definition word_opcode (w : Z) : Z := Z.land (Z.shiftr w 26) 63.
Definition word_rs (w : Z) : Z := Z.land (Z.shiftr w 21) 31.
Definition word_rt (w : Z) : Z := Z.land (Z.shiftr w 16) 31.
Definition word_rd (w : Z) : Z := Z.land (Z.shiftr w 11) 31.
Definition word_funct (w : Z) : Z := Z.land w 63.

(** The register an instruction word is taken to write, and whether it
    is taken to write one. *)
Definition word_destination (w : Z) : Z :=
  if word_opcode w =? 0 then word_rd w else word_rt w.
Definition word_writes (w : Z) : bool :=
  (word_opcode w =? 0) && negb (word_funct w =? Opcodes.FUNCT_JR)
  || (word_opcode w =? Opcodes.OPCODE_ADDI) || (word_opcode w =? Opcodes.OPCODE_LW).

(** Storage for the struct that happens to hold zeros. *)
Definition zero_latches : PipelineRegister.t :=
  PipelineRegister.Build_t 0 0 false 0 0 0 0 0 0 0 0 0 false false false false false false
    0 0 0 0 false false false false false 0 0 0 false false false.

(** A call and its return: [jal 3] at address 0, two zero words, and
    [jr $ra] at address 12. *)
Definition jal_image : string :=
  "0c000003" +:+ newline +:+ "00000000" +:+ newline +:+ "00000000" +:+ newline
  +:+ "03e00008" +:+ newline.

Definition jal_loaded : MIPSSimulator.t :=
  default MIPSSimulator.new
    (snd <$> MIPSSimulator.loadProgramFromString jal_image MIPSSimulator.new).

(** ** Vocabulary for the history register of the gshare predictor *)

(** The register a call leaves when it held [g], with no bound on its
    width: an [update] shifts the outcome in from the right, [reset]
    clears it, [predict] leaves it. *)
Definition shift_outcome (g : Z) (c : Call) : Z :=
  match c with
  | CallUpdate _ taken _ => 2 * g + (if taken then 1 else 0)
  | CallReset => 0
  | CallPredict _ _ => g
  end.

(** The binary number the outcomes of the updates since the last [reset]
    spell, the oldest first. *)
Definition outcome_history (cs : list Call) : Z := foldl shift_outcome 0 cs.

(** * Proofs *)

(** The machine-integer and vector operations are reasoned about through
    their lemmas, never by unfolding them in place. *)
#[global] Arguments u8 : simpl never.
#[global] Arguments u16 : simpl never.
#[global] Arguments u32 : simpl never.
#[global] Arguments u64 : simpl never.
#[global] Arguments s32 : simpl never.
#[global] Arguments s16 : simpl never.
#[global] Arguments int_incr : simpl never.
#[global] Arguments vec_get : simpl never.
#[global] Arguments vec_set : simpl never.
#[global] Arguments word_at : simpl never.
#[global] Arguments store_word : simpl never.
#[global] Arguments MIPSSimulator.isValidAddress : simpl never.

#[global] Arguments Pipeline.performALU : simpl never.
#[global] Arguments Pipeline.EX_op1 : simpl never.
#[global] Arguments Pipeline.EX_op2 : simpl never.
#[global] Arguments Pipeline.EX_taken : simpl never.
#[global] Arguments Pipeline.getMemoryWord : simpl never.
#[global] Arguments Pipeline.setMemoryWord : simpl never.
#[global] Arguments MIPS.getMemoryWord : simpl never.
#[global] Arguments MIPS.setMemoryWord : simpl never.
#[global] Arguments HazardDetection.detectHazard : simpl never.
#[global] Arguments HazardDetection.shouldStall : simpl never.
#[global] Arguments HazardDetection.shouldFlush : simpl never.
#[global] Arguments HazardDetection.setupForwarding : simpl never.
#[global] Arguments Instruction.decode : simpl never.

(** ** Machine integers and vectors *)

Lemma u32_small (x : Z) : 0 ≤ x < 2 ^ 32 → u32 x = x.
Proof. intros Hx. unfold u32. apply Z.mod_small. lia. Qed.

Lemma u64_small (x : Z) : 0 ≤ x < 2 ^ 64 → u64 x = x.
Proof. intros Hx. unfold u64. apply Z.mod_small. lia. Qed.

Lemma u32_range (x : Z) : 0 ≤ u32 x < 2 ^ 32.
Proof. unfold u32. apply Z.mod_pos_bound. reflexivity. Qed.

Lemma vec_get_Some {A} (v : list A) (i : Z) (x : A) :
  vec_get v i = Some x ↔ 0 ≤ i ∧ v !! Z.to_nat i = Some x.
Proof.
  unfold vec_get. destruct (Z.leb_spec 0 i) as [Hi | Hi].
  - split; [intros Hx; split; [exact Hi | exact Hx] | intros [_ Hx]; exact Hx].
  - split; [discriminate | intros [Hi' _]; lia].
Qed.

Lemma vec_get_in_range {A} (v : list A) (i : Z) :
  0 ≤ i < Z.of_nat (length v) → is_Some (vec_get v i).
Proof.
  intros Hi. unfold vec_get. destruct (Z.leb_spec 0 i); [| lia].
  apply lookup_lt_is_Some. lia.
Qed.

Lemma vec_get_out_of_range {A} (v : list A) (i : Z) :
  i < 0 ∨ Z.of_nat (length v) ≤ i → vec_get v i = None.
Proof.
  intros Hi. unfold vec_get. destruct (Z.leb_spec 0 i); [| done].
  apply lookup_ge_None. lia.
Qed.

Lemma vec_set_in_range {A} (v : list A) (i : Z) (x : A) :
  0 ≤ i < Z.of_nat (length v) → vec_set v i x = Some (<[Z.to_nat i := x]> v).
Proof.
  intros Hi. unfold vec_set.
  destruct (Z.leb_spec 0 i); [| lia].
  destruct (Z.ltb_spec i (Z.of_nat (length v))); [done | lia].
Qed.

Lemma vec_set_out_of_range {A} (v : list A) (i : Z) (x : A) :
  i < 0 ∨ Z.of_nat (length v) ≤ i → vec_set v i x = None.
Proof.
  intros Hi. unfold vec_set.
  destruct (Z.leb_spec 0 i); destruct (Z.ltb_spec i (Z.of_nat (length v)));
    simpl; try done; lia.
Qed.

Lemma vec_set_Some {A} (v w : list A) (i : Z) (x : A) :
  vec_set v i x = Some w →
  0 ≤ i < Z.of_nat (length v) ∧ w = <[Z.to_nat i := x]> v.
Proof.
  unfold vec_set.
  destruct (Z.leb_spec 0 i); destruct (Z.ltb_spec i (Z.of_nat (length v)));
    simpl; try discriminate.
  intros [= <-]. split; [lia | done].
Qed.

Lemma vec_set_length {A} (v w : list A) (i : Z) (x : A) :
  vec_set v i x = Some w → length w = length v.
Proof. intros [_ ->]%vec_set_Some. apply length_insert. Qed.

Lemma vec_get_set_eq {A} (v w : list A) (i : Z) (x : A) :
  vec_set v i x = Some w → vec_get w i = Some x.
Proof.
  intros [Hi ->]%vec_set_Some. apply vec_get_Some. split; [lia |].
  apply list_lookup_insert_eq. lia.
Qed.

Lemma vec_get_set_ne {A} (v w : list A) (i j : Z) (x : A) :
  vec_set v i x = Some w → i ≠ j → vec_get w j = vec_get v j.
Proof.
  intros [Hi ->]%vec_set_Some Hne. unfold vec_get.
  destruct (Z.leb_spec 0 j); [| done].
  apply list_lookup_insert_ne. lia.
Qed.

Lemma vec_set_same {A} (v : list A) (i : Z) (x : A) :
  vec_get v i = Some x → vec_set v i x = Some v.
Proof.
  intros [Hi Hx]%vec_get_Some.
  rewrite vec_set_in_range.
  - f_equal. by apply list_insert_id.
  - split; [done |]. apply lookup_lt_Some in Hx. lia.
Qed.

(** ** Big-endian words *)

Lemma byte_testbit (x i : Z) :
  0 ≤ i → Z.testbit (Z.land x 255) i = Z.testbit x i && (i <? 8).
Proof.
  intros Hi. change 255 with (Z.ones 8).
  rewrite Z.land_spec, Z.testbit_ones_nonneg by lia.
  done.
Qed.

Lemma word_of_bytes (v : Z) :
  0 ≤ v < 2 ^ 32 →
  Z.lor (Z.lor (Z.lor (Z.shiftl (Z.land (Z.shiftr v 24) 255) 24)
                      (Z.shiftl (Z.land (Z.shiftr v 16) 255) 16))
               (Z.shiftl (Z.land (Z.shiftr v 8) 255) 8))
        (Z.land v 255) = v.
Proof.
  intros Hv. apply Z.bits_inj'. intros n Hn.
  rewrite !Z.lor_spec, !Z.shiftl_spec by lia.
  rewrite (byte_testbit v) by lia.
  destruct (Z.ltb_spec n 8) as [H8 | H8].
  { rewrite !(Z.testbit_neg_r _ (n - _)) by lia. simpl. by rewrite andb_true_r. }
  rewrite andb_false_r, orb_false_r.
  destruct (Z.ltb_spec n 16) as [H16 | H16].
  { rewrite !(Z.testbit_neg_r _ (n - 24)), !(Z.testbit_neg_r _ (n - 16)) by lia.
    simpl. rewrite byte_testbit, Z.shiftr_spec by lia.
    replace (n - 8 + 8) with n by lia.
    destruct (Z.ltb_spec (n - 8) 8); [by rewrite andb_true_r | lia]. }
  destruct (Z.ltb_spec n 24) as [H24 | H24].
  { rewrite !(Z.testbit_neg_r _ (n - 24)) by lia. simpl.
    rewrite !byte_testbit, !Z.shiftr_spec by lia.
    replace (n - 16 + 16) with n by lia.
    destruct (Z.ltb_spec (n - 16) 8); [| lia].
    destruct (Z.ltb_spec (n - 8) 8); [lia |].
    by rewrite andb_true_r, andb_false_r, orb_false_r. }
  rewrite !byte_testbit, !Z.shiftr_spec by lia.
  replace (n - 24 + 24) with n by lia.
  destruct (Z.ltb_spec (n - 16) 8); [lia |].
  destruct (Z.ltb_spec (n - 8) 8); [lia |].
  rewrite !andb_false_r, !orb_false_r.
  destruct (Z.ltb_spec (n - 24) 8); [by rewrite andb_true_r |].
  rewrite andb_false_r. symmetry.
  destruct (decide (v = 0)) as [-> | Hnz]; [apply Z.testbit_0_l |].
  apply Z.bits_above_log2; [lia |].
  apply Z.log2_lt_pow2; [lia |].
  apply Z.lt_le_trans with (2 ^ 32); [lia |].
  apply Z.pow_le_mono_r; lia.
Qed.

Lemma vec_get_lookup {A} (m : list A) (k : Z) (x : A) :
  0 ≤ k → m !! Z.to_nat k = Some x → vec_get m k = Some x.
Proof. intros Hk Hx. apply vec_get_Some. split; [exact Hk | exact Hx]. Qed.

Lemma store_word_in_range (m : list Z) (a v : Z) :
  0 ≤ a → a + 3 < Z.of_nat (length m) → Z.of_nat (length m) ≤ 2 ^ 32 →
  store_word m a v =
    Some (<[Z.to_nat (a + 3) := Z.land v 255]>
            (<[Z.to_nat (a + 2) := Z.land (Z.shiftr v 8) 255]>
               (<[Z.to_nat (a + 1) := Z.land (Z.shiftr v 16) 255]>
                  (<[Z.to_nat a := Z.land (Z.shiftr v 24) 255]> m)))).
Proof.
  intros Ha Hlen H32. unfold store_word.
  rewrite !u32_small by lia.
  rewrite vec_set_in_range by lia. simpl.
  rewrite vec_set_in_range by (rewrite length_insert; lia). simpl.
  rewrite vec_set_in_range by (rewrite !length_insert; lia). simpl.
  rewrite vec_set_in_range by (rewrite !length_insert; lia). done.
Qed.

Lemma word_at_bytes (m : list Z) (a b0 b1 b2 b3 : Z) :
  0 ≤ a → a + 3 < 2 ^ 32 →
  m !! Z.to_nat a = Some b0 → m !! Z.to_nat (a + 1) = Some b1 →
  m !! Z.to_nat (a + 2) = Some b2 → m !! Z.to_nat (a + 3) = Some b3 →
  word_at m a =
    Some (u32 (Z.lor (Z.lor (Z.lor (Z.shiftl b0 24) (Z.shiftl b1 16))
                            (Z.shiftl b2 8)) b3)).
Proof.
  intros Ha H32 H0 H1 H2 H3. unfold word_at.
  rewrite !u32_small by lia.
  rewrite (proj2 (vec_get_Some m a b0)) by (split; [lia | done]). simpl.
  rewrite (proj2 (vec_get_Some m (a + 1) b1)) by (split; [lia | done]). simpl.
  rewrite (proj2 (vec_get_Some m (a + 2) b2)) by (split; [lia | done]). simpl.
  rewrite (proj2 (vec_get_Some m (a + 3) b3)) by (split; [lia | done]). done.
Qed.

(** The four bytes a word store leaves at [a .. a+3]. *)
Lemma stored_bytes (m : list Z) (a x0 x1 x2 x3 : Z) :
  0 ≤ a → a + 3 < Z.of_nat (length m) →
  let m' := <[Z.to_nat (a + 3) := x3]>
              (<[Z.to_nat (a + 2) := x2]>
                 (<[Z.to_nat (a + 1) := x1]> (<[Z.to_nat a := x0]> m))) in
  m' !! Z.to_nat a = Some x0 ∧ m' !! Z.to_nat (a + 1) = Some x1
  ∧ m' !! Z.to_nat (a + 2) = Some x2 ∧ m' !! Z.to_nat (a + 3) = Some x3.
Proof.
  intros Ha Hlen m'. subst m'. repeat split.
  - rewrite !list_lookup_insert_ne by lia. apply list_lookup_insert_eq. lia.
  - rewrite !list_lookup_insert_ne by lia.
    apply list_lookup_insert_eq. rewrite length_insert. lia.
  - rewrite !list_lookup_insert_ne by lia.
    apply list_lookup_insert_eq. rewrite !length_insert. lia.
  - apply list_lookup_insert_eq. rewrite !length_insert. lia.
Qed.

Lemma isValidAddress_true (s : MIPSSimulator.t) (a : Z) :
  a + 3 < Z.of_nat (length (MIPSSimulator.memory s)) →
  Z.of_nat (length (MIPSSimulator.memory s)) ≤ 2 ^ 32 →
  MIPSSimulator.isValidAddress s a = true.
Proof.
  intros Hlen H32. unfold MIPSSimulator.isValidAddress.
  destruct (decide (0 ≤ a)) as [Ha | Ha].
  - rewrite u64_small by lia. apply Z.ltb_lt. lia.
  - apply Z.ltb_lt. unfold u64.
    pose proof (Z.mod_pos_bound (Z.of_nat (length (MIPSSimulator.memory s)) - 3) (2 ^ 64)).
    lia.
Qed.

(** C8. For an in-range address [a] ([a + 3] below the memory size) and a
    32-bit value [v], [setMemory] then [getMemory] at [a] gives [v] back,
    and the word lies big-endian: byte [a] is the most significant one;
    for [0x11223344] the bytes at [a .. a+3] are [0x11 0x22 0x33 0x44]. *)
Theorem C8_store_then_load_word (s : MIPSSimulator.t) (a v : Z) :
  0 ≤ a →
  a + 3 < Z.of_nat (length (MIPSSimulator.memory s)) →
  Z.of_nat (length (MIPSSimulator.memory s)) ≤ 2 ^ 32 →
  0 ≤ v < 2 ^ 32 →
  ∃ s', MIPSSimulator.setMemory s a v = Some s'
      ∧ MIPSSimulator.getMemory s' a = Some v
      ∧ vec_get (MIPSSimulator.memory s') a = Some (Z.land (Z.shiftr v 24) 255)
      ∧ vec_get (MIPSSimulator.memory s') (a + 1) = Some (Z.land (Z.shiftr v 16) 255)
      ∧ vec_get (MIPSSimulator.memory s') (a + 2) = Some (Z.land (Z.shiftr v 8) 255)
      ∧ vec_get (MIPSSimulator.memory s') (a + 3) = Some (Z.land v 255)
      ∧ (v = 287454020 →
         vec_get (MIPSSimulator.memory s') a = Some 17
         ∧ vec_get (MIPSSimulator.memory s') (a + 1) = Some 34
         ∧ vec_get (MIPSSimulator.memory s') (a + 2) = Some 51
         ∧ vec_get (MIPSSimulator.memory s') (a + 3) = Some 68).
Proof.
  intros Ha Hlen H32 Hv.
  pose proof (stored_bytes (MIPSSimulator.memory s) a
                (Z.land (Z.shiftr v 24) 255) (Z.land (Z.shiftr v 16) 255)
                (Z.land (Z.shiftr v 8) 255) (Z.land v 255) Ha Hlen) as Hb.
  cbv zeta in Hb. destruct Hb as (B0 & B1 & B2 & B3).
  eexists. split.
  { unfold MIPSSimulator.setMemory.
    rewrite isValidAddress_true by done.
    rewrite store_word_in_range by done. simpl. reflexivity. }
  split.
  { unfold MIPSSimulator.getMemory.
    rewrite isValidAddress_true by (simpl; rewrite ?length_insert; done).
    simpl. erewrite word_at_bytes by (try eassumption; lia).
    rewrite word_of_bytes by done. by rewrite u32_small. }
  simpl.
  pose proof (vec_get_lookup _ a _ Ha B0) as G0.
  pose proof (vec_get_lookup _ (a + 1) _ ltac:(lia) B1) as G1.
  pose proof (vec_get_lookup _ (a + 2) _ ltac:(lia) B2) as G2.
  pose proof (vec_get_lookup _ (a + 3) _ ltac:(lia) B3) as G3.
  repeat (split; [assumption |]).
  intros ->. rewrite G0, G1, G2, G3. done.
Qed.

(** C8 at the address and value of scenario S6. *)
Lemma C8_witness :
  ∃ s', MIPSSimulator.setMemory MIPSSimulator.new 256 287454020 = Some s'
      ∧ MIPSSimulator.getMemory s' 256 = Some 287454020
      ∧ vec_get (MIPSSimulator.memory s') 256 = Some 17.
Proof.
  destruct (C8_store_then_load_word MIPSSimulator.new 256 287454020)
    as (s' & H1 & H2 & _ & _ & _ & _ & H3); [lia | vm_compute; done | vm_compute; discriminate | lia |].
  exists s'. split; [exact H1 |]. split; [exact H2 |].
  exact (proj1 (H3 eq_refl)).
Defined.

(** C10. Outside [0, 32) [getRegister] answers 0 and [setRegister] leaves
    the simulator as it is; so does [setRegister] at index 0; and with the
    32 registers the class keeps, both accessors are defined at every
    index. *)
Theorem C10_register_access_guarded (s : MIPSSimulator.t) (idx v : Z) :
  (idx < 0 ∨ 32 ≤ idx →
   MIPSSimulator.getRegister s idx = Some 0
   ∧ MIPSSimulator.setRegister s idx v = Some s)
  ∧ MIPSSimulator.setRegister s 0 v = Some s
  ∧ (length (MIPSSimulator.registers s) = 32%nat →
     is_Some (MIPSSimulator.getRegister s idx)
     ∧ is_Some (MIPSSimulator.setRegister s idx v)).
Proof.
  unfold MIPSSimulator.getRegister, MIPSSimulator.setRegister.
  split; [| split].
  - intros Hout.
    destruct (Z.leb_spec 0 idx), (Z.ltb_spec idx 32), (Z.leb_spec 1 idx);
      simpl; try lia; done.
  - done.
  - intros Hlen.
    destruct (Z.leb_spec 0 idx), (Z.ltb_spec idx 32), (Z.leb_spec 1 idx);
      simpl; try lia; try done.
    + split; [apply vec_get_in_range; lia |].
      rewrite vec_set_in_range by lia. done.
    + split; [apply vec_get_in_range; lia | done].
Qed.

Lemma C10_witness :
  (MIPSSimulator.getRegister MIPSSimulator.new 40 = Some 0
   ∧ MIPSSimulator.setRegister MIPSSimulator.new 40 7 = Some MIPSSimulator.new)
  ∧ is_Some (MIPSSimulator.setRegister MIPSSimulator.new 40 7).
Proof.
  pose proof (C10_register_access_guarded MIPSSimulator.new 40 7) as (H1 & _ & H3).
  split; [apply H1; lia | apply H3; reflexivity].
Defined.

(** ** MIPSSimulator: the two paths of [step] *)


Lemma word_at_in_range (m : list Z) (a : Z) :
  0 ≤ a → a + 3 < Z.of_nat (length m) → Z.of_nat (length m) ≤ 2 ^ 32 →
  is_Some (word_at m a).
Proof.
  intros Ha Hlen H32.
  destruct (lookup_lt_is_Some_2 m (Z.to_nat a)) as [b0 H0]; [lia |].
  destruct (lookup_lt_is_Some_2 m (Z.to_nat (a + 1))) as [b1 H1]; [lia |].
  destruct (lookup_lt_is_Some_2 m (Z.to_nat (a + 2))) as [b2 H2]; [lia |].
  destruct (lookup_lt_is_Some_2 m (Z.to_nat (a + 3))) as [b3 H3]; [lia |].
  erewrite word_at_bytes by (try eassumption; lia). done.
Qed.

Lemma isValidAddress_spec (s : MIPSSimulator.t) (a : Z) :
  Z.of_nat (length (MIPSSimulator.memory s)) = 65536 →
  MIPSSimulator.isValidAddress s a = (a <? 65533).
Proof. intros Hlen. unfold MIPSSimulator.isValidAddress. rewrite Hlen. done. Qed.

#[local] Arguments MIPSSimulator.detectHazards : simpl never.
#[local] Arguments MIPSSimulator.decodeInstruction : simpl never.
#[local] Arguments MIPSSimulator.executeInstruction : simpl never.

(** Reads and writes of a vector given element by element, at a literal index. *)
Ltac vec_eval :=
  repeat match goal with
    | |- context [@vec_get ?A (?x :: ?l) ?i] =>
        let r := eval cbv [vec_get Z.leb Z.compare Z.to_nat Pos.to_nat
                           Pos.iter_op Nat.add lookup list_lookup]
                 in (@vec_get A (x :: l) i) in
        change (@vec_get A (x :: l) i) with r
    | |- context [@vec_set ?A (?x :: ?l) ?i ?v] =>
        let r := eval cbv [vec_set andb Z.leb Z.ltb Z.compare Pos.compare
                           Pos.compare_cont Z.of_nat length Pos.of_succ_nat
                           Pos.succ Z.to_nat Pos.to_nat Pos.iter_op Nat.add
                           insert list_insert]
                 in (@vec_set A (x :: l) i v) in
        change (@vec_set A (x :: l) i v) with r
    end.

Ltac vec_eval_in H :=
  repeat match type of H with
    | context [@vec_get ?A (?x :: ?l) ?i] =>
        let r := eval cbv [vec_get Z.leb Z.compare Z.to_nat Pos.to_nat
                           Pos.iter_op Nat.add lookup list_lookup]
                 in (@vec_get A (x :: l) i) in
        change (@vec_get A (x :: l) i) with r in H
    end.

(** With the pipeline enabled a step only moves fetched words through the
    five stages: registers and memory stay as they are, and [halted] is
    never raised. *)
Lemma pipelined_step_frame (s : MIPSSimulator.t) :
  sim_sized s →
  MIPSSimulator.pipeline_enabled s = true →
  MIPSSimulator.halted s = false →
  MIPSSimulator.registers s !! 0%nat = Some 0 →
  0 ≤ MIPSSimulator.pc s →
  ∃ s', MIPSSimulator.step s = Some (true, s')
      ∧ sim_sized s'
      ∧ MIPSSimulator.pipeline_enabled s' = true
      ∧ MIPSSimulator.halted s' = false
      ∧ MIPSSimulator.step_mode s' = MIPSSimulator.step_mode s
      ∧ MIPSSimulator.registers s' = MIPSSimulator.registers s
      ∧ MIPSSimulator.memory s' = MIPSSimulator.memory s
      ∧ 0 ≤ MIPSSimulator.pc s'.
Proof.
  intros (Hr & Hm & Hg) He Hh H0 Hpc.
  destruct s as [regs mem pc hlt sm pe stages bpe pt bht bs].
  cbn [MIPSSimulator.registers MIPSSimulator.memory MIPSSimulator.pc
       MIPSSimulator.halted MIPSSimulator.pipeline_enabled
       MIPSSimulator.pipeline_stages] in *.
  subst pe hlt.
  destruct stages as [| g0 [| g1 [| g2 [| g3 [| g4 [| ? ?]]]]]]; try discriminate.
  assert (Hz : vec_set regs 0 0 = Some regs) by (apply vec_set_same, vec_get_lookup; done).
  unfold MIPSSimulator.step, MIPSSimulator.advancePipeline, sim_sized. simpl.
  destruct (MIPSSimulator.detectHazards _) as [[] |] eqn:Hd.
  - unfold MIPSSimulator.handleHazards. simpl. vec_eval. simpl. vec_eval. simpl.
    vec_eval. simpl. vec_eval. simpl. rewrite Hz. simpl.
    eexists. split; [reflexivity |]. simpl.
    split_and!; first [assumption | reflexivity].
  - simpl. vec_eval. simpl. vec_eval. simpl. vec_eval. simpl. vec_eval. simpl.
    rewrite isValidAddress_spec by assumption. simpl.
    destruct (Z.ltb_spec pc 65533) as [Hv | Hv].
    + destruct (word_at_in_range mem pc) as [w Hw]; [lia | lia | lia |].
      rewrite Hw. simpl. vec_eval. simpl. rewrite Hz. simpl.
      eexists. split; [reflexivity |]. simpl.
      split_and!; first [assumption | reflexivity | apply u32_range].
    + simpl. vec_eval. simpl. rewrite Hz. simpl.
      eexists. split; [reflexivity |]. simpl.
      split_and!; first [assumption | reflexivity].
  - unfold MIPSSimulator.detectHazards in Hd.
    cbn [MIPSSimulator.pipeline_stages] in Hd. vec_eval_in Hd.
    cbn [mbind option_bind] in Hd.
    repeat case_match; discriminate.
Qed.

Lemma pipelined_steps_frame (n : nat) (s : MIPSSimulator.t) :
  sim_sized s →
  MIPSSimulator.pipeline_enabled s = true →
  MIPSSimulator.halted s = false →
  MIPSSimulator.registers s !! 0%nat = Some 0 →
  0 ≤ MIPSSimulator.pc s →
  ∃ s', MIPSSimulator.steps n s = Some s'
      ∧ MIPSSimulator.halted s' = false
      ∧ MIPSSimulator.registers s' = MIPSSimulator.registers s
      ∧ MIPSSimulator.memory s' = MIPSSimulator.memory s.
Proof.
  revert s. induction n as [| n IH]; intros s Hs He Hh H0 Hpc.
  - exists s. done.
  - destruct (pipelined_step_frame s) as (s1 & E & Hs1 & He1 & Hh1 & _ & Hr1 & Hm1 & Hpc1);
      try done.
    destruct (IH s1) as (s' & E' & Hh' & Hr' & Hm'); try done.
    { by rewrite Hr1. }
    exists s'. simpl. rewrite E. simpl. rewrite E'.
    repeat split; [done | congruence | congruence].
Qed.

(** [run] never comes to an end with the pipeline enabled. *)
Lemma pipelined_run_never_ends (fuel : nat) (s : MIPSSimulator.t) :
  sim_sized s →
  MIPSSimulator.pipeline_enabled s = true →
  MIPSSimulator.halted s = false →
  MIPSSimulator.step_mode s = false →
  MIPSSimulator.registers s !! 0%nat = Some 0 →
  0 ≤ MIPSSimulator.pc s →
  MIPSSimulator.run fuel s = Some None.
Proof.
  revert s. induction fuel as [| fuel IH]; intros s Hs He Hh Hsm H0 Hpc; [done |].
  destruct (pipelined_step_frame s) as (s1 & E & Hs1 & He1 & Hh1 & Hsm1 & Hr1 & Hm1 & Hpc1);
    try done.
  simpl. rewrite Hh, E. simpl. rewrite Hsm1, Hsm.
  apply IH; try done; congruence.
Qed.

Lemma execute_zero_word (s : MIPSSimulator.t) :
  MIPSSimulator.executeInstruction (MIPSSimulator.decodeInstruction 0) s =
    Some (true, MIPSSimulator.set_pc (u32 (MIPSSimulator.pc s + 4)) s).
Proof. reflexivity. Qed.

(** Without the pipeline, a step over an all-zero word moves [pc] on and
    changes nothing else. *)
Lemma direct_step_zero_word (s : MIPSSimulator.t) :
  sim_sized s →
  MIPSSimulator.pipeline_enabled s = false →
  MIPSSimulator.halted s = false →
  MIPSSimulator.registers s !! 0%nat = Some 0 →
  0 ≤ MIPSSimulator.pc s < 65533 →
  (∀ k, 0 ≤ k < 4 →
        MIPSSimulator.memory s !! Z.to_nat (MIPSSimulator.pc s + k) = Some 0) →
  MIPSSimulator.step s =
    Some (true, MIPSSimulator.set_pc (MIPSSimulator.pc s + 4) s).
Proof.
  intros (Hr & Hm & Hg) He Hh H0 Hpc Hz.
  assert (Hz0 : vec_set (MIPSSimulator.registers s) 0 0 = Some (MIPSSimulator.registers s))
    by (apply vec_set_same, vec_get_lookup; done).
  unfold MIPSSimulator.step. rewrite Hh, He.
  rewrite isValidAddress_spec by assumption.
  destruct (Z.ltb_spec (MIPSSimulator.pc s) 65533); [| lia].
  cbn [negb].
  rewrite (word_at_bytes (MIPSSimulator.memory s) (MIPSSimulator.pc s) 0 0 0 0); try lia.
  2: { specialize (Hz 0). rewrite Z.add_0_r in Hz. apply Hz. lia. }
  2-4: apply Hz; lia.
  change (u32 (Z.lor (Z.lor (Z.lor (Z.shiftl 0 24) (Z.shiftl 0 16)) (Z.shiftl 0 8)) 0))
    with 0.
  cbn [mbind option_bind]. rewrite execute_zero_word.
  cbn [mbind option_bind negb MIPSSimulator.registers MIPSSimulator.set_pc].
  rewrite Hz0. cbn [mbind option_bind]. rewrite u32_small by lia.
  destruct s; cbn in *. subst. reflexivity.
Qed.

Lemma run_unfold (fuel : nat) (s : MIPSSimulator.t) :
  MIPSSimulator.run (S fuel) s =
    if MIPSSimulator.halted s then Some (Some s)
    else '(r, s) ← MIPSSimulator.step s;
         if negb (r : bool) then Some (Some s)
         else if MIPSSimulator.step_mode s then Some (Some s)
         else MIPSSimulator.run fuel s.
Proof. reflexivity. Qed.

Lemma direct_run_over_zeros (k : nat) (s : MIPSSimulator.t) :
  sim_sized s →
  MIPSSimulator.pipeline_enabled s = false →
  MIPSSimulator.halted s = false →
  MIPSSimulator.step_mode s = false →
  MIPSSimulator.registers s !! 0%nat = Some 0 →
  MIPSSimulator.pc s = 65536 - 4 * Z.of_nat k →
  0 ≤ MIPSSimulator.pc s →
  (∀ i, MIPSSimulator.pc s ≤ i < 65536 →
        MIPSSimulator.memory s !! Z.to_nat i = Some 0) →
  MIPSSimulator.run (S k) s =
    Some (Some (MIPSSimulator.set_halted true (MIPSSimulator.set_pc 65536 s))).
Proof.
  revert s. induction k as [| k IH]; intros s Hs He Hh Hsm H0 Hpc Hpos Hz.
  - rewrite run_unfold, Hh.
    unfold MIPSSimulator.step. rewrite Hh, He.
    rewrite isValidAddress_spec by apply Hs.
    destruct (Z.ltb_spec (MIPSSimulator.pc s) 65533); [lia |].
    cbn [negb mbind option_bind].
    destruct s; cbn in *. by subst.
  - rewrite run_unfold, Hh, direct_step_zero_word; try assumption; [| lia |].
    2: { intros j Hj. apply Hz. lia. }
    cbn [mbind option_bind negb]. 
    replace (MIPSSimulator.step_mode (MIPSSimulator.set_pc _ s)) with false
      by (destruct s; cbn in *; congruence).
    rewrite IH.
    + destruct s; reflexivity.
    + destruct s; apply Hs.
    + destruct s; apply He.
    + destruct s; apply Hh.
    + destruct s; apply Hsm.
    + destruct s; apply H0.
    + destruct s; cbn in *; lia.
    + destruct s; cbn in *; lia.
    + intros i Hi. destruct s; cbn in *. apply Hz. lia.
Qed.

(** *** The one-instruction image [addi $v0, $zero, 5] *)


Lemma forallb_lookup {A} (p : A → bool) (l : list A) (i : nat) (x : A) :
  forallb p l = true → l !! i = Some x → p x = true.
Proof.
  revert i. induction l as [| y l IH]; intros i Hall Hi; [done |].
  cbn in Hall. apply andb_true_iff in Hall as [Hy Hl].
  destruct i as [| i]; cbn in Hi; [congruence | eauto].
Qed.

Lemma addi_image_loads :
  MIPSSimulator.loadProgramFromString addi_image MIPSSimulator.new =
    Some (true, addi_loaded).
Proof.
  assert (H : fst <$> MIPSSimulator.loadProgramFromString addi_image MIPSSimulator.new
              = Some true) by (vm_compute; reflexivity).
  unfold addi_loaded.
  destruct (MIPSSimulator.loadProgramFromString _ _) as [[b s] |]; [| discriminate].
  cbn in *. congruence.
Qed.

Lemma addi_first_step : MIPSSimulator.step addi_loaded = Some (true, addi_done).
Proof.
  assert (H : fst <$> MIPSSimulator.step addi_loaded = Some true)
    by (vm_compute; reflexivity).
  unfold addi_done.
  destruct (MIPSSimulator.step _) as [[b s] |]; [| discriminate].
  cbn in *. congruence.
Qed.

Lemma addi_done_sized : sim_sized addi_done.
Proof. unfold sim_sized. split_and!; vm_compute; reflexivity. Qed.

Lemma zeros_from (m : list Z) (n : nat) (i : Z) :
  forallb (Z.eqb 0) (drop n m) = true →
  Z.of_nat n ≤ i < Z.of_nat (length m) →
  m !! Z.to_nat i = Some 0.
Proof.
  intros Hall Hi.
  destruct (lookup_lt_is_Some_2 m (Z.to_nat i)) as [x Hx]; [lia |].
  rewrite Hx. f_equal. symmetry. apply Z.eqb_eq.
  apply (forallb_lookup _ _ (Z.to_nat i - n) _ Hall).
  rewrite lookup_drop. rewrite <- Hx. f_equal. lia.
Qed.

Lemma addi_done_zeros (i : Z) :
  4 ≤ i < 65536 → MIPSSimulator.memory addi_done !! Z.to_nat i = Some 0.
Proof.
  intros Hi. apply (zeros_from _ 4); [vm_compute; reflexivity |].
  pose proof addi_done_sized as (_ & Hlen & _). rewrite Hlen. lia.
Qed.

Lemma addi_direct_run :
  MIPSSimulator.run (S (S (Z.to_nat 16383))) addi_loaded =
    Some (Some (MIPSSimulator.set_halted true (MIPSSimulator.set_pc 65536 addi_done))).
Proof.
  assert (Hpc : MIPSSimulator.pc addi_done = 4) by (vm_compute; reflexivity).
  rewrite run_unfold.
  replace (MIPSSimulator.halted addi_loaded) with false by (vm_compute; reflexivity).
  rewrite addi_first_step.
  cbn [mbind option_bind negb].
  replace (MIPSSimulator.step_mode addi_done) with false by (vm_compute; reflexivity).
  apply direct_run_over_zeros.
  - apply addi_done_sized.
  - vm_compute; reflexivity.
  - vm_compute; reflexivity.
  - vm_compute; reflexivity.
  - vm_compute; reflexivity.
  - rewrite Hpc. lia.
  - rewrite Hpc. lia.
  - rewrite Hpc. apply addi_done_zeros.
Qed.

Lemma enablePipeline_frame (b : bool) (s : MIPSSimulator.t) :
  MIPSSimulator.registers (MIPSSimulator.enablePipeline b s) = MIPSSimulator.registers s
  ∧ MIPSSimulator.memory (MIPSSimulator.enablePipeline b s) = MIPSSimulator.memory s.
Proof. destruct s, b; split; reflexivity. Qed.

(** C1. The image [addi $v0, $zero, 5] has no hazard.  With the pipeline
    disabled the simulator runs it to completion and ends halted with
    [$v0 = 5].  With the pipeline enabled no number of steps changes a
    register or a memory byte ([$v0] stays 0), [halted] is never raised,
    and [run] does not come to an end whatever the fuel: the two paths do
    not leave the same final state. *)
Theorem C1_pipelined_path_executes_nothing :
  ∃ loaded final,
    MIPSSimulator.loadProgramFromString addi_image MIPSSimulator.new = Some (true, loaded)
    ∧ (∃ fuel, MIPSSimulator.run fuel loaded = Some (Some final))
    ∧ MIPSSimulator.halted final = true
    ∧ vec_get (MIPSSimulator.registers final) 2 = Some 5
    ∧ (∀ n, ∃ s',
          MIPSSimulator.steps n (MIPSSimulator.enablePipeline true loaded) = Some s'
          ∧ MIPSSimulator.halted s' = false
          ∧ vec_get (MIPSSimulator.registers s') 2 = Some 0
          ∧ MIPSSimulator.registers s' = MIPSSimulator.registers loaded
          ∧ MIPSSimulator.memory s' = MIPSSimulator.memory loaded)
    ∧ (∀ fuel,
          MIPSSimulator.run fuel (MIPSSimulator.enablePipeline true loaded) = Some None).
Proof.
  exists addi_loaded,
         (MIPSSimulator.set_halted true (MIPSSimulator.set_pc 65536 addi_done)).
  assert (Hs : sim_sized (MIPSSimulator.enablePipeline true addi_loaded))
    by (unfold sim_sized; split_and!; vm_compute; reflexivity).
  assert (Hpc : 0 ≤ MIPSSimulator.pc (MIPSSimulator.enablePipeline true addi_loaded))
    by (vm_compute; discriminate).
  split; [apply addi_image_loads |].
  split; [eexists; apply addi_direct_run |].
  split; [vm_compute; reflexivity |].
  split; [vm_compute; reflexivity |].
  split.
  - intros n.
    destruct (pipelined_steps_frame n (MIPSSimulator.enablePipeline true addi_loaded)
                Hs ltac:(vm_compute; reflexivity) ltac:(vm_compute; reflexivity)
                ltac:(vm_compute; reflexivity) Hpc)
      as (s' & E & Hh & Hr & Hm).
    exists s'. split; [exact E |]. split; [exact Hh |].
    rewrite Hr, Hm. split; [vm_compute; reflexivity |].
    apply enablePipeline_frame.
  - intros fuel.
    apply pipelined_run_never_ends; [exact Hs | vm_compute; reflexivity ..| exact Hpc].
Qed.

(** ** MIPSSimulator: loading an image *)

(** A load that reports failure has not gone through [reset]: registers,
    [pc] and [halted] are the caller's. *)
Lemma load_failure_skips_reset (lines : list string) (address : Z)
    (s s' : MIPSSimulator.t) :
  MIPSSimulator.load_lines lines address s = Some (false, s') →
  MIPSSimulator.registers s' = MIPSSimulator.registers s
  ∧ MIPSSimulator.pc s' = MIPSSimulator.pc s
  ∧ MIPSSimulator.halted s' = MIPSSimulator.halted s.
Proof.
  revert address s. induction lines as [| line rest IH]; intros address s H.
  - discriminate.
  - cbn [MIPSSimulator.load_lines] in H.
    destruct line as [| c line']; [exact (IH _ _ H) |].
    destruct (Ascii.eqb c "#"); [exact (IH _ _ H) |].
    destruct (stoul16 (String c line')) as [v |].
    + destruct (u32 (address + 3) <? Z.of_nat (length (MIPSSimulator.memory s))).
      * destruct (store_word _ _ _) as [m |]; [| discriminate].
        cbn [mbind option_bind] in H.
        destruct (IH _ _ H) as (? & ? & ?). destruct s; auto.
      * exact (IH _ _ H).
    + injection H as <-. auto.
Qed.


(** C9. Loading [bad_image] reports failure.  On a fresh simulator the
    word of the first line stays in memory (bytes [0x20 0x03 0x00 0x0a] at
    address 0, which held 0); on a simulator that has executed
    [addi $v0, $zero, 5] the registers and [pc] keep their values too,
    where [reset] would have cleared them. *)
Theorem C9_failed_load_is_not_reset :
  (∃ s', MIPSSimulator.loadProgramFromString bad_image MIPSSimulator.new = Some (false, s')
       ∧ MIPSSimulator.getMemory s' 0 = Some 537067530
       ∧ MIPSSimulator.getMemory MIPSSimulator.new 0 = Some 0)
  ∧ (∃ s', MIPSSimulator.loadProgramFromString bad_image addi_done = Some (false, s')
         ∧ MIPSSimulator.getMemory s' 0 = Some 537067530
         ∧ MIPSSimulator.getRegister s' 2 = Some 5
         ∧ MIPSSimulator.pc s' = 4
         ∧ MIPSSimulator.getRegister (MIPSSimulator.reset addi_done) 2 = Some 0
         ∧ MIPSSimulator.pc (MIPSSimulator.reset addi_done) = 0).
Proof.
  split.
  - exists (bad_load MIPSSimulator.new). split.
    + assert (H : fst <$> MIPSSimulator.loadProgramFromString bad_image MIPSSimulator.new
                  = Some false) by (vm_compute; reflexivity).
      unfold bad_load.
      destruct (MIPSSimulator.loadProgramFromString _ _) as [[b s] |]; [| discriminate].
      cbn in *. congruence.
    + split_and!; vm_compute; reflexivity.
  - exists (bad_load addi_done). split.
    + assert (H : fst <$> MIPSSimulator.loadProgramFromString bad_image addi_done
                  = Some false) by (vm_compute; reflexivity).
      unfold bad_load.
      destruct (MIPSSimulator.loadProgramFromString _ _) as [[b s] |]; [| discriminate].
      cbn in *. congruence.
    + split_and!; vm_compute; reflexivity.
Qed.

(** ** The predictor hierarchy *)

Lemma ones_mask (k : Z) : 0 ≤ k ≤ 31 → u32 (Z.shiftl 1 k - 1) = Z.ones k.
Proof.
  intros Hk. unfold Z.ones. rewrite Z.shiftl_1_l, <- Z.sub_1_r.
  apply u32_small.
  assert (0 < 2 ^ k) by (apply Z.pow_pos_nonneg; lia).
  assert (2 ^ k ≤ 2 ^ 31) by (apply Z.pow_le_mono_r; lia).
  lia.
Qed.

Lemma shift_one (k : Z) : 0 ≤ k ≤ 31 → u32 (Z.shiftl 1 k) = 2 ^ k.
Proof.
  intros Hk. rewrite Z.shiftl_1_l. apply u32_small.
  assert (0 < 2 ^ k) by (apply Z.pow_pos_nonneg; lia).
  assert (2 ^ k ≤ 2 ^ 31) by (apply Z.pow_le_mono_r; lia).
  lia.
Qed.

Lemma land_ones_range (x k : Z) : 0 ≤ k → 0 ≤ Z.land x (Z.ones k) < 2 ^ k.
Proof.
  intros Hk. rewrite Z.land_ones by done.
  apply Z.mod_pos_bound. apply Z.pow_pos_nonneg; lia.
Qed.

Lemma lxor_range (a b k : Z) :
  0 ≤ k → 0 ≤ a < 2 ^ k → 0 ≤ b < 2 ^ k → 0 ≤ Z.lxor a b < 2 ^ k.
Proof.
  intros Hk Ha Hb.
  assert (Hnn : 0 ≤ Z.lxor a b) by (apply Z.lxor_nonneg; lia).
  split; [done |].
  destruct (decide (k = 0)) as [-> | Hk0].
  { assert (a = 0) as -> by (change (2 ^ 0) with 1 in Ha; lia).
    assert (b = 0) as -> by (change (2 ^ 0) with 1 in Hb; lia). done. }
  destruct (decide (Z.lxor a b = 0)) as [-> | Hnz]; [apply Z.pow_pos_nonneg; lia |].
  apply Z.log2_lt_pow2; [lia |].
  eapply Z.le_lt_trans; [apply Z.log2_lxor; lia |].
  apply Z.max_lub_lt.
  - destruct (decide (a = 0)) as [-> | ?]; [simpl; lia |].
    apply Z.log2_lt_pow2; lia.
  - destruct (decide (b = 0)) as [-> | ?]; [simpl; lia |].
    apply Z.log2_lt_pow2; lia.
Qed.

Lemma replicate_length_pow2 {A} (k : Z) (x : A) :
  0 ≤ k ≤ 31 →
  Z.of_nat (length (replicate (Z.to_nat (u32 (Z.shiftl 1 k))) x)) = 2 ^ k.
Proof.
  intros Hk. rewrite length_replicate, shift_one by done.
  rewrite Z2Nat.id; [done |]. apply Z.pow_nonneg. lia.
Qed.

Lemma u64_succ_l (a b : Z) : u64 (u64 (a + 1) + b) = u64 (u64 (a + b) + 1).
Proof.
  unfold u64. rewrite !Zplus_mod_idemp_l. f_equal. lia.
Qed.

Lemma u64_succ_r (a b : Z) : u64 (a + u64 (b + 1)) = u64 (u64 (a + b) + 1).
Proof.
  unfold u64. rewrite Zplus_mod_idemp_r, Zplus_mod_idemp_l. f_equal. lia.
Qed.

Section Hierarchy.
Context {D : Type} `{Double D}.

(** One [update] keeps the statistics consistent, whatever it compared. *)
Lemma stats_after_consistent (predicted taken : bool) (b : BranchStats.t D) :
  stats_consistent b → stats_consistent (stats_after predicted taken b).
Proof.
  intros [Hsum _]. unfold stats_after, BranchStats.count_outcome.
  destruct (Bool.eqb predicted taken); (split; [| done]); cbn.
  - rewrite u64_succ_l. by rewrite Hsum.
  - rewrite u64_succ_r. by rewrite Hsum.
Qed.

Lemma stats_zero_consistent : stats_consistent (BranchStats.zero (D := D)).
Proof. split; [reflexivity | intros Hn; by destruct Hn]. Qed.

(** *** Static and BTFN *)

Lemma static_update (pc : Z) (taken : bool) (target : Z) (p : StaticPredictor.t D) :
  StaticPredictor.update pc taken target p =
    Some (StaticPredictor.set_stats
            (stats_after (StaticPredictor.prediction p) taken (StaticPredictor.stats p)) p).
Proof. destruct p. reflexivity. Qed.

Lemma btfn_update (pc : Z) (taken : bool) (target : Z) (p : BTFNPredictor.t D) :
  BTFNPredictor.update pc taken target p =
    Some (BTFNPredictor.set_stats
            (stats_after (target <? pc) taken (BTFNPredictor.stats p)) p).
Proof. destruct p. reflexivity. Qed.

(** *** Bimodal *)

Lemma bimodal_index_spec (p : BimodalPredictor.t D) (pc : Z) :
  bimodal_wf p →
  BimodalPredictor.getIndex p pc = Z.shiftr pc 2 mod 2 ^ BimodalPredictor.indexBits p
  ∧ 0 ≤ BimodalPredictor.getIndex p pc < Z.of_nat (length (BimodalPredictor.table p)).
Proof.
  intros [Hk Hlen]. unfold bits_ok in Hk. unfold BimodalPredictor.getIndex.
  rewrite ones_mask by lia. rewrite Hlen. split.
  - apply Z.land_ones. lia.
  - apply land_ones_range. lia.
Qed.

Lemma bimodal_predict (pc target : Z) (p : BimodalPredictor.t D) :
  bimodal_wf p →
  ∃ c, vec_get (BimodalPredictor.table p) (BimodalPredictor.getIndex p pc) = Some c
     ∧ BimodalPredictor.predict pc target p =
         Some (if BimodalPredictor.twoBit p then 2 <=? c else c =? 1, p).
Proof.
  intros Hwf. destruct (bimodal_index_spec p pc Hwf) as [_ Hi].
  destruct (vec_get_in_range _ _ Hi) as [c Hc].
  exists c. split; [done |].
  unfold BimodalPredictor.predict. rewrite Hc. cbn.
  by destruct (BimodalPredictor.twoBit p).
Qed.

Lemma bimodal_update (pc : Z) (taken : bool) (target : Z) (p : BimodalPredictor.t D) :
  bimodal_wf p →
  ∃ c r, vec_get (BimodalPredictor.table p) (BimodalPredictor.getIndex p pc) = Some c
     ∧ BimodalPredictor.predict pc target p = Some (r, p)
     ∧ BimodalPredictor.update pc taken target p =
         Some (BimodalPredictor.set_table
                 (<[Z.to_nat (BimodalPredictor.getIndex p pc) :=
                      if BimodalPredictor.twoBit p then counter_update taken c
                      else if taken then 1 else 0]> (BimodalPredictor.table p))
                 (BimodalPredictor.set_stats
                    (stats_after r taken (BimodalPredictor.stats p)) p)).
Proof.
  intros Hwf. destruct (bimodal_index_spec p pc Hwf) as [_ Hi].
  destruct (bimodal_predict pc target p Hwf) as (c & Hc & Hp).
  exists c, (if BimodalPredictor.twoBit p then 2 <=? c else c =? 1).
  split; [done |]. split; [done |].
  destruct p as [ty st tb ib ts two].
  unfold BimodalPredictor.update, BimodalPredictor.predict,
    BimodalPredictor.getIndex in *. cbn in *.
  rewrite ?Hc. cbn. destruct two; cbn.
  - rewrite ?Hc. cbn. rewrite vec_set_in_range by done. reflexivity.
  - rewrite vec_set_in_range by done. reflexivity.
Qed.

Lemma bimodal_update_wf (pc : Z) (taken : bool) (target : Z)
    (p p' : BimodalPredictor.t D) :
  bimodal_wf p → BimodalPredictor.update pc taken target p = Some p' → bimodal_wf p'.
Proof.
  intros Hwf Hu. destruct (bimodal_update pc taken target p Hwf) as (c & r & _ & _ & E).
  rewrite E in Hu. injection Hu as <-.
  destruct Hwf as [Hk Hlen]. split; cbn; [done |]. by rewrite length_insert.
Qed.

Lemma bimodal_reset_wf (p : BimodalPredictor.t D) :
  bimodal_wf p → bimodal_wf (BimodalPredictor.reset p).
Proof. intros [Hk Hlen]. split; cbn; [done |]. by rewrite length_fmap. Qed.

Lemma bimodal_new_wf (ty : PredictorType.t) (bits : Z) :
  bits_ok bits → bimodal_wf (BimodalPredictor.new (D := D) ty bits).
Proof.
  intros Hk. split; cbn; [done |]. unfold bits_ok in Hk.
  apply replicate_length_pow2. lia.
Qed.

(** *** Gshare *)

Lemma gshare_index_range (p : GsharePredictor.t D) (pc : Z) :
  gshare_wf p →
  0 ≤ GsharePredictor.getIndex p pc < Z.of_nat (length (GsharePredictor.table p)).
Proof.
  intros (Hk & Hh & Hlen). unfold bits_ok in *. unfold GsharePredictor.getIndex.
  rewrite !ones_mask by lia. rewrite Hlen.
  apply lxor_range; [lia | apply land_ones_range; lia |].
  pose proof (land_ones_range (GsharePredictor.globalHistory p)
                (Z.min (GsharePredictor.historyBits p) (GsharePredictor.indexBits p))
                ltac:(lia)) as [H1 H2].
  split; [done |]. eapply Z.lt_le_trans; [exact H2 |].
  apply Z.pow_le_mono_r; lia.
Qed.

Lemma gshare_predict (pc target : Z) (p : GsharePredictor.t D) :
  gshare_wf p →
  ∃ c, vec_get (GsharePredictor.table p) (GsharePredictor.getIndex p pc) = Some c
     ∧ GsharePredictor.predict pc target p = Some (2 <=? c, p).
Proof.
  intros Hwf. destruct (vec_get_in_range _ _ (gshare_index_range p pc Hwf)) as [c Hc].
  exists c. split; [done |]. unfold GsharePredictor.predict. by rewrite Hc.
Qed.

Lemma gshare_update (pc : Z) (taken : bool) (target : Z) (p : GsharePredictor.t D) :
  gshare_wf p →
  ∃ r p', GsharePredictor.predict pc target p = Some (r, p)
     ∧ GsharePredictor.update pc taken target p = Some p'
     ∧ gshare_wf p'
     ∧ GsharePredictor.stats p' = stats_after r taken (GsharePredictor.stats p).
Proof.
  intros Hwf. pose proof (gshare_index_range p pc Hwf) as Hi.
  destruct (gshare_predict pc target p Hwf) as (c & Hc & Hp).
  destruct p as [ty st tb gh hb ib ts].
  exists (2 <=? c). eexists. split; [done |].
  unfold GsharePredictor.update, GsharePredictor.predict,
    GsharePredictor.getIndex in *. cbn in *.
  repeat (first [rewrite Hc | rewrite vec_set_in_range by done]; cbn).
  split; [reflexivity |]. split; [| reflexivity].
  destruct Hwf as (? & ? & Hlen). split_and!; cbn in *; try done.
  by rewrite length_insert.
Qed.

Lemma gshare_reset_wf (p : GsharePredictor.t D) :
  gshare_wf p → gshare_wf (GsharePredictor.reset p).
Proof. intros (? & ? & ?). split_and!; cbn; try done. by rewrite length_fmap. Qed.

Lemma gshare_new_wf (histBits idxBits : Z) :
  bits_ok histBits → bits_ok idxBits →
  gshare_wf (GsharePredictor.new (D := D) histBits idxBits).
Proof.
  intros Hh Hk. split_and!; cbn; try done. unfold bits_ok in Hk.
  apply replicate_length_pow2. lia.
Qed.

(** *** Local history *)

Lemma local_predict (pc target : Z) (p : LocalHistoryPredictor.t D) :
  local_wf p →
  ∃ h c,
    vec_get (LocalHistoryPredictor.localHistoryTable p)
            (LocalHistoryPredictor.getLocalIndex p pc) = Some h
    ∧ vec_get (LocalHistoryPredictor.patternHistoryTable p)
              (LocalHistoryPredictor.getPatternIndex p h) = Some c
    ∧ 0 ≤ LocalHistoryPredictor.getLocalIndex p pc
        < Z.of_nat (length (LocalHistoryPredictor.localHistoryTable p))
    ∧ 0 ≤ LocalHistoryPredictor.getPatternIndex p h
        < Z.of_nat (length (LocalHistoryPredictor.patternHistoryTable p))
    ∧ LocalHistoryPredictor.predict pc target p = Some (2 <=? c, p).
Proof.
  intros (HL & HP & HlenL & HlenP). unfold bits_ok in *.
  assert (Hi : 0 ≤ LocalHistoryPredictor.getLocalIndex p pc
               < Z.of_nat (length (LocalHistoryPredictor.localHistoryTable p))).
  { unfold LocalHistoryPredictor.getLocalIndex. rewrite ones_mask, HlenL by lia.
    apply land_ones_range. lia. }
  destruct (vec_get_in_range _ _ Hi) as [h Hh].
  assert (Hj : 0 ≤ LocalHistoryPredictor.getPatternIndex p h
               < Z.of_nat (length (LocalHistoryPredictor.patternHistoryTable p))).
  { unfold LocalHistoryPredictor.getPatternIndex. rewrite ones_mask, HlenP by lia.
    apply land_ones_range. lia. }
  destruct (vec_get_in_range _ _ Hj) as [c Hc].
  exists h, c. do 4 (split; [done |]).
  unfold LocalHistoryPredictor.predict. cbv zeta. rewrite Hh. cbn. by rewrite Hc.
Qed.

Lemma local_update (pc : Z) (taken : bool) (target : Z) (p : LocalHistoryPredictor.t D) :
  local_wf p →
  ∃ r p', LocalHistoryPredictor.predict pc target p = Some (r, p)
     ∧ LocalHistoryPredictor.update pc taken target p = Some p'
     ∧ local_wf p'
     ∧ LocalHistoryPredictor.stats p' = stats_after r taken (LocalHistoryPredictor.stats p).
Proof.
  intros Hwf.
  destruct (local_predict pc target p Hwf) as (h & c & Hh & Hc & Hi & Hj & Hp).
  destruct p as [ty st lht pht lb pb ls ps].
  exists (2 <=? c). eexists. split; [done |].
  unfold LocalHistoryPredictor.update, LocalHistoryPredictor.predict,
    LocalHistoryPredictor.getLocalIndex, LocalHistoryPredictor.getPatternIndex in *.
  cbn in *.
  repeat (first [rewrite Hh | rewrite Hc | rewrite vec_set_in_range by done]; cbn).
  split; [reflexivity |]. split; [| reflexivity].
  destruct Hwf as (? & ? & ? & ?). split_and!; cbn in *; try done.
  all: by rewrite length_insert.
Qed.

Lemma local_reset_wf (p : LocalHistoryPredictor.t D) :
  local_wf p → local_wf (LocalHistoryPredictor.reset p).
Proof. intros (? & ? & ? & ?). split_and!; cbn; try done; by rewrite length_fmap. Qed.

Lemma local_new_wf (localBits patternBits : Z) :
  bits_ok localBits → bits_ok patternBits →
  local_wf (LocalHistoryPredictor.new (D := D) localBits patternBits).
Proof.
  intros HL HP. unfold bits_ok in *.
  split_and!; cbn; try done; apply replicate_length_pow2; lia.
Qed.

End Hierarchy.

Section Tournament.
Context {D : Type} `{Double D}.

Lemma tournament_index_range (p : TournamentPredictor.t D) (pc : Z) :
  tournament_wf p →
  0 ≤ TournamentPredictor.getChoiceIndex p pc
    < Z.of_nat (length (TournamentPredictor.choiceTable p)).
Proof.
  intros (_ & _ & (c & Hc & Hsize) & Hlen). unfold bits_ok in Hc.
  unfold TournamentPredictor.getChoiceIndex. rewrite Hlen, Hsize.
  rewrite <- (Z.shiftl_1_l c), ones_mask by lia.
  rewrite Z.shiftl_1_l. apply land_ones_range. lia.
Qed.

Lemma tournament_global_predict (pc target : Z) (p : TournamentPredictor.t D) :
  tournament_wf p →
  ∃ r, GsharePredictor.predict pc target (TournamentPredictor.globalPredictor p)
       = Some (r, TournamentPredictor.globalPredictor p)
     ∧ TournamentPredictor.global_predict pc target p = Some (r, p).
Proof.
  intros (Hg & _). destruct (gshare_predict pc target _ Hg) as (c & _ & Hp).
  exists (2 <=? c). split; [done |].
  unfold TournamentPredictor.global_predict. rewrite Hp. cbn. by destruct p.
Qed.

Lemma tournament_local_predict (pc target : Z) (p : TournamentPredictor.t D) :
  tournament_wf p →
  ∃ r, LocalHistoryPredictor.predict pc target (TournamentPredictor.localPredictor p)
       = Some (r, TournamentPredictor.localPredictor p)
     ∧ TournamentPredictor.local_predict pc target p = Some (r, p).
Proof.
  intros (_ & Hl & _).
  destruct (local_predict pc target _ Hl) as (h & c & _ & _ & _ & _ & Hp).
  exists (2 <=? c). split; [done |].
  unfold TournamentPredictor.local_predict. rewrite Hp. cbn. by destruct p.
Qed.

Lemma tournament_predict (pc target : Z) (p : TournamentPredictor.t D) :
  tournament_wf p →
  ∃ r, TournamentPredictor.predict pc target p = Some (r, p).
Proof.
  intros Hwf.
  destruct (vec_get_in_range _ _ (tournament_index_range p pc Hwf)) as [c Hc].
  destruct (tournament_global_predict pc target p Hwf) as (rg & _ & Hg).
  destruct (tournament_local_predict pc target p Hwf) as (rl & _ & Hl).
  unfold TournamentPredictor.predict. cbv zeta. rewrite Hc. cbn.
  destruct (2 <=? c); eauto.
Qed.

Lemma tournament_update (pc : Z) (taken : bool) (target : Z) (p : TournamentPredictor.t D) :
  tournament_wf p →
  ∃ r p', TournamentPredictor.predict pc target p = Some (r, p)
     ∧ TournamentPredictor.update pc taken target p = Some p'
     ∧ tournament_wf p'
     ∧ TournamentPredictor.stats p' = stats_after r taken (TournamentPredictor.stats p).
Proof.
  intros Hwf.
  pose proof (tournament_index_range p pc Hwf) as Hi.
  destruct (vec_get_in_range _ _ Hi) as [c Hc].
  destruct (tournament_global_predict pc target p Hwf) as (rg & _ & Hg).
  destruct (tournament_local_predict pc target p Hwf) as (rl & _ & Hl).
  destruct (tournament_predict pc target p Hwf) as (r & Hp).
  destruct Hwf as (Hgw & Hlw & Hsize & Hlen).
  destruct (gshare_update pc taken target _ Hgw) as (? & g' & _ & Hgu & Hgw' & _).
  destruct (local_update pc taken target _ Hlw) as (? & l' & _ & Hlu & Hlw' & _).
  exists r.
  unfold TournamentPredictor.update. cbv zeta.
  rewrite Hg. cbn [mbind option_bind]. rewrite Hl. cbn [mbind option_bind].
  rewrite Hp. cbn [mbind option_bind].
  destruct p as [ty st g l ct cs].
  unfold TournamentPredictor.getChoiceIndex in *. cbn in *.
  set (st' := BranchStats.store_accuracy _).
  assert (Hdone : ∀ ct', Z.of_nat (length ct') = cs →
     ∃ p', (g0 ← GsharePredictor.update pc taken target g;
            l0 ← LocalHistoryPredictor.update pc taken target l;
            Some {| TournamentPredictor.type := ty; TournamentPredictor.stats := st';
                    TournamentPredictor.globalPredictor := g0;
                    TournamentPredictor.localPredictor := l0;
                    TournamentPredictor.choiceTable := ct';
                    TournamentPredictor.choiceTableSize := cs |}) = Some p'
         ∧ tournament_wf p' ∧ TournamentPredictor.stats p' = st').
  { intros ct' Hct'. rewrite Hgu. cbn. rewrite Hlu. cbn.
    eexists. split; [reflexivity |]. split; [| reflexivity].
    split_and!; cbn; done. }
  destruct (Bool.eqb rg taken && negb (Bool.eqb rl taken)); cbn.
  { rewrite Hc. cbn. destruct (c <? 3); cbn.
    - rewrite vec_set_in_range by done. cbn.
      destruct (Hdone (<[Z.to_nat (Z.land (pc ≫ 2) (u32 (cs - 1))) := c + 1]> ct))
        as (p' & E & ? & ?); [by rewrite length_insert |].
      exists p'. split; [done |]. split; [exact E |]. done.
    - destruct (Hdone ct Hlen) as (p' & E & ? & ?).
      exists p'. split; [done |]. split; [exact E |]. done. }
  destruct (Bool.eqb rl taken && negb (Bool.eqb rg taken)); cbn.
  { rewrite Hc. cbn. destruct (0 <? c); cbn.
    - rewrite vec_set_in_range by done. cbn.
      destruct (Hdone (<[Z.to_nat (Z.land (pc ≫ 2) (u32 (cs - 1))) := c - 1]> ct))
        as (p' & E & ? & ?); [by rewrite length_insert |].
      exists p'. split; [done |]. split; [exact E |]. done.
    - destruct (Hdone ct Hlen) as (p' & E & ? & ?).
      exists p'. split; [done |]. split; [exact E |]. done. }
  destruct (Hdone ct Hlen) as (p' & E & ? & ?).
  exists p'. split; [done |]. split; [exact E |]. done.
Qed.

Lemma tournament_reset_wf (p : TournamentPredictor.t D) :
  tournament_wf p → tournament_wf (TournamentPredictor.reset p).
Proof.
  intros (Hg & Hl & Hsize & Hlen). split_and!; cbn.
  - by apply gshare_reset_wf.
  - by apply local_reset_wf.
  - done.
  - by rewrite length_fmap.
Qed.

Lemma tournament_new_wf (choiceBits : Z) :
  bits_ok choiceBits → tournament_wf (TournamentPredictor.new (D := D) choiceBits).
Proof.
  intros Hc. split_and!; cbn.
  - apply gshare_new_wf; unfold bits_ok; lia.
  - apply local_new_wf; unfold bits_ok; lia.
  - exists choiceBits. split; [done |]. apply shift_one. unfold bits_ok in Hc. lia.
  - rewrite length_replicate. apply Z2Nat.id. apply u32_range.
Qed.

(** *** Any predictor of the hierarchy *)

Lemma predictor_predict (pc target : Z) (b : BranchPredictor.t D) :
  predictor_wf b → ∃ r, BranchPredictor.predict pc target b = Some (r, b).
Proof.
  destruct b as [p | p | p | p | p | p]; intros Hwf; cbn.
  - eauto.
  - eauto.
  - destruct (bimodal_predict pc target p Hwf) as (c & _ & ->). cbn. eauto.
  - destruct (gshare_predict pc target p Hwf) as (c & _ & ->). cbn. eauto.
  - destruct (local_predict pc target p Hwf) as (h & c & _ & _ & _ & _ & ->). cbn. eauto.
  - destruct (tournament_predict pc target p Hwf) as (r & ->). cbn. eauto.
Qed.

Lemma predictor_update (pc : Z) (taken : bool) (target : Z) (b : BranchPredictor.t D) :
  predictor_wf b →
  ∃ r b', BranchPredictor.predict pc target b = Some (r, b)
     ∧ BranchPredictor.update pc taken target b = Some b'
     ∧ predictor_wf b'
     ∧ BranchPredictor.getStats b' = stats_after r taken (BranchPredictor.getStats b).
Proof.
  destruct b as [p | p | p | p | p | p]; intros Hwf; cbn.
  - destruct p. eexists _, _. split_and!; reflexivity.
  - destruct p. eexists _, _. split_and!; reflexivity.
  - destruct (bimodal_update pc taken target p Hwf) as (c & r & _ & Hp & Hu).
    rewrite Hp, Hu. cbn. eexists _, _. split_and!; try reflexivity.
    eapply bimodal_update_wf; eassumption.
  - destruct (gshare_update pc taken target p Hwf) as (r & p' & Hp & Hu & Hw & Hs).
    rewrite Hp, Hu. cbn. eexists _, _. split_and!; try reflexivity; done.
  - destruct (local_update pc taken target p Hwf) as (r & p' & Hp & Hu & Hw & Hs).
    rewrite Hp, Hu. cbn. eexists _, _. split_and!; try reflexivity; done.
  - destruct (tournament_update pc taken target p Hwf) as (r & p' & Hp & Hu & Hw & Hs).
    rewrite Hp, Hu. cbn. eexists _, _. split_and!; try reflexivity; done.
Qed.

Lemma predictor_reset (b : BranchPredictor.t D) :
  predictor_wf b →
  predictor_wf (BranchPredictor.reset b)
  ∧ BranchPredictor.getStats (BranchPredictor.reset b) = BranchStats.zero.
Proof.
  destruct b as [p | p | p | p | p | p]; intros Hwf; cbn; split; try done.
  - by apply bimodal_reset_wf.
  - by apply gshare_reset_wf.
  - by apply local_reset_wf.
  - by apply tournament_reset_wf.
Qed.

Lemma create_wf (type : PredictorType.t) (param1 param2 : Z) :
  params_ok type param1 param2 →
  predictor_wf (BranchPredictorFactory.create (D := D) type param1 param2)
  ∧ BranchPredictor.getStats (BranchPredictorFactory.create (D := D) type param1 param2)
    = BranchStats.zero.
Proof.
  destruct type; cbn; intros Hok; (split; [| reflexivity]); try done.
  - by apply bimodal_new_wf.
  - by apply bimodal_new_wf.
  - destruct Hok. by apply gshare_new_wf.
  - destruct Hok. by apply local_new_wf.
  - by apply tournament_new_wf.
Qed.

Lemma calls_consistent (cs : list Call) (b : BranchPredictor.t D) :
  predictor_wf b → stats_consistent (BranchPredictor.getStats b) →
  ∃ b', calls cs b = Some b' ∧ predictor_wf b'
      ∧ stats_consistent (BranchPredictor.getStats b').
Proof.
  revert b. induction cs as [| c cs IH]; intros b Hwf Hst; [by exists b |].
  destruct c as [pc target | pc taken target |]; cbn.
  - destruct (predictor_predict pc target b Hwf) as (r & ->). cbn. by apply IH.
  - destruct (predictor_update pc taken target b Hwf) as (r & b' & _ & -> & Hw & Hs).
    cbn. apply IH; [done |]. rewrite Hs. by apply stats_after_consistent.
  - destruct (predictor_reset b Hwf) as [Hw Hs].
    apply IH; [done |]. rewrite Hs. apply stats_zero_consistent.
Qed.

End Tournament.

(** *** The 2-bit bimodal predictor against the four-state machine *)

Lemma counter_update_twobit (q : TwoBit) (taken : bool) :
  counter_update taken (twobit_code q) = twobit_code (twobit_next q taken).
Proof. destruct q, taken; reflexivity. Qed.

Lemma twobit_of_code (c : Z) : 0 ≤ c ≤ 3 → ∃ q, c = twobit_code q.
Proof.
  intros Hc.
  assert (c = 0 ∨ c = 1 ∨ c = 2 ∨ c = 3) as [-> | [-> | [-> | ->]]] by lia.
  - by exists SNT.
  - by exists WNT.
  - by exists WT.
  - by exists ST.
Qed.

Lemma twobit_code_range (q : TwoBit) : 0 ≤ twobit_code q ≤ 3.
Proof. destruct q; cbn; lia. Qed.

Lemma twobit_taken_code (q : TwoBit) :
  (2 <=? twobit_code q) = twobit_predicts_taken q.
Proof. by destruct q. Qed.

Section Bimodal2.
Context {D : Type} `{Double D}.

Lemma bimodal2_new (k : Z) :
  bits_ok k →
  bimodal2_wf (BimodalPredictor.new (D := D) PredictorType.BIMODAL_2BIT k)
  ∧ ∀ i, 0 ≤ i < 2 ^ k →
         vec_get (BimodalPredictor.table
                    (BimodalPredictor.new (D := D) PredictorType.BIMODAL_2BIT k)) i
         = Some (twobit_code WNT).
Proof.
  intros Hk. split.
  - split; [by apply bimodal_new_wf |]. split; [reflexivity |].
    cbn. apply Forall_replicate. lia.
  - intros i Hi. cbn. apply vec_get_lookup; [lia |].
    apply lookup_replicate_2. unfold bits_ok in Hk. rewrite shift_one by lia. lia.
Qed.

Lemma bimodal2_step (p : BimodalPredictor.t D) (pc target : Z) (taken : bool) :
  bimodal2_wf p →
  let i := Z.shiftr pc 2 mod 2 ^ BimodalPredictor.indexBits p in
  ∃ q, vec_get (BimodalPredictor.table p) i = Some (twobit_code q)
     ∧ BimodalPredictor.predict pc target p = Some (2 <=? twobit_code q, p)
     ∧ ∃ p', BimodalPredictor.update pc taken target p = Some p'
           ∧ bimodal2_wf p'
           ∧ BimodalPredictor.indexBits p' = BimodalPredictor.indexBits p
           ∧ vec_get (BimodalPredictor.table p') i
             = Some (twobit_code (twobit_next q taken))
           ∧ ∀ j, j ≠ i →
                  vec_get (BimodalPredictor.table p') j
                  = vec_get (BimodalPredictor.table p) j.
Proof.
  intros (Hwf & Htwo & Hall) i.
  destruct (bimodal_index_spec p pc Hwf) as [Hidx Hrange]. fold i in Hidx.
  destruct (bimodal_update pc taken target p Hwf) as (c & r & Hc & Hp & Hu).
  destruct (bimodal_predict pc target p Hwf) as (c' & Hc' & Hp').
  rewrite Hc in Hc'. injection Hc' as <-.
  rewrite Htwo in Hu, Hp'. rewrite Hidx in *.
  assert (Hcr : 0 ≤ c ≤ 3).
  { apply vec_get_Some in Hc as [_ Hc].
    exact (proj1 (Forall_lookup _ _) Hall _ _ Hc). }
  destruct (twobit_of_code c Hcr) as [q ->].
  exists q. split; [done |]. split; [done |].
  eexists. split; [exact Hu |].
  assert (Hset : vec_set (BimodalPredictor.table p) i
                   (counter_update taken (twobit_code q))
                 = Some (<[Z.to_nat i := counter_update taken (twobit_code q)]>
                           (BimodalPredictor.table p)))
    by (by apply vec_set_in_range).
  split_and!.
  - split; [| split; [exact Htwo |]].
    + destruct Hwf as [Hk Hlen]. split; cbn; [done |]. by rewrite length_insert.
    + cbn. apply Forall_insert; [done |].
      rewrite counter_update_twobit. apply twobit_code_range.
  - reflexivity.
  - cbn. rewrite <- counter_update_twobit. by eapply vec_get_set_eq.
  - intros j Hj. cbn. eapply vec_get_set_ne; [exact Hset | done].
Qed.

Lemma bimodal2_reset (p : BimodalPredictor.t D) :
  bimodal2_wf p →
  bimodal2_wf (BimodalPredictor.reset p)
  ∧ BimodalPredictor.indexBits (BimodalPredictor.reset p) = BimodalPredictor.indexBits p.
Proof.
  intros (Hwf & Htwo & Hall). split; [| reflexivity].
  split; [by apply bimodal_reset_wf |]. split; [exact Htwo |].
  cbn. rewrite Htwo. apply Forall_fmap, Forall_true. intros ?. cbn. lia.
Qed.

Lemma bimodal2_calls (cs : list Call) (p : BimodalPredictor.t D) :
  bimodal2_wf p →
  ∃ p', calls cs (BranchPredictor.Bimodal p) = Some (BranchPredictor.Bimodal p')
      ∧ bimodal2_wf p'
      ∧ BimodalPredictor.indexBits p' = BimodalPredictor.indexBits p.
Proof.
  revert p. induction cs as [| c cs IH]; intros p Hwf; [by exists p |].
  destruct c as [pc target | pc taken target |]; cbn.
  - destruct (bimodal2_step p pc target true Hwf) as (q & _ & -> & _). cbn. by apply IH.
  - destruct (bimodal2_step p pc target taken Hwf)
      as (q & _ & _ & p' & -> & Hwf' & Hk & _).
    cbn. destruct (IH p' Hwf') as (p'' & ? & ? & ?).
    exists p''. split_and!; [done | done | congruence].
  - destruct (bimodal2_reset p Hwf) as [Hwf' Hk].
    destruct (IH _ Hwf') as (p'' & ? & ? & ?).
    exists p''. split_and!; [done | done | congruence].
Qed.

(** C4. The 2-bit bimodal predictor built for [k] index bits starts with
    every entry at WNT = 1; after any sequence of calls its entries lie in
    [0, 3]; in such a state [predict] answers taken exactly when the entry
    at [(pc >> 2) mod 2^k] is at least 2 (the states WT and ST), and
    [update] moves that entry, and no other, as the four-state machine
    does: up on taken, down on not taken, saturating at 3 and at 0. *)
Theorem C4_two_bit_bimodal (k : Z) :
  bits_ok k →
  (∀ i, 0 ≤ i < 2 ^ k →
        vec_get (BimodalPredictor.table
                   (BimodalPredictor.new (D := D) PredictorType.BIMODAL_2BIT k)) i
        = Some (twobit_code WNT))
  ∧ (∀ cs, ∃ p,
        calls cs (BranchPredictor.Bimodal
                    (BimodalPredictor.new (D := D) PredictorType.BIMODAL_2BIT k))
        = Some (BranchPredictor.Bimodal p)
        ∧ BimodalPredictor.indexBits p = k
        ∧ Forall (λ c, 0 ≤ c ≤ 3) (BimodalPredictor.table p)
        ∧ ∀ pc target taken,
            let i := Z.shiftr pc 2 mod 2 ^ k in
            ∃ q, vec_get (BimodalPredictor.table p) i = Some (twobit_code q)
               ∧ BimodalPredictor.predict pc target p = Some (2 <=? twobit_code q, p)
               ∧ (2 <=? twobit_code q) = twobit_predicts_taken q
               ∧ ∃ p', BimodalPredictor.update pc taken target p = Some p'
                     ∧ vec_get (BimodalPredictor.table p') i
                       = Some (twobit_code (twobit_next q taken))
                     ∧ (∀ j, j ≠ i →
                             vec_get (BimodalPredictor.table p') j
                             = vec_get (BimodalPredictor.table p) j)
                     ∧ Forall (λ c, 0 ≤ c ≤ 3) (BimodalPredictor.table p')).
Proof.
  intros Hk. destruct (bimodal2_new k Hk) as [Hwf0 Hinit].
  split; [exact Hinit |].
  intros cs. destruct (bimodal2_calls cs _ Hwf0) as (p & Hcs & Hwf & Hbits).
  exists p. split; [exact Hcs |]. split; [exact Hbits |].
  split; [apply Hwf |].
  intros pc target taken i.
  destruct (bimodal2_step p pc target taken Hwf) as (q & Hq & Hp & p' & Hu & Hwf' & _ & Hq' & Hother).
  cbn in Hbits. rewrite Hbits in *. fold i in Hq, Hq', Hother.
  exists q. split; [exact Hq |]. split; [exact Hp |].
  split; [apply twobit_taken_code |].
  exists p'. split; [exact Hu |]. split; [exact Hq' |]. split; [exact Hother |].
  apply Hwf'.
Qed.

End Bimodal2.

(** C4 for a table of four counters: two taken branches at [pc = 4] take
    entry 1 from WNT to ST. *)
Lemma C4_witness :
  ∃ p, calls [CallUpdate 4 true 0; CallUpdate 4 true 0]
         (BranchPredictor.Bimodal
            (BimodalPredictor.new (D := ratio) PredictorType.BIMODAL_2BIT 2))
       = Some (BranchPredictor.Bimodal p)
     ∧ Forall (λ c, 0 ≤ c ≤ 3) (BimodalPredictor.table p).
Proof.
  destruct (C4_two_bit_bimodal (D := ratio) 2 ltac:(unfold bits_ok; lia)) as [_ Hc].
  destruct (Hc [CallUpdate 4 true 0; CallUpdate 4 true 0]) as (p & Hp & _ & Hall & _).
  exists p. split; [exact Hp | exact Hall].
Defined.

(** ** The map-based predictor *)

Lemma int_incr_Some (x y : Z) : int_incr x = Some y ↔ x < 2 ^ 31 - 1 ∧ y = x + 1.
Proof.
  unfold int_incr. destruct (Z.ltb_spec x (2 ^ 31 - 1)); split.
  - intros [= <-]. done.
  - intros [_ ->]. done.
  - discriminate.
  - intros [? _]. lia.
Qed.

Section MapPredictor.
Context {D : Type} `{Double D}.

(** [update] compares the outcome with what [predict] answers. *)
Lemma map_update_table_prediction (pc : Z) (actual : bool) (p : MapPredictor.t D) :
  fst (MapPredictor.update_table pc actual p) = map_prediction pc p.
Proof.
  unfold MapPredictor.update_table, map_prediction.
  destruct (MapPredictor.predictor_type p); try reflexivity.
  all: by destruct (MapPredictor.branch_history_table p !! pc).
Qed.

(** [predict] counts the call in [total_predictions] and, for a [pc] the
    table does not hold yet, stores the initial counter. *)
Lemma map_predict_spec (pc : Z) (p : MapPredictor.t D) (r : bool) (p' : MapPredictor.t D) :
  MapPredictor.predict pc p = Some (r, p') →
  r = map_prediction pc p
  ∧ MapPredictor.total_predictions (MapPredictor.stats p')
    = MapPredictor.total_predictions (MapPredictor.stats p) + 1
  ∧ MapPredictor.correct_predictions (MapPredictor.stats p')
    = MapPredictor.correct_predictions (MapPredictor.stats p)
  ∧ MapPredictor.incorrect_predictions (MapPredictor.stats p')
    = MapPredictor.incorrect_predictions (MapPredictor.stats p)
  ∧ MapPredictor.accuracy (MapPredictor.stats p')
    = MapPredictor.accuracy (MapPredictor.stats p)
  ∧ MapPredictor.predictor_type p' = MapPredictor.predictor_type p.
Proof.
  unfold MapPredictor.predict, map_prediction.
  destruct (int_incr _) as [total |] eqn:Ht; [| discriminate].
  apply int_incr_Some in Ht as [_ ->]. cbn.
  destruct p as [ty m st]. cbn.
  destruct ty; cbn.
  - intros [= <- <-]. done.
  - intros [= <- <-]. done.
  - destruct (m !! pc) as [c |] eqn:Hm; cbn.
    + rewrite Hm. cbn. intros [= <- <-]. done.
    + rewrite lookup_insert_eq. cbn. intros [= <- <-]. done.
  - destruct (m !! pc) as [c |] eqn:Hm; cbn.
    + rewrite Hm. cbn. intros [= <- <-]. done.
    + rewrite lookup_insert_eq. cbn. intros [= <- <-]. done.
Qed.

(** The table [predict] leaves: the initial counter stored for a [pc] a
    dynamic predictor has not seen, and nothing else changed. *)
Lemma map_predict_table (pc : Z) (p : MapPredictor.t D) (r : bool) (p' : MapPredictor.t D) :
  MapPredictor.predict pc p = Some (r, p') →
  MapPredictor.branch_history_table p'
  = match MapPredictor.predictor_type p, MapPredictor.branch_history_table p !! pc with
    | MapPredictor.DYNAMIC_1BIT, None => <[pc := 0]> (MapPredictor.branch_history_table p)
    | MapPredictor.DYNAMIC_2BIT, None =>
        <[pc := MapPredictor.WEAKLY_NOT_TAKEN]> (MapPredictor.branch_history_table p)
    | _, _ => MapPredictor.branch_history_table p
    end.
Proof.
  unfold MapPredictor.predict.
  destruct (int_incr _) as [total |] eqn:Ht; [| discriminate].
  cbn. destruct p as [ty m st]. cbn.
  destruct ty; cbn.
  - intros [= <- <-]. done.
  - intros [= <- <-]. done.
  - destruct (m !! pc) as [c |] eqn:Hm; cbn.
    + rewrite Hm. cbn. intros [= <- <-]. done.
    + rewrite lookup_insert_eq. cbn. intros [= <- <-]. done.
  - destruct (m !! pc) as [c |] eqn:Hm; cbn.
    + rewrite Hm. cbn. intros [= <- <-]. done.
    + rewrite lookup_insert_eq. cbn. intros [= <- <-]. done.
Qed.

Lemma map_predict_defined (pc : Z) (p : MapPredictor.t D) :
  MapPredictor.total_predictions (MapPredictor.stats p) < 2 ^ 31 - 1 →
  is_Some (MapPredictor.predict pc p).
Proof.
  intros Ht. unfold MapPredictor.predict.
  rewrite (proj2 (int_incr_Some _ _) (conj Ht eq_refl)). cbn.
  destruct p as [ty m st]. destruct ty; cbn; try done.
  - destruct (m !! pc) as [c |] eqn:Hm; cbn; [by rewrite Hm |].
    by rewrite lookup_insert_eq.
  - destruct (m !! pc) as [c |] eqn:Hm; cbn; [by rewrite Hm |].
    by rewrite lookup_insert_eq.
Qed.

(** [update] leaves [total_predictions] alone, counts the outcome as
    correct or incorrect against the recomputed prediction, and stores
    the percentage when [total_predictions] is positive. *)
Lemma map_update_spec (pc : Z) (actual : bool) (p p' : MapPredictor.t D) :
  MapPredictor.update pc actual p = Some p' →
  MapPredictor.total_predictions (MapPredictor.stats p')
  = MapPredictor.total_predictions (MapPredictor.stats p)
  ∧ MapPredictor.correct_predictions (MapPredictor.stats p')
    = MapPredictor.correct_predictions (MapPredictor.stats p)
      + (if Bool.eqb (map_prediction pc p) actual then 1 else 0)
  ∧ MapPredictor.incorrect_predictions (MapPredictor.stats p')
    = MapPredictor.incorrect_predictions (MapPredictor.stats p)
      + (if Bool.eqb (map_prediction pc p) actual then 0 else 1)
  ∧ (0 < MapPredictor.total_predictions (MapPredictor.stats p') →
     MapPredictor.accuracy (MapPredictor.stats p')
     = d_percent (d_div (MapPredictor.correct_predictions (MapPredictor.stats p'))
                        (MapPredictor.total_predictions (MapPredictor.stats p'))))
  ∧ MapPredictor.predictor_type p' = MapPredictor.predictor_type p.
Proof.
  unfold MapPredictor.update.
  pose proof (map_update_table_prediction pc actual p) as Hpred.
  destruct (MapPredictor.update_table pc actual p) as [predicted m]. cbn in Hpred.
  subst predicted. destruct p as [ty m0 [t c i a]]. cbn.
  destruct (Bool.eqb _ actual); cbn.
  - destruct (int_incr c) as [c' |] eqn:Hc; [| discriminate].
    apply int_incr_Some in Hc as [_ ->]. cbn.
    destruct (Z.ltb_spec 0 t); intros [= <-]; cbn; split_and!; try done; lia.
  - destruct (int_incr i) as [i' |] eqn:Hi; [| discriminate].
    apply int_incr_Some in Hi as [_ ->]. cbn.
    destruct (Z.ltb_spec 0 t); intros [= <-]; cbn; split_and!; try done; lia.
Qed.

Lemma map_update_defined (pc : Z) (actual : bool) (p : MapPredictor.t D) :
  MapPredictor.correct_predictions (MapPredictor.stats p) < 2 ^ 31 - 1 →
  MapPredictor.incorrect_predictions (MapPredictor.stats p) < 2 ^ 31 - 1 →
  is_Some (MapPredictor.update pc actual p).
Proof.
  intros Hc Hi. unfold MapPredictor.update.
  destruct (MapPredictor.update_table pc actual p) as [predicted m]. cbn.
  destruct (Bool.eqb predicted actual).
  - rewrite (proj2 (int_incr_Some _ _) (conj Hc eq_refl)). done.
  - rewrite (proj2 (int_incr_Some _ _) (conj Hi eq_refl)). done.
Qed.

Lemma map_calls_counts (cs : list Call) (p : MapPredictor.t D) :
  Forall (λ c, is_reset c = false) cs →
  0 ≤ MapPredictor.correct_predictions (MapPredictor.stats p) →
  0 ≤ MapPredictor.incorrect_predictions (MapPredictor.stats p) →
  MapPredictor.total_predictions (MapPredictor.stats p) + Z.of_nat (length cs)
    ≤ 2 ^ 31 - 1 →
  MapPredictor.correct_predictions (MapPredictor.stats p)
    + MapPredictor.incorrect_predictions (MapPredictor.stats p)
    + Z.of_nat (length cs) ≤ 2 ^ 31 - 1 →
  ∃ p', map_calls cs p = Some p'
      ∧ MapPredictor.total_predictions (MapPredictor.stats p')
        = MapPredictor.total_predictions (MapPredictor.stats p)
          + count_calls is_predict cs
      ∧ MapPredictor.correct_predictions (MapPredictor.stats p')
          + MapPredictor.incorrect_predictions (MapPredictor.stats p')
        = MapPredictor.correct_predictions (MapPredictor.stats p)
          + MapPredictor.incorrect_predictions (MapPredictor.stats p)
          + count_calls is_update cs.
Proof.
  revert p. induction cs as [| c cs IH]; intros p Hnr Hc Hi Ht Hci.
  { exists p. cbn. split_and!; [done | lia | lia]. }
  apply Forall_cons in Hnr as [Hc0 Hnr].
  rewrite length_cons, Nat2Z.inj_succ in Ht, Hci.
  destruct c as [pc target | pc taken target |]; [| | discriminate].
  - destruct (map_predict_defined pc p) as [[r p1] Hp]; [lia |].
    destruct (map_predict_spec _ _ _ _ Hp) as (_ & Ht1 & Hc1 & Hi1 & _).
    destruct (IH p1 Hnr) as (p' & E & Ht' & Hci'); try lia.
    exists p'. cbn. rewrite Hp. cbn. split; [exact E |]. lia.
  - destruct (map_update_defined pc taken p) as [p1 Hu]; [lia | lia |].
    destruct (map_update_spec _ _ _ _ Hu) as (Ht1 & Hc1 & Hi1 & _).
    destruct (IH p1 Hnr) as (p' & E & Ht' & Hci'); try (destruct (Bool.eqb _ taken); lia).
    exists p'. cbn. rewrite Hu. cbn. split; [exact E |].
    destruct (Bool.eqb _ taken); lia.
Qed.

End MapPredictor.

(** ** Statistics and purity of the predictors *)

(** The claim as C5 states it fails for the map-based class: one call of
    [predict] on a fresh static predictor leaves [total_predictions = 1]
    with [correct_predictions + incorrect_predictions = 0]. *)
Lemma C5_counterexample :
  ∃ p, map_calls [CallPredict 0 0]
         (MapPredictor.new (D := ratio) MapPredictor.STATIC_NOT_TAKEN) = Some p
     ∧ MapPredictor.correct_predictions (MapPredictor.stats p)
       + MapPredictor.incorrect_predictions (MapPredictor.stats p)
       ≠ MapPredictor.total_predictions (MapPredictor.stats p).
Proof. eexists. split; [reflexivity |]. cbn. lia. Qed.

(** C5, amended.  For every variant the factory of the hierarchy makes,
    after any sequence of [predict], [update] and [reset] calls,
    [correct + mispredicted == total] and, when [total] is not 0,
    [accuracy] is the quotient [correct / total].  For the map-based class
    [predict] counts [total_predictions] and [update] counts the correct
    and incorrect predictions, so after a sequence of [predict] and
    [update] calls [total] is the number of [predict] calls and
    [correct + incorrect] the number of [update] calls; [update] stores
    the percentage [correct / total * 100] when [total] is positive. *)
Theorem C5_statistics_consistent {D : Type} `{Double D} :
  (∀ type param1 param2 cs,
      params_ok type param1 param2 →
      ∃ b, calls cs (BranchPredictorFactory.create (D := D) type param1 param2) = Some b
         ∧ stats_consistent (BranchPredictor.getStats b))
  ∧ (∀ type cs,
        Forall (λ c, is_reset c = false) cs →
        Z.of_nat (length cs) ≤ 2 ^ 31 - 1 →
        ∃ p, map_calls cs (MapPredictor.new (D := D) type) = Some p
           ∧ MapPredictor.total_predictions (MapPredictor.stats p)
             = count_calls is_predict cs
           ∧ MapPredictor.correct_predictions (MapPredictor.stats p)
               + MapPredictor.incorrect_predictions (MapPredictor.stats p)
             = count_calls is_update cs)
  ∧ (∀ pc actual (p p' : MapPredictor.t D),
        MapPredictor.update pc actual p = Some p' →
        0 < MapPredictor.total_predictions (MapPredictor.stats p') →
        MapPredictor.accuracy (MapPredictor.stats p')
        = d_percent (d_div (MapPredictor.correct_predictions (MapPredictor.stats p'))
                           (MapPredictor.total_predictions (MapPredictor.stats p')))).
Proof.
  split_and!.
  - intros type param1 param2 cs Hok.
    destruct (create_wf (D := D) type param1 param2 Hok) as [Hwf Hst].
    destruct (calls_consistent cs _ Hwf) as (b & E & _ & Hc).
    + rewrite Hst. apply stats_zero_consistent.
    + by exists b.
  - intros type cs Hnr Hlen.
    destruct (map_calls_counts cs (MapPredictor.new (D := D) type) Hnr)
      as (p & E & Ht & Hci); cbn; try lia.
    exists p. split; [exact E |]. cbn in Ht, Hci. lia.
  - intros pc actual p p' Hu. by destruct (map_update_spec _ _ _ _ Hu) as (_ & _ & _ & ? & _).
Qed.

(** C5 on a 2-bit bimodal predictor of four counters after a [predict]
    and two [update] calls. *)
Lemma C5_witness :
  ∃ b, calls [CallPredict 4 0; CallUpdate 4 true 0; CallUpdate 8 false 0]
         (BranchPredictorFactory.create (D := ratio) PredictorType.BIMODAL_2BIT 2 0)
       = Some b
     ∧ stats_consistent (BranchPredictor.getStats b).
Proof.
  apply (proj1 (C5_statistics_consistent (D := ratio))).
  unfold params_ok, bits_ok. lia.
Defined.

(** The claim as C6 states it fails for the map-based class: [predict] on
    a fresh 2-bit predictor counts the call and stores a counter for
    [pc]. *)
Lemma C6_counterexample :
  ∃ r p, MapPredictor.predict 0 (MapPredictor.new (D := ratio) MapPredictor.DYNAMIC_2BIT)
         = Some (r, p)
       ∧ MapPredictor.total_predictions (MapPredictor.stats p) = 1
       ∧ MapPredictor.total_predictions
           (MapPredictor.stats (MapPredictor.new (D := ratio) MapPredictor.DYNAMIC_2BIT)) = 0
       ∧ MapPredictor.branch_history_table p !! 0 = Some 1
       ∧ MapPredictor.branch_history_table
           (MapPredictor.new (D := ratio) MapPredictor.DYNAMIC_2BIT) !! 0 = None.
Proof. eexists _, _. split; [reflexivity |]. split_and!; reflexivity. Qed.

(** C6, amended.  For every variant of the hierarchy [predict] returns the
    predictor it was given, and [update] advances the statistics by
    comparing the outcome with the prediction [predict] returns in that
    state.  The map-based class differs in [predict] only: it adds one to
    [total_predictions], leaving the other statistics and the type alone,
    and a dynamic predictor stores the initial counter (0 for the 1-bit
    type, weakly not taken for the 2-bit type) of a [pc] its table does
    not hold; the table is otherwise as it was.  Its [update] too compares
    the outcome with the prediction recomputed from the table, the one
    [predict] answers. *)
Theorem C6_predict_is_a_query {D : Type} `{Double D} :
  (∀ pc target (b : BranchPredictor.t D),
      predictor_wf b →
      ∃ r, BranchPredictor.predict pc target b = Some (r, b)
         ∧ ∀ taken, ∃ b',
             BranchPredictor.update pc taken target b = Some b'
             ∧ BranchPredictor.getStats b'
               = stats_after r taken (BranchPredictor.getStats b))
  ∧ (∀ pc (p : MapPredictor.t D) r p',
        MapPredictor.predict pc p = Some (r, p') →
        r = map_prediction pc p
        ∧ MapPredictor.total_predictions (MapPredictor.stats p')
          = MapPredictor.total_predictions (MapPredictor.stats p) + 1
        ∧ MapPredictor.correct_predictions (MapPredictor.stats p')
          = MapPredictor.correct_predictions (MapPredictor.stats p)
        ∧ MapPredictor.incorrect_predictions (MapPredictor.stats p')
          = MapPredictor.incorrect_predictions (MapPredictor.stats p)
        ∧ MapPredictor.accuracy (MapPredictor.stats p')
          = MapPredictor.accuracy (MapPredictor.stats p)
        ∧ MapPredictor.predictor_type p' = MapPredictor.predictor_type p
        ∧ MapPredictor.branch_history_table p'
          = match MapPredictor.predictor_type p,
                  MapPredictor.branch_history_table p !! pc with
            | MapPredictor.DYNAMIC_1BIT, None =>
                <[pc := 0]> (MapPredictor.branch_history_table p)
            | MapPredictor.DYNAMIC_2BIT, None =>
                <[pc := MapPredictor.WEAKLY_NOT_TAKEN]> (MapPredictor.branch_history_table p)
            | _, _ => MapPredictor.branch_history_table p
            end)
  ∧ (∀ pc actual (p p' : MapPredictor.t D),
        MapPredictor.update pc actual p = Some p' →
        MapPredictor.total_predictions (MapPredictor.stats p')
        = MapPredictor.total_predictions (MapPredictor.stats p)
        ∧ MapPredictor.correct_predictions (MapPredictor.stats p')
          = MapPredictor.correct_predictions (MapPredictor.stats p)
            + (if Bool.eqb (map_prediction pc p) actual then 1 else 0)
        ∧ MapPredictor.incorrect_predictions (MapPredictor.stats p')
          = MapPredictor.incorrect_predictions (MapPredictor.stats p)
            + (if Bool.eqb (map_prediction pc p) actual then 0 else 1)).
Proof.
  split_and!.
  - intros pc target b Hwf.
    destruct (predictor_predict pc target b Hwf) as (r & Hp).
    exists r. split; [exact Hp |]. intros taken.
    destruct (predictor_update pc taken target b Hwf) as (r' & b' & Hp' & Hu & _ & Hs).
    rewrite Hp in Hp'. injection Hp' as <-. by exists b'.
  - intros pc p r p' Hp.
    destruct (map_predict_spec _ _ _ _ Hp) as (Hr & Ht & Hc & Hi & Ha & Hty).
    pose proof (map_predict_table _ _ _ _ Hp) as Htb.
    split; [exact Hr |]. split; [exact Ht |]. split; [exact Hc |].
    split; [exact Hi |]. split; [exact Ha |]. split; [exact Hty | exact Htb].
  - intros pc actual p p' Hu.
    by destruct (map_update_spec _ _ _ _ Hu) as (? & ? & ? & _).
Qed.

(** C6 on the tournament predictor as the factory makes it for 2 chooser
    bits. *)
Lemma C6_witness :
  ∃ r, BranchPredictor.predict 4 0
         (BranchPredictorFactory.create (D := ratio) PredictorType.TOURNAMENT 2 0)
       = Some (r, BranchPredictorFactory.create (D := ratio) PredictorType.TOURNAMENT 2 0).
Proof.
  destruct (proj1 (C6_predict_is_a_query (D := ratio)) 4 0
              (BranchPredictorFactory.create (D := ratio) PredictorType.TOURNAMENT 2 0))
    as (r & Hr & _).
  - apply create_wf. unfold params_ok, bits_ok. lia.
  - exists r. exact Hr.
Defined.

(** ** Word access of the MIPS class and of its pipeline *)

Lemma guarded_word_access (memory : list Z) (a value : Z) :
  0 ≤ a → a + 3 < 2 ^ 32 → Z.of_nat (length memory) ≤ a + 3 →
  Pipeline.getMemoryWord memory a = Some 0
  ∧ Pipeline.setMemoryWord memory a value = Some memory.
Proof.
  intros Ha H32 Hout. unfold Pipeline.getMemoryWord, Pipeline.setMemoryWord.
  rewrite u32_small by lia.
  destruct (Z.ltb_spec (a + 3) (Z.of_nat (length memory))); [lia | done].
Qed.

Lemma wrapped_word_access (memory : list Z) (a value : Z) :
  2 ^ 32 - 3 ≤ a < 2 ^ 32 →
  3 ≤ Z.of_nat (length memory) ≤ a →
  u32 (a + 3) < Z.of_nat (length memory)
  ∧ word_at memory a = None ∧ store_word memory a value = None.
Proof.
  intros Ha Hlen.
  assert (Hw : u32 (a + 3) = a + 3 - 2 ^ 32).
  { unfold u32. change (2 ^ 32) with 4294967296 in *.
    symmetry. apply (Z.mod_unique _ _ 1); lia. }
  change (2 ^ 32) with 4294967296 in *.
  split; [lia |]. unfold word_at, store_word.
  rewrite (vec_get_out_of_range memory a), (vec_set_out_of_range memory a) by lia.
  done.
Qed.

(** C7. An address whose last byte lies at or beyond the end of memory is
    refused, a read giving 0 and a write changing nothing, as long as
    [address + 3] does not wrap.  For the three addresses
    [0xFFFFFFFD .. 0xFFFFFFFF] the sum wraps to [0 .. 2], the guard
    [address + 3 < memory.size()] lets the access through, and both the
    read and the write index [memory[address]] out of bounds: neither
    returns (neither 0 nor the unchanged memory).  The same holds for
    [MIPS::getMemoryWord] and [MIPS::setMemoryWord], written with the same
    guard. *)
Theorem C7_out_of_range_word_access (memory : list Z) (a value : Z) :
  3 ≤ Z.of_nat (length memory) < 2 ^ 32 - 3 →
  (Z.of_nat (length memory) ≤ a + 3 < 2 ^ 32 → 0 ≤ a →
   Pipeline.getMemoryWord memory a = Some 0
   ∧ Pipeline.setMemoryWord memory a value = Some memory)
  ∧ (2 ^ 32 - 3 ≤ a < 2 ^ 32 →
     Pipeline.getMemoryWord memory a = None
     ∧ Pipeline.setMemoryWord memory a value = None
     ∧ ∀ s, MIPS.memory s = memory →
            MIPS.getMemoryWord s a = None ∧ MIPS.setMemoryWord s a value = None).
Proof.
  intros Hlen. split.
  - intros Hout Ha. apply guarded_word_access; lia.
  - intros Ha.
    destruct (wrapped_word_access memory a value Ha) as (Hg & Hr & Hw); [lia |].
    apply Z.ltb_lt in Hg.
    unfold Pipeline.getMemoryWord, Pipeline.setMemoryWord,
      MIPS.getMemoryWord, MIPS.setMemoryWord.
    rewrite Hg, Hr, Hw. split; [done |]. split; [done |].
    intros s ->. rewrite Hg, Hr, Hw. done.
Qed.

(** C7 at [0xFFFFFFFF] on a memory of 16 bytes: what [lw $t0, -1($zero)]
    reads. *)
Lemma C7_witness :
  Pipeline.getMemoryWord (replicate 16 0) 4294967295 = None
  ∧ Pipeline.setMemoryWord (replicate 16 0) 4294967295 287454020 = None.
Proof.
  destruct (C7_out_of_range_word_access (replicate 16 0) 4294967295 287454020)
    as [_ Hw]; [cbn; lia |].
  destruct Hw as (Hr & Hs & _); [lia |]. split; [exact Hr | exact Hs].
Defined.

(** ** Branch resolution in the pipeline *)

Lemma flushPipeline_spec (p : Pipeline.t) :
  PipelineStage.valid (Pipeline.IF_ID (Pipeline.flushPipeline p)) = false
  ∧ PipelineStage.valid (Pipeline.ID_EX (Pipeline.flushPipeline p)) = false
  ∧ Pipeline.flush (Pipeline.flushPipeline p) = true.
Proof. by destruct p. Qed.

(** With the pipeline enabled [MIPS::step] passes [pc] to [tick] by value
    and never assigns it. *)
Lemma pipelined_step_keeps_pc (r : Z → Z) (u : Instruction.t) (s s' : MIPS.t) :
  MIPS.pipelineEnabled s = true →
  MIPS.step r u s = Some s' → MIPS.pc s' = MIPS.pc s.
Proof.
  intros He. unfold MIPS.step. rewrite He.
  destruct (_ <=? MIPS.pc s); [by intros [= <-] |].
  destruct (MIPS.getMemoryWord s (MIPS.pc s)) as [w |]; [| discriminate].
  cbn [mbind option_bind].
  destruct (Pipeline.tick _ _ _ _ _ _) as [[[p regs] m] |]; [| discriminate].
  cbn [mbind option_bind]. intros H. apply (inj Some) in H. subst s'.
  destruct s. reflexivity.
Qed.

(** C3. The branch resolution of [Pipeline::executeEX] fails the claim at
    three branches fetched at [0x400000] into an empty pipeline, with
    [$t0] at 1 and every other register at 0, the sequential words
    fetched behind them.

    [beq $zero, $zero, 1] is taken: the single-cycle path moves [pc] to
    [0x400008].  In EX the branch is an I-type instruction, so its second
    operand is the offset 1 and not register [rt]: the comparison is
    0 == 1, no flush is raised, and the word fetched at [0x400004] goes on
    into ID/EX.

    [bne $zero, $zero, 1] is not taken: the single-cycle path moves [pc]
    to [0x400004].  In EX the comparison is 0 != 1, [flush] is raised and
    the word fetched at [0x400004], which is on the right path, is turned
    into a bubble.

    [beq $t0, $t0, 1] is taken on both paths (in EX because [$t0] happens
    to equal the offset) and [flush] is raised; the tick leaves one
    bubble, in ID/EX, and IF/ID holds the word just fetched.
    [flushPipeline] is the function that turns both latches into bubbles,
    and [executeEX] does not call it.

    Nothing redirects: a step of the pipelined [MIPS] leaves [pc] as it
    was. *)
Theorem C3_branch_resolved_against_its_offset :
  (MIPS.pc <$> MIPS.executeSingleCycle beq_zero_instruction branch_machine = Some 4194312
   ∧ PipelineStage.valid (Pipeline.ID_EX (branch_before_EX beq_zero_instruction).1.1) = true
   ∧ Instruction.format
       (PipelineStage.instruction (Pipeline.ID_EX (branch_before_EX beq_zero_instruction).1.1))
     = InstructionFormat.BEQ
   ∧ Pipeline.EX_op1 t0_stage_registers (branch_before_EX beq_zero_instruction).1.1 = 0
   ∧ Pipeline.EX_op2 t0_stage_registers (branch_before_EX beq_zero_instruction).1.1 = 1
   ∧ Pipeline.flush
       (Pipeline.executeEX t0_stage_registers (branch_before_EX beq_zero_instruction).1.1)
     = false
   ∧ PipelineStage.valid (Pipeline.IF_ID (branch_resolved beq_zero_instruction).1.1) = true
   ∧ PipelineStage.valid (Pipeline.ID_EX (branch_resolved beq_zero_instruction).1.1) = true
   ∧ PipelineStage.pc (Pipeline.ID_EX (branch_resolved beq_zero_instruction).1.1) = 4194308
   ∧ PipelineStage.pc (Pipeline.EX_MEM (branch_resolved beq_zero_instruction).1.1) = 4194304)
  ∧ (MIPS.pc <$> MIPS.executeSingleCycle bne_zero_instruction branch_machine = Some 4194308
     ∧ PipelineStage.valid (Pipeline.ID_EX (branch_before_EX bne_zero_instruction).1.1) = true
     ∧ Instruction.format
         (PipelineStage.instruction
            (Pipeline.ID_EX (branch_before_EX bne_zero_instruction).1.1))
       = InstructionFormat.BNE
     ∧ Pipeline.EX_op1 t0_stage_registers (branch_before_EX bne_zero_instruction).1.1 = 0
     ∧ Pipeline.EX_op2 t0_stage_registers (branch_before_EX bne_zero_instruction).1.1 = 1
     ∧ Pipeline.flush
         (Pipeline.executeEX t0_stage_registers (branch_before_EX bne_zero_instruction).1.1)
       = true
     ∧ PipelineStage.valid (Pipeline.ID_EX (branch_resolved bne_zero_instruction).1.1) = false
     ∧ PipelineStage.pc (Pipeline.EX_MEM (branch_resolved bne_zero_instruction).1.1) = 4194304)
  ∧ (MIPS.pc <$> MIPS.executeSingleCycle beq_t0_instruction branch_machine = Some 4194312
     ∧ PipelineStage.valid (Pipeline.ID_EX (branch_before_EX beq_t0_instruction).1.1) = true
     ∧ Instruction.format
         (PipelineStage.instruction
            (Pipeline.ID_EX (branch_before_EX beq_t0_instruction).1.1))
       = InstructionFormat.BEQ
     ∧ Pipeline.flush
         (Pipeline.executeEX t0_stage_registers (branch_before_EX beq_t0_instruction).1.1)
       = true
     ∧ PipelineStage.valid (Pipeline.IF_ID (branch_resolved beq_t0_instruction).1.1) = true
     ∧ PipelineStage.pc (Pipeline.IF_ID (branch_resolved beq_t0_instruction).1.1) = 4194312
     ∧ PipelineStage.valid (Pipeline.ID_EX (branch_resolved beq_t0_instruction).1.1) = false
     ∧ PipelineStage.pc (Pipeline.EX_MEM (branch_resolved beq_t0_instruction).1.1) = 4194304)
  ∧ (∀ q, PipelineStage.valid (Pipeline.IF_ID (Pipeline.flushPipeline q)) = false
          ∧ PipelineStage.valid (Pipeline.ID_EX (Pipeline.flushPipeline q)) = false
          ∧ Pipeline.flush (Pipeline.flushPipeline q) = true)
  ∧ (∀ r u s s', MIPS.pipelineEnabled s = true → MIPS.step r u s = Some s' →
                 MIPS.pc s' = MIPS.pc s).
Proof.
  split; [repeat split; vm_compute; reflexivity |].
  split; [repeat split; vm_compute; reflexivity |].
  split; [repeat split; vm_compute; reflexivity |].
  split.
  - intros q. apply flushPipeline_spec.
  - intros r u s s'. apply pipelined_step_keeps_pc.
Qed.

(** ** Register 0 *)

Lemma executeWB_registers (registers registers' : list Z) (p p' : Pipeline.t) :
  Pipeline.executeWB registers p = Some (p', registers') →
  registers' !! 0%nat = registers !! 0%nat
  ∧ (PipelineStage.writeReg (Pipeline.MEM_WB p) = 0 → registers' = registers).
Proof.
  unfold Pipeline.executeWB.
  destruct (_ && _); [| by intros [= <- <-]].
  destruct (Z.eqb_spec (PipelineStage.writeReg (Pipeline.MEM_WB p)) 0) as [E | E]; cbn.
  - intros [= <- <-]. done.
  - destruct (vec_set _ _ _) as [regs |] eqn:Hs; [| discriminate]. cbn.
    intros [= <- <-].
    apply vec_set_Some in Hs as [Hi ->]. split; [| done].
    apply list_lookup_insert_ne. lia.
Qed.

(** [tick] writes the register file in [executeWB] only. *)
Lemma tick_registers (r : Z → Z) (fetched : Instruction.t) (pc : Z)
    (registers memory registers' memory' : list Z) (p p' : Pipeline.t) :
  Pipeline.tick r fetched pc registers memory p = Some (p', registers', memory') →
  registers' !! 0%nat = registers !! 0%nat.
Proof.
  unfold Pipeline.tick.
  destruct (HazardDetection.detectHazard _ _ _ _ _) as [hazard h].
  set (p1 := Pipeline.set_hazardUnit h p).
  destruct (match hazard with
            | HazardType.DATA_HAZARD_RAW => _
            | _ => _
            end) as [[] p2]; [by intros [= <- <- <-] |].
  set (p3 := match hazard with HazardType.CONTROL_HAZARD => _ | _ => _ end).
  destruct (Pipeline.executeWB registers p3) as [[p4 regs] |] eqn:Hwb; [| discriminate].
  cbn [mbind option_bind].
  destruct (Pipeline.executeMEM r memory p4) as [[p5 mem] |]; [| discriminate].
  cbn [mbind option_bind]. intros [= <- <- <-].
  by destruct (executeWB_registers _ _ _ _ Hwb).
Qed.

Lemma executeSingleCycle_tail (instr : Instruction.t) (s s' : MIPS.t) :
  MIPS.executeSingleCycle instr s = Some s' →
  ∃ regs, vec_set regs 0 0 = Some (MIPS.registers s').
Proof.
  unfold MIPS.executeSingleCycle. cbv zeta.
  destruct (match Instruction.format instr with
            | InstructionFormat.ADD => _
            | _ => _
            end) as [[nextPC s1] |]; [| discriminate].
  cbn [mbind option_bind].
  destruct (vec_set (MIPS.registers s1) 0 0) as [regs |] eqn:Hs; [| discriminate].
  cbn [mbind option_bind]. intros [= <-]. exists (MIPS.registers s1). by destruct s1.
Qed.

Lemma executeSingleCycle_register_zero (instr : Instruction.t) (s s' : MIPS.t) :
  MIPS.executeSingleCycle instr s = Some s' →
  MIPS.registers s' !! 0%nat = Some 0.
Proof.
  intros (regs & Hs)%executeSingleCycle_tail.
  apply vec_get_set_eq in Hs. by apply vec_get_Some in Hs as [_ ?].
Qed.

Lemma insert_zero_twice (registers : list Z) (x : Z) :
  registers !! 0%nat = Some 0 → <[0%nat := 0]> (<[0%nat := x]> registers) = registers.
Proof.
  intros H0. rewrite list_insert_insert_eq. by apply list_insert_id.
Qed.

(** An instruction whose destination field is 0 leaves the whole register
    file of the single-cycle path as it was. *)
Lemma executeSingleCycle_destination_zero (instr : Instruction.t) (s s' : MIPS.t) :
  MIPS.registers s !! 0%nat = Some 0 →
  single_cycle_destination instr = Some 0 →
  MIPS.executeSingleCycle instr s = Some s' →
  MIPS.registers s' = MIPS.registers s.
Proof.
  intros H0 Hd. unfold single_cycle_destination in Hd.
  unfold MIPS.executeSingleCycle, MIPS.rtype, MIPS.itype. cbv zeta.
  destruct (Instruction.format instr); try discriminate; injection Hd as Hd;
    rewrite Hd; intros Hx; simplify_option_eq;
    repeat match goal with
      | H : vec_set _ _ _ = Some _ |- _ => apply vec_set_Some in H as [? ->]
      end;
    destruct s; cbn in *; by apply insert_zero_twice.
Qed.

Lemma MIPS_step_register_zero (r : Z → Z) (u : Instruction.t) (s s' : MIPS.t) :
  MIPS.registers s !! 0%nat = Some 0 →
  MIPS.step r u s = Some s' →
  MIPS.registers s' !! 0%nat = Some 0.
Proof.
  intros H0. unfold MIPS.step.
  destruct (_ <=? MIPS.pc s); [by intros [= <-] |].
  destruct (MIPS.getMemoryWord s (MIPS.pc s)) as [w |]; [| discriminate].
  cbn [mbind option_bind].
  destruct (MIPS.pipelineEnabled s).
  - destruct (Pipeline.tick _ _ _ _ _ _) as [[[p regs] m] |] eqn:Ht; [| discriminate].
    cbn [mbind option_bind]. intros H. apply (inj Some) in H. subst s'.
    apply tick_registers in Ht. destruct s; cbn in *. congruence.
  - destruct (MIPS.executeSingleCycle _ s) as [s1 |] eqn:He; [| discriminate].
    cbn [mbind option_bind]. intros H. apply (inj Some) in H. subst s'.
    apply executeSingleCycle_register_zero in He. by destruct s1.
Qed.

Lemma executeInstruction_true (instr : MIPSSimulator.Instruction.t)
    (s s' : MIPSSimulator.t) (ok : bool) :
  MIPSSimulator.executeInstruction instr s = Some (ok, s') → ok = true.
Proof.
  unfold MIPSSimulator.executeInstruction. cbv zeta.
  destruct (if String.eqb _ _ then _ else _) as [[n s1] |]; [| discriminate].
  cbn [mbind option_bind]. by intros [= <- _].
Qed.

Lemma MIPSSimulator_step_register_zero (s s' : MIPSSimulator.t) (b : bool) :
  MIPSSimulator.registers s !! 0%nat = Some 0 →
  MIPSSimulator.step s = Some (b, s') →
  MIPSSimulator.registers s' !! 0%nat = Some 0.
Proof.
  intros H0. unfold MIPSSimulator.step.
  destruct (MIPSSimulator.halted s); [by intros [= _ <-] |].
  destruct (MIPSSimulator.pipeline_enabled s).
  - destruct (MIPSSimulator.advancePipeline s) as [s1 |]; [| discriminate].
    cbn [mbind option_bind].
    destruct (vec_set (MIPSSimulator.registers s1) 0 0) as [regs |] eqn:Hs; [| discriminate].
    cbn [mbind option_bind]. intros [= _ <-].
    apply vec_get_set_eq in Hs. apply vec_get_Some in Hs as [_ Hs]. by destruct s1.
  - destruct (negb (MIPSSimulator.isValidAddress s (MIPSSimulator.pc s))).
    { intros [= _ <-]. by destruct s. }
    destruct (word_at _ _) as [w |]; [| discriminate]. cbn [mbind option_bind].
    destruct (MIPSSimulator.executeInstruction _ s) as [[ok s1] |] eqn:He; [| discriminate].
    cbn [mbind option_bind].
    rewrite (executeInstruction_true _ _ _ _ He). cbn [negb].
    destruct (vec_set (MIPSSimulator.registers s1) 0 0) as [regs |] eqn:Hs; [| discriminate].
    cbn [mbind option_bind]. intros [= _ <-].
    apply vec_get_set_eq in Hs. apply vec_get_Some in Hs as [_ Hs]. by destruct s1.
Qed.

(** Construction, [reset] and [setRegister] leave 0 in register 0. *)
Lemma register_zero_established :
  MIPSSimulator.registers MIPSSimulator.new !! 0%nat = Some 0
  ∧ (∀ s, (0 < length (MIPSSimulator.registers s))%nat →
          MIPSSimulator.registers (MIPSSimulator.reset s) !! 0%nat = Some 0)
  ∧ (∀ s reg value s',
        MIPSSimulator.setRegister s reg value = Some s' →
        MIPSSimulator.registers s' !! 0%nat = MIPSSimulator.registers s !! 0%nat)
  ∧ (∀ u s, MIPS.new u = Some s → MIPS.registers s !! 0%nat = Some 0)
  ∧ (∀ u s s', MIPS.reset u s = Some s' → MIPS.registers s' !! 0%nat = Some 0)
  ∧ (∀ s reg value s',
        MIPS.setRegister s reg value = Some s' →
        MIPS.registers s' !! 0%nat = MIPS.registers s !! 0%nat).
Proof.
  split_and!.
  - reflexivity.
  - intros s Hlen.
    assert (H0 : ((λ _ : Z, 0) <$> MIPSSimulator.registers s) !! 0%nat = Some 0).
    { rewrite list_lookup_fmap.
      destruct (lookup_lt_is_Some_2 (MIPSSimulator.registers s) 0 Hlen) as [x ->]. done. }
    destruct s as [regs mem pc hlt sm pe stages bpe pt bht bs]. unfold MIPSSimulator.reset.
    cbn in *. by destruct pe.
  - intros s reg value s'. unfold MIPSSimulator.setRegister.
    destruct (Z.leb_spec 1 reg); cbn; [| by intros [= <-]].
    destruct (reg <? 32); cbn; [| by intros [= <-]].
    destruct (vec_set _ _ _) as [r |] eqn:Hs; [| discriminate]. cbn. intros [= <-].
    apply vec_set_Some in Hs as [_ ->]. destruct s; cbn.
    apply list_lookup_insert_ne. lia.
  - intros u s. unfold MIPS.new.
    generalize (replicate (Z.to_nat 1048576) 0). intros mem.
    change (vec_set (replicate 32 0) 29 2147479548)
      with (Some (<[29%nat := 2147479548]> (replicate 32 0))).
    cbn [mbind option_bind].
    change (vec_set (<[29%nat := 2147479548]> (replicate 32 0)) 28 268468224)
      with (Some (<[28%nat := 268468224]> (<[29%nat := 2147479548]> (replicate 32 0)))).
    cbn [mbind option_bind]. intros [= <-]. reflexivity.
  - intros u s s'. unfold MIPS.reset.
    destruct (vec_set _ 29 _) as [r1 |] eqn:H1; [| discriminate]. cbn [mbind option_bind].
    destruct (vec_set r1 28 _) as [r2 |] eqn:H2; [| discriminate]. cbn [mbind option_bind].
    intros [= <-]. cbn.
    apply vec_set_Some in H2 as [_ ->]. apply vec_set_Some in H1 as [Hlen ->].
    rewrite !list_lookup_insert_ne by lia. rewrite list_lookup_fmap.
    rewrite length_fmap in Hlen.
    destruct (lookup_lt_is_Some_2 (MIPS.registers s) 0 ltac:(lia)) as [x ->]. done.
  - intros s reg value s'. unfold MIPS.setRegister.
    destruct (Z.ltb_spec 0 reg); cbn; [| by intros [= <-]].
    destruct (reg <? 32); cbn; [| by intros [= <-]].
    destruct (vec_set _ _ _) as [r |] eqn:Hs; [| discriminate]. cbn. intros [= <-].
    apply vec_set_Some in Hs as [_ ->]. destruct s; cbn.
    apply list_lookup_insert_ne. lia.
Qed.

(** C2. Register 0 reads 0 after every step: a step of [MIPS], pipelined
    or not, and a step of [MIPSSimulator] keep [registers[0] = 0], which
    construction establishes and [setRegister] cannot disturb.  The
    single-cycle path ends every instruction with [registers[0] = 0], so
    an instruction whose destination field is 0 leaves the whole register
    file as it was; the WB stage skips the write when the write register
    is 0, and no write of WB reaches register 0. *)
Theorem C2_register_zero_reads_zero :
  (∀ r u (s s' : MIPS.t),
      MIPS.registers s !! 0%nat = Some 0 →
      MIPS.step r u s = Some s' →
      MIPS.getRegister s' 0 = Some 0)
  ∧ (∀ (s s' : MIPSSimulator.t) b,
        MIPSSimulator.registers s !! 0%nat = Some 0 →
        MIPSSimulator.step s = Some (b, s') →
        MIPSSimulator.getRegister s' 0 = Some 0)
  ∧ (∀ instr (s s' : MIPS.t),
        MIPS.executeSingleCycle instr s = Some s' →
        MIPS.registers s' !! 0%nat = Some 0)
  ∧ (∀ instr (s s' : MIPS.t),
        MIPS.registers s !! 0%nat = Some 0 →
        single_cycle_destination instr = Some 0 →
        MIPS.executeSingleCycle instr s = Some s' →
        MIPS.registers s' = MIPS.registers s)
  ∧ (∀ registers registers' (p p' : Pipeline.t),
        Pipeline.executeWB registers p = Some (p', registers') →
        registers' !! 0%nat = registers !! 0%nat
        ∧ (PipelineStage.writeReg (Pipeline.MEM_WB p) = 0 → registers' = registers))
  ∧ MIPSSimulator.registers MIPSSimulator.new !! 0%nat = Some 0
  ∧ (∀ s reg value s',
        MIPSSimulator.setRegister s reg value = Some s' →
        MIPSSimulator.registers s' !! 0%nat = MIPSSimulator.registers s !! 0%nat)
  ∧ (∀ u s, MIPS.new u = Some s → MIPS.registers s !! 0%nat = Some 0)
  ∧ (∀ s reg value s',
        MIPS.setRegister s reg value = Some s' →
        MIPS.registers s' !! 0%nat = MIPS.registers s !! 0%nat).
Proof.
  destruct register_zero_established as (N1 & _ & S1 & N2 & _ & S2).
  split_and!; try assumption.
  - intros r u s s' H0 Hs. unfold MIPS.getRegister. cbn.
    apply vec_get_lookup; [lia |]. by eapply MIPS_step_register_zero.
  - intros s s' b H0 Hs. unfold MIPSSimulator.getRegister. cbn.
    apply vec_get_lookup; [lia |]. by eapply MIPSSimulator_step_register_zero.
  - apply executeSingleCycle_register_zero.
  - apply executeSingleCycle_destination_zero.
  - apply executeWB_registers.
Qed.

(** C2 on [add $zero, $zero, $zero], in the single-cycle path and in the
    pipeline. *)
Lemma C2_witness :
  (∃ s', MIPS.step zero_stage_registers zero_instruction (add_zero_machine false) = Some s'
       ∧ MIPS.getRegister s' 0 = Some 0)
  ∧ (∃ s', MIPS.step zero_stage_registers zero_instruction (add_zero_machine true) = Some s'
         ∧ MIPS.getRegister s' 0 = Some 0).
Proof.
  pose proof (proj1 C2_register_zero_reads_zero zero_stage_registers zero_instruction) as H.
  split.
  - destruct (MIPS.step zero_stage_registers zero_instruction (add_zero_machine false))
      as [s' |] eqn:E; [| vm_compute in E; discriminate].
    exists s'. split; [reflexivity |]. apply (H (add_zero_machine false)); [reflexivity | exact E].
  - destruct (MIPS.step zero_stage_registers zero_instruction (add_zero_machine true))
      as [s' |] eqn:E; [| vm_compute in E; discriminate].
    exists s'. split; [reflexivity |]. apply (H (add_zero_machine true)); [reflexivity | exact E].
Defined.

(** * Further properties of the code *)

(** ** alu.cpp: the flags of ADD and SUB *)

Lemma u32_wrap_high (x : Z) : 2 ^ 32 ≤ x < 2 ^ 33 → u32 x = x - 2 ^ 32.
Proof.
  intros Hx. unfold u32. symmetry. apply (Z.mod_unique x (2 ^ 32) 1); lia.
Qed.

Lemma u32_wrap_low (x : Z) : - 2 ^ 32 ≤ x < 0 → u32 x = x + 2 ^ 32.
Proof.
  intros Hx. unfold u32. symmetry. apply (Z.mod_unique x (2 ^ 32) (-1)); lia.
Qed.

(** [(a & 2^k) != 0] tells whether a value of [k + 1] bits is 2^k or more. *)
Lemma top_bit (a k : Z) :
  0 ≤ k → 0 ≤ a < 2 ^ (k + 1) → negb (Z.land a (2 ^ k) =? 0) = (2 ^ k <=? a).
Proof.
  intros Hk Ha. rewrite Z.pow_add_r, Z.pow_1_r in Ha by lia.
  assert (Hp : 0 < 2 ^ k) by (apply Z.pow_pos_nonneg; lia).
  assert (Hb : Z.testbit a k = (2 ^ k <=? a)).
  { rewrite Z.testbit_odd, Z.shiftr_div_pow2 by lia.
    destruct (Z.leb_spec (2 ^ k) a).
    - replace (a / 2 ^ k) with 1; [done |].
      apply (Z.div_unique a (2 ^ k) 1 (a - 2 ^ k)); lia.
    - rewrite Z.div_small by lia. done. }
  assert (Hl : Z.land a (2 ^ k) = if Z.testbit a k then 2 ^ k else 0).
  { apply Z.bits_inj'. intros n Hn. rewrite Z.land_spec, Z.pow2_bits_eqb by lia.
    destruct (Z.eqb_spec k n) as [<- | Hne].
    - rewrite andb_true_r. destruct (Z.testbit a k) eqn:E.
      + by rewrite Z.pow2_bits_true.
      + by rewrite Z.bits_0.
    - rewrite andb_false_r. destruct (Z.testbit a k).
      + rewrite Z.pow2_bits_false by lia. done.
      + by rewrite Z.bits_0. }
  rewrite Hl, Hb. destruct (2 ^ k <=? a); [| done].
  destruct (Z.eqb_spec (2 ^ k) 0); [lia | done].
Qed.

Lemma sign_bit (a : Z) :
  0 ≤ a < 2 ^ 32 → negb (Z.land a 2147483648 =? 0) = (2 ^ 31 <=? a).
Proof. intros Ha. apply (top_bit a 31); lia. Qed.

Lemma s32_cases (a : Z) :
  0 ≤ a < 2 ^ 32 → s32 a = if 2 ^ 31 <=? a then a - 2 ^ 32 else a.
Proof.
  intros Ha. unfold s32. rewrite u32_small by lia. cbv zeta.
  destruct (Z.ltb_spec a (2 ^ 31)), (Z.leb_spec (2 ^ 31) a); lia.
Qed.

(** X1. [ALU::execute(a, b, ADD)] on 32-bit operands: the value is the sum
    modulo 2^32, [carry] tells that the unsigned sum does not fit 32 bits,
    [overflow] that the signed sum does not fit an [int32_t], and [zero]
    that the value is 0. *)
Theorem ALU_add_flags (a b : Z) :
  0 ≤ a < 2 ^ 32 → 0 ≤ b < 2 ^ 32 →
  ALU.value (ALU.execute a b ALU.ADD) = (a + b) mod 2 ^ 32
  ∧ (ALU.carry (ALU.execute a b ALU.ADD) = true ↔ 2 ^ 32 ≤ a + b)
  ∧ (ALU.overflow (ALU.execute a b ALU.ADD) = true
     ↔ ¬ (- 2 ^ 31 ≤ s32 a + s32 b < 2 ^ 31))
  ∧ (ALU.zero (ALU.execute a b ALU.ADD) = true ↔ (a + b) mod 2 ^ 32 = 0).
Proof.
  intros Ha Hb. cbn. fold (u32 (a + b)).
  split; [done |]. unfold ALU.detectOverflow.
  pose proof (u32_range (a + b)) as Hr.
  rewrite !sign_bit by done. rewrite (s32_cases a), (s32_cases b) by done.
  split_and!.
  - destruct (Z.le_gt_cases (2 ^ 32) (a + b)).
    + rewrite u32_wrap_high by lia. rewrite Z.ltb_lt. lia.
    + rewrite u32_small by lia. rewrite Z.ltb_lt. lia.
  - destruct (Z.le_gt_cases (2 ^ 32) (a + b)) as [Hc | Hc].
    + rewrite u32_wrap_high by lia.
      destruct (Z.leb_spec (2 ^ 31) a), (Z.leb_spec (2 ^ 31) b),
        (Z.leb_spec (2 ^ 31) (a + b - 2 ^ 32)); cbn; split; try done; lia.
    + rewrite u32_small by lia.
      destruct (Z.leb_spec (2 ^ 31) a), (Z.leb_spec (2 ^ 31) b),
        (Z.leb_spec (2 ^ 31) (a + b)); cbn; split; try done; lia.
  - by rewrite Z.eqb_eq.
Qed.

(** [ALU_add_flags] at 0x7fffffff + 1. *)
Lemma ALU_add_flags_witness :
  ALU.value (ALU.execute 2147483647 1 ALU.ADD) = (2147483647 + 1) mod 2 ^ 32
  ∧ (ALU.overflow (ALU.execute 2147483647 1 ALU.ADD) = true
     ↔ ¬ (- 2 ^ 31 ≤ s32 2147483647 + s32 1 < 2 ^ 31)).
Proof.
  destruct (ALU_add_flags 2147483647 1) as (H1 & _ & H3 & _); [lia | lia |].
  split; [exact H1 | exact H3].
Defined.

(** [~b + 1] in [uint32_t] is the two's complement of [b]. *)
Lemma negate_u32 (b : Z) :
  0 ≤ b < 2 ^ 32 → u32 (u32 (Z.lnot b) + 1) = if b =? 0 then 0 else 2 ^ 32 - b.
Proof.
  intros Hb. unfold Z.lnot, Z.pred.
  rewrite (u32_wrap_low (- b + -1)) by lia.
  destruct (Z.eqb_spec b 0) as [-> | Hne].
  - reflexivity.
  - rewrite u32_small by lia. lia.
Qed.

(** X2. [ALU::execute(a, b, SUB)] on 32-bit operands: the value is the
    difference modulo 2^32, [carry] is the borrow, [zero] tells that the
    operands are equal.  [overflow] tells that the signed difference does
    not fit an [int32_t] for every subtrahend but 0x80000000; for that one
    the negation [~b + 1] wraps to itself and the flag comes out inverted:
    it is raised exactly when the difference fits. *)
Theorem ALU_sub_flags (a b : Z) :
  0 ≤ a < 2 ^ 32 → 0 ≤ b < 2 ^ 32 →
  ALU.value (ALU.execute a b ALU.SUB) = (a - b) mod 2 ^ 32
  ∧ (ALU.carry (ALU.execute a b ALU.SUB) = true ↔ a < b)
  ∧ (ALU.zero (ALU.execute a b ALU.SUB) = true ↔ a = b)
  ∧ (b ≠ 2 ^ 31 →
     (ALU.overflow (ALU.execute a b ALU.SUB) = true
      ↔ ¬ (- 2 ^ 31 ≤ s32 a - s32 b < 2 ^ 31)))
  ∧ (b = 2 ^ 31 →
     (ALU.overflow (ALU.execute a b ALU.SUB) = true
      ↔ - 2 ^ 31 ≤ s32 a - s32 b < 2 ^ 31)).
Proof.
  intros Ha Hb. cbn. fold (u32 (a - b)).
  split; [done |]. split; [apply Z.ltb_lt |].
  assert (Hv : u32 (a - b) = if a <? b then a - b + 2 ^ 32 else a - b).
  { destruct (Z.ltb_spec a b).
    - apply u32_wrap_low. lia.
    - apply u32_small. lia. }
  split.
  { rewrite Z.eqb_eq, Hv. destruct (Z.ltb_spec a b); lia. }
  unfold ALU.detectOverflow. rewrite negate_u32 by done.
  pose proof (u32_range (a - b)) as Hr.
  rewrite (sign_bit a), (sign_bit (u32 (a - b))) by done.
  rewrite (s32_cases a), (s32_cases b), Hv by done.
  assert (Hn : 0 ≤ (if b =? 0 then 0 else 2 ^ 32 - b) < 2 ^ 32)
    by (destruct (Z.eqb_spec b 0); lia).
  rewrite sign_bit by done.
  split; intros Hb31.
  - destruct (Z.eqb_spec b 0), (Z.ltb_spec a b), (Z.leb_spec (2 ^ 31) a),
      (Z.leb_spec (2 ^ 31) b);
      repeat match goal with
        | |- context [?x <=? ?y] => destruct (Z.leb_spec x y)
        end; cbn; split; try done; lia.
  - subst b.
    destruct (Z.ltb_spec a (2 ^ 31)), (Z.leb_spec (2 ^ 31) a);
      repeat match goal with
        | |- context [?x <=? ?y] => destruct (Z.leb_spec x y)
        end; cbn; split; try done; lia.
Qed.

(** [ALU_sub_flags] at 0 - 0x80000000, where the difference 2^31 does not
    fit and the flag stays down. *)
Lemma ALU_sub_flags_witness :
  ALU.value (ALU.execute 0 2147483648 ALU.SUB) = (0 - 2147483648) mod 2 ^ 32
  ∧ (ALU.overflow (ALU.execute 0 2147483648 ALU.SUB) = true
     ↔ - 2 ^ 31 ≤ s32 0 - s32 2147483648 < 2 ^ 31).
Proof.
  destruct (ALU_sub_flags 0 2147483648) as (H1 & _ & _ & _ & H5); [lia | lia |].
  split; [exact H1 | apply H5; reflexivity].
Defined.

(** ** mips_simulator.cpp: the interpreter is memory safe *)

Lemma u32_fixed (x : Z) : 0 ≤ x < 2 ^ 32 ↔ Z.land x (Z.ones 32) = x.
Proof.
  rewrite Z.land_ones by lia. split.
  - intros Hx. apply Z.mod_small. lia.
  - intros <-. apply Z.mod_pos_bound. lia.
Qed.

Lemma land_u32 (a b : Z) : 0 ≤ a < 2 ^ 32 → 0 ≤ Z.land a b < 2 ^ 32.
Proof.
  intros Ha. apply u32_fixed. apply u32_fixed in Ha.
  rewrite <- Ha at 2. rewrite <- !Z.land_assoc. f_equal. apply Z.land_comm.
Qed.

Lemma lor_u32 (a b : Z) :
  0 ≤ a < 2 ^ 32 → 0 ≤ b < 2 ^ 32 → 0 ≤ Z.lor a b < 2 ^ 32.
Proof.
  intros Ha Hb. apply u32_fixed. apply u32_fixed in Ha, Hb.
  rewrite Z.land_lor_distr_l. by rewrite Ha, Hb.
Qed.

Lemma ALU_value_range (a b : Z) (op : ALU.Operation) :
  0 ≤ a < 2 ^ 32 → 0 ≤ b < 2 ^ 32 → 0 ≤ ALU.value (ALU.execute a b op) < 2 ^ 32.
Proof.
  intros Ha Hb.
  destruct op; cbn;
    try apply u32_range; try (by apply land_u32); try (by apply lor_u32); try lia.
  - by apply (lxor_range a b 32).
  - destruct (_ <? _); lia.
  - destruct (_ <? _); lia.
Qed.

Lemma decodeInstruction_registers (w : Z) :
  let i := MIPSSimulator.decodeInstruction w in
  0 ≤ MIPSSimulator.Instruction.rs i < 32
  ∧ 0 ≤ MIPSSimulator.Instruction.rt i < 32
  ∧ 0 ≤ MIPSSimulator.Instruction.rd i < 32.
Proof.
  unfold MIPSSimulator.decodeInstruction. cbn.
  split; [| split]; apply (land_ones_range _ 5); lia.
Qed.

Lemma reg_get (r : list Z) (i : Z) :
  regs_ok r → 0 ≤ i < 32 → ∃ x, vec_get r i = Some x ∧ 0 ≤ x < 2 ^ 32.
Proof.
  intros [Hl Hr] Hi.
  destruct (vec_get_in_range r i) as [x Hx]; [lia |].
  exists x. split; [done |].
  apply vec_get_Some in Hx as [_ Hx].
  by eapply (Forall_lookup_1 _ _ _ _ Hr).
Qed.

Lemma reg_set (r : list Z) (i v : Z) :
  regs_ok r → 0 ≤ i < 32 → 0 ≤ v < 2 ^ 32 →
  ∃ r', vec_set r i v = Some r' ∧ regs_ok r'.
Proof.
  intros [Hl Hr] Hi Hv. rewrite vec_set_in_range by lia.
  eexists. split; [done |]. split.
  - by rewrite length_insert.
  - by apply Forall_insert.
Qed.

Lemma word_at_range (m : list Z) (a w : Z) : word_at m a = Some w → 0 ≤ w < 2 ^ 32.
Proof.
  unfold word_at. intros H.
  destruct (vec_get m a); [| done]. cbn [mbind option_bind] in H.
  destruct (vec_get m (u32 (a + 1))); [| done]. cbn [mbind option_bind] in H.
  destruct (vec_get m (u32 (a + 2))); [| done]. cbn [mbind option_bind] in H.
  destruct (vec_get m (u32 (a + 3))); [| done]. cbn [mbind option_bind] in H.
  injection H as <-. apply u32_range.
Qed.

Lemma store_word_length (m m' : list Z) (a v : Z) :
  store_word m a v = Some m' → length m' = length m.
Proof.
  unfold store_word. intros H.
  destruct (vec_set m a _) as [m1 |] eqn:H1; [| done]. cbn [mbind option_bind] in H.
  destruct (vec_set m1 _ _) as [m2 |] eqn:H2; [| done]. cbn [mbind option_bind] in H.
  destruct (vec_set m2 _ _) as [m3 |] eqn:H3; [| done]. cbn [mbind option_bind] in H.
  apply vec_set_length in H, H1, H2, H3. congruence.
Qed.

Lemma alu_to_rd_safe (instr : MIPSSimulator.Instruction.t) (op : ALU.Operation)
    (s : MIPSSimulator.t) :
  0 ≤ MIPSSimulator.Instruction.rs instr < 32 →
  0 ≤ MIPSSimulator.Instruction.rt instr < 32 →
  0 ≤ MIPSSimulator.Instruction.rd instr < 32 →
  regs_ok (MIPSSimulator.registers s) →
  ∃ r, MIPSSimulator.alu_to_rd instr op s = Some (MIPSSimulator.set_registers r s)
     ∧ regs_ok r.
Proof.
  intros Hrs Hrt Hrd Hr. unfold MIPSSimulator.alu_to_rd.
  destruct (reg_get _ _ Hr Hrs) as (a & -> & Ha).
  destruct (reg_get _ _ Hr Hrt) as (b & -> & Hb). cbn [mbind option_bind].
  destruct (reg_set _ _ (ALU.value (ALU.execute a b op)) Hr Hrd) as (r & -> & Hr').
  { by apply ALU_value_range. }
  cbn [mbind option_bind]. by exists r.
Qed.

Lemma int_incr_below (x : Z) : x < 2 ^ 31 - 1 → int_incr x = Some (x + 1).
Proof. intros Hx. unfold int_incr. by destruct (Z.ltb_spec x (2 ^ 31 - 1)); [| lia]. Qed.

Lemma predictBranch_frame (pc : Z) (s s' : MIPSSimulator.t) (r : bool) :
  MIPSSimulator.predictBranch pc s = (r, s') →
  branch_state_only s s' ∧ MIPSSimulator.branch_stats s' = MIPSSimulator.branch_stats s.
Proof.
  unfold MIPSSimulator.predictBranch, branch_state_only.
  destruct (String.eqb _ "static"); [by intros [= _ <-] |].
  destruct (String.eqb _ "dynamic"); [| by intros [= _ <-]].
  destruct (_ !! pc); by intros [= _ <-].
Qed.

Lemma updateBranchPredictor_frame (pc : Z) (taken : bool) (s : MIPSSimulator.t) :
  branch_state_only s (MIPSSimulator.updateBranchPredictor pc taken s)
  ∧ MIPSSimulator.branch_stats (MIPSSimulator.updateBranchPredictor pc taken s)
    = MIPSSimulator.branch_stats s.
Proof.
  unfold MIPSSimulator.updateBranchPredictor, branch_state_only.
  by destruct (String.eqb _ "dynamic").
Qed.

Lemma branch_state_only_trans (s1 s2 s3 : MIPSSimulator.t) :
  branch_state_only s1 s2 → branch_state_only s2 s3 → branch_state_only s1 s3.
Proof.
  unfold branch_state_only.
  intros (?&?&?&?&?&?&?&?&?) (?&?&?&?&?&?&?&?&?). split_and!; congruence.
Qed.

Lemma recordBranch_safe (taken : bool) (s : MIPSSimulator.t) :
  branch_stats_ok s →
  MIPSSimulator.BranchStats.total_branches (MIPSSimulator.branch_stats s) < 2 ^ 31 - 1 →
  ∃ s', MIPSSimulator.recordBranch taken s = Some s'
      ∧ branch_state_only s s'
      ∧ branch_stats_ok s'
      ∧ MIPSSimulator.BranchStats.total_branches (MIPSSimulator.branch_stats s)
        ≤ MIPSSimulator.BranchStats.total_branches (MIPSSimulator.branch_stats s')
        ≤ MIPSSimulator.BranchStats.total_branches (MIPSSimulator.branch_stats s) + 1.
Proof.
  intros (Hc & Hi & Ht) Hlt. unfold MIPSSimulator.recordBranch.
  destruct (MIPSSimulator.branch_prediction_enabled s).
  2:{ exists s. split; [done |]. split; [done |]. split; [done | lia]. }
  cbv zeta in *. rewrite int_incr_below by done. cbn [mbind option_bind].
  destruct (MIPSSimulator.predictBranch _ _) as [predicted s1] eqn:Ep.
  apply predictBranch_frame in Ep as [Hf Hs]. cbn in Hs.
  pose proof (updateBranchPredictor_frame (MIPSSimulator.pc s1) taken) as Hu.
  rewrite Hs. cbn.
  destruct (Bool.eqb predicted taken).
  - rewrite int_incr_below by lia. cbn [mbind option_bind].
    eexists. split; [reflexivity |].
    destruct (Hu (MIPSSimulator.set_branch_stats
                    {| MIPSSimulator.BranchStats.total_branches :=
                         MIPSSimulator.BranchStats.total_branches
                           (MIPSSimulator.branch_stats s) + 1;
                       MIPSSimulator.BranchStats.correct_predictions :=
                         MIPSSimulator.BranchStats.correct_predictions
                           (MIPSSimulator.branch_stats s) + 1;
                       MIPSSimulator.BranchStats.incorrect_predictions :=
                         MIPSSimulator.BranchStats.incorrect_predictions
                           (MIPSSimulator.branch_stats s) |} s1)) as [Hf2 Hs2].
    split; [| unfold branch_stats_ok; rewrite Hs2; cbn; lia].
    eapply branch_state_only_trans; [| exact Hf2].
    eapply branch_state_only_trans; [exact Hf |]. done.
  - rewrite int_incr_below by lia. cbn [mbind option_bind].
    eexists. split; [reflexivity |].
    destruct (Hu (MIPSSimulator.set_branch_stats
                    {| MIPSSimulator.BranchStats.total_branches :=
                         MIPSSimulator.BranchStats.total_branches
                           (MIPSSimulator.branch_stats s) + 1;
                       MIPSSimulator.BranchStats.correct_predictions :=
                         MIPSSimulator.BranchStats.correct_predictions
                           (MIPSSimulator.branch_stats s);
                       MIPSSimulator.BranchStats.incorrect_predictions :=
                         MIPSSimulator.BranchStats.incorrect_predictions
                           (MIPSSimulator.branch_stats s) + 1 |} s1)) as [Hf2 Hs2].
    split; [| unfold branch_stats_ok; rewrite Hs2; cbn; lia].
    eapply branch_state_only_trans; [| exact Hf2].
    eapply branch_state_only_trans; [exact Hf |]. done.
Qed.

Ltac executed :=
  eexists; split; [reflexivity |];
  unfold executed_ok, config_kept; cbn;
  split_and!; try done; try lia; try apply u32_range.

Ltac alu_case instr op s :=
  let r := fresh "r" in
  let Hr' := fresh "Hr'" in
  destruct (alu_to_rd_safe instr op s) as (r & -> & Hr'); try done;
  cbn [mbind option_bind]; executed.

Lemma executeInstruction_safe (instr : MIPSSimulator.Instruction.t)
    (s : MIPSSimulator.t) :
  0 ≤ MIPSSimulator.Instruction.rs instr < 32 →
  0 ≤ MIPSSimulator.Instruction.rt instr < 32 →
  0 ≤ MIPSSimulator.Instruction.rd instr < 32 →
  regs_ok (MIPSSimulator.registers s) →
  Z.of_nat (length (MIPSSimulator.memory s)) = 65536 →
  0 ≤ MIPSSimulator.pc s < 2 ^ 32 →
  branch_stats_ok s →
  MIPSSimulator.BranchStats.total_branches (MIPSSimulator.branch_stats s) < 2 ^ 31 - 1 →
  ∃ s', MIPSSimulator.executeInstruction instr s = Some (true, s') ∧ executed_ok s s'.
Proof.
  intros Hrs Hrt Hrd Hr Hm Hpc Hst Hlt.
  unfold MIPSSimulator.executeInstruction. cbv zeta.
  destruct (String.eqb _ "R").
  { destruct (_ =? Opcodes.FUNCT_ADD); [alu_case instr ALU.ADD s |].
    destruct (_ =? Opcodes.FUNCT_SUB); [alu_case instr ALU.SUB s |].
    destruct (_ =? Opcodes.FUNCT_AND); [alu_case instr ALU.AND s |].
    destruct (_ =? Opcodes.FUNCT_OR); [alu_case instr ALU.OR s |].
    destruct (_ =? Opcodes.FUNCT_SLT); [alu_case instr ALU.SLT s |].
    destruct (_ =? Opcodes.FUNCT_JR); [| cbn [mbind option_bind]; executed].
    destruct (reg_get _ _ Hr Hrs) as (a & -> & Ha). cbn [mbind option_bind].
    executed. }
  destruct (String.eqb _ "I").
  { destruct (_ =? Opcodes.OPCODE_ADDI).
    { destruct (reg_get _ _ Hr Hrs) as (a & -> & Ha). cbn [mbind option_bind].
      destruct (reg_set _ _ (u32 (a + MIPSSimulator.signExtend16
                                         (MIPSSimulator.Instruction.immediate instr)))
                  Hr Hrt) as (r & -> & Hr'); [apply u32_range |].
      cbn [mbind option_bind]. executed. }
    destruct (_ =? Opcodes.OPCODE_LW).
    { destruct (reg_get _ _ Hr Hrs) as (a & -> & Ha). cbn [mbind option_bind].
      rewrite isValidAddress_spec by done.
      destruct (Z.ltb_spec (u32 (a + MIPSSimulator.signExtend16
                                        (MIPSSimulator.Instruction.immediate instr)))
                  65533) as [Hv | Hv]; [| cbn [mbind option_bind]; executed].
      pose proof (u32_range (a + MIPSSimulator.signExtend16
                                   (MIPSSimulator.Instruction.immediate instr))) as Hu.
      destruct (word_at_in_range (MIPSSimulator.memory s)
                  (u32 (a + MIPSSimulator.signExtend16
                              (MIPSSimulator.Instruction.immediate instr))))
        as [w Hw]; [lia | lia | lia |].
      rewrite Hw. cbn [mbind option_bind].
      destruct (reg_set _ _ w Hr Hrt) as (r & -> & Hr'); [by eapply word_at_range |].
      cbn [mbind option_bind]. executed. }
    destruct (_ =? Opcodes.OPCODE_SW).
    { destruct (reg_get _ _ Hr Hrs) as (a & -> & Ha). cbn [mbind option_bind].
      rewrite isValidAddress_spec by done.
      destruct (Z.ltb_spec (u32 (a + MIPSSimulator.signExtend16
                                        (MIPSSimulator.Instruction.immediate instr)))
                  65533) as [Hv | Hv]; [| cbn [mbind option_bind]; executed].
      pose proof (u32_range (a + MIPSSimulator.signExtend16
                                   (MIPSSimulator.Instruction.immediate instr))) as Hu.
      destruct (reg_get _ _ Hr Hrt) as (v & -> & Hv'). cbn [mbind option_bind].
      destruct (store_word (MIPSSimulator.memory s) _ v) as [m |] eqn:Hs.
      2:{ rewrite store_word_in_range in Hs by lia. done. }
      apply store_word_length in Hs.
      cbn [mbind option_bind]. executed. }
    destruct (_ =? Opcodes.OPCODE_BEQ).
    { destruct (reg_get _ _ Hr Hrs) as (a & -> & Ha).
      destruct (reg_get _ _ Hr Hrt) as (b & -> & Hb). cbn [mbind option_bind].
      destruct (recordBranch_safe (a =? b) s Hst Hlt) as (s1 & -> & Hf & Hst1 & Hb1).
      destruct Hf as (E1 & E2 & E3 & E4 & E5 & E6 & E7 & E8 & E9).
      cbn [mbind option_bind]. eexists; split; [reflexivity |].
      unfold executed_ok, config_kept; cbn. rewrite E1, E2, E4, E5, E6, E7, E8, E9.
      split_and!; try done; try lia; destruct (a =? b); apply u32_range. }
    destruct (_ =? Opcodes.OPCODE_BNE).
    { destruct (reg_get _ _ Hr Hrs) as (a & -> & Ha).
      destruct (reg_get _ _ Hr Hrt) as (b & -> & Hb). cbn [mbind option_bind].
      destruct (recordBranch_safe (negb (a =? b)) s Hst Hlt)
        as (s1 & -> & Hf & Hst1 & Hb1).
      destruct Hf as (E1 & E2 & E3 & E4 & E5 & E6 & E7 & E8 & E9).
      cbn [mbind option_bind]. eexists; split; [reflexivity |].
      unfold executed_ok, config_kept; cbn. rewrite E1, E2, E4, E5, E6, E7, E8, E9.
      split_and!; try done; try lia; destruct (a =? b); apply u32_range. }
    cbn [mbind option_bind]. executed. }
  destruct (String.eqb _ "J"); [| cbn [mbind option_bind]; executed].
  assert (Hj : 0 ≤ Z.lor (Z.land (MIPSSimulator.pc s) 4026531840)
                     (u32 (Z.shiftl (MIPSSimulator.Instruction.jump_addr instr) 2))
               < 2 ^ 32).
  { apply lor_u32; [by apply land_u32 | apply u32_range]. }
  destruct (_ =? Opcodes.OPCODE_J); [cbn [mbind option_bind]; executed |].
  destruct (_ =? Opcodes.OPCODE_JAL); [| cbn [mbind option_bind]; executed].
  destruct (reg_set _ 31 (u32 (MIPSSimulator.pc s + 8)) Hr) as (r & -> & Hr');
    [lia | apply u32_range |].
  cbn [mbind option_bind]. executed.
Qed.

(** The pipelined path of [step]: what it leaves besides the stages. *)
Lemma pipelined_step_state (s : MIPSSimulator.t) :
  sim_sized s →
  MIPSSimulator.pipeline_enabled s = true →
  MIPSSimulator.halted s = false →
  MIPSSimulator.registers s !! 0%nat = Some 0 →
  0 ≤ MIPSSimulator.pc s < 2 ^ 32 →
  ∃ s', MIPSSimulator.step s = Some (true, s')
      ∧ sim_sized s'
      ∧ MIPSSimulator.pipeline_enabled s' = true
      ∧ MIPSSimulator.halted s' = false
      ∧ MIPSSimulator.step_mode s' = MIPSSimulator.step_mode s
      ∧ MIPSSimulator.registers s' = MIPSSimulator.registers s
      ∧ MIPSSimulator.memory s' = MIPSSimulator.memory s
      ∧ MIPSSimulator.branch_prediction_enabled s'
        = MIPSSimulator.branch_prediction_enabled s
      ∧ MIPSSimulator.prediction_type s' = MIPSSimulator.prediction_type s
      ∧ MIPSSimulator.branch_stats s' = MIPSSimulator.branch_stats s
      ∧ 0 ≤ MIPSSimulator.pc s' < 2 ^ 32.
Proof.
  intros (Hr & Hm & Hg) He Hh H0 Hpc.
  destruct s as [regs mem pc hlt sm pe stages bpe pt bht bs].
  cbn [MIPSSimulator.registers MIPSSimulator.memory MIPSSimulator.pc
       MIPSSimulator.halted MIPSSimulator.pipeline_enabled
       MIPSSimulator.pipeline_stages] in *.
  subst pe hlt.
  destruct stages as [| g0 [| g1 [| g2 [| g3 [| g4 [| ? ?]]]]]]; try discriminate.
  assert (Hz : vec_set regs 0 0 = Some regs) by (apply vec_set_same, vec_get_lookup; done).
  unfold MIPSSimulator.step, MIPSSimulator.advancePipeline, sim_sized. simpl.
  destruct (MIPSSimulator.detectHazards _) as [[] |] eqn:Hd.
  - unfold MIPSSimulator.handleHazards. simpl. vec_eval. simpl. vec_eval. simpl.
    vec_eval. simpl. vec_eval. simpl. rewrite Hz. simpl.
    eexists. split; [reflexivity |]. simpl.
    split_and!; first [assumption | reflexivity | lia].
  - simpl. vec_eval. simpl. vec_eval. simpl. vec_eval. simpl. vec_eval. simpl.
    rewrite isValidAddress_spec by assumption. simpl.
    destruct (Z.ltb_spec pc 65533) as [Hv | Hv].
    + destruct (word_at_in_range mem pc) as [w Hw]; [lia | lia | lia |].
      rewrite Hw. simpl. vec_eval. simpl. rewrite Hz. simpl.
      eexists. split; [reflexivity |]. simpl.
      split_and!; first [assumption | reflexivity | apply u32_range | lia].
    + simpl. vec_eval. simpl. rewrite Hz. simpl.
      eexists. split; [reflexivity |]. simpl.
      split_and!; first [assumption | reflexivity | lia].
  - unfold MIPSSimulator.detectHazards in Hd.
    cbn [MIPSSimulator.pipeline_stages] in Hd. vec_eval_in Hd.
    cbn [mbind option_bind] in Hd.
    repeat case_match; discriminate.
Qed.

Lemma step_safe (s : MIPSSimulator.t) :
  sim_ok s → branch_stats_ok s →
  MIPSSimulator.BranchStats.total_branches (MIPSSimulator.branch_stats s) < 2 ^ 31 - 1 →
  ∃ b s', MIPSSimulator.step s = Some (b, s')
        ∧ b = negb (MIPSSimulator.halted s')
        ∧ sim_ok s' ∧ branch_stats_ok s'
        ∧ MIPSSimulator.pipeline_enabled s' = MIPSSimulator.pipeline_enabled s
        ∧ MIPSSimulator.step_mode s' = MIPSSimulator.step_mode s
        ∧ MIPSSimulator.BranchStats.total_branches (MIPSSimulator.branch_stats s)
          ≤ MIPSSimulator.BranchStats.total_branches (MIPSSimulator.branch_stats s')
          ≤ MIPSSimulator.BranchStats.total_branches (MIPSSimulator.branch_stats s) + 1.
Proof.
  intros (Hs & Hr & H0 & Hpc) Hst Hlt.
  destruct (MIPSSimulator.halted s) eqn:Hh.
  { exists false, s. unfold MIPSSimulator.step. rewrite Hh.
    split_and!; try done; try lia. }
  destruct (MIPSSimulator.pipeline_enabled s) eqn:He.
  { destruct (pipelined_step_state s)
      as (s' & E & Hs' & He' & Hh' & Hsm' & Hr' & Hm' & Hb' & Hp' & Hst' & Hpc'); try done.
    exists true, s'. rewrite E. unfold sim_ok, branch_stats_ok.
    rewrite Hh', Hr', Hst', He'. split_and!; try done; try lia; apply Hst. }
  unfold MIPSSimulator.step. rewrite Hh, He.
  destruct Hs as (Hl & Hm & Hg).
  rewrite isValidAddress_spec by done.
  destruct (Z.ltb_spec (MIPSSimulator.pc s) 65533) as [Hv | Hv]; cbn [negb].
  2:{ exists false, (MIPSSimulator.set_halted true s).
      split; [done |]. unfold sim_ok, sim_sized, branch_stats_ok. cbn.
      split_and!; try done; try lia; apply Hst. }
  destruct (word_at_in_range (MIPSSimulator.memory s) (MIPSSimulator.pc s))
    as [w Hw]; [lia | lia | lia |].
  rewrite Hw. cbn [mbind option_bind].
  destruct (decodeInstruction_registers w) as (Hrs & Hrt & Hrd).
  destruct (executeInstruction_safe (MIPSSimulator.decodeInstruction w) s)
    as (s1 & -> & Hr1 & Hpc1 & Hc1 & Hst1 & Hb1); try done.
  cbn [mbind option_bind negb].
  destruct Hc1 as (C1 & C2 & C3 & C4 & C5 & C6 & C7).
  destruct (reg_set _ 0 0 Hr1) as (r & Er & Hr2); [lia | lia |].
  rewrite Er. cbn [mbind option_bind].
  exists (negb (MIPSSimulator.halted s1)), (MIPSSimulator.set_registers r s1).
  split; [done |]. unfold sim_ok, sim_sized, branch_stats_ok. cbn.
  apply vec_set_Some in Er as [_ ->].
  destruct Hr2 as [Hl2 Hf2]. rewrite C6, C7.
  split_and!; try done; try lia; try apply Hst1; try congruence.
  apply list_lookup_insert_eq. destruct Hr1 as [-> _]. lia.
Qed.

Lemma new_sim_ok : sim_ok MIPSSimulator.new ∧ branch_stats_ok MIPSSimulator.new.
Proof.
  split.
  - unfold sim_ok, sim_sized.
    change (MIPSSimulator.registers MIPSSimulator.new) with (replicate 32 0).
    change (MIPSSimulator.pc MIPSSimulator.new) with 0.
    split; [split; [| split]; vm_compute; reflexivity |].
    split; [apply Forall_replicate; lia |]. split; [reflexivity | lia].
  - unfold branch_stats_ok.
    change (MIPSSimulator.branch_stats MIPSSimulator.new)
      with MIPSSimulator.BranchStats.zero.
    cbn. lia.
Qed.

(** X3. Any number of calls of [MIPSSimulator::step], on either path and
    whatever the memory holds, stays inside the three vectors and keeps the
    invariants of the constructor: 32 registers of 32 bits with register 0
    at 0, 65536 bytes of memory, five stages, a 32-bit [pc], and branch
    counters with [total == correct + incorrect].  The one precondition is
    room in the [int] counters. *)
Theorem MIPSSimulator_steps_safe (n : nat) (s : MIPSSimulator.t) :
  sim_ok s → branch_stats_ok s →
  MIPSSimulator.BranchStats.total_branches (MIPSSimulator.branch_stats s) + Z.of_nat n
    ≤ 2 ^ 31 - 1 →
  ∃ s', MIPSSimulator.steps n s = Some s' ∧ sim_ok s' ∧ branch_stats_ok s'.
Proof.
  revert s. induction n as [| n IH]; intros s Hs Hst Hn.
  - by exists s.
  - destruct (step_safe s) as (b & s1 & E & _ & Hs1 & Hst1 & _ & _ & Hb); [done | done | lia |].
    destruct (IH s1) as (s' & E' & Hs' & Hst'); [done | done | lia |].
    exists s'. cbn [MIPSSimulator.steps]. rewrite E. cbn [mbind option_bind].
    by rewrite E'.
Qed.

(** Three steps from the constructed simulator. *)
Lemma MIPSSimulator_steps_safe_witness :
  ∃ s', MIPSSimulator.steps 3 MIPSSimulator.new = Some s' ∧ sim_ok s' ∧ branch_stats_ok s'.
Proof.
  apply (MIPSSimulator_steps_safe 3 MIPSSimulator.new).
  - exact (proj1 new_sim_ok).
  - exact (proj2 new_sim_ok).
  - vm_compute. discriminate.
Defined.

(** ** cli_interface.cpp: the [run] command *)

Lemma run_simulation_loop_ends (fuel : nat) (i : Z) (s : MIPSSimulator.t) :
  sim_ok s → branch_stats_ok s →
  0 ≤ i ≤ 10000 → i + Z.of_nat fuel = 10001 →
  MIPSSimulator.BranchStats.total_branches (MIPSSimulator.branch_stats s) + Z.of_nat fuel
    ≤ 2 ^ 31 - 1 →
  ∃ n w s', CLIInterface.run_simulation_loop fuel i s = Some (Some (n, w, s'))
          ∧ i ≤ n ≤ 10001
          ∧ (w = true ↔ n = 10001)
          ∧ (w = false → MIPSSimulator.halted s' = true)
          ∧ sim_ok s' ∧ branch_stats_ok s'.
Proof.
  revert i s. induction fuel as [| fuel IH]; intros i s Hs Hst Hi Hf Hn; [lia |].
  cbn [CLIInterface.run_simulation_loop].
  destruct (MIPSSimulator.halted s) eqn:Hh.
  { exists i, false, s. split_and!; try done; lia. }
  destruct (step_safe s) as (b & s1 & E & Eb & Hs1 & Hst1 & _ & _ & Hb); [done | done | lia |].
  rewrite E. cbn [mbind option_bind]. subst b.
  destruct (MIPSSimulator.halted s1) eqn:Hh1; cbn [negb].
  { exists i, false, s1. split_and!; try done; lia. }
  rewrite int_incr_below by lia. cbn [mbind option_bind].
  destruct (Z.ltb_spec 10000 (i + 1)) as [Hg | Hg].
  { exists (i + 1), true, s1. split_and!; try done; lia. }
  destruct (IH (i + 1) s1) as (n & w & s' & E' & Hn' & Hw & Hh' & Hs' & Hst');
    [done | done | lia | lia | lia |].
  exists n, w, s'. split_and!; try done; lia.
Qed.

(** X4. The [run] command of the command line always comes to an end, on
    either path: after 10001 steps at most it reports its count, with the
    warning exactly when the count is 10001 and a halted simulator
    otherwise; no step leaves the vectors. *)
Theorem CLI_run_simulation_ends (s : MIPSSimulator.t) :
  sim_ok s → branch_stats_ok s →
  MIPSSimulator.BranchStats.total_branches (MIPSSimulator.branch_stats s) + 10001
    ≤ 2 ^ 31 - 1 →
  ∃ n w s', CLIInterface.run_simulation (Z.to_nat 10001) s = Some (Some (n, w, s'))
          ∧ 0 ≤ n ≤ 10001
          ∧ (w = true ↔ n = 10001)
          ∧ (w = false → MIPSSimulator.halted s' = true)
          ∧ sim_ok s' ∧ branch_stats_ok s'.
Proof.
  intros Hs Hst Hn. apply run_simulation_loop_ends; try done; lia.
Qed.

Lemma CLI_run_simulation_ends_witness :
  ∃ n w s', CLIInterface.run_simulation (Z.to_nat 10001) MIPSSimulator.new = Some (Some (n, w, s'))
          ∧ 0 ≤ n ≤ 10001
          ∧ (w = true ↔ n = 10001)
          ∧ (w = false → MIPSSimulator.halted s' = true)
          ∧ sim_ok s' ∧ branch_stats_ok s'.
Proof.
  apply (CLI_run_simulation_ends MIPSSimulator.new).
  - exact (proj1 new_sim_ok).
  - exact (proj2 new_sim_ok).
  - vm_compute. discriminate.
Defined.

Lemma run_simulation_loop_pipelined (fuel : nat) (i : Z) (s : MIPSSimulator.t) :
  sim_ok s →
  MIPSSimulator.pipeline_enabled s = true →
  MIPSSimulator.halted s = false →
  0 ≤ i ≤ 10000 → i + Z.of_nat fuel = 10001 →
  ∃ s', CLIInterface.run_simulation_loop fuel i s = Some (Some (10001, true, s'))
      ∧ MIPSSimulator.halted s' = false
      ∧ MIPSSimulator.registers s' = MIPSSimulator.registers s
      ∧ MIPSSimulator.memory s' = MIPSSimulator.memory s.
Proof.
  revert i s. induction fuel as [| fuel IH]; intros i s Hs He Hh Hi Hf; [lia |].
  cbn [CLIInterface.run_simulation_loop]. rewrite Hh.
  destruct Hs as (Hz & Hr & H0 & Hpc).
  destruct (pipelined_step_state s)
    as (s1 & E & Hs1 & He1 & Hh1 & _ & Hr1 & Hm1 & _ & _ & _ & Hpc1); try done.
  rewrite E. cbn [mbind option_bind negb].
  rewrite int_incr_below by lia. cbn [mbind option_bind].
  destruct (Z.ltb_spec 10000 (i + 1)) as [Hg | Hg].
  { exists s1. replace (i + 1) with 10001 by lia. done. }
  destruct (IH (i + 1) s1) as (s' & E' & Hh' & Hr' & Hm'); try done; try lia.
  { unfold sim_ok. rewrite Hr1. done. }
  exists s'. split_and!; try done; congruence.
Qed.

(** X5. With the pipeline enabled the [run] command never sees the simulator
    halt: it always runs into the guard, after 10001 steps that changed no
    register and no byte of memory. *)
Theorem CLI_run_simulation_pipelined (s : MIPSSimulator.t) :
  sim_ok s →
  MIPSSimulator.pipeline_enabled s = true →
  MIPSSimulator.halted s = false →
  ∃ s', CLIInterface.run_simulation (Z.to_nat 10001) s = Some (Some (10001, true, s'))
      ∧ MIPSSimulator.halted s' = false
      ∧ MIPSSimulator.registers s' = MIPSSimulator.registers s
      ∧ MIPSSimulator.memory s' = MIPSSimulator.memory s.
Proof.
  intros Hs He Hh. apply run_simulation_loop_pipelined; try done; lia.
Qed.

Lemma enablePipeline_sim_ok (b : bool) (s : MIPSSimulator.t) :
  sim_ok s → sim_ok (MIPSSimulator.enablePipeline b s).
Proof.
  intros ((Hl & Hm & Hg) & Hr & H0 & Hpc).
  unfold sim_ok, sim_sized. by destruct b.
Qed.

(** [CLI_run_simulation_pipelined] from the constructed simulator with the
    pipeline switched on. *)
Lemma CLI_run_simulation_pipelined_witness :
  ∃ s', CLIInterface.run_simulation (Z.to_nat 10001)
          (MIPSSimulator.enablePipeline true MIPSSimulator.new)
        = Some (Some (10001, true, s'))
      ∧ MIPSSimulator.halted s' = false
      ∧ MIPSSimulator.registers s'
        = MIPSSimulator.registers (MIPSSimulator.enablePipeline true MIPSSimulator.new)
      ∧ MIPSSimulator.memory s'
        = MIPSSimulator.memory (MIPSSimulator.enablePipeline true MIPSSimulator.new).
Proof.
  apply (CLI_run_simulation_pipelined (MIPSSimulator.enablePipeline true MIPSSimulator.new)).
  - apply enablePipeline_sim_ok. exact (proj1 new_sim_ok).
  - reflexivity.
  - reflexivity.
Defined.

(** ** mips_simulator.cpp and instruction_decoder.cpp: unknown words *)

(** X6. A word [InstructionDecoder::getInstructionName] calls "unknown" is
    one [MIPSSimulator::executeInstruction] has no case for: it moves
    [pc] to the next word and changes nothing else. *)
Theorem unknown_instruction_only_advances (w : Z) (s : MIPSSimulator.t) :
  InstructionDecoder.getInstructionName w = "unknown" →
  MIPSSimulator.executeInstruction (MIPSSimulator.decodeInstruction w) s
  = Some (true, MIPSSimulator.set_pc (u32 (MIPSSimulator.pc s + 4)) s).
Proof.
  unfold InstructionDecoder.getInstructionName, MIPSSimulator.executeInstruction,
    MIPSSimulator.decodeInstruction. cbv zeta. cbn.
  destruct (Z.land (Z.shiftr w 26) 63 =? 0) eqn:E0; cbn.
  - repeat (destruct (Z.land w 63 =? _); [discriminate |]). done.
  - destruct (Z.land (Z.shiftr w 26) 63 =? 2) eqn:E2; cbn.
    { intros H. repeat (destruct (Z.land (Z.shiftr w 26) 63 =? _); try discriminate). }
    destruct (Z.land (Z.shiftr w 26) 63 =? 3) eqn:E3; cbn.
    { intros H. repeat (destruct (Z.land (Z.shiftr w 26) 63 =? _); try discriminate). }
    repeat (destruct (Z.land (Z.shiftr w 26) 63 =? _); [discriminate |]). done.
Qed.

(** The word 0x0000002a, [slt $zero, $zero, $zero] in the MIPS encoding:
    the header gives [FUNCT_SLT] the value 0x28. *)
Lemma unknown_instruction_only_advances_witness :
  MIPSSimulator.executeInstruction (MIPSSimulator.decodeInstruction 42) MIPSSimulator.new
  = Some (true, MIPSSimulator.set_pc (u32 (MIPSSimulator.pc MIPSSimulator.new + 4))
                  MIPSSimulator.new).
Proof.
  apply (unknown_instruction_only_advances 42 MIPSSimulator.new). reflexivity.
Defined.

(** ** mips_simulator.cpp: sign extension and the memory accessors *)

Lemma high_half_disjoint (v : Z) : 0 ≤ v < 2 ^ 16 → Z.land v 4294901760 = 0.
Proof.
  intros Hv. apply Z.bits_inj'. intros n Hn. rewrite Z.land_spec, Z.bits_0.
  destruct (Z.lt_ge_cases n 16).
  - change 4294901760 with (Z.shiftl 65535 16).
    rewrite Z.shiftl_spec_low by lia. apply andb_false_r.
  - destruct (Z.eq_dec v 0) as [-> | Hne]; [by rewrite Z.bits_0 |].
    rewrite (Z.bits_above_log2 v n); [done | lia |].
    apply Z.log2_lt_pow2; [lia |]. apply Z.lt_le_trans with (2 ^ 16); [lia |].
    apply Z.pow_le_mono_r; lia.
Qed.

(** X7. [MIPSSimulator::signExtend16] is the two's-complement extension of a
    16-bit value: the result is a 32-bit value that, read as an
    [int32_t], is the argument read as an [int16_t]. *)
Theorem signExtend16_signed (v : Z) :
  0 ≤ v < 2 ^ 16 →
  0 ≤ MIPSSimulator.signExtend16 v < 2 ^ 32
  ∧ s32 (MIPSSimulator.signExtend16 v) = (if v <? 2 ^ 15 then v else v - 2 ^ 16)
  ∧ s32 (MIPSSimulator.signExtend16 v) = s16 v.
Proof.
  intros Hv. unfold MIPSSimulator.signExtend16.
  pose proof (top_bit v 15 ltac:(lia) ltac:(lia)) as Ht.
  change (2 ^ 15) with 32768 in Ht.
  assert (Hs : s16 v = if v <? 2 ^ 15 then v else v - 2 ^ 16).
  { unfold s16, u16. rewrite Z.mod_small by lia. done. }
  rewrite Hs.
  destruct (Z.land v 32768 =? 0); cbn in Ht;
    destruct (Z.leb_spec 32768 v) as [Hge | Hlt]; try discriminate.
  - destruct (Z.ltb_spec v (2 ^ 15)); [| lia].
    rewrite s32_cases by lia. destruct (Z.leb_spec (2 ^ 31) v); lia.
  - rewrite <- Z.lxor_lor, <- Z.add_nocarry_lxor by (by apply high_half_disjoint).
    destruct (Z.ltb_spec v (2 ^ 15)); [lia |].
    rewrite s32_cases by lia. destruct (Z.leb_spec (2 ^ 31) (v + 4294901760)); lia.
Qed.

(** [signExtend16_signed] at 0xffff, which is -1. *)
Lemma signExtend16_signed_witness : s32 (MIPSSimulator.signExtend16 65535) = s16 65535.
Proof.
  destruct (signExtend16_signed 65535) as (_ & _ & H); [lia | exact H].
Defined.

Lemma isValidAddress_iff (s : MIPSSimulator.t) (a : Z) :
  3 ≤ Z.of_nat (length (MIPSSimulator.memory s)) ≤ 2 ^ 32 →
  MIPSSimulator.isValidAddress s a = (a + 3 <? Z.of_nat (length (MIPSSimulator.memory s))).
Proof.
  intros Hm. unfold MIPSSimulator.isValidAddress. rewrite u64_small by lia.
  destruct (Z.ltb_spec a (Z.of_nat (length (MIPSSimulator.memory s)) - 3)),
    (Z.ltb_spec (a + 3) (Z.of_nat (length (MIPSSimulator.memory s)))); lia.
Qed.

Lemma setMemory_defined (s : MIPSSimulator.t) (a v : Z) :
  3 ≤ Z.of_nat (length (MIPSSimulator.memory s)) ≤ 2 ^ 32 →
  0 ≤ a → a + 3 < Z.of_nat (length (MIPSSimulator.memory s)) →
  is_Some (MIPSSimulator.setMemory s a v).
Proof.
  intros Hm Ha Hr. unfold MIPSSimulator.setMemory.
  rewrite isValidAddress_iff by done.
  destruct (Z.ltb_spec (a + 3) (Z.of_nat (length (MIPSSimulator.memory s)))); [| lia].
  rewrite store_word_in_range by lia. cbn [mbind option_bind]. done.
Qed.

(** X8. [MIPSSimulator::getMemory] and [setMemory] are guarded at every
    address: where [a + 3] reaches the end of memory, also near 2^32, the
    read answers 0 and the write changes nothing; everywhere else the
    four bytes are inside the vector. *)
Theorem MIPSSimulator_memory_guarded (s : MIPSSimulator.t) (a v : Z) :
  3 ≤ Z.of_nat (length (MIPSSimulator.memory s)) ≤ 2 ^ 32 →
  0 ≤ a →
  (Z.of_nat (length (MIPSSimulator.memory s)) ≤ a + 3 →
   MIPSSimulator.getMemory s a = Some 0 ∧ MIPSSimulator.setMemory s a v = Some s)
  ∧ (a + 3 < Z.of_nat (length (MIPSSimulator.memory s)) →
     is_Some (MIPSSimulator.getMemory s a) ∧ is_Some (MIPSSimulator.setMemory s a v)).
Proof.
  intros Hm Ha. unfold MIPSSimulator.getMemory, MIPSSimulator.setMemory.
  rewrite isValidAddress_iff by done.
  split; intros Hr.
  - by destruct (Z.ltb_spec (a + 3) (Z.of_nat (length (MIPSSimulator.memory s)))); [lia |].
  - destruct (Z.ltb_spec (a + 3) (Z.of_nat (length (MIPSSimulator.memory s)))); [| lia].
    split; [apply word_at_in_range; lia |].
    rewrite store_word_in_range by lia. cbn [mbind option_bind]. done.
Qed.

(** [MIPSSimulator_memory_guarded] at the last address of the 32-bit
    range, in the memory of the constructor. *)
Lemma MIPSSimulator_memory_guarded_witness :
  MIPSSimulator.getMemory MIPSSimulator.new 4294967295 = Some 0
  ∧ MIPSSimulator.setMemory MIPSSimulator.new 4294967295 287454020
    = Some MIPSSimulator.new.
Proof.
  apply (MIPSSimulator_memory_guarded MIPSSimulator.new 4294967295 287454020).
  - split; vm_compute; discriminate.
  - lia.
  - vm_compute; discriminate.
Defined.

Lemma word_at_ext (m m' : list Z) (a : Z) :
  0 ≤ a → a + 3 < 2 ^ 32 →
  (∀ k, 0 ≤ k < 4 → m' !! Z.to_nat (a + k) = m !! Z.to_nat (a + k)) →
  word_at m' a = word_at m a.
Proof.
  intros Ha Hb He. unfold word_at, vec_get.
  rewrite !u32_small by lia.
  destruct (Z.leb_spec 0 a), (Z.leb_spec 0 (a + 1)), (Z.leb_spec 0 (a + 2)),
    (Z.leb_spec 0 (a + 3)); try lia.
  pose proof (He 0 ltac:(lia)) as Hz. rewrite Z.add_0_r in Hz.
  by rewrite Hz, (He 1), (He 2), (He 3) by lia.
Qed.

(** X9. A word written by [MIPSSimulator::setMemory] changes no word that
    does not overlap it, no register and not [pc]. *)
Theorem setMemory_frame (s s' : MIPSSimulator.t) (a v a' : Z) :
  3 ≤ Z.of_nat (length (MIPSSimulator.memory s)) ≤ 2 ^ 32 →
  0 ≤ a → 0 ≤ a' → a' + 3 < a ∨ a + 3 < a' →
  MIPSSimulator.setMemory s a v = Some s' →
  MIPSSimulator.getMemory s' a' = MIPSSimulator.getMemory s a'
  ∧ MIPSSimulator.registers s' = MIPSSimulator.registers s
  ∧ MIPSSimulator.pc s' = MIPSSimulator.pc s
  ∧ length (MIPSSimulator.memory s') = length (MIPSSimulator.memory s).
Proof.
  intros Hm Ha Ha' Hd. unfold MIPSSimulator.setMemory.
  rewrite isValidAddress_iff by done.
  destruct (Z.ltb_spec (a + 3) (Z.of_nat (length (MIPSSimulator.memory s))));
    [| by intros [= <-]].
  rewrite store_word_in_range by lia. cbn [mbind option_bind].
  intros H'. apply (inj Some) in H'. subst s'.
  unfold MIPSSimulator.getMemory.
  rewrite !isValidAddress_iff by (cbn; rewrite ?length_insert; done).
  cbn [MIPSSimulator.set_memory MIPSSimulator.memory MIPSSimulator.registers
       MIPSSimulator.pc].
  rewrite !length_insert.
  split; [| done].
  destruct (Z.ltb_spec (a' + 3) (Z.of_nat (length (MIPSSimulator.memory s))));
    [| done].
  apply word_at_ext; [lia | lia |].
  intros k Hk. rewrite !list_lookup_insert_ne by lia. done.
Qed.

(** [setMemory_frame] for the words at 0x100 and 0x104 of the constructed
    simulator. *)
Lemma setMemory_frame_witness :
  ∃ s', MIPSSimulator.setMemory MIPSSimulator.new 256 287454020 = Some s'
      ∧ MIPSSimulator.getMemory s' 260 = MIPSSimulator.getMemory MIPSSimulator.new 260.
Proof.
  destruct (setMemory_defined MIPSSimulator.new 256 287454020) as [s' H];
    [split; vm_compute; discriminate | lia | vm_compute; reflexivity |].
  exists s'. split; [exact H |].
  destruct (setMemory_frame MIPSSimulator.new s' 256 287454020 260) as (Hg & _).
  - split; vm_compute; discriminate.
  - lia.
  - lia.
  - right. lia.
  - exact H.
  - exact Hg.
Defined.

(** ** mips_simulator.cpp: loading an image *)





(** ** mips_simulator.cpp: the branch predictor of [MIPSSimulator] *)

(** X11. The predictor of [MIPSSimulator] knows two type names.  With
    "dynamic" it predicts for [pc] the outcome last recorded for [pc], and
    not taken for a [pc] it has no entry for; an update at [pc] changes no
    other prediction.  With any other name, "static" or not, it predicts
    not taken and an update changes nothing. *)
Theorem MIPSSimulator_predictor_types (pc pc' : Z) (taken : bool) (s : MIPSSimulator.t) :
  (MIPSSimulator.prediction_type s = "dynamic" →
   fst (MIPSSimulator.predictBranch pc (MIPSSimulator.updateBranchPredictor pc taken s))
   = taken
   ∧ (pc' ≠ pc →
      fst (MIPSSimulator.predictBranch pc' (MIPSSimulator.updateBranchPredictor pc taken s))
      = fst (MIPSSimulator.predictBranch pc' s))
   ∧ (MIPSSimulator.branch_history_table s !! pc = None →
      fst (MIPSSimulator.predictBranch pc s) = false))
  ∧ (MIPSSimulator.prediction_type s ≠ "dynamic" →
     MIPSSimulator.predictBranch pc s = (false, s)
     ∧ MIPSSimulator.updateBranchPredictor pc taken s = s).
Proof.
  unfold MIPSSimulator.predictBranch, MIPSSimulator.updateBranchPredictor.
  split.
  - intros Hd. rewrite Hd. cbn. rewrite Hd. cbn.
    rewrite lookup_insert_eq. split; [done |]. split.
    + intros Hne. rewrite lookup_insert_ne by done.
      by destruct (MIPSSimulator.branch_history_table s !! pc').
    + by intros ->.
  - intros Hd. apply String.eqb_neq in Hd. rewrite Hd.
    by destruct (String.eqb (MIPSSimulator.prediction_type s) "static").
Qed.

(** The type name "2bit" of the usage text of main.cpp is none of the
    two. *)
Lemma MIPSSimulator_predictor_types_witness :
  MIPSSimulator.predictBranch 8
    (MIPSSimulator.enableBranchPrediction true "2bit" MIPSSimulator.new)
  = (false, MIPSSimulator.enableBranchPrediction true "2bit" MIPSSimulator.new)
  ∧ MIPSSimulator.updateBranchPredictor 8 true
      (MIPSSimulator.enableBranchPrediction true "2bit" MIPSSimulator.new)
    = MIPSSimulator.enableBranchPrediction true "2bit" MIPSSimulator.new.
Proof.
  apply (proj2 (MIPSSimulator_predictor_types 8 8 true
                  (MIPSSimulator.enableBranchPrediction true "2bit" MIPSSimulator.new))).
  discriminate.
Defined.

(** ** MIPS.cpp: the program is loaded where there is no memory *)

Lemma MIPS_word_beyond_memory (s : MIPS.t) (a v : Z) :
  0 ≤ a → a + 3 < 2 ^ 32 → Z.of_nat (length (MIPS.memory s)) ≤ a + 3 →
  MIPS.getMemoryWord s a = Some 0 ∧ MIPS.setMemoryWord s a v = Some s.
Proof.
  intros Ha Hw Hl. unfold MIPS.getMemoryWord, MIPS.setMemoryWord.
  rewrite u32_small by lia.
  by destruct (Z.ltb_spec (a + 3) (Z.of_nat (length (MIPS.memory s)))); [lia |].
Qed.

Lemma store_program_dropped (instrs : list Instruction.t) (addr : Z) (s : MIPS.t) :
  0 ≤ addr → Z.of_nat (length (MIPS.memory s)) ≤ addr + 3 →
  addr + 4 * Z.of_nat (length instrs) ≤ 2 ^ 32 →
  MIPS.store_program instrs addr s = Some s.
Proof.
  revert addr. induction instrs as [| i rest IH]; intros addr Ha Hl Hn; [done |].
  cbn [MIPS.store_program]. cbn [length] in Hn.
  destruct (MIPS_word_beyond_memory s addr (Instruction.machineCode i)) as [_ ->];
    [lia | lia | lia |].
  cbn [mbind option_bind].
  destruct rest as [| j rest']; [done |].
  cbn [length] in Hn. rewrite u32_small by lia. apply IH; cbn [length]; lia.
Qed.

Lemma decode_zero_falls_through (u : Instruction.t) (address : Z) (s : MIPS.t) :
  (0 < length (MIPS.registers s))%nat →
  MIPS.executeSingleCycle (Instruction.decode u 0 address) s
  = Some (MIPS.set_pc (u32 (MIPS.pc s + 4))
            (MIPS.set_registers (<[0%nat := 0]> (MIPS.registers s)) s)).
Proof.
  intros Hr.
  assert (Hf : Instruction.format (Instruction.decode u 0 address) = InstructionFormat.SLL)
    by reflexivity.
  unfold MIPS.executeSingleCycle. cbv zeta. rewrite Hf. cbn [mbind option_bind].
  rewrite vec_set_in_range by lia. done.
Qed.

Lemma single_cycle_step_beyond_memory (r : Z → Z) (u : Instruction.t) (s : MIPS.t) :
  MIPS.pipelineEnabled s = false →
  (0 < length (MIPS.registers s))%nat →
  Z.of_nat (length (MIPS.memory s)) ≤ MIPS.pc s + 3 →
  0 ≤ MIPS.pc s →
  MIPS.pc s < 4194304 + Z.of_nat (length (MIPS.instructions s)) * 4 < 2 ^ 32 →
  MIPS.step r u s
  = Some (MIPS.set_counts (u64 (MIPS.cycleCount s + 1)) (u64 (MIPS.instructionCount s + 1))
            (MIPS.set_pc (MIPS.pc s + 4)
               (MIPS.set_registers (<[0%nat := 0]> (MIPS.registers s)) s))).
Proof.
  intros He Hr Hl H0 Hpc. unfold MIPS.step.
  rewrite u64_small by lia.
  destruct (Z.leb_spec (4194304 + Z.of_nat (length (MIPS.instructions s)) * 4) (MIPS.pc s));
    [lia |].
  destruct (MIPS_word_beyond_memory s (MIPS.pc s) 0) as [-> _]; [lia | lia | lia |].
  cbn [mbind option_bind]. rewrite He.
  rewrite decode_zero_falls_through by done. cbn [mbind option_bind].
  rewrite u32_small by lia.
  assert (Hf : Instruction.format (Instruction.decode u 0 (MIPS.pc s)) = InstructionFormat.SLL)
    by reflexivity.
  rewrite Hf. done.
Qed.

Lemma single_cycle_run_beyond_memory (r : Z → Z) (u : Instruction.t) (k : nat) (s : MIPS.t) :
  MIPS.pipelineEnabled s = false →
  MIPS.stepMode s = false →
  MIPS.registers s !! 0%nat = Some 0 →
  Z.of_nat (length (MIPS.memory s)) ≤ 4194304 →
  4194304 + Z.of_nat (length (MIPS.instructions s)) * 4 < 2 ^ 32 →
  MIPS.pc s + 4 * Z.of_nat k = 4194304 + Z.of_nat (length (MIPS.instructions s)) * 4 →
  4194304 ≤ MIPS.pc s →
  0 ≤ MIPS.cycleCount s → MIPS.cycleCount s + Z.of_nat k < 2 ^ 64 →
  0 ≤ MIPS.instructionCount s → MIPS.instructionCount s + Z.of_nat k < 2 ^ 64 →
  ∃ s', MIPS.run (S k) r u s = Some (Some s')
      ∧ MIPS.registers s' = MIPS.registers s
      ∧ MIPS.memory s' = MIPS.memory s
      ∧ MIPS.pc s' = 4194304 + Z.of_nat (length (MIPS.instructions s)) * 4
      ∧ MIPS.cycleCount s' = MIPS.cycleCount s + Z.of_nat k
      ∧ MIPS.instructionCount s' = MIPS.instructionCount s + Z.of_nat k.
Proof.
  revert s. induction k as [| k IH]; intros s He Hsm H0 Hm Hn Hpc Hlo Hc1 Hc2 Hi1 Hi2.
  - exists s. cbn [MIPS.run]. rewrite u64_small by lia.
    destruct (Z.ltb_spec (MIPS.pc s)
                (4194304 + Z.of_nat (length (MIPS.instructions s)) * 4)); [lia |].
    split_and!; try done; lia.
  - assert (Hr : (0 < length (MIPS.registers s))%nat).
    { apply lookup_lt_Some in H0. lia. }
    pose proof (single_cycle_step_beyond_memory r u s He Hr ltac:(lia) ltac:(lia)
                  ltac:(lia)) as Hs.
    rewrite list_insert_id in Hs by done.
    remember (S k) as k' eqn:Ek. cbn [MIPS.run]. subst k'.
    rewrite u64_small by lia.
    destruct (Z.ltb_spec (MIPS.pc s)
                (4194304 + Z.of_nat (length (MIPS.instructions s)) * 4)); [| lia].
    rewrite Hs. cbn [mbind option_bind]. cbn [MIPS.stepMode MIPS.set_counts
      MIPS.set_pc MIPS.set_registers]. rewrite Hsm.
    rewrite !u64_small by lia.
    edestruct (IH (MIPS.set_counts (MIPS.cycleCount s + 1) (MIPS.instructionCount s + 1)
                     (MIPS.set_pc (MIPS.pc s + 4)
                        (MIPS.set_registers (MIPS.registers s) s))))
      as (s' & E & Er & Em & Ep & Ec & Ei); try (cbn; done); try (cbn; lia).
    cbn [MIPS.set_counts MIPS.set_pc MIPS.set_registers] in E.
    exists s'. split; [exact E |]. cbn in Er, Em, Ep, Ec, Ei.
    split_and!; try done; lia.
Qed.

(** X12. [MIPS::loadProgram] stores the program at 0x400000 and up, but the
    constructor gives the machine 0x100000 bytes: every store is dropped by
    the guard of [setMemoryWord] and memory stays as it was.  Every fetch
    of the single-cycle path then reads the word 0 there, which decodes to
    no instruction the interpreter has a case for: [run] ends after one
    step for each program word, with the registers untouched and every
    step counted as an instruction. *)
Theorem MIPS_loaded_program_is_not_executed (r : Z → Z) (u : Instruction.t)
    (assembled : list Instruction.t) (s : MIPS.t) :
  Z.of_nat (length (MIPS.memory s)) = 1048576 →
  MIPS.registers s !! 0%nat = Some 0 →
  MIPS.pipelineEnabled s = false →
  MIPS.stepMode s = false →
  4194304 + Z.of_nat (length assembled) * 4 < 2 ^ 32 →
  ∃ s1 s2,
    MIPS.loadProgram assembled s = Some s1
    ∧ MIPS.memory s1 = MIPS.memory s
    ∧ MIPS.run (S (length assembled)) r u s1 = Some (Some s2)
    ∧ MIPS.registers s2 = MIPS.registers s
    ∧ MIPS.memory s2 = MIPS.memory s
    ∧ MIPS.pc s2 = 4194304 + Z.of_nat (length assembled) * 4
    ∧ MIPS.instructionCount s2 = Z.of_nat (length assembled).
Proof.
  intros Hm H0 He Hsm Hn. unfold MIPS.loadProgram.
  rewrite store_program_dropped by (cbn; lia). cbn [mbind option_bind].
  eexists. 
  edestruct (single_cycle_run_beyond_memory r u (length assembled)) as
    (s2 & E & Er & Em & Ep & Ec & Ei); cycle -1.
  { exists s2. split; [reflexivity |]. split; [reflexivity |].
    split; [exact E |]. cbn in Er, Em, Ep, Ei.
    split_and!; try done; lia. }
  all: cbn; try done; lia.
Qed.

(** [MIPS_loaded_program_is_not_executed] for the constructed machine and
    the one-instruction program [addi $v0, $zero, 5]: register 2 is 0
    after the run. *)
Lemma MIPS_loaded_program_is_not_executed_witness :
  ∃ s1 s2,
    MIPS.loadProgram addi_assembled single_cycle_MIPS = Some s1
    ∧ MIPS.run 2 zero_stage_registers zero_instruction s1 = Some (Some s2)
    ∧ MIPS.registers s2 = MIPS.registers single_cycle_MIPS
    ∧ MIPS.instructionCount s2 = 1.
Proof.
  destruct (MIPS_loaded_program_is_not_executed zero_stage_registers zero_instruction
              addi_assembled single_cycle_MIPS)
    as (s1 & s2 & E1 & _ & E2 & Er & _ & _ & Ei);
    [vm_compute; reflexivity | vm_compute; reflexivity | reflexivity | reflexivity
    | vm_compute; reflexivity |].
  exists s1, s2. split; [exact E1 |]. split; [exact E2 |]. split; [exact Er | exact Ei].
Defined.

(** ** MIPS.cpp and Pipeline.cpp: the pipelined [run] *)

Lemma decode_zero_harmless (u : Instruction.t) (address : Z) :
  harmless (Instruction.decode u 0 address).
Proof. unfold harmless. split_and!; reflexivity. Qed.

Lemma new_instruction_harmless (u : Instruction.t) : harmless (Instruction.new u).
Proof. unfold harmless. split_and!; done. Qed.

Ltac pipeline_goal :=
  unfold pipeline_ok, stage_ok; cbn;
  refine (conj _ (conj (conj _ _) (conj (conj _ _) (conj _ _)))); try assumption.

Lemma new_pipeline_ok (u : Pipeline.t) : pipeline_ok (Pipeline.new u).
Proof. pipeline_goal; try apply new_instruction_harmless; discriminate. Qed.

Lemma executeWB_idle (registers : list Z) (p : Pipeline.t) :
  pipeline_ok p →
  ∃ p', Pipeline.executeWB registers p = Some (p', registers) ∧ pipeline_ok p'.
Proof.
  intros Hp. pose proof Hp as (Hi & (Hd & Hdw) & (He & Hew) & (Hm & Hmw)).
  unfold Pipeline.executeWB.
  destruct (PipelineStage.valid (Pipeline.MEM_WB p)) eqn:Ev; cbn [andb];
    [| by exists p].
  destruct (PipelineStage.regWrite (Pipeline.MEM_WB p)) eqn:Er; [| by exists p].
  rewrite (Hmw eq_refl eq_refl). cbn. eexists. split; [reflexivity |].
  pipeline_goal. discriminate.
Qed.

Lemma executeMEM_idle (r : Z → Z) (memory : list Z) (p : Pipeline.t) :
  pipeline_ok p →
  ∃ p', Pipeline.executeMEM r memory p = Some (p', memory) ∧ pipeline_ok p'.
Proof.
  intros Hp. pose proof Hp as (Hi & (Hd & Hdw) & (He & Hew) & (Hm & Hmw)).
  unfold Pipeline.executeMEM.
  destruct (PipelineStage.valid (Pipeline.EX_MEM p)) eqn:Ev; [| by exists p].
  cbn. pose proof He as (Hl & Hs & _). rewrite Hl, Hs. cbn.
  eexists. split; [reflexivity |].
  pipeline_goal; try discriminate; intros _; by apply Hew.
Qed.

Lemma executeEX_idle (r : Z → Z) (p : Pipeline.t) :
  pipeline_ok p → pipeline_ok (Pipeline.executeEX r p).
Proof.
  intros Hp. pose proof Hp as (Hi & (Hd & Hdw) & (He & Hew) & (Hm & Hmw)).
  unfold Pipeline.executeEX.
  destruct (PipelineStage.valid (Pipeline.ID_EX p)) eqn:Ev; [| done].
  cbv zeta. pose proof Hd as (_ & _ & Hb & _). rewrite Hb. cbn [andb].
  pipeline_goal; try discriminate; intros _; by apply Hdw.
Qed.

Lemma executeID_idle (registers : list Z) (p : Pipeline.t) :
  pipeline_ok p → pipeline_ok (Pipeline.executeID registers p).
Proof.
  intros Hp. pose proof Hp as (Hi & (Hd & Hdw) & (He & Hew) & (Hm & Hmw)).
  unfold Pipeline.executeID.
  destruct (Pipeline.flush p); [pipeline_goal; discriminate |].
  destruct (PipelineStage.valid (Pipeline.IF_ID p)) eqn:Ev; [| done].
  cbv zeta. pipeline_goal.
  destruct Hi as (Hl & Hs & Hb & Hj & Hrd & Hrt).
  intros _ Hw.
  destruct (Instruction.writesRD _) eqn:E1; [by apply Hrd |].
  destruct (Instruction.writesRT _) eqn:E2; [by apply Hrt | done].
Qed.

Lemma executeIF_idle (instruction : Instruction.t) (pc : Z) (p : Pipeline.t) :
  harmless instruction → pipeline_ok p → pipeline_ok (Pipeline.executeIF instruction pc p).
Proof.
  intros Hf Hp. pose proof Hp as (Hi & (Hd & Hdw) & (He & Hew) & (Hm & Hmw)).
  unfold Pipeline.executeIF.
  destruct (Pipeline.stall p); cbn [negb]; [done |]. pipeline_goal.
Qed.

Lemma tick_idle (r : Z → Z) (fetched : Instruction.t) (pc : Z)
    (registers memory : list Z) (p : Pipeline.t) :
  harmless fetched → pipeline_ok p →
  ∃ p', Pipeline.tick r fetched pc registers memory p = Some (p', registers, memory)
      ∧ pipeline_ok p'.
Proof.
  intros Hf Hp. unfold Pipeline.tick.
  destruct (HazardDetection.detectHazard _ _ _ _ _) as [hazard h] eqn:Eh.
  assert (Hc : hazard ≠ HazardType.CONTROL_HAZARD).
  { unfold HazardDetection.detectHazard in Eh.
    destruct (_ || _ || _); [by injection Eh as <- _ |].
    unfold HazardDetection.detectControlHazard in Eh.
    pose proof Hf as (_ & _ & Hb & Hj & _). rewrite Hb, Hj in Eh. cbn in Eh.
    by injection Eh as <- _. }
  cbv zeta.
  set (q := Pipeline.set_hazardUnit h p) in *.
  assert (Hq : pipeline_ok q) by exact Hp.
  assert (Hns : HazardDetection.shouldStall fetched
                  (PipelineStage.instruction (Pipeline.ID_EX q))
                  (PipelineStage.instruction (Pipeline.EX_MEM q))
                  (Pipeline.hazardUnit q)
                = (false, h)).
  { unfold HazardDetection.shouldStall, HazardDetection.detectLoadUseHazard. cbn.
    destruct Hp as (_ & ((-> & _) & _) & _). done. }
  destruct hazard; try done; rewrite ?Hns;
    change (Pipeline.set_hazardUnit h q) with q;
    (destruct (executeWB_idle registers q Hq) as (p1 & -> & H1); cbn [mbind option_bind];
     destruct (executeMEM_idle r memory p1 H1) as (p2 & -> & H2); cbn [mbind option_bind];
     eexists; split; [reflexivity |];
     apply (executeIF_idle fetched pc); [exact Hf |];
     apply executeID_idle, executeEX_idle, H2).
Qed.

Lemma pipelined_step_idle (r : Z → Z) (u : Instruction.t) (s : MIPS.t) :
  MIPS.pipelineEnabled s = true →
  pipeline_ok (MIPS.pipeline s) →
  Z.of_nat (length (MIPS.memory s)) ≤ MIPS.pc s + 3 →
  0 ≤ MIPS.pc s →
  MIPS.pc s < 4194304 + Z.of_nat (length (MIPS.instructions s)) * 4 < 2 ^ 32 →
  ∃ s', MIPS.step r u s = Some s'
      ∧ MIPS.pipelineEnabled s' = true
      ∧ pipeline_ok (MIPS.pipeline s')
      ∧ MIPS.registers s' = MIPS.registers s
      ∧ MIPS.memory s' = MIPS.memory s
      ∧ MIPS.pc s' = MIPS.pc s
      ∧ MIPS.instructions s' = MIPS.instructions s
      ∧ MIPS.stepMode s' = MIPS.stepMode s.
Proof.
  intros He Hp Hl H0 Hpc. unfold MIPS.step.
  rewrite u64_small by lia.
  destruct (Z.leb_spec (4194304 + Z.of_nat (length (MIPS.instructions s)) * 4) (MIPS.pc s));
    [lia |].
  destruct (MIPS_word_beyond_memory s (MIPS.pc s) 0) as [-> _]; [lia | lia | lia |].
  cbn [mbind option_bind]. rewrite He.
  destruct (tick_idle r (Instruction.decode u 0 (MIPS.pc s)) (MIPS.pc s)
              (MIPS.registers s) (MIPS.memory s) (MIPS.pipeline s))
    as (p' & -> & Hp'); [apply decode_zero_harmless | done |].
  cbn [mbind option_bind]. eexists. split; [reflexivity |]. cbn. done.
Qed.

Lemma pipelined_steps_idle (r : Z → Z) (u : Instruction.t) (k : nat) (s : MIPS.t) :
  MIPS.pipelineEnabled s = true →
  pipeline_ok (MIPS.pipeline s) →
  Z.of_nat (length (MIPS.memory s)) ≤ MIPS.pc s + 3 →
  0 ≤ MIPS.pc s →
  MIPS.pc s < 4194304 + Z.of_nat (length (MIPS.instructions s)) * 4 < 2 ^ 32 →
  ∃ s', MIPS.steps k r u s = Some s'
      ∧ MIPS.registers s' = MIPS.registers s
      ∧ MIPS.memory s' = MIPS.memory s
      ∧ MIPS.pc s' = MIPS.pc s.
Proof.
  revert s. induction k as [| k IH]; intros s He Hp Hl H0 Hpc; [by exists s |].
  destruct (pipelined_step_idle r u s) as (s1 & E & He1 & Hp1 & Er & Em & Ep & Ei & _);
    try done.
  destruct (IH s1) as (s' & E' & Er' & Em' & Ep'); try done; try congruence.
  exists s'. cbn [MIPS.steps]. rewrite E. cbn [mbind option_bind].
  split; [exact E' |]. split_and!; congruence.
Qed.

Lemma pipelined_run_idle (r : Z → Z) (u : Instruction.t) (fuel : nat) (s : MIPS.t) :
  MIPS.pipelineEnabled s = true →
  MIPS.stepMode s = false →
  pipeline_ok (MIPS.pipeline s) →
  Z.of_nat (length (MIPS.memory s)) ≤ MIPS.pc s + 3 →
  0 ≤ MIPS.pc s →
  MIPS.pc s < 4194304 + Z.of_nat (length (MIPS.instructions s)) * 4 < 2 ^ 32 →
  MIPS.run fuel r u s = Some None.
Proof.
  revert s. induction fuel as [| fuel IH]; intros s He Hsm Hp Hl H0 Hpc; [done |].
  cbn [MIPS.run]. rewrite u64_small by lia.
  destruct (Z.ltb_spec (MIPS.pc s)
              (4194304 + Z.of_nat (length (MIPS.instructions s)) * 4)); [| lia].
  destruct (pipelined_step_idle r u s) as (s1 & -> & He1 & Hp1 & Er & Em & Ep & Ei & Es);
    try done.
  cbn [mbind option_bind]. rewrite Es, Hsm.
  apply IH; try done; congruence.
Qed.

(** X13. With the pipeline enabled, as the constructor leaves it, [MIPS::run]
    never returns from a program that is not empty: the program was loaded
    where there is no memory, every tick is given the word 0, and the
    pipelined [step] never moves [pc], so the loop condition never changes.
    Registers and memory stay as they were before the load; no tick
    leaves the vectors. *)
Theorem MIPS_pipelined_run_never_returns (r : Z → Z) (u : Instruction.t)
    (assembled : list Instruction.t) (s : MIPS.t) :
  Z.of_nat (length (MIPS.memory s)) = 1048576 →
  MIPS.pipelineEnabled s = true →
  MIPS.stepMode s = false →
  pipeline_ok (MIPS.pipeline s) →
  0 < Z.of_nat (length assembled) →
  4194304 + Z.of_nat (length assembled) * 4 < 2 ^ 32 →
  ∃ s1, MIPS.loadProgram assembled s = Some s1
      ∧ (∀ fuel, MIPS.run fuel r u s1 = Some None)
      ∧ ∀ k, ∃ s', MIPS.steps k r u s1 = Some s'
                 ∧ MIPS.registers s' = MIPS.registers s
                 ∧ MIPS.memory s' = MIPS.memory s
                 ∧ MIPS.pc s' = 4194304.
Proof.
  intros Hm He Hsm Hp Hn0 Hn. unfold MIPS.loadProgram.
  rewrite store_program_dropped by (cbn; lia). cbn [mbind option_bind].
  eexists. split; [reflexivity |]. split.
  - intros fuel. apply pipelined_run_idle; cbn; try done; lia.
  - intros k.
    edestruct (pipelined_steps_idle r u k) as (s' & E & Er & Em & Ep); cycle -1.
    { exists s'. split; [exact E |]. cbn in Er, Em, Ep. done. }
    all: cbn; try done; lia.
Qed.

(** [MIPS_pipelined_run_never_returns] for the constructed machine and the
    one-instruction program [addi $v0, $zero, 5]. *)
Lemma MIPS_pipelined_run_never_returns_witness :
  ∃ s1, MIPS.loadProgram addi_assembled constructed_MIPS = Some s1
      ∧ ∀ fuel, MIPS.run fuel zero_stage_registers zero_instruction s1 = Some None.
Proof.
  destruct (MIPS_pipelined_run_never_returns zero_stage_registers zero_instruction
              addi_assembled constructed_MIPS) as (s1 & E1 & E2 & _).
  - vm_compute; reflexivity.
  - reflexivity.
  - reflexivity.
  - apply (new_pipeline_ok zero_pipeline).
  - vm_compute; reflexivity.
  - vm_compute; reflexivity.
  - exists s1. split; [exact E1 | exact E2].
Defined.

(** ** HazardDetection.cpp and Pipeline.cpp: forwarding paths *)

Lemma first_path_app (l1 l2 : list ForwardingPath.t) (reg d : Z) :
  HazardDetection.first_path (l1 ++ l2) reg d
  = HazardDetection.first_path l1 reg (HazardDetection.first_path l2 reg d).
Proof.
  induction l1 as [| x l1 IH]; [done |]. cbn.
  by destruct (ForwardingPath.enable x && (ForwardingPath.reg x =? reg)).
Qed.

Lemma first_path_found (l : list ForwardingPath.t) (reg d d' : Z) :
  existsb (λ path, ForwardingPath.enable path && (ForwardingPath.reg path =? reg)) l = true →
  HazardDetection.first_path l reg d = HazardDetection.first_path l reg d'.
Proof.
  induction l as [| x l IH]; [done |]. cbn.
  destruct (ForwardingPath.enable x && (ForwardingPath.reg x =? reg)); [done |].
  exact IH.
Qed.

Lemma first_path_missing (l : list ForwardingPath.t) (reg d : Z) :
  existsb (λ path, ForwardingPath.enable path && (ForwardingPath.reg path =? reg)) l = false →
  HazardDetection.first_path l reg d = d.
Proof.
  induction l as [| x l IH]; [done |]. cbn.
  destruct (ForwardingPath.enable x && (ForwardingPath.reg x =? reg)); [done |].
  exact IH.
Qed.

(** X14. [setupForwarding] appends and [getForwardedValue] returns the first
    match: a path set up for a register that has none is the value
    forwarded from then on; a path set up for a register that has one is
    never seen; paths of other registers do not interfere; and after
    [clearForwarding] every register forwards its default again. *)
Theorem forwarding_first_path_wins (reg reg' sourceStage value d : Z)
    (h : HazardDetection.t) :
  (has_path reg h = false →
   HazardDetection.getForwardedValue reg d
     (HazardDetection.setupForwarding reg sourceStage value h) = value)
  ∧ (has_path reg h = true →
     HazardDetection.getForwardedValue reg d
       (HazardDetection.setupForwarding reg sourceStage value h)
     = HazardDetection.getForwardedValue reg d h)
  ∧ (reg' ≠ reg →
     HazardDetection.getForwardedValue reg' d
       (HazardDetection.setupForwarding reg sourceStage value h)
     = HazardDetection.getForwardedValue reg' d h)
  ∧ has_path reg (HazardDetection.setupForwarding reg sourceStage value h) = true
  ∧ HazardDetection.getForwardedValue reg d (HazardDetection.clearForwarding h) = d.
Proof.
  unfold has_path, HazardDetection.getForwardedValue, HazardDetection.setupForwarding.
  cbn [HazardDetection.forwardingPaths HazardDetection.clearForwarding].
  rewrite !first_path_app, existsb_app. cbn. rewrite Z.eqb_refl.
  split_and!.
  - apply first_path_missing.
  - intros Hp. by apply first_path_found.
  - intros Hne. destruct (Z.eqb_spec reg reg'); [congruence | done].
  - apply orb_true_r.
  - done.
Qed.

Lemma detectHazard_paths (c e m w : Instruction.t) (h : HazardDetection.t) :
  HazardDetection.forwardingPaths (HazardDetection.detectHazard c e m w h).2
  = HazardDetection.forwardingPaths h.
Proof.
  unfold HazardDetection.detectHazard.
  destruct (_ || _ || _); [done |]. by destruct (HazardDetection.detectControlHazard c).
Qed.

Lemma shouldStall_paths (c e m : Instruction.t) (h : HazardDetection.t) :
  HazardDetection.forwardingPaths (HazardDetection.shouldStall c e m h).2
  = HazardDetection.forwardingPaths h.
Proof.
  unfold HazardDetection.shouldStall.
  by destruct (HazardDetection.detectLoadUseHazard e c).
Qed.

Lemma executeWB_paths (registers registers' : list Z) (p p' : Pipeline.t) :
  Pipeline.executeWB registers p = Some (p', registers') →
  ∃ l, HazardDetection.forwardingPaths (Pipeline.hazardUnit p')
       = HazardDetection.forwardingPaths (Pipeline.hazardUnit p) ++ l.
Proof.
  unfold Pipeline.executeWB.
  destruct (_ && _); [| intros [= <- _]; exists []; by rewrite app_nil_r].
  destruct (negb _).
  - destruct (vec_set _ _ _); [| done]. cbn [mbind option_bind].
    intros [= <- _]. eexists. unfold HazardDetection.setupForwarding. cbn. reflexivity.
  - cbn [mbind option_bind]. intros [= <- _]. exists []. by rewrite app_nil_r.
Qed.

Lemma executeMEM_hazardUnit (r : Z → Z) (memory memory' : list Z) (p p' : Pipeline.t) :
  Pipeline.executeMEM r memory p = Some (p', memory') →
  Pipeline.hazardUnit p' = Pipeline.hazardUnit p.
Proof.
  unfold Pipeline.executeMEM.
  destruct (PipelineStage.valid _); [| by intros [= <- _]].
  cbv zeta. destruct (Instruction.isLoad _).
  - destruct (Pipeline.getMemoryWord _ _); [| done]. cbn [mbind option_bind].
    by intros [= <- _].
  - destruct (Instruction.isStore _).
    + destruct (Pipeline.setMemoryWord _ _ _); [| done]. cbn [mbind option_bind].
      by intros [= <- _].
    + cbn [mbind option_bind]. by intros [= <- _].
Qed.

Lemma front_stages_hazardUnit (r : Z → Z) (f : Instruction.t) (pc : Z)
    (registers : list Z) (p : Pipeline.t) :
  Pipeline.hazardUnit
    (Pipeline.executeIF f pc (Pipeline.executeID registers (Pipeline.executeEX r p)))
  = Pipeline.hazardUnit p.
Proof.
  unfold Pipeline.executeIF, Pipeline.executeID, Pipeline.executeEX.
  repeat (match goal with
          | |- context [if ?b then _ else _] => destruct b
          end; cbn); done.
Qed.

Lemma tick_paths (r : Z → Z) (f : Instruction.t) (pc : Z) (registers memory : list Z)
    (p p' : Pipeline.t) (registers' memory' : list Z) :
  Pipeline.tick r f pc registers memory p = Some (p', registers', memory') →
  ∃ l, HazardDetection.forwardingPaths (Pipeline.hazardUnit p')
       = HazardDetection.forwardingPaths (Pipeline.hazardUnit p) ++ l.
Proof.
  unfold Pipeline.tick.
  pose proof (detectHazard_paths f (PipelineStage.instruction (Pipeline.ID_EX p))
                (PipelineStage.instruction (Pipeline.EX_MEM p))
                (PipelineStage.instruction (Pipeline.MEM_WB p)) (Pipeline.hazardUnit p)) as Hd.
  destruct (HazardDetection.detectHazard _ _ _ _ _) as [hazard h]. cbn in Hd.
  cbv zeta.
  set (q := Pipeline.set_hazardUnit h p).
  pose proof (shouldStall_paths f (PipelineStage.instruction (Pipeline.ID_EX q))
                (PipelineStage.instruction (Pipeline.EX_MEM q)) (Pipeline.hazardUnit q)) as Hs.
  assert (Hrest : ∀ q0 : Pipeline.t,
    HazardDetection.forwardingPaths (Pipeline.hazardUnit q0)
    = HazardDetection.forwardingPaths (Pipeline.hazardUnit p) →
    ('(p0, registers0) ← Pipeline.executeWB registers q0;
     '(p1, memory0) ← Pipeline.executeMEM r memory p0;
     Some (Pipeline.set_flush false
             (Pipeline.set_stall false
                (Pipeline.executeIF f pc
                   (Pipeline.executeID registers0 (Pipeline.executeEX r p1)))),
           registers0, memory0)) = Some (p', registers', memory') →
    ∃ l, HazardDetection.forwardingPaths (Pipeline.hazardUnit p')
         = HazardDetection.forwardingPaths (Pipeline.hazardUnit p) ++ l).
  { intros q0 Hq0 H.
    destruct (Pipeline.executeWB registers q0) as [[p0 registers0] |] eqn:Ew; [| done].
    cbn [mbind option_bind] in H.
    destruct (Pipeline.executeMEM r memory p0) as [[p1 memory0] |] eqn:Em; [| done].
    cbn [mbind option_bind] in H. injection H as <- _ _.
    apply executeWB_paths in Ew as [l Hl]. apply executeMEM_hazardUnit in Em.
    exists l. cbn [Pipeline.set_flush Pipeline.set_stall Pipeline.hazardUnit].
    rewrite front_stages_hazardUnit, Em, Hl, Hq0. done. }
  destruct hazard.
  - apply Hrest. exact Hd.
  - destruct (HazardDetection.shouldStall _ _ _ _) as [[] h0]; cbn in Hs.
    + intros [= <- _ _]. exists []. rewrite app_nil_r. cbn. congruence.
    + apply Hrest. cbn. congruence.
  - apply Hrest. exact Hd.
  - apply Hrest. exact Hd.
  - destruct (HazardDetection.shouldFlush _); apply Hrest; exact Hd.
  - apply Hrest. exact Hd.
Qed.

(** X15. A forwarding path, once the hazard unit holds one for a register, is
    what that register forwards after every later tick: [tick] only ever
    appends paths (at write-back) and nothing in the pipeline clears them,
    so later values written to the register are not forwarded. *)
Theorem forwarded_value_never_updates (r : Z → Z) (f : Instruction.t) (pc : Z)
    (registers memory : list Z) (p p' : Pipeline.t) (registers' memory' : list Z)
    (reg d : Z) :
  has_path reg (Pipeline.hazardUnit p) = true →
  Pipeline.tick r f pc registers memory p = Some (p', registers', memory') →
  HazardDetection.getForwardedValue reg d (Pipeline.hazardUnit p')
  = HazardDetection.getForwardedValue reg d (Pipeline.hazardUnit p)
  ∧ has_path reg (Pipeline.hazardUnit p') = true.
Proof.
  intros Hp Ht. apply tick_paths in Ht as [l Hl].
  unfold HazardDetection.getForwardedValue, has_path in *. rewrite Hl.
  rewrite first_path_app, existsb_app, Hp. split; [| done].
  by apply first_path_found.
Qed.

(** [forwarded_value_never_updates] for a tick of [forwarding_pipeline]. *)
Lemma forwarded_value_never_updates_witness :
  ∃ p' registers' memory',
    Pipeline.tick zero_stage_registers zero_instruction 0 zero_registers []
      forwarding_pipeline = Some (p', registers', memory')
    ∧ HazardDetection.getForwardedValue 2 0 (Pipeline.hazardUnit p')
      = HazardDetection.getForwardedValue 2 0 (Pipeline.hazardUnit forwarding_pipeline).
Proof.
  destruct (Pipeline.tick zero_stage_registers zero_instruction 0 zero_registers []
              forwarding_pipeline) as [[[p' registers'] memory'] |] eqn:E;
    [| vm_compute in E; discriminate].
  exists p', registers', memory'. split; [reflexivity |].
  apply (forwarded_value_never_updates zero_stage_registers zero_instruction 0
           zero_registers [] forwarding_pipeline p' registers' memory' 2 0);
    [reflexivity | exact E].
Defined.

(** ** MIPS.cpp: words and bytes *)

Lemma byte_of_word (v k : Z) :
  0 ≤ k → Z.land (Z.shiftr v k) 255 = (v / 2 ^ k) mod 256.
Proof.
  intros Hk. rewrite Z.shiftr_div_pow2 by done.
  change 255 with (Z.ones 8). by rewrite Z.land_ones by lia.
Qed.

Lemma word_of_four (b0 b1 b2 b3 : Z) :
  0 ≤ b0 < 256 → 0 ≤ b1 < 256 → 0 ≤ b2 < 256 → 0 ≤ b3 < 256 →
  Z.lor (Z.lor (Z.lor (Z.shiftl b0 24) (Z.shiftl b1 16)) (Z.shiftl b2 8)) b3
  = b0 * 2 ^ 24 + b1 * 2 ^ 16 + b2 * 2 ^ 8 + b3.
Proof.
  intros H0 H1 H2 H3.
  set (w := b0 * 2 ^ 24 + b1 * 2 ^ 16 + b2 * 2 ^ 8 + b3).
  assert (Hw : 0 ≤ w < 2 ^ 32) by (unfold w; lia).
  rewrite <- (word_of_bytes w Hw) at 1.
  rewrite !byte_of_word by lia.
  change (Z.land w 255) with (Z.land w (Z.ones 8)). rewrite Z.land_ones by lia.
  assert (E0 : (w / 2 ^ 24) mod 256 = b0).
  { unfold w. replace (b0 * 2 ^ 24 + b1 * 2 ^ 16 + b2 * 2 ^ 8 + b3)
      with (b0 * 2 ^ 24 + (b1 * 2 ^ 16 + b2 * 2 ^ 8 + b3)) by lia.
    rewrite Z.div_add_l by lia. rewrite (Z.div_small (_ + _ + _)) by lia.
    rewrite Z.add_0_r. apply Z.mod_small. lia. }
  assert (E1 : (w / 2 ^ 16) mod 256 = b1).
  { unfold w. replace (b0 * 2 ^ 24 + b1 * 2 ^ 16 + b2 * 2 ^ 8 + b3)
      with ((b0 * 256 + b1) * 2 ^ 16 + (b2 * 2 ^ 8 + b3)) by lia.
    rewrite Z.div_add_l by lia. rewrite (Z.div_small (_ + _)) by lia.
    rewrite Z.add_0_r, Z.add_comm, Z.mod_add by lia. apply Z.mod_small. lia. }
  assert (E2 : (w / 2 ^ 8) mod 256 = b2).
  { unfold w. replace (b0 * 2 ^ 24 + b1 * 2 ^ 16 + b2 * 2 ^ 8 + b3)
      with (((b0 * 256 + b1) * 256 + b2) * 2 ^ 8 + b3) by lia.
    rewrite Z.div_add_l by lia. rewrite (Z.div_small b3) by lia.
    rewrite Z.add_0_r, Z.add_comm, Z.mod_add by lia. apply Z.mod_small. lia. }
  assert (E3 : w mod 2 ^ 8 = b3).
  { unfold w. replace (b0 * 2 ^ 24 + b1 * 2 ^ 16 + b2 * 2 ^ 8 + b3)
      with (b3 + (b0 * 2 ^ 16 + b1 * 2 ^ 8 + b2) * 2 ^ 8) by lia.
    rewrite Z.mod_add by lia. apply Z.mod_small. lia. }
  by rewrite E0, E1, E2, E3.
Qed.

Lemma setMemoryByte_in_range (s : MIPS.t) (a b : Z) :
  0 ≤ a < Z.of_nat (length (MIPS.memory s)) →
  MIPS.setMemoryByte s a b
  = Some (MIPS.set_memory (<[Z.to_nat a := b]> (MIPS.memory s)) s).
Proof.
  intros Ha. unfold MIPS.setMemoryByte.
  destruct (Z.ltb_spec a (Z.of_nat (length (MIPS.memory s)))); [| lia].
  by rewrite vec_set_in_range by lia.
Qed.

(** X17. In range, the word and byte accessors of [MIPS] agree on a big-endian
    layout, both ways: a word written with [setMemoryWord] is read back by
    [getMemoryWord] and, byte by byte from the most significant, by
    [getMemoryByte]; four bytes written with [setMemoryByte] are read by
    [getMemoryWord] as the word they spell. *)
Theorem MIPS_words_and_bytes (s : MIPS.t) (a v b0 b1 b2 b3 : Z) :
  0 ≤ a → a + 3 < Z.of_nat (length (MIPS.memory s)) →
  Z.of_nat (length (MIPS.memory s)) ≤ 2 ^ 32 →
  0 ≤ v < 2 ^ 32 →
  0 ≤ b0 < 256 → 0 ≤ b1 < 256 → 0 ≤ b2 < 256 → 0 ≤ b3 < 256 →
  (∃ s', MIPS.setMemoryWord s a v = Some s'
       ∧ MIPS.getMemoryWord s' a = Some v
       ∧ MIPS.getMemoryByte s' a = Some (v / 2 ^ 24)
       ∧ MIPS.getMemoryByte s' (a + 1) = Some (v / 2 ^ 16 mod 256)
       ∧ MIPS.getMemoryByte s' (a + 2) = Some (v / 2 ^ 8 mod 256)
       ∧ MIPS.getMemoryByte s' (a + 3) = Some (v mod 256))
  ∧ (∃ s1 s2 s3 s4,
       MIPS.setMemoryByte s a b0 = Some s1
       ∧ MIPS.setMemoryByte s1 (a + 1) b1 = Some s2
       ∧ MIPS.setMemoryByte s2 (a + 2) b2 = Some s3
       ∧ MIPS.setMemoryByte s3 (a + 3) b3 = Some s4
       ∧ MIPS.getMemoryWord s4 a
         = Some (b0 * 2 ^ 24 + b1 * 2 ^ 16 + b2 * 2 ^ 8 + b3)).
Proof.
  intros Ha Hlen H32 Hv H0 H1 H2 H3. split.
  - pose proof (stored_bytes (MIPS.memory s) a
                  (Z.land (Z.shiftr v 24) 255) (Z.land (Z.shiftr v 16) 255)
                  (Z.land (Z.shiftr v 8) 255) (Z.land v 255) Ha Hlen) as Hb.
    cbv zeta in Hb. destruct Hb as (B0 & B1 & B2 & B3).
    unfold MIPS.setMemoryWord. rewrite u32_small by lia.
    destruct (Z.ltb_spec (a + 3) (Z.of_nat (length (MIPS.memory s)))); [| lia].
    rewrite store_word_in_range by done. cbn [mbind option_bind].
    eexists. split; [reflexivity |].
    unfold MIPS.getMemoryWord, MIPS.getMemoryByte.
    cbn [MIPS.memory MIPS.set_memory]. rewrite !length_insert.
    rewrite u32_small by lia.
    destruct (Z.ltb_spec (a + 3) (Z.of_nat (length (MIPS.memory s)))); [| lia].
    destruct (Z.ltb_spec a (Z.of_nat (length (MIPS.memory s)))); [| lia].
    destruct (Z.ltb_spec (a + 1) (Z.of_nat (length (MIPS.memory s)))); [| lia].
    destruct (Z.ltb_spec (a + 2) (Z.of_nat (length (MIPS.memory s)))); [| lia].
    split.
    { erewrite word_at_bytes by (try eassumption; lia).
      rewrite word_of_bytes by done. by rewrite u32_small. }
    rewrite (vec_get_lookup _ a _ Ha B0).
    rewrite (vec_get_lookup _ (a + 1) _ ltac:(lia) B1).
    rewrite (vec_get_lookup _ (a + 2) _ ltac:(lia) B2).
    rewrite (vec_get_lookup _ (a + 3) _ ltac:(lia) B3).
    rewrite !byte_of_word by lia.
    change (Z.land v 255) with (Z.land v (Z.ones 8)). rewrite Z.land_ones by lia.
    rewrite (Z.mod_small (v / 2 ^ 24)).
    2:{ split; [apply Z.div_pos; lia |]. apply Z.div_lt_upper_bound; lia. }
    done.
  - pose proof (stored_bytes (MIPS.memory s) a b0 b1 b2 b3 Ha Hlen) as Hb.
    cbv zeta in Hb. destruct Hb as (B0 & B1 & B2 & B3).
    eexists _, _, _, _.
    split; [by apply setMemoryByte_in_range; lia |].
    split; [by apply setMemoryByte_in_range;
              cbn [MIPS.memory MIPS.set_memory]; rewrite ?length_insert; lia |].
    split; [by apply setMemoryByte_in_range;
              cbn [MIPS.memory MIPS.set_memory]; rewrite ?length_insert; lia |].
    split; [by apply setMemoryByte_in_range;
              cbn [MIPS.memory MIPS.set_memory]; rewrite ?length_insert; lia |].
    unfold MIPS.getMemoryWord. cbn [MIPS.memory MIPS.set_memory].
    rewrite !length_insert, u32_small by lia.
    destruct (Z.ltb_spec (a + 3) (Z.of_nat (length (MIPS.memory s)))); [| lia].
    erewrite word_at_bytes by (try eassumption; lia).
    rewrite word_of_four by done. rewrite u32_small by lia. done.
Qed.

(** [MIPS_words_and_bytes] at address 0x100 of [single_cycle_MIPS], with
    the word 0x11223344 and the bytes 0x11, 0x22, 0x33, 0x44. *)
Lemma MIPS_words_and_bytes_witness :
  ∃ s', MIPS.setMemoryWord single_cycle_MIPS 256 287454020 = Some s'
      ∧ MIPS.getMemoryByte s' 256 = Some (287454020 / 2 ^ 24)
      ∧ MIPS.getMemoryByte s' 259 = Some (287454020 mod 256).
Proof.
  destruct (MIPS_words_and_bytes single_cycle_MIPS 256 287454020 17 34 51 68)
    as [(s' & E & _ & G0 & _ & _ & G3) _];
    [lia | vm_compute; reflexivity | vm_compute; discriminate | lia | lia | lia | lia | lia |].
  exists s'. split; [exact E |]. split; [exact G0 | exact G3].
Defined.

(** ** pipeline.cpp: the class of pipeline registers *)

Lemma any_stage_clear : RegisterPipeline.any_stage (replicate 5 false) = Some false.
Proof. reflexivity. Qed.

Lemma advance_clear (p : RegisterPipeline.t) :
  flags_clear p →
  RegisterPipeline.advance p
  = Some (RegisterPipeline.set_registers
            (RegisterPipeline.advance_registers (RegisterPipeline.registers p)) p).
Proof.
  intros [Hs Hf]. unfold RegisterPipeline.advance.
  by rewrite Hs, Hf, any_stage_clear.
Qed.

Lemma new_flags_clear (u : PipelineRegister.t) : flags_clear (RegisterPipeline.new u).
Proof. by split. Qed.

Lemma pipeline_call_flags_clear (c : PipelineCall) (p : RegisterPipeline.t) :
  flags_clear p →
  ∃ p', pipeline_call c p = Some p' ∧ flags_clear p'.
Proof.
  intros Hp. pose proof Hp as [Hs Hf]. destruct c; cbn [pipeline_call].
  - eexists. split; [done |]. unfold flags_clear, RegisterPipeline.reset.
    cbn [RegisterPipeline.stall_stages RegisterPipeline.flush_stages].
    by rewrite Hs, Hf.
  - rewrite advance_clear by done. eexists. split; [done |]. by split.
  - eexists. split; [done |]. unfold flags_clear, RegisterPipeline.insertStall.
    cbn [RegisterPipeline.stall_stages RegisterPipeline.flush_stages].
    by rewrite Hs, Hf.
  - eexists. split; [done |]. unfold flags_clear, RegisterPipeline.flush.
    cbn [RegisterPipeline.stall_stages RegisterPipeline.flush_stages].
    by rewrite Hs, Hf.
  - eexists. split; [done |]. by split.
Qed.

Lemma pipeline_calls_flags_clear (cs : list PipelineCall) (p : RegisterPipeline.t) :
  flags_clear p →
  ∃ p', pipeline_calls cs p = Some p' ∧ flags_clear p'.
Proof.
  revert p. induction cs as [| c cs IH]; intros p Hp; cbn [pipeline_calls].
  - by exists p.
  - destruct (pipeline_call_flags_clear c p Hp) as (p1 & -> & H1).
    cbn [mbind option_bind]. by apply IH.
Qed.

(** X18. No method raises a stall or a flush flag: whatever a client does with
    a constructed pipeline (the public methods and assignments to its
    registers, in any order), every call is defined, both vectors keep
    five [false] entries, and [advance] therefore never flushes and never
    inserts a stall but moves every stage one step on. *)
Theorem pipeline_flags_are_never_raised (u : PipelineRegister.t) (cs : list PipelineCall) :
  ∃ p, pipeline_calls cs (RegisterPipeline.new u) = Some p
     ∧ RegisterPipeline.stall_stages p = replicate 5 false
     ∧ RegisterPipeline.flush_stages p = replicate 5 false
     ∧ RegisterPipeline.advance p
       = Some (RegisterPipeline.set_registers
                 (RegisterPipeline.advance_registers (RegisterPipeline.registers p)) p).
Proof.
  destruct (pipeline_calls_flags_clear cs _ (new_flags_clear u)) as (p & E & Hp).
  exists p. split; [exact E |]. pose proof Hp as [Hs Hf].
  split; [exact Hs |]. split; [exact Hf |]. by apply advance_clear.
Qed.

(** X19. An instruction word fetched into IF/ID of a pipeline with no flag up
    is, three [advance] calls later, alone in the pipeline and in MEM/WB:
    the three earlier registers are invalid, MEM/WB is valid and names
    the destination ([rd] for opcode 0, [rt] otherwise), writes a
    register for the R-type words other than [jr], for [addi] and for
    [lw], and takes its value from memory for [lw] only.  No stage
    computes anything: the ALU result and the memory data are 0. *)
Theorem fetched_word_reaches_write_back (p : RegisterPipeline.t) (pc w : Z) :
  flags_clear p →
  ∃ p3,
    (p1 ← RegisterPipeline.advance (fetch pc w p);
     p2 ← RegisterPipeline.advance p1; RegisterPipeline.advance p2) = Some p3
    ∧ let r := RegisterPipeline.getRegisters p3 in
      PipelineRegister.if_id_valid r = false
      ∧ PipelineRegister.id_ex_valid r = false
      ∧ PipelineRegister.ex_mem_valid r = false
      ∧ PipelineRegister.mem_wb_valid r = true
      ∧ PipelineRegister.mem_wb_rd r = word_destination w
      ∧ PipelineRegister.mem_wb_reg_write r = word_writes w
      ∧ PipelineRegister.mem_wb_mem_to_reg r = (word_opcode w =? Opcodes.OPCODE_LW)
      ∧ PipelineRegister.mem_wb_alu_result r = 0
      ∧ PipelineRegister.mem_wb_mem_data r = 0.
Proof.
  intros Hp.
  assert (H0 : flags_clear (fetch pc w p)) by (destruct Hp; by split).
  rewrite (advance_clear _ H0). cbn [mbind option_bind].
  rewrite advance_clear by (destruct Hp; by split). cbn [mbind option_bind].
  rewrite advance_clear by (destruct Hp; by split).
  eexists. split; [reflexivity |]. cbv zeta.
  repeat split; reflexivity.
Qed.

(** [fetched_word_reaches_write_back] for [lw $t0, 0($zero)] on a new
    pipeline: MEM/WB names register 8 and reads from memory. *)
Lemma fetched_word_reaches_write_back_witness :
  ∃ p3,
    (p1 ← RegisterPipeline.advance (fetch 0 2349334528 (RegisterPipeline.new zero_latches));
     p2 ← RegisterPipeline.advance p1; RegisterPipeline.advance p2) = Some p3
    ∧ PipelineRegister.mem_wb_rd (RegisterPipeline.getRegisters p3) = 8
    ∧ PipelineRegister.mem_wb_mem_to_reg (RegisterPipeline.getRegisters p3) = true.
Proof.
  destruct (fetched_word_reaches_write_back (RegisterPipeline.new zero_latches) 0 2349334528)
    as (p3 & E & _ & _ & _ & _ & Hd & _ & Hm & _); [by split |].
  exists p3. split; [exact E |]. split; [exact Hd | exact Hm].
Defined.

(** X20. Two words fetched one behind the other, each followed by an
    [advance], on a pipeline with no flag up: [detectDataHazard] answers
    whether the first word writes a register other than 0 that the bits
    of the [rs] or of the [rt] field of the second name, whatever the
    format of the second word; [detectControlHazard] answers whether the
    second word is [beq], [bne], [j] or [jal]. *)
Theorem hazards_of_consecutive_words (p : RegisterPipeline.t) (pc1 w1 pc2 w2 : Z) :
  flags_clear p →
  ∃ p1 p2,
    RegisterPipeline.advance (fetch pc1 w1 p) = Some p1
    ∧ RegisterPipeline.advance (fetch pc2 w2 p1) = Some p2
    ∧ RegisterPipeline.detectDataHazard p2
      = word_writes w1 && negb (word_destination w1 =? 0)
        && ((word_destination w1 =? word_rs w2) || (word_destination w1 =? word_rt w2))
    ∧ RegisterPipeline.detectControlHazard p2
      = (word_opcode w2 =? Opcodes.OPCODE_BEQ) || (word_opcode w2 =? Opcodes.OPCODE_BNE)
        || (word_opcode w2 =? Opcodes.OPCODE_J) || (word_opcode w2 =? Opcodes.OPCODE_JAL).
Proof.
  intros Hp.
  assert (H0 : flags_clear (fetch pc1 w1 p)) by (destruct Hp; by split).
  rewrite (advance_clear _ H0). eexists _, _. split; [reflexivity |].
  rewrite advance_clear by (destruct Hp; by split). split; [reflexivity |].
  unfold RegisterPipeline.detectDataHazard, RegisterPipeline.detectControlHazard.
  cbn -[Z.land Z.shiftr Z.eqb].
  fold (word_opcode w1) (word_opcode w2) (word_rs w2) (word_rt w2) (word_rd w1)
       (word_rt w1) (word_funct w1).
  fold (word_destination w1). fold (word_writes w1).
  split.
  - destruct (word_writes w1) eqn:Ew; cbn [andb orb negb].
    + destruct (word_destination w1 =? 0); cbn [andb orb negb].
      * unfold word_writes in Ew. by destruct (_ =? Opcodes.OPCODE_LW).
      * destruct ((word_destination w1 =? word_rs w2) || (word_destination w1 =? word_rt w2));
          [done |]. by destruct (_ =? Opcodes.OPCODE_LW).
    + unfold word_writes in Ew.
      destruct (word_opcode w1 =? Opcodes.OPCODE_LW); [| done].
      by rewrite orb_true_r in Ew.
  - by rewrite orb_assoc.
Qed.

(** [hazards_of_consecutive_words] for [lw $t0, 0($zero)] followed by
    [add $t1, $t0, $t0] on a new pipeline: a data hazard. *)
Lemma hazards_of_consecutive_words_witness :
  ∃ p1 p2,
    RegisterPipeline.advance (fetch 0 2349334528 (RegisterPipeline.new zero_latches)) = Some p1
    ∧ RegisterPipeline.advance (fetch 4 17319968 p1) = Some p2
    ∧ RegisterPipeline.detectDataHazard p2 = true.
Proof.
  destruct (hazards_of_consecutive_words (RegisterPipeline.new zero_latches)
              0 2349334528 4 17319968) as (p1 & p2 & E1 & E2 & Hd & _); [by split |].
  exists p1, p2. split; [exact E1 |]. split; [exact E2 | exact Hd].
Defined.

(** ** MIPSSimulator: call and return *)

Lemma execute_jal (w : Z) (s : MIPSSimulator.t) :
  word_opcode w = Opcodes.OPCODE_JAL →
  length (MIPSSimulator.registers s) = 32%nat →
  MIPSSimulator.executeInstruction (MIPSSimulator.decodeInstruction w) s
  = Some (true,
          MIPSSimulator.set_pc
            (Z.lor (Z.land (MIPSSimulator.pc s) 4026531840)
                   (u32 (Z.shiftl (Z.land w 67108863) 2)))
            (MIPSSimulator.set_registers
               (<[31%nat := u32 (MIPSSimulator.pc s + 8)]> (MIPSSimulator.registers s)) s)).
Proof.
  intros Hop Hlen.
  unfold MIPSSimulator.executeInstruction, MIPSSimulator.decodeInstruction.
  cbn [MIPSSimulator.Instruction.type MIPSSimulator.Instruction.opcode
       MIPSSimulator.Instruction.jump_addr].
  fold (word_opcode w). rewrite Hop.
  change (Opcodes.OPCODE_JAL =? 0) with false.
  change ((Opcodes.OPCODE_JAL =? 2) || (Opcodes.OPCODE_JAL =? 3)) with true.
  change (Opcodes.OPCODE_JAL =? Opcodes.OPCODE_J) with false.
  change (Opcodes.OPCODE_JAL =? Opcodes.OPCODE_JAL) with true.
  cbv iota.
  change (String.eqb "J" "R") with false. change (String.eqb "J" "I") with false.
  change (String.eqb "J" "J") with true. cbv iota.
  rewrite vec_set_in_range by lia. reflexivity.
Qed.

Lemma execute_jr_ra (s : MIPSSimulator.t) (a : Z) :
  MIPSSimulator.registers s !! 31%nat = Some a →
  MIPSSimulator.executeInstruction (MIPSSimulator.decodeInstruction 65011720) s
  = Some (true, MIPSSimulator.set_pc a s).
Proof.
  intros Ha.
  unfold MIPSSimulator.executeInstruction.
  change (MIPSSimulator.decodeInstruction 65011720)
    with (MIPSSimulator.Instruction.mk 65011720 0 31 0 0 8 65011720 8 0 "R").
  cbn [MIPSSimulator.Instruction.type MIPSSimulator.Instruction.funct
       MIPSSimulator.Instruction.rs].
  change (String.eqb "R" "R") with true. cbv iota.
  change (8 =? Opcodes.FUNCT_ADD) with false. change (8 =? Opcodes.FUNCT_SUB) with false.
  change (8 =? Opcodes.FUNCT_AND) with false. change (8 =? Opcodes.FUNCT_OR) with false.
  change (8 =? Opcodes.FUNCT_SLT) with false. change (8 =? Opcodes.FUNCT_JR) with true.
  cbv iota.
  rewrite (vec_get_lookup _ 31 a) by (lia || exact Ha). reflexivity.
Qed.

(** X21. [jal] leaves [pc + 8] in register 31 and nothing executes a delay
    slot, so a call that returns with [jr $ra] skips the word behind the
    [jal]: with a [jal] at [pc] and [jr $ra] at its target, two steps of
    the direct path lead to [pc + 8] and leave the memory as it was. *)
Theorem jal_then_jr_skips_a_word (s : MIPSSimulator.t) (w : Z) :
  MIPSSimulator.halted s = false →
  MIPSSimulator.pipeline_enabled s = false →
  length (MIPSSimulator.registers s) = 32%nat →
  MIPSSimulator.isValidAddress s (MIPSSimulator.pc s) = true →
  word_at (MIPSSimulator.memory s) (MIPSSimulator.pc s) = Some w →
  word_opcode w = Opcodes.OPCODE_JAL →
  let target := Z.lor (Z.land (MIPSSimulator.pc s) 4026531840)
                      (u32 (Z.shiftl (Z.land w 67108863) 2)) in
  MIPSSimulator.isValidAddress s target = true →
  word_at (MIPSSimulator.memory s) target = Some 65011720 →
  ∃ s1 s2,
    MIPSSimulator.step s = Some (true, s1)
    ∧ MIPSSimulator.pc s1 = target
    ∧ MIPSSimulator.step s1 = Some (true, s2)
    ∧ MIPSSimulator.pc s2 = u32 (MIPSSimulator.pc s + 8)
    ∧ MIPSSimulator.memory s2 = MIPSSimulator.memory s.
Proof.
  intros Hh Hp Hlen Hv Hw Hop target Hvt Hwt.
  eexists _, _. split.
  { unfold MIPSSimulator.step. rewrite Hh, Hp, Hv. cbn [negb]. rewrite Hw.
    cbn [mbind option_bind]. rewrite execute_jal by done.
    cbn [mbind option_bind negb MIPSSimulator.registers MIPSSimulator.set_pc
         MIPSSimulator.set_registers].
    rewrite vec_set_in_range by (rewrite length_insert; lia).
    cbn [mbind option_bind MIPSSimulator.halted MIPSSimulator.set_registers MIPSSimulator.set_pc].
    rewrite Hh. reflexivity. }
  split; [reflexivity |]. split.
  { unfold MIPSSimulator.step.
    cbn [MIPSSimulator.halted MIPSSimulator.pipeline_enabled MIPSSimulator.pc
         MIPSSimulator.memory MIPSSimulator.set_registers MIPSSimulator.set_pc].
    rewrite Hh, Hp.
    change (MIPSSimulator.isValidAddress _ ?a) with (MIPSSimulator.isValidAddress s a).
    fold target. rewrite Hvt. cbn [negb]. rewrite Hwt. cbn [mbind option_bind].
    erewrite execute_jr_ra.
    2:{ cbn [MIPSSimulator.registers MIPSSimulator.set_registers MIPSSimulator.set_pc].
        change (Z.to_nat 0) with 0%nat.
        rewrite list_lookup_insert_ne by lia. apply list_lookup_insert_eq. lia. }
    cbn [mbind option_bind negb MIPSSimulator.registers MIPSSimulator.set_pc
         MIPSSimulator.set_registers].
    rewrite vec_set_in_range by (rewrite !length_insert; lia).
    cbn [mbind option_bind MIPSSimulator.halted MIPSSimulator.set_registers MIPSSimulator.set_pc].
    rewrite Hh. reflexivity. }
  split; reflexivity.
Qed.

(** [jal_then_jr_skips_a_word] on [jal_image]: the two steps end at
    address 8, the word at address 4 never executed. *)
Lemma jal_then_jr_skips_a_word_witness :
  ∃ s1 s2,
    MIPSSimulator.step jal_loaded = Some (true, s1)
    ∧ MIPSSimulator.pc s1 = 12
    ∧ MIPSSimulator.step s1 = Some (true, s2)
    ∧ MIPSSimulator.pc s2 = 8.
Proof.
  destruct (jal_then_jr_skips_a_word jal_loaded 201326595)
    as (s1 & s2 & E1 & P1 & E2 & P2 & _);
    [vm_compute; reflexivity | vm_compute; reflexivity | vm_compute; reflexivity
    | vm_compute; reflexivity | vm_compute; reflexivity | vm_compute; reflexivity
    | vm_compute; reflexivity | vm_compute; reflexivity |].
  exists s1, s2. split; [exact E1 |]. split; [rewrite P1; vm_compute; reflexivity |].
  split; [exact E2 |]. rewrite P2. vm_compute. reflexivity.
Defined.

(** ** The predictors: [reset] against the constructors *)

Lemma fmap_const_length {A B} (c : B) (l l' : list A) :
  length l' = length l → (λ _, c) <$> l' = (λ _, c) <$> l.
Proof.
  revert l'. induction l as [| x l IH]; intros [| y l'] Hl; try done.
  cbn. f_equal. apply IH. by injection Hl.
Qed.

Lemma fmap_const_replicate {B} (c d : B) (n : nat) :
  (λ _, c) <$> replicate n d = replicate n c.
Proof. induction n as [| n IH]; [done |]. cbn. by f_equal. Qed.

Lemma fmap_const_twice {A B} (c : B) (d : A) (l : list A) :
  (λ _, c) <$> ((λ _, d) <$> l) = (λ _, c) <$> l.
Proof. apply fmap_const_length, length_fmap. Qed.

Section Reset.
Context {D : Type} `{Double D}.

(** *** Bimodal *)

Lemma bimodal_reset_set_table (l : list Z) (p : BimodalPredictor.t D) :
  length l = length (BimodalPredictor.table p) →
  BimodalPredictor.reset (BimodalPredictor.set_table l p) = BimodalPredictor.reset p.
Proof.
  intros Hl. unfold BimodalPredictor.reset.
  cbn [BimodalPredictor.table BimodalPredictor.twoBit BimodalPredictor.set_table
       BimodalPredictor.set_stats].
  by rewrite (fmap_const_length _ _ _ Hl).
Qed.

Lemma bimodal_predict_same (pc target : Z) (p p' : BimodalPredictor.t D) (r : bool) :
  BimodalPredictor.predict pc target p = Some (r, p') → p' = p.
Proof.
  unfold BimodalPredictor.predict.
  destruct (vec_get _ _); cbn [mbind option_bind]; [| discriminate].
  destruct (BimodalPredictor.twoBit p); intros Hp; apply (inj Some) in Hp;
    by injection Hp.
Qed.

Lemma bimodal_reset_update (pc : Z) (taken : bool) (target : Z) (p p' : BimodalPredictor.t D) :
  BimodalPredictor.update pc taken target p = Some p' →
  BimodalPredictor.reset p' = BimodalPredictor.reset p.
Proof.
  unfold BimodalPredictor.update. cbv zeta.
  destruct (BimodalPredictor.predict _ _ _) as [[r q] |] eqn:Ep;
    cbn [mbind option_bind]; [| discriminate].
  apply bimodal_predict_same in Ep. subst q.
  cbn [BimodalPredictor.table BimodalPredictor.twoBit BimodalPredictor.set_stats].
  destruct (BimodalPredictor.twoBit p).
  - destruct (vec_get _ _); cbn [mbind option_bind]; [| discriminate].
    destruct (vec_set _ _ _) as [l |] eqn:El; cbn [mbind option_bind]; [| discriminate].
    apply vec_set_length in El. intros Hu. apply (inj Some) in Hu. subst p'.
    by rewrite bimodal_reset_set_table.
  - destruct (vec_set _ _ _) as [l |] eqn:El; cbn [mbind option_bind]; [| discriminate].
    apply vec_set_length in El. intros Hu. apply (inj Some) in Hu. subst p'.
    by rewrite bimodal_reset_set_table.
Qed.

Lemma bimodal_reset_twice (p : BimodalPredictor.t D) :
  BimodalPredictor.reset (BimodalPredictor.reset p) = BimodalPredictor.reset p.
Proof.
  unfold BimodalPredictor.reset.
  cbn [BimodalPredictor.table BimodalPredictor.twoBit BimodalPredictor.set_table
       BimodalPredictor.set_stats].
  by rewrite fmap_const_twice.
Qed.

Lemma bimodal_reset_new (ty : PredictorType.t) (bits : Z) :
  BimodalPredictor.reset (BimodalPredictor.new (D := D) ty bits) = BimodalPredictor.new ty bits.
Proof.
  unfold BimodalPredictor.reset, BimodalPredictor.new. cbv zeta.
  cbn [BimodalPredictor.table BimodalPredictor.twoBit BimodalPredictor.set_table
       BimodalPredictor.set_stats BimodalPredictor.type BimodalPredictor.stats
       BimodalPredictor.indexBits BimodalPredictor.tableSize].
  by rewrite fmap_const_replicate.
Qed.

(** *** Gshare *)

Lemma gshare_reset_set_table (l : list Z) (p : GsharePredictor.t D) :
  length l = length (GsharePredictor.table p) →
  GsharePredictor.reset (GsharePredictor.set_table l p) = GsharePredictor.reset p.
Proof.
  intros Hl. unfold GsharePredictor.reset.
  cbn [GsharePredictor.table GsharePredictor.set_table GsharePredictor.set_stats
       GsharePredictor.set_globalHistory].
  by rewrite (fmap_const_length _ _ _ Hl).
Qed.

Lemma gshare_predict_same (pc target : Z) (p p' : GsharePredictor.t D) (r : bool) :
  GsharePredictor.predict pc target p = Some (r, p') → p' = p.
Proof.
  unfold GsharePredictor.predict.
  destruct (vec_get _ _); cbn [mbind option_bind]; [| discriminate].
  intros Hp; apply (inj Some) in Hp; by injection Hp.
Qed.

Lemma gshare_reset_update (pc : Z) (taken : bool) (target : Z) (p p' : GsharePredictor.t D) :
  GsharePredictor.update pc taken target p = Some p' →
  GsharePredictor.reset p' = GsharePredictor.reset p.
Proof.
  unfold GsharePredictor.update. cbv zeta.
  destruct (GsharePredictor.predict _ _ _) as [[r q] |] eqn:Ep;
    cbn [mbind option_bind]; [| discriminate].
  apply gshare_predict_same in Ep. subst q.
  cbn [GsharePredictor.table GsharePredictor.set_stats].
  destruct (vec_get _ _); cbn [mbind option_bind]; [| discriminate].
  destruct (vec_set _ _ _) as [l |] eqn:El; cbn [mbind option_bind]; [| discriminate].
  apply vec_set_length in El. intros Hu. apply (inj Some) in Hu. subst p'.
  transitivity (GsharePredictor.reset
                  (GsharePredictor.set_table l
                     (GsharePredictor.set_stats
                        (BranchStats.store_accuracy
                           (BranchStats.count_outcome r taken
                              (BranchStats.count_branch (GsharePredictor.stats p)))) p)));
    [reflexivity |].
  by rewrite gshare_reset_set_table.
Qed.

Lemma gshare_reset_twice (p : GsharePredictor.t D) :
  GsharePredictor.reset (GsharePredictor.reset p) = GsharePredictor.reset p.
Proof.
  unfold GsharePredictor.reset.
  cbn [GsharePredictor.table GsharePredictor.set_table GsharePredictor.set_stats
       GsharePredictor.set_globalHistory].
  by rewrite fmap_const_twice.
Qed.

Lemma gshare_reset_new (histBits idxBits : Z) :
  GsharePredictor.reset (GsharePredictor.new (D := D) histBits idxBits)
  = GsharePredictor.new histBits idxBits.
Proof.
  unfold GsharePredictor.reset, GsharePredictor.new. cbv zeta.
  cbn [GsharePredictor.table GsharePredictor.set_table GsharePredictor.set_stats
       GsharePredictor.set_globalHistory GsharePredictor.type GsharePredictor.stats
       GsharePredictor.globalHistory GsharePredictor.historyBits
       GsharePredictor.indexBits GsharePredictor.tableSize].
  by rewrite fmap_const_replicate.
Qed.

(** *** Local history *)

Lemma local_reset_set_tables (l l' : list Z) (p : LocalHistoryPredictor.t D) :
  length l = length (LocalHistoryPredictor.localHistoryTable p) →
  length l' = length (LocalHistoryPredictor.patternHistoryTable p) →
  LocalHistoryPredictor.reset
    (LocalHistoryPredictor.set_localHistoryTable l
       (LocalHistoryPredictor.set_patternHistoryTable l' p))
  = LocalHistoryPredictor.reset p.
Proof.
  intros Hl Hl'. unfold LocalHistoryPredictor.reset.
  cbn [LocalHistoryPredictor.localHistoryTable LocalHistoryPredictor.patternHistoryTable
       LocalHistoryPredictor.set_localHistoryTable
       LocalHistoryPredictor.set_patternHistoryTable LocalHistoryPredictor.set_stats].
  by rewrite (fmap_const_length _ _ _ Hl), (fmap_const_length _ _ _ Hl').
Qed.

Lemma local_predict_same (pc target : Z) (p p' : LocalHistoryPredictor.t D) (r : bool) :
  LocalHistoryPredictor.predict pc target p = Some (r, p') → p' = p.
Proof.
  unfold LocalHistoryPredictor.predict.
  destruct (vec_get _ _); cbn [mbind option_bind]; [| discriminate].
  destruct (vec_get _ _); cbn [mbind option_bind]; [| discriminate].
  intros Hp; apply (inj Some) in Hp; by injection Hp.
Qed.

Lemma local_reset_update (pc : Z) (taken : bool) (target : Z)
    (p p' : LocalHistoryPredictor.t D) :
  LocalHistoryPredictor.update pc taken target p = Some p' →
  LocalHistoryPredictor.reset p' = LocalHistoryPredictor.reset p.
Proof.
  unfold LocalHistoryPredictor.update. cbv zeta.
  destruct (vec_get _ _) as [h |]; cbn [mbind option_bind]; [| discriminate].
  destruct (LocalHistoryPredictor.predict _ _ _) as [[r q] |] eqn:Ep;
    cbn [mbind option_bind]; [| discriminate].
  apply local_predict_same in Ep. subst q.
  cbn [LocalHistoryPredictor.localHistoryTable LocalHistoryPredictor.patternHistoryTable
       LocalHistoryPredictor.patternHistoryBits LocalHistoryPredictor.stats
       LocalHistoryPredictor.set_patternHistoryTable LocalHistoryPredictor.set_stats].
  destruct (vec_get _ _); cbn [mbind option_bind]; [| discriminate].
  destruct (vec_set (LocalHistoryPredictor.patternHistoryTable p) _ _) as [l' |] eqn:El';
    cbn [mbind option_bind]; [| discriminate].
  destruct (vec_set (LocalHistoryPredictor.localHistoryTable p) _ _) as [l |] eqn:El;
    cbn [mbind option_bind]; [| discriminate].
  apply vec_set_length in El, El'. intros Hu. apply (inj Some) in Hu. subst p'.
  transitivity (LocalHistoryPredictor.reset
                  (LocalHistoryPredictor.set_localHistoryTable l
                     (LocalHistoryPredictor.set_patternHistoryTable l'
                        (LocalHistoryPredictor.set_stats
                           (BranchStats.store_accuracy
                              (BranchStats.count_outcome r taken
                                 (BranchStats.count_branch
                                    (LocalHistoryPredictor.stats p)))) p))));
    [reflexivity |].
  by rewrite local_reset_set_tables.
Qed.

Lemma local_reset_twice (p : LocalHistoryPredictor.t D) :
  LocalHistoryPredictor.reset (LocalHistoryPredictor.reset p) = LocalHistoryPredictor.reset p.
Proof.
  unfold LocalHistoryPredictor.reset.
  cbn [LocalHistoryPredictor.localHistoryTable LocalHistoryPredictor.patternHistoryTable
       LocalHistoryPredictor.set_localHistoryTable
       LocalHistoryPredictor.set_patternHistoryTable LocalHistoryPredictor.set_stats].
  by rewrite !fmap_const_twice.
Qed.

Lemma local_reset_new (localBits patternBits : Z) :
  LocalHistoryPredictor.reset (LocalHistoryPredictor.new (D := D) localBits patternBits)
  = LocalHistoryPredictor.new localBits patternBits.
Proof.
  unfold LocalHistoryPredictor.reset, LocalHistoryPredictor.new. cbv zeta.
  cbn [LocalHistoryPredictor.localHistoryTable LocalHistoryPredictor.patternHistoryTable
       LocalHistoryPredictor.set_localHistoryTable
       LocalHistoryPredictor.set_patternHistoryTable LocalHistoryPredictor.set_stats
       LocalHistoryPredictor.type LocalHistoryPredictor.stats
       LocalHistoryPredictor.localHistoryBits LocalHistoryPredictor.patternHistoryBits
       LocalHistoryPredictor.localTableSize LocalHistoryPredictor.patternTableSize].
  by rewrite !fmap_const_replicate.
Qed.

(** *** Tournament *)

Lemma tournament_reset_parts (g : GsharePredictor.t D) (l : LocalHistoryPredictor.t D)
    (c : list Z) (b : BranchStats.t D) (p : TournamentPredictor.t D) :
  GsharePredictor.reset g = GsharePredictor.reset (TournamentPredictor.globalPredictor p) →
  LocalHistoryPredictor.reset l
  = LocalHistoryPredictor.reset (TournamentPredictor.localPredictor p) →
  length c = length (TournamentPredictor.choiceTable p) →
  TournamentPredictor.reset
    {| TournamentPredictor.type := TournamentPredictor.type p;
       TournamentPredictor.stats := b;
       TournamentPredictor.globalPredictor := g;
       TournamentPredictor.localPredictor := l;
       TournamentPredictor.choiceTable := c;
       TournamentPredictor.choiceTableSize := TournamentPredictor.choiceTableSize p |}
  = TournamentPredictor.reset p.
Proof.
  intros Hg Hl Hc. unfold TournamentPredictor.reset.
  cbn [TournamentPredictor.globalPredictor TournamentPredictor.localPredictor
       TournamentPredictor.choiceTable TournamentPredictor.set_choiceTable
       TournamentPredictor.set_localPredictor TournamentPredictor.set_globalPredictor
       TournamentPredictor.set_stats].
  rewrite Hg, Hl, (fmap_const_length _ _ _ Hc). reflexivity.
Qed.

Lemma tournament_global_same (pc target : Z) (p p' : TournamentPredictor.t D) (r : bool) :
  TournamentPredictor.global_predict pc target p = Some (r, p') → p' = p.
Proof.
  unfold TournamentPredictor.global_predict.
  destruct (GsharePredictor.predict _ _ _) as [[r' g] |] eqn:Eg;
    cbn [mbind option_bind]; [| discriminate].
  apply gshare_predict_same in Eg. subst g.
  intros Hp. apply (inj Some) in Hp. injection Hp as _ <-. by destruct p.
Qed.

Lemma tournament_local_same (pc target : Z) (p p' : TournamentPredictor.t D) (r : bool) :
  TournamentPredictor.local_predict pc target p = Some (r, p') → p' = p.
Proof.
  unfold TournamentPredictor.local_predict.
  destruct (LocalHistoryPredictor.predict _ _ _) as [[r' g] |] eqn:Eg;
    cbn [mbind option_bind]; [| discriminate].
  apply local_predict_same in Eg. subst g.
  intros Hp. apply (inj Some) in Hp. injection Hp as _ <-. by destruct p.
Qed.

Lemma tournament_predict_same (pc target : Z) (p p' : TournamentPredictor.t D) (r : bool) :
  TournamentPredictor.predict pc target p = Some (r, p') → p' = p.
Proof.
  unfold TournamentPredictor.predict. cbv zeta.
  destruct (vec_get _ _) as [c |]; cbn [mbind option_bind]; [| discriminate].
  destruct (2 <=? c).
  - apply tournament_global_same.
  - apply tournament_local_same.
Qed.

(** The chooser step of [update] leaves everything but the entries of
    the choice table. *)
Lemma tournament_choice_step (f : TournamentPredictor.t D → option (TournamentPredictor.t D))
    (p q : TournamentPredictor.t D) (i v : Z) :
  (l ← vec_set (TournamentPredictor.choiceTable p) i v;
   Some (TournamentPredictor.set_choiceTable l p)) = Some q →
  TournamentPredictor.reset q = TournamentPredictor.reset p
  ∧ TournamentPredictor.globalPredictor q = TournamentPredictor.globalPredictor p
  ∧ TournamentPredictor.localPredictor q = TournamentPredictor.localPredictor p.
Proof.
  destruct (vec_set _ _ _) as [l |] eqn:El; cbn [mbind option_bind]; [| discriminate].
  apply vec_set_length in El. intros Hq. apply (inj Some) in Hq. subst q.
  split; [| done]. by apply tournament_reset_parts.
Qed.

Lemma tournament_reset_update (pc : Z) (taken : bool) (target : Z)
    (p p' : TournamentPredictor.t D) :
  TournamentPredictor.update pc taken target p = Some p' →
  TournamentPredictor.reset p' = TournamentPredictor.reset p.
Proof.
  unfold TournamentPredictor.update. cbv zeta.
  destruct (TournamentPredictor.global_predict _ _ _) as [[gp q] |] eqn:Eg;
    cbn [mbind option_bind]; [| discriminate].
  apply tournament_global_same in Eg. subst q.
  destruct (TournamentPredictor.local_predict _ _ _) as [[lp q] |] eqn:El;
    cbn [mbind option_bind]; [| discriminate].
  apply tournament_local_same in El. subst q.
  destruct (TournamentPredictor.predict _ _ _) as [[cp q] |] eqn:Ec;
    cbn [mbind option_bind]; [| discriminate].
  apply tournament_predict_same in Ec. subst q.
  set (p1 := TournamentPredictor.set_stats _ _).
  assert (H1 : TournamentPredictor.reset p1 = TournamentPredictor.reset p
               ∧ TournamentPredictor.globalPredictor p1 = TournamentPredictor.globalPredictor p
               ∧ TournamentPredictor.localPredictor p1 = TournamentPredictor.localPredictor p)
    by done.
  clearbody p1.
  match goal with |- mbind _ ?o = _ → _ => destruct o as [p2 |] eqn:E2 end;
    cbn [mbind option_bind]; [| discriminate].
  assert (H2 : TournamentPredictor.reset p2 = TournamentPredictor.reset p
               ∧ TournamentPredictor.globalPredictor p2 = TournamentPredictor.globalPredictor p
               ∧ TournamentPredictor.localPredictor p2 = TournamentPredictor.localPredictor p).
  { destruct H1 as (R1 & G1 & L1).
    destruct (Bool.eqb gp taken && negb (Bool.eqb lp taken)).
    - destruct (vec_get _ _) as [c |]; cbn [mbind option_bind] in E2; [| discriminate].
      destruct (c <? 3).
      + apply (tournament_choice_step (λ x, Some x)) in E2 as (R2 & G2 & L2).
        by rewrite R2, G2, L2.
      + apply (inj Some) in E2. by subst p2.
    - destruct (Bool.eqb lp taken && negb (Bool.eqb gp taken)).
      + destruct (vec_get _ _) as [c |]; cbn [mbind option_bind] in E2; [| discriminate].
        destruct (0 <? c).
        * apply (tournament_choice_step (λ x, Some x)) in E2 as (R2 & G2 & L2).
          by rewrite R2, G2, L2.
        * apply (inj Some) in E2. by subst p2.
      + apply (inj Some) in E2. by subst p2. }
  clear E2 H1. destruct H2 as (R2 & G2 & L2).
  destruct (GsharePredictor.update _ _ _ _) as [g |] eqn:Eg;
    cbn [mbind option_bind]; [| discriminate].
  cbn [TournamentPredictor.localPredictor TournamentPredictor.set_globalPredictor].
  destruct (LocalHistoryPredictor.update _ _ _ _) as [l |] eqn:El;
    cbn [mbind option_bind]; [| discriminate].
  apply gshare_reset_update in Eg. apply local_reset_update in El.
  intros Hu. apply (inj Some) in Hu. subst p'. rewrite <- R2.
  apply (tournament_reset_parts g l (TournamentPredictor.choiceTable p2)
           (TournamentPredictor.stats p2) p2); [exact Eg | exact El | reflexivity].
Qed.

Lemma tournament_reset_twice (p : TournamentPredictor.t D) :
  TournamentPredictor.reset (TournamentPredictor.reset p) = TournamentPredictor.reset p.
Proof.
  unfold TournamentPredictor.reset at 2.
  apply (tournament_reset_parts
           (GsharePredictor.reset (TournamentPredictor.globalPredictor p))
           (LocalHistoryPredictor.reset (TournamentPredictor.localPredictor p))
           ((λ _, 1) <$> TournamentPredictor.choiceTable p) BranchStats.zero p).
  - apply gshare_reset_twice.
  - apply local_reset_twice.
  - apply length_fmap.
Qed.

Lemma tournament_reset_new (choiceBits : Z) :
  TournamentPredictor.reset (TournamentPredictor.new (D := D) choiceBits)
  = TournamentPredictor.new choiceBits.
Proof.
  unfold TournamentPredictor.reset, TournamentPredictor.new. cbv zeta.
  cbn [TournamentPredictor.globalPredictor TournamentPredictor.localPredictor
       TournamentPredictor.choiceTable TournamentPredictor.set_choiceTable
       TournamentPredictor.set_localPredictor TournamentPredictor.set_globalPredictor
       TournamentPredictor.set_stats TournamentPredictor.type TournamentPredictor.stats
       TournamentPredictor.choiceTableSize].
  by rewrite gshare_reset_new, local_reset_new, fmap_const_replicate.
Qed.

(** *** The hierarchy and the map-based class *)

Lemma predictor_reset_call (c : Call) (b b' : BranchPredictor.t D) :
  call c b = Some b' → BranchPredictor.reset b' = BranchPredictor.reset b.
Proof.
  destruct c as [pc target | pc taken target |]; cbn [call].
  - destruct b as [p | p | p | p | p | p]; cbn [BranchPredictor.predict].
    + intros Hc. apply (inj Some) in Hc. by subst b'.
    + intros Hc. apply (inj Some) in Hc. by subst b'.
    + destruct (BimodalPredictor.predict _ _ _) as [[r q] |] eqn:E; [| discriminate].
      apply bimodal_predict_same in E. subst q.
      intros Hc. apply (inj Some) in Hc. by subst b'.
    + destruct (GsharePredictor.predict _ _ _) as [[r q] |] eqn:E; [| discriminate].
      apply gshare_predict_same in E. subst q.
      intros Hc. apply (inj Some) in Hc. by subst b'.
    + destruct (LocalHistoryPredictor.predict _ _ _) as [[r q] |] eqn:E; [| discriminate].
      apply local_predict_same in E. subst q.
      intros Hc. apply (inj Some) in Hc. by subst b'.
    + destruct (TournamentPredictor.predict _ _ _) as [[r q] |] eqn:E; [| discriminate].
      apply tournament_predict_same in E. subst q.
      intros Hc. apply (inj Some) in Hc. by subst b'.
  - destruct b as [p | p | p | p | p | p]; cbn [BranchPredictor.update].
    + intros Hc. apply (inj Some) in Hc. by subst b'.
    + intros Hc. apply (inj Some) in Hc. by subst b'.
    + destruct (BimodalPredictor.update _ _ _ _) as [q |] eqn:E; [| discriminate].
      apply bimodal_reset_update in E.
      intros Hc. apply (inj Some) in Hc. subst b'. cbn [BranchPredictor.reset]. by rewrite E.
    + destruct (GsharePredictor.update _ _ _ _) as [q |] eqn:E; [| discriminate].
      apply gshare_reset_update in E.
      intros Hc. apply (inj Some) in Hc. subst b'. cbn [BranchPredictor.reset]. by rewrite E.
    + destruct (LocalHistoryPredictor.update _ _ _ _) as [q |] eqn:E; [| discriminate].
      apply local_reset_update in E.
      intros Hc. apply (inj Some) in Hc. subst b'. cbn [BranchPredictor.reset]. by rewrite E.
    + destruct (TournamentPredictor.update _ _ _ _) as [q |] eqn:E; [| discriminate].
      apply tournament_reset_update in E.
      intros Hc. apply (inj Some) in Hc. subst b'. cbn [BranchPredictor.reset]. by rewrite E.
  - intros Hc. apply (inj Some) in Hc. subst b'.
    destruct b as [p | p | p | p | p | p]; cbn [BranchPredictor.reset].
    + reflexivity.
    + reflexivity.
    + by rewrite bimodal_reset_twice.
    + by rewrite gshare_reset_twice.
    + by rewrite local_reset_twice.
    + by rewrite tournament_reset_twice.
Qed.

Lemma predictor_reset_calls (cs : list Call) (b b' : BranchPredictor.t D) :
  calls cs b = Some b' → BranchPredictor.reset b' = BranchPredictor.reset b.
Proof.
  revert b. induction cs as [| c cs IH]; intros b; cbn [calls].
  - intros Hc. apply (inj Some) in Hc. by subst b'.
  - destruct (call c b) as [b1 |] eqn:E1; cbn [mbind option_bind]; [| discriminate].
    intros Hc. rewrite (IH _ Hc). by apply predictor_reset_call in E1.
Qed.

Lemma predictor_reset_create (type : PredictorType.t) (param1 param2 : Z) :
  BranchPredictor.reset (BranchPredictorFactory.create (D := D) type param1 param2)
  = BranchPredictorFactory.create type param1 param2.
Proof.
  destruct type; cbn [BranchPredictorFactory.create BranchPredictor.reset].
  - reflexivity.
  - reflexivity.
  - reflexivity.
  - by rewrite bimodal_reset_new.
  - by rewrite bimodal_reset_new.
  - by rewrite gshare_reset_new.
  - by rewrite local_reset_new.
  - by rewrite tournament_reset_new.
Qed.

Lemma map_calls_type (cs : list Call) (p p' : MapPredictor.t D) :
  map_calls cs p = Some p' → MapPredictor.predictor_type p' = MapPredictor.predictor_type p.
Proof.
  revert p. induction cs as [| c cs IH]; intros p; cbn [map_calls].
  - intros Hc. apply (inj Some) in Hc. by subst p'.
  - destruct (map_call c p) as [p1 |] eqn:E1; cbn [mbind option_bind]; [| discriminate].
    intros Hc. rewrite (IH _ Hc). destruct c as [pc target | pc taken target |]; cbn [map_call] in E1.
    + destruct (MapPredictor.predict pc p) as [[r q] |] eqn:Ep; [| discriminate].
      apply (inj Some) in E1. cbn in E1. subst q.
      by destruct (map_predict_spec _ _ _ _ Ep) as (_ & _ & _ & _ & _ & ?).
    + by destruct (map_update_spec _ _ _ _ E1) as (_ & _ & _ & _ & ?).
    + apply (inj Some) in E1. by subst p1.
Qed.

End Reset.

(** X22. [reset] takes a predictor back to the state its constructor made,
    tables, histories and statistics: for every predictor the factory
    creates and for the map-based class, whatever calls were made in
    between. *)
Theorem reset_restores_the_constructed_predictor {D : Type} `{Double D} :
  (∀ type param1 param2 cs b,
      calls cs (BranchPredictorFactory.create (D := D) type param1 param2) = Some b →
      BranchPredictor.reset b = BranchPredictorFactory.create type param1 param2)
  ∧ (∀ type cs p,
        map_calls cs (MapPredictor.new (D := D) type) = Some p →
        MapPredictor.reset p = MapPredictor.new type).
Proof.
  split.
  - intros type param1 param2 cs b Hc.
    rewrite (predictor_reset_calls _ _ _ Hc). apply predictor_reset_create.
  - intros type cs p Hc. apply map_calls_type in Hc.
    unfold MapPredictor.reset, MapPredictor.new. by rewrite Hc.
Qed.

(** [reset_restores_the_constructed_predictor] on a gshare predictor of
    eight counters after two updates and a prediction. *)
Lemma reset_restores_the_constructed_predictor_witness :
  ∃ b, calls [CallUpdate 4 true 0; CallPredict 4 0; CallUpdate 8 true 0]
         (BranchPredictorFactory.create (D := ratio) PredictorType.GSHARE 2 3) = Some b
     ∧ BranchPredictor.reset b
       = BranchPredictorFactory.create (D := ratio) PredictorType.GSHARE 2 3.
Proof.
  eexists. split; [vm_compute; reflexivity |].
  apply (proj1 (reset_restores_the_constructed_predictor (D := ratio))
           PredictorType.GSHARE 2 3
           [CallUpdate 4 true 0; CallPredict 4 0; CallUpdate 8 true 0]).
  vm_compute. reflexivity.
Defined.

(** ** The gshare history register and the 1-bit table *)

Lemma lor_even_bit (a : Z) (taken : bool) :
  Z.lor (2 * a) (if taken then 1 else 0) = 2 * a + (if taken then 1 else 0).
Proof.
  destruct taken; [| by rewrite Z.lor_0_r, Z.add_0_r].
  apply Z.bits_inj'. intros n Hn. rewrite Z.lor_spec.
  destruct (decide (n = 0)) as [-> | Hn0].
  - by rewrite Z.testbit_even_0, Z.testbit_odd_0.
  - assert (∃ m, 0 ≤ m ∧ n = Z.succ m) as (m & Hm & ->) by (exists (n - 1); lia).
    assert (H1 : Z.testbit 1 (Z.succ m) = false).
    { apply Z.bits_above_log2; [lia |]. change (Z.log2 1) with 0. lia. }
    rewrite H1, orb_false_r.
    by rewrite Z.testbit_even_succ, Z.testbit_odd_succ by lia.
Qed.

Lemma shifted_history (g h : Z) (taken : bool) :
  0 ≤ h ≤ 31 →
  Z.land (Z.lor (u32 (Z.shiftl g 1)) (if taken then 1 else 0)) (u32 (Z.shiftl 1 h - 1))
  = (2 * g + (if taken then 1 else 0)) mod 2 ^ h.
Proof.
  intros Hh. rewrite ones_mask by lia. rewrite Z.land_ones by lia.
  rewrite Z.shiftl_mul_pow2 by lia. change (2 ^ 1) with 2.
  unfold u32.
  assert (Hd : (g * 2) mod 2 ^ 32 = 2 * (g mod 2 ^ 31)).
  { change (2 ^ 32) with (2 * 2 ^ 31). rewrite (Z.mul_comm g 2).
    rewrite Z.mul_mod_distr_l by lia. done. }
  rewrite Hd, lor_even_bit.
  assert (Hp : 0 < 2 ^ h) by (apply Z.pow_pos_nonneg; lia).
  rewrite <- (Z.add_mod_idemp_l (2 * (g mod 2 ^ 31))) by lia.
  rewrite <- (Z.add_mod_idemp_l (2 * g)) by lia.
  f_equal. f_equal.
  rewrite <- Hd, (Z.mul_comm g 2).
  apply Z.mod_mod_divide.
  exists (2 ^ (32 - h)). rewrite <- Z.pow_add_r by lia. f_equal. lia.
Qed.

Section History.
Context {D : Type} `{Double D}.

Lemma gshare_update_history (pc : Z) (taken : bool) (target : Z) (p : GsharePredictor.t D) :
  gshare_wf p →
  ∃ p', GsharePredictor.update pc taken target p = Some p'
      ∧ gshare_wf p'
      ∧ GsharePredictor.historyBits p' = GsharePredictor.historyBits p
      ∧ GsharePredictor.globalHistory p'
        = (2 * GsharePredictor.globalHistory p + (if taken then 1 else 0))
          mod 2 ^ GsharePredictor.historyBits p.
Proof.
  intros Hwf. pose proof (gshare_index_range p pc Hwf) as Hi.
  destruct (gshare_predict pc target p Hwf) as (c & Hc & Hp).
  destruct (gshare_update pc taken target p Hwf) as (r & p' & _ & Hu & Hwf' & _).
  exists p'. split; [exact Hu |]. split; [exact Hwf' |].
  unfold GsharePredictor.update, GsharePredictor.predict in Hu. cbv zeta in Hu.
  cbn [GsharePredictor.table GsharePredictor.set_stats] in Hu.
  change (GsharePredictor.getIndex (GsharePredictor.set_stats _ p) pc)
    with (GsharePredictor.getIndex p pc) in Hu.
  rewrite Hc in Hu. cbn [mbind option_bind] in Hu.
  cbn [GsharePredictor.table GsharePredictor.set_stats] in Hu.
  rewrite ?Hc in Hu. cbn [mbind option_bind] in Hu.
  rewrite vec_set_in_range in Hu by exact Hi. cbn [mbind option_bind] in Hu.
  apply (inj Some) in Hu. subst p'.
  cbn [GsharePredictor.historyBits GsharePredictor.globalHistory
       GsharePredictor.set_globalHistory GsharePredictor.set_table
       GsharePredictor.set_stats].
  split; [reflexivity |].
  destruct Hwf as (_ & Hh & _). unfold bits_ok in Hh. apply shifted_history. lia.
Qed.

Lemma gshare_calls_history (cs : list Call) (p : GsharePredictor.t D) (g : Z) :
  gshare_wf p →
  GsharePredictor.globalHistory p = g mod 2 ^ GsharePredictor.historyBits p →
  ∃ p', calls cs (BranchPredictor.Gshare p) = Some (BranchPredictor.Gshare p')
      ∧ GsharePredictor.globalHistory p'
        = foldl shift_outcome g cs mod 2 ^ GsharePredictor.historyBits p.
Proof.
  revert p g. induction cs as [| c cs IH]; intros p g Hwf Hg; cbn [calls foldl].
  - by exists p.
  - assert (Hpos : 0 < 2 ^ GsharePredictor.historyBits p).
    { destruct Hwf as (_ & Hh & _). unfold bits_ok in Hh. apply Z.pow_pos_nonneg; lia. }
    destruct c as [pc target | pc taken target |]; cbn [call shift_outcome].
    + destruct (gshare_predict pc target p Hwf) as (c & _ & Hp).
      cbn [BranchPredictor.predict]. rewrite Hp. cbn [mbind option_bind fmap option_fmap option_map snd].
      by apply IH.
    + destruct (gshare_update_history pc taken target p Hwf) as (p1 & Hu & Hwf1 & Hb & Hg1).
      cbn [BranchPredictor.update]. rewrite Hu. cbn [mbind option_bind fmap option_fmap option_map].
      destruct (IH p1 (2 * g + (if taken then 1 else 0)) Hwf1) as (p' & E & Hg').
      { rewrite Hg1, Hb, Hg. rewrite <- (Z.add_mod_idemp_l (2 * g)) by lia.
        rewrite <- (Z.add_mod_idemp_l (2 * (g mod _))) by lia.
        f_equal. f_equal. by rewrite Z.mul_mod_idemp_r by lia. }
      exists p'. split; [exact E |]. by rewrite Hg', Hb.
    + cbn [BranchPredictor.reset mbind option_bind].
      destruct (IH (GsharePredictor.reset p) 0 (gshare_reset_wf p Hwf)) as (p' & E & Hg').
      { cbn [GsharePredictor.reset GsharePredictor.globalHistory
             GsharePredictor.historyBits GsharePredictor.set_table
             GsharePredictor.set_globalHistory GsharePredictor.set_stats].
        by rewrite Z.mod_0_l by lia. }
      exists p'. split; [exact E |]. exact Hg'.
Qed.

End History.

(** X23. The history register of the gshare predictor is a shift register
    over the outcomes alone: after any calls on a predictor the factory
    made, it holds the last [histBits] outcomes of the updates since the
    last [reset], the newest in bit 0, whatever the addresses the calls
    were made for. *)
Theorem gshare_history_is_a_shift_register {D : Type} `{Double D}
    (histBits idxBits : Z) (cs : list Call) :
  bits_ok histBits → bits_ok idxBits →
  ∃ p, calls cs (BranchPredictorFactory.create (D := D) PredictorType.GSHARE histBits idxBits)
       = Some (BranchPredictor.Gshare p)
     ∧ GsharePredictor.globalHistory p = outcome_history cs mod 2 ^ histBits.
Proof.
  intros Hh Hk. cbn [BranchPredictorFactory.create].
  destruct (gshare_calls_history cs (GsharePredictor.new (D := D) histBits idxBits) 0)
    as (p & E & Hg).
  - by apply gshare_new_wf.
  - cbn [GsharePredictor.new GsharePredictor.globalHistory GsharePredictor.historyBits].
    unfold bits_ok in Hh. rewrite Z.mod_0_l; [done |].
    assert (0 < 2 ^ histBits) by (apply Z.pow_pos_nonneg; lia). lia.
  - exists p. split; [exact E |]. exact Hg.
Qed.

(** [gshare_history_is_a_shift_register] with two history bits: after the
    outcomes taken, taken, not taken the register holds binary 10. *)
Lemma gshare_history_is_a_shift_register_witness :
  ∃ p, calls [CallUpdate 4 true 0; CallUpdate 64 true 0; CallUpdate 8 false 0]
         (BranchPredictorFactory.create (D := ratio) PredictorType.GSHARE 2 3)
       = Some (BranchPredictor.Gshare p)
     ∧ GsharePredictor.globalHistory p = 2.
Proof.
  destruct (gshare_history_is_a_shift_register (D := ratio) 2 3
              [CallUpdate 4 true 0; CallUpdate 64 true 0; CallUpdate 8 false 0])
    as (p & E & Hg); [unfold bits_ok; lia | unfold bits_ok; lia |].
  exists p. split; [exact E | exact Hg].
Defined.

(** X24. The 1-bit bimodal predictor answers with the last outcome recorded
    for any address that shares its index: after [update] at [pc], every
    [pc'] whose word address agrees with that of [pc] modulo the table
    size is predicted as that outcome, and the prediction for every other
    [pc'] is what it was. *)
Theorem one_bit_table_aliases {D : Type} `{Double D}
    (p : BimodalPredictor.t D) (pc : Z) (taken : bool) (target : Z) :
  bimodal_wf p → BimodalPredictor.twoBit p = false →
  ∃ p', BimodalPredictor.update pc taken target p = Some p'
      ∧ ∀ pc' target',
          (Z.shiftr pc' 2 mod 2 ^ BimodalPredictor.indexBits p
           = Z.shiftr pc 2 mod 2 ^ BimodalPredictor.indexBits p →
           BimodalPredictor.predict pc' target' p' = Some (taken, p'))
          ∧ (Z.shiftr pc' 2 mod 2 ^ BimodalPredictor.indexBits p
             ≠ Z.shiftr pc 2 mod 2 ^ BimodalPredictor.indexBits p →
             fst <$> BimodalPredictor.predict pc' target' p'
             = fst <$> BimodalPredictor.predict pc' target' p).
Proof.
  intros Hwf Htwo.
  destruct (bimodal_update pc taken target p Hwf) as (c & r & Hc & _ & Hu).
  rewrite Htwo in Hu. eexists. split; [exact Hu |].
  destruct (bimodal_index_spec p pc Hwf) as [Hi Hr].
  intros pc' target'.
  destruct (bimodal_index_spec p pc' Hwf) as [Hi' Hr'].
  unfold BimodalPredictor.predict.
  cbn [BimodalPredictor.table BimodalPredictor.twoBit BimodalPredictor.set_table
       BimodalPredictor.set_stats].
  change (BimodalPredictor.getIndex (BimodalPredictor.set_table _ _) pc')
    with (BimodalPredictor.getIndex p pc').
  rewrite Htwo. split; intros Hpc.
  - assert (Heq : BimodalPredictor.getIndex p pc' = BimodalPredictor.getIndex p pc)
      by (rewrite Hi, Hi'; exact Hpc).
    rewrite Heq.
    rewrite (vec_get_lookup _ _ (if taken then 1 else 0)) by
      (try lia; apply list_lookup_insert_eq; lia).
    cbn [mbind option_bind]. by destruct taken.
  - assert (Hne : BimodalPredictor.getIndex p pc ≠ BimodalPredictor.getIndex p pc')
      by (rewrite Hi, Hi'; congruence).
    rewrite (vec_get_set_ne (BimodalPredictor.table p) _ (BimodalPredictor.getIndex p pc)
               (BimodalPredictor.getIndex p pc') (if taken then 1 else 0));
      [| by apply vec_set_in_range | exact Hne].
    destruct (vec_get (BimodalPredictor.table p) (BimodalPredictor.getIndex p pc'));
      reflexivity.
Qed.

(** [one_bit_table_aliases] on a table of four counters: a taken branch
    at address 4 makes the predictor answer taken at address 20. *)
Lemma one_bit_table_aliases_witness :
  ∃ p', BimodalPredictor.update 4 true 0
          (BimodalPredictor.new (D := ratio) PredictorType.BIMODAL_1BIT 2) = Some p'
      ∧ BimodalPredictor.predict 20 0 p' = Some (true, p').
Proof.
  destruct (one_bit_table_aliases (BimodalPredictor.new (D := ratio) PredictorType.BIMODAL_1BIT 2)
              4 true 0) as (p' & E & Hall).
  - apply bimodal_new_wf. unfold bits_ok. lia.
  - reflexivity.
  - exists p'. split; [exact E |]. apply (Hall 20 0). reflexivity.
Defined.

(** ** Instruction.cpp and instruction_decoder.cpp: decoding *)

Lemma field_of_word (w k n : Z) :
  0 ≤ k → 0 ≤ n →
  Z.land (Z.shiftr w k) (Z.ones n) = w / 2 ^ k - w / 2 ^ (k + n) * 2 ^ n.
Proof.
  intros Hk Hn. rewrite Z.shiftr_div_pow2, Z.land_ones by done.
  assert (0 < 2 ^ k) by (apply Z.pow_pos_nonneg; lia).
  assert (0 < 2 ^ n) by (apply Z.pow_pos_nonneg; lia).
  rewrite Z.mod_eq by lia. rewrite Z.div_div by lia.
  rewrite <- Z.pow_add_r by done. lia.
Qed.

Lemma low_field_of_word (w n : Z) :
  0 ≤ n → Z.land w (Z.ones n) = w - w / 2 ^ n * 2 ^ n.
Proof.
  intros Hn. rewrite <- (Z.shiftr_0_r w) at 1.
  rewrite field_of_word by lia. change (2 ^ 0) with 1. by rewrite Z.div_1_r.
Qed.

(** X25. [Instruction::decode] loses no bit of a 32-bit word: the fields it
    assigns for the type it finds spell the machine code, and the signed
    immediate is the 16-bit immediate read as [int16_t]. *)
Theorem Instruction_decode_keeps_every_bit (u : Instruction.t) (w address : Z) :
  0 ≤ w < 2 ^ 32 →
  let i := Instruction.decode u w address in
  match Instruction.type i with
  | InstructionType.R_TYPE =>
      Instruction.opcode i = 0
      ∧ w = Instruction.rs i * 2 ^ 21 + Instruction.rt i * 2 ^ 16
            + Instruction.rd i * 2 ^ 11 + Instruction.shamt i * 2 ^ 6
            + Instruction.funct i
  | InstructionType.I_TYPE =>
      w = Instruction.opcode i * 2 ^ 26 + Instruction.rs i * 2 ^ 21
          + Instruction.rt i * 2 ^ 16 + Instruction.immediate i
      ∧ Instruction.signedImmediate i
        = (if Instruction.immediate i <? 2 ^ 15 then Instruction.immediate i
           else Instruction.immediate i - 2 ^ 16)
  | InstructionType.J_TYPE =>
      w = Instruction.opcode i * 2 ^ 26 + Instruction.jumpTarget i
  end.
Proof.
  intros Hw. cbv zeta. unfold Instruction.decode. cbv zeta.
  assert (H32 : w / 2 ^ 32 = 0) by (apply Z.div_small; lia).
  pose proof (field_of_word w 26 6 ltac:(lia) ltac:(lia)) as F26.
  pose proof (field_of_word w 21 5 ltac:(lia) ltac:(lia)) as F21.
  pose proof (field_of_word w 16 5 ltac:(lia) ltac:(lia)) as F16.
  pose proof (field_of_word w 11 5 ltac:(lia) ltac:(lia)) as F11.
  pose proof (field_of_word w 6 5 ltac:(lia) ltac:(lia)) as F6.
  pose proof (low_field_of_word w 6 ltac:(lia)) as L6.
  pose proof (low_field_of_word w 16 ltac:(lia)) as L16.
  pose proof (low_field_of_word w 26 ltac:(lia)) as L26.
  change (Z.ones 6) with 63 in *. change (Z.ones 5) with 31 in *.
  change (Z.ones 16) with 65535 in *. change (Z.ones 26) with 67108863 in *.
  change (26 + 6) with 32 in *. change (21 + 5) with 26 in *.
  change (16 + 5) with 21 in *. change (11 + 5) with 16 in *.
  change (6 + 5) with 11 in *.
  destruct (Z.eqb_spec (Z.land (Z.shiftr w 26) 63) 0) as [E0 | E0].
  - cbn [Instruction.type Instruction.opcode Instruction.rs Instruction.rt
         Instruction.rd Instruction.shamt Instruction.funct].
    split; [exact E0 |]. rewrite F21, F16, F11, F6, L6. lia.
  - destruct ((Z.land (Z.shiftr w 26) 63 =? 2) || (Z.land (Z.shiftr w 26) 63 =? 3)).
    + cbn [Instruction.type Instruction.opcode Instruction.jumpTarget].
      rewrite F26, L26. lia.
    + cbn [Instruction.type Instruction.opcode Instruction.rs Instruction.rt
           Instruction.immediate Instruction.signedImmediate].
      split; [rewrite F26, F21, F16, L16; lia |].
      unfold s16, u16. cbv zeta. rewrite Z.mod_small; [done |].
      rewrite L16.
      pose proof (Z.mod_pos_bound w (2 ^ 16) ltac:(lia)) as Hm.
      rewrite Z.mod_eq in Hm by lia. lia.
Qed.

(** [Instruction_decode_keeps_every_bit] on [addi $v0, $zero, 5]. *)
Lemma Instruction_decode_keeps_every_bit_witness :
  537001989
  = Instruction.opcode (Instruction.decode zero_instruction 537001989 0) * 2 ^ 26
    + Instruction.rs (Instruction.decode zero_instruction 537001989 0) * 2 ^ 21
    + Instruction.rt (Instruction.decode zero_instruction 537001989 0) * 2 ^ 16
    + Instruction.immediate (Instruction.decode zero_instruction 537001989 0).
Proof.
  exact (proj1 (Instruction_decode_keeps_every_bit zero_instruction 537001989 0
                  ltac:(lia))).
Defined.

(** X26. The three decoders put every word in the same class, and in exactly
    one: [InstructionDecoder::isRType], [isIType] and [isJType] on the
    opcode, the type [Instruction::decode] assigns, and the type string
    of [MIPSSimulator::decodeInstruction]. *)
Theorem decoders_agree_on_the_class (u : Instruction.t) (w address : Z) :
  let opcode := Z.land (Z.shiftr w 26) 63 in
  (InstructionDecoder.isRType opcode, InstructionDecoder.isIType opcode,
   InstructionDecoder.isJType opcode,
   MIPSSimulator.Instruction.type (MIPSSimulator.decodeInstruction w))
  = match Instruction.type (Instruction.decode u w address) with
    | InstructionType.R_TYPE => (true, false, false, "R")
    | InstructionType.I_TYPE => (false, true, false, "I")
    | InstructionType.J_TYPE => (false, false, true, "J")
    end.
Proof.
  cbv zeta.
  unfold Instruction.decode, MIPSSimulator.decodeInstruction,
    InstructionDecoder.isRType, InstructionDecoder.isIType, InstructionDecoder.isJType.
  cbv zeta. cbn [MIPSSimulator.Instruction.type].
  destruct (Z.land (Z.shiftr w 26) 63 =? 0) eqn:E0; [| clear E0].
  - apply Z.eqb_eq in E0. rewrite E0. reflexivity.
  - destruct (Z.land (Z.shiftr w 26) 63 =? 2); [reflexivity |].
    destruct (Z.land (Z.shiftr w 26) 63 =? 3); reflexivity.
Qed.
